(** * MiniTemplator: a shallow embedding of the template parser, the output
    engine and the template cache, with the properties of the specification.

    Sources embedded here:
    - [Utils.ts]                 ([assert], [formatVariableValue], [escapeHtml])
    - [MiniTemplatorParser.ts]   (class [Parser], the string helpers)
    - [MiniTemplator.ts]         (class [MiniTemplator])
    - [MiniTemplatorCache.ts]    ([genConditionVarsCacheKey], [get], [clear])

    Conventions.
    - A JavaScript [number] used as an index or a text position is a [Z];
      the sentinel [-1] is kept as the source has it.
    - A JavaScript string is a [string] (characters with codes below 256).
    - A JavaScript array is a [list]; reading outside of it yields
      [undefined], which the model renders as [None], and a property access
      on [undefined] throws [JsTypeError].
    - Mutable objects are explicit state: every method is a computation in a
      state monad that keeps the state reached when an exception is thrown.
    - Loops that the source does not bound are given fuel. *)

From stdpp Require Import gmap strings list pretty.
From Stdlib Require Import ZArith Ascii String.
Open Scope Z_scope.

(** ** JavaScript string primitives *)

Module Js.

Definition strlen (s : string) : Z := Z.of_nat (String.length s).

(** [s.substring(a, b)]: both bounds are clamped to [0 .. length] and
    swapped when [a > b]. *)
Definition clamp (s : string) (i : Z) : Z := Z.max 0 (Z.min i (strlen s)).

Definition substring (s : string) (a b : Z) : string :=
  let a' := clamp s a in
  let b' := clamp s b in
  let lo := Z.min a' b' in
  let hi := Z.max a' b' in
  String.substring (Z.to_nat lo) (Z.to_nat (hi - lo)) s.

(** [s.substring(a)] *)
Definition substringFrom (s : string) (a : Z) : string :=
  substring s a (strlen s).

(** [s.indexOf(pat, from)] for a non-empty [pat]; [-1] when absent. *)
Definition indexOf (s pat : string) (from : Z) : Z :=
  match String.index (Z.to_nat (Z.max 0 from)) pat s with
  | Some k => Z.of_nat k
  | None => -1
  end.

(** [s.charCodeAt(p)]; [None] stands for [NaN]. *)
Definition charCodeAt (s : string) (p : Z) : option Z :=
  if (p <? 0) then None
  else match String.get (Z.to_nat p) s with
       | Some c => Some (Z.of_nat (nat_of_ascii c))
       | None => None
       end.

(** [s[p]] *)
Definition charAt (s : string) (p : Z) : option ascii :=
  if (p <? 0) then None else String.get (Z.to_nat p) s.

Definition startsWith (s pat : string) : bool := String.prefix pat s.

(** White space and line terminators removed by [trim()], among the
    characters with codes below 256. *)
Definition isTrimChar (c : ascii) : bool :=
  let n := nat_of_ascii c in
  ((9 <=? n)%nat && (n <=? 13)%nat) || (n =? 32)%nat || (n =? 160)%nat.

Fixpoint trimStart (s : string) : string :=
  match s with
  | String c s' => if isTrimChar c then trimStart s' else s
  | EmptyString => EmptyString
  end.

Fixpoint trimEnd (s : string) : string :=
  match s with
  | String c s' =>
      match trimEnd s' with
      | EmptyString => if isTrimChar c then EmptyString else String c EmptyString
      | r => String c r
      end
  | EmptyString => EmptyString
  end.

Definition trim (s : string) : string := trimEnd (trimStart s).

(** Decimal rendering of an integer [number] in a template literal. *)
Definition numToString (n : Z) : string := pretty n.

Definition dquote : string := String "034"%char EmptyString.

End Js.

(** ** Exceptions *)

Inductive exn : Type :=
| TemplateSyntaxError (message : string)
| VariableNotDefinedError (message : string)
| BlockNotDefinedError (message : string)
| JsError (message : string)        (* [new Error(message)] *)
| JsTypeError                       (* property access on [undefined] *)
| LoaderRejected (templateName : string)
| UndefinedNumber                   (* an [undefined] would be stored in a number field *)
| OutOfFuel.

Definition newTemplateSyntaxError (msg : string) : exn :=
  TemplateSyntaxError ("Syntax error in template: " ++ msg).

Definition newVariableNotDefinedError (varName : string) : exn :=
  VariableNotDefinedError
    ("Variable " ++ Js.dquote ++ varName ++ Js.dquote ++ " not used in template.").

Definition newBlockNotDefinedError (blockName : string) : exn :=
  BlockNotDefinedError
    ("Block " ++ Js.dquote ++ blockName ++ Js.dquote ++ " not defined in template.").

Definition assertionFailed : exn := JsError "Assertion failed.".

(** ** State and exception monad *)

Inductive outcome (A : Type) : Type :=
| Ok (a : A)
| Throw (e : exn).
Arguments Ok {A} a.
Arguments Throw {A} e.

Definition M (S A : Type) : Type := S -> outcome A * S.

Section Monad.
Context {S : Type}.

Definition ret {A} (a : A) : M S A := fun s => (Ok a, s).

Definition bind {A B} (m : M S A) (k : A -> M S B) : M S B :=
  fun s => match m s with
           | (Ok a, s') => k a s'
           | (Throw e, s') => (Throw e, s')
           end.

Definition throw {A} (e : exn) : M S A := fun s => (Throw e, s).
Definition get : M S S := fun s => (Ok s, s).
Definition gets {A} (f : S -> A) : M S A := fun s => (Ok (f s), s).
Definition modify (f : S -> S) : M S unit := fun s => (Ok tt, f s).

(** [assert(cond)] of Utils.ts *)
Definition assert (cond : bool) : M S unit :=
  if cond then ret tt else throw assertionFailed.

(** [a[i]] followed by a property access: throws on [undefined]. *)
Definition orTypeError {A} (o : option A) : M S A :=
  match o with Some a => ret a | None => throw JsTypeError end.
End Monad.

Notation "'let!' x ':=' m 'in' k" := (bind m (fun x => k))
  (at level 10, x name, m at level 100, k at level 200).
Notation "'let!' ' p ':=' m 'in' k" := (bind m (fun x => match x with p => k end))
  (at level 10, p pattern, m at level 100, k at level 200).
Notation "'do!' m 'in' k" := (bind m (fun _ => k))
  (at level 10, m at level 100, k at level 200).

(** Array read [a[i]] with a [number] index. *)
Definition aget {A} (l : list A) (i : Z) : option A :=
  if (i <? 0) then None else l !! Z.to_nat i.

(** Array write [a[i] = x] inside the array; used where the index was just
    read from the array's own bounds. *)
Definition aset {A} (l : list A) (i : Z) (x : A) : list A :=
  if (i <? 0) then l else <[Z.to_nat i := x]> l.

Definition alen {A} (l : list A) : Z := Z.of_nat (List.length l).

(** [a[i] = x] on an ordinary array of possibly absent elements: inside the
    array the element is replaced, beyond its end the array grows and the
    skipped elements stay [undefined].  A negative index would create a named
    property, which a [list] cannot hold: [None]. *)
Definition jsArraySet {A} (l : list (option A)) (i : Z) (x : A) : option (list (option A)) :=
  if (i <? 0) then None
  else if (i <? alen l) then Some (<[Z.to_nat i := Some x]> l)
  else Some (l ++ replicate (Z.to_nat (i - alen l)) None ++ [Some x]).

(** ** JavaScript values handed over by the caller *)

Inductive JsValue : Type :=
| JsUndefined
| JsNull
| JsBool (b : bool)
| JsString (s : string)
| JsNumber (n : Z)                       (* integer numbers only *)
| JsObject (toStringResult : string).

(** [formatVariableValue] of Utils.ts *)
Definition formatVariableValue (v : JsValue) : string :=
  match v with
  | JsString s => s
  | JsUndefined | JsNull => ""
  | JsBool true => "true"
  | JsBool false => "false"
  | JsNumber n => Js.numToString n
  | JsObject r => r
  end.

(** [escapeHtml] of Utils.ts.  [escapeEntity] is its [switch] on the
    character code: the replacement [r], or [None] where the source
    [continue]s. *)
Definition escapeEntity (code : option Z) : option string :=
  match code with
  | Some 34 => Some "&quot;"
  | Some 38 => Some "&amp;"
  | Some 39 => Some "&#39;"
  | Some 60 => Some "&lt;"
  | Some 62 => Some "&gt;"
  | _ => None
  end%string.

(** The [for] loop over the positions [p]; it leaves [out] and [p2]. *)
Fixpoint escapeHtmlLoop (turns : nat) (s : string) (p : Z) (out : string) (p2 : Z)
    : string * Z :=
  match turns with
  | O => (out, p2)
  | S turns' =>
      if (p <? Js.strlen s) then
        match escapeEntity (Js.charCodeAt s p) with
        | None => escapeHtmlLoop turns' s (p + 1) out p2
        | Some r =>
            let out := if (p2 <? p) then (out ++ Js.substring s p2 p)%string else out in
            escapeHtmlLoop turns' s (p + 1) (out ++ r)%string (p + 1)
        end
      else (out, p2)
  end.

Definition escapeHtml (v : JsValue) : string :=
  let s := formatVariableValue v in
  let '(out, p2) := escapeHtmlLoop (String.length s) s 0 "" 0 in
  if (p2 =? 0) then s
  else if (p2 <? Js.strlen s) then (out ++ Js.substringFrom s p2)%string
  else out.

(** ** The parsed template (interfaces of MiniTemplatorParser.ts) *)

Record VarRefTabRec : Type := mkVarRef {
  vr_varNo : Z;
  vr_tPosBegin : Z;
  vr_tPosEnd : Z;
  vr_blockNo : Z;
  vr_blockVarNo : Z }.

Record BlockTabRec : Type := mkBlock {
  bt_blockName : option string;
  bt_nextWithSameName : Z;
  bt_tPosBegin : Z;
  bt_tPosContentsBegin : Z;
  bt_tPosContentsEnd : Z;
  bt_tPosEnd : Z;
  bt_nestingLevel : Z;
  bt_parentBlockNo : Z;
  bt_definitionIsOpen : bool;
  bt_blockVarNoToVarNoMap : list Z;
  bt_firstVarRefNo : Z;
  bt_dummy : bool }.

Record ParsedTemplate : Type := mkParsedTemplate {
  pt_templateText : string;
  pt_varTab : list string;
  pt_varRefTab : list VarRefTabRec;
  pt_blockTab : list BlockTabRec;
  lookupVariableName : string -> Z;
  lookupBlockName : string -> Z }.

(** ** The output engine (MiniTemplator.ts) *)

Record BlockDynTabRec : Type := mkBlockDyn {
  instances : Z;
  firstBlockInstNo : Z;
  lastBlockInstNo : Z;
  currBlockInstNo : Z }.

Record BlockInstTabRec : Type := mkBlockInst {
  bi_blockNo : Z;
  instanceLevel : Z;
  parentInstLevel : Z;
  nextBlockInstNo : Z;
  blockVarTab : option (list (option string)) }.

Record MiniTemplator : Type := mkMiniTemplator {
  template : ParsedTemplate;
  varValuesTab : list (option string);
  blockDynTab : list BlockDynTabRec;
  blockInstTab : list BlockInstTabRec }.

Definition Eng (A : Type) : Type := M MiniTemplator A.

Definition set_varValuesTab (f : list (option string) -> list (option string))
    (t : MiniTemplator) : MiniTemplator :=
  mkMiniTemplator t.(template) (f t.(varValuesTab)) t.(blockDynTab) t.(blockInstTab).

Definition set_blockDynTab (f : list BlockDynTabRec -> list BlockDynTabRec)
    (t : MiniTemplator) : MiniTemplator :=
  mkMiniTemplator t.(template) t.(varValuesTab) (f t.(blockDynTab)) t.(blockInstTab).

Definition set_blockInstTab (f : list BlockInstTabRec -> list BlockInstTabRec)
    (t : MiniTemplator) : MiniTemplator :=
  mkMiniTemplator t.(template) t.(varValuesTab) t.(blockDynTab) (f t.(blockInstTab)).

(** Field assignments on the records of the two tables.  The record is
    reached through its index, as the source reaches it through the
    reference it holds; an absent record is a property write on
    [undefined]. *)
Definition updBlockDyn (blockNo : Z) (f : BlockDynTabRec -> BlockDynTabRec) : Eng unit :=
  let! t := get in
  let! bdtr := orTypeError (aget t.(blockDynTab) blockNo) in
  modify (set_blockDynTab (fun l => aset l blockNo (f bdtr))).

Definition updBlockInst (blockInstNo : Z) (f : BlockInstTabRec -> BlockInstTabRec) : Eng unit :=
  let! t := get in
  let! bitr := orTypeError (aget t.(blockInstTab) blockInstNo) in
  modify (set_blockInstTab (fun l => aset l blockInstNo (f bitr))).

Definition with_instances v (r : BlockDynTabRec) :=
  mkBlockDyn v r.(firstBlockInstNo) r.(lastBlockInstNo) r.(currBlockInstNo).
Definition with_firstBlockInstNo v (r : BlockDynTabRec) :=
  mkBlockDyn r.(instances) v r.(lastBlockInstNo) r.(currBlockInstNo).
Definition with_lastBlockInstNo v (r : BlockDynTabRec) :=
  mkBlockDyn r.(instances) r.(firstBlockInstNo) v r.(currBlockInstNo).
Definition with_currBlockInstNo v (r : BlockDynTabRec) :=
  mkBlockDyn r.(instances) r.(firstBlockInstNo) r.(lastBlockInstNo) v.

Definition with_bi_blockNo v (r : BlockInstTabRec) :=
  mkBlockInst v r.(instanceLevel) r.(parentInstLevel) r.(nextBlockInstNo) r.(blockVarTab).
Definition with_instanceLevel v (r : BlockInstTabRec) :=
  mkBlockInst r.(bi_blockNo) v r.(parentInstLevel) r.(nextBlockInstNo) r.(blockVarTab).
Definition with_parentInstLevel v (r : BlockInstTabRec) :=
  mkBlockInst r.(bi_blockNo) r.(instanceLevel) v r.(nextBlockInstNo) r.(blockVarTab).
Definition with_nextBlockInstNo v (r : BlockInstTabRec) :=
  mkBlockInst r.(bi_blockNo) r.(instanceLevel) r.(parentInstLevel) v r.(blockVarTab).
Definition with_blockVarTab v (r : BlockInstTabRec) :=
  mkBlockInst r.(bi_blockNo) r.(instanceLevel) r.(parentInstLevel) r.(nextBlockInstNo) v.

(** The object [<BlockInstTabRec>{}] before its fields are assigned.  When
    [addBlockByNo] returns, every field is assigned.  When it throws, the
    fields not yet assigned remain [undefined]; output generation may then
    read [parentInstLevel], and [undefined >= n] is false.  An unassigned
    number is written [-2] here: below every level, and as an index neither
    [-1] nor inside an array. *)
Definition unassigned : Z := -2.
Definition emptyBlockInst : BlockInstTabRec :=
  mkBlockInst unassigned unassigned unassigned unassigned None.

(** The constructor: [reset()] on an object without tables.
    [currBlockInstNo] is assigned by [generateOutputArray] before it is
    read. *)
Definition newMiniTemplator (pt : ParsedTemplate) : MiniTemplator :=
  mkMiniTemplator pt
    (replicate (List.length pt.(pt_varTab)) (Some ""))
    (replicate (List.length pt.(pt_blockTab)) (mkBlockDyn 0 (-1) (-1) (-1)))
    [].

(** [reset()] on a constructed object: the tables exist and are refilled;
    a record missing below [blockCount] is created. *)
Definition resetBlockDyn (r : BlockDynTabRec) : BlockDynTabRec :=
  mkBlockDyn 0 (-1) (-1) r.(currBlockInstNo).

Definition resetBlockDynTab (blockCount : nat) (l : list BlockDynTabRec) : list BlockDynTabRec :=
  map (fun blockNo => match l !! blockNo with
                      | Some r => resetBlockDyn r
                      | None => mkBlockDyn 0 (-1) (-1) (-1)
                      end) (seq 0 blockCount)
  ++ drop blockCount l.

Definition reset : Eng unit :=
  modify (fun t =>
    mkMiniTemplator t.(template)
      (map (fun _ => Some ""%string) t.(varValuesTab))
      (resetBlockDynTab (List.length t.(template).(pt_blockTab)) t.(blockDynTab))
      []).

Definition storeVariable (varNo : Z) (v : string) : Eng unit :=
  let! t := get in
  match jsArraySet t.(varValuesTab) varNo v with
  | Some l => modify (set_varValuesTab (fun _ => l))
  | None => throw UndefinedNumber
  end.

Definition setVariable (varName : string) (varValue : JsValue) : Eng unit :=
  let! t := get in
  let varNo := t.(template).(lookupVariableName) varName in
  if (varNo =? -1) then throw (newVariableNotDefinedError varName)
  else storeVariable varNo (formatVariableValue varValue).

Definition setVariableOpt (varName : string) (varValue : JsValue) : Eng unit :=
  let! t := get in
  let varNo := t.(template).(lookupVariableName) varName in
  if (varNo =? -1) then ret tt
  else storeVariable varNo (formatVariableValue varValue).

Definition setVariableEsc (varName : string) (varValue : JsValue) : Eng unit :=
  setVariable varName (JsString (escapeHtml varValue)).

Definition setVariableOptEsc (varName : string) (varValue : JsValue) : Eng unit :=
  setVariableOpt varName (JsString (escapeHtml varValue)).

Definition variableExists (t : MiniTemplator) (varName : string) : bool :=
  negb (t.(template).(lookupVariableName) varName =? -1).

Definition blockExists (t : MiniTemplator) (blockName : string) : bool :=
  negb (t.(template).(lookupBlockName) blockName =? -1).

(** [addBlockByNo]: the statements in the order of the source, so that the
    state reached at a [TypeError] is the one the source leaves. *)
Definition addBlockByNo (blockNo : Z) : Eng unit :=
  let! t := get in
  let btr := aget t.(template).(pt_blockTab) blockNo in
  let blockInstNo := alen t.(blockInstTab) in
  do! modify (set_blockInstTab (fun l => l ++ [emptyBlockInst])) in
  let! bdtr := orTypeError (aget t.(blockDynTab) blockNo) in
  do! (if (bdtr.(firstBlockInstNo) =? -1)
       then updBlockDyn blockNo (with_firstBlockInstNo blockInstNo)
       else ret tt) in
  do! (if negb (bdtr.(lastBlockInstNo) =? -1)
       then updBlockInst bdtr.(lastBlockInstNo) (with_nextBlockInstNo blockInstNo)
       else ret tt) in
  do! updBlockDyn blockNo (with_lastBlockInstNo blockInstNo) in
  do! updBlockInst blockInstNo (with_bi_blockNo blockNo) in
  do! updBlockInst blockInstNo (with_instanceLevel bdtr.(instances)) in
  do! updBlockDyn blockNo (with_instances (bdtr.(instances) + 1)) in
  let! btr := orTypeError btr in
  do! (if (btr.(bt_parentBlockNo) =? -1)
       then updBlockInst blockInstNo (with_parentInstLevel (-1))
       else
         let! t1 := get in
         let! pbdtr := orTypeError (aget t1.(blockDynTab) btr.(bt_parentBlockNo)) in
         updBlockInst blockInstNo (with_parentInstLevel pbdtr.(instances))) in
  do! updBlockInst blockInstNo (with_nextBlockInstNo (-1)) in
  let blockVarCnt := alen btr.(bt_blockVarNoToVarNoMap) in
  if (0 <? blockVarCnt) then
    let! t2 := get in
    updBlockInst blockInstNo
      (with_blockVarTab
         (Some (map (fun varNo => mjoin (aget t2.(varValuesTab) varNo))
                    btr.(bt_blockVarNoToVarNoMap))))
  else ret tt.

(** [addBlocksByNo]: the chain of same-named blocks is followed until [-1]. *)
Fixpoint addBlocksByNo (fuel : nat) (blockNo : Z) : Eng unit :=
  if (blockNo =? -1) then ret tt else
  match fuel with
  | O => throw OutOfFuel
  | S fuel' =>
      do! addBlockByNo blockNo in
      let! t := get in
      let! btr := orTypeError (aget t.(template).(pt_blockTab) blockNo) in
      addBlocksByNo fuel' btr.(bt_nextWithSameName)
  end.

Definition addBlock (fuel : nat) (blockName : string) : Eng unit :=
  let! t := get in
  let blockNo := t.(template).(lookupBlockName) blockName in
  if (blockNo =? -1) then throw (newBlockNotDefinedError blockName)
  else addBlocksByNo fuel blockNo.

Definition addBlockOpt (fuel : nat) (blockName : string) : Eng unit :=
  let! t := get in
  let blockNo := t.(template).(lookupBlockName) blockName in
  addBlocksByNo fuel blockNo.

(** *** Output generation *)

Inductive ChunkKind : Type := endOfBlock | variable | subBlock.

Definition isTruthy (v : option string) : bool :=
  match v with
  | Some s => negb (String.eqb s "")
  | None => false
  end.

(** [writeBlockInstances], [writeBlockInstance] and the body of its
    [while (true)] loop ([writeChunks]).  [out] is the array the three
    push to. *)
Fixpoint writeBlockInstances (fuel : nat) (out : list string)
    (blockNo parentInstLevel0 : Z) {struct fuel} : Eng (list string) :=
  match fuel with
  | O => throw OutOfFuel
  | S fuel' =>
      let! t := get in
      let! bdtr := orTypeError (aget t.(blockDynTab) blockNo) in
      let blockInstNo := bdtr.(currBlockInstNo) in
      if (blockInstNo =? -1) then ret out else
      let! bitr := orTypeError (aget t.(blockInstTab) blockInstNo) in
      do! assert (parentInstLevel0 <=? bitr.(parentInstLevel)) in
      if (parentInstLevel0 <? bitr.(parentInstLevel)) then ret out else
      let! out1 := writeBlockInstance fuel' out blockInstNo in
      let! t1 := get in
      let! bitr1 := orTypeError (aget t1.(blockInstTab) blockInstNo) in
      do! updBlockDyn blockNo (with_currBlockInstNo bitr1.(nextBlockInstNo)) in
      writeBlockInstances fuel' out1 blockNo parentInstLevel0
  end

with writeBlockInstance (fuel : nat) (out : list string)
    (blockInstNo : Z) {struct fuel} : Eng (list string) :=
  match fuel with
  | O => throw OutOfFuel
  | S fuel' =>
      let! t := get in
      let! bitr := orTypeError (aget t.(blockInstTab) blockInstNo) in
      let blockNo := bitr.(bi_blockNo) in
      let! btr := orTypeError (aget t.(template).(pt_blockTab) blockNo) in
      writeChunks fuel' out bitr blockNo btr
        btr.(bt_tPosContentsBegin) (blockNo + 1) btr.(bt_firstVarRefNo)
  end

with writeChunks (fuel : nat) (out : list string)
    (bitr : BlockInstTabRec) (blockNo : Z) (btr : BlockTabRec)
    (tPos subBlockNo varRefNo : Z) {struct fuel} : Eng (list string) :=
  match fuel with
  | O => throw OutOfFuel
  | S fuel' =>
      let! t := get in
      let varRefTab := t.(template).(pt_varRefTab) in
      let blockTab := t.(template).(pt_blockTab) in
      let tPos2 := btr.(bt_tPosContentsEnd) in
      let kind := endOfBlock in
      (* check for variable reference *)
      let! r1 :=
        (if negb (varRefNo =? -1) && (varRefNo <? alen varRefTab) then
           let! vrtr := orTypeError (aget varRefTab varRefNo) in
           if (vrtr.(vr_tPosBegin) <? tPos) then ret None
           else if (vrtr.(vr_tPosBegin) <? tPos2)
                then ret (Some (vrtr.(vr_tPosBegin), variable))
                else ret (Some (tPos2, kind))
         else ret (Some (tPos2, kind))) in
      match r1 with
      | None => writeChunks fuel' out bitr blockNo btr tPos subBlockNo (varRefNo + 1)
      | Some (tPos2, kind) =>
      (* check for subblock *)
      let! r2 :=
        (if (subBlockNo <? alen blockTab) then
           let! subBtr := orTypeError (aget blockTab subBlockNo) in
           if (subBtr.(bt_tPosBegin) <? tPos) then ret None
           else if (subBtr.(bt_tPosBegin) <? tPos2)
                then ret (Some (subBtr.(bt_tPosBegin), subBlock))
                else ret (Some (tPos2, kind))
         else ret (Some (tPos2, kind))) in
      match r2 with
      | None => writeChunks fuel' out bitr blockNo btr tPos (subBlockNo + 1) varRefNo
      | Some (tPos2, kind) =>
      let out1 :=
        if (tPos <? tPos2)
        then out ++ [Js.substring t.(template).(pt_templateText) tPos tPos2]
        else out in
      match kind with
      | endOfBlock => ret out1
      | variable =>
          let! vrtr := orTypeError (aget varRefTab varRefNo) in
          do! assert (vrtr.(vr_blockNo) =? blockNo) in
          let! tab := orTypeError bitr.(blockVarTab) in
          let varValue := mjoin (aget tab vrtr.(vr_blockVarNo)) in
          let out2 := if isTruthy varValue
                      then out1 ++ [default ""%string varValue] else out1 in
          writeChunks fuel' out2 bitr blockNo btr vrtr.(vr_tPosEnd) subBlockNo (varRefNo + 1)
      | subBlock =>
          let! subBtr := orTypeError (aget blockTab subBlockNo) in
          do! assert (subBtr.(bt_parentBlockNo) =? blockNo) in
          let! out2 := writeBlockInstances fuel' out1 subBlockNo bitr.(instanceLevel) in
          writeChunks fuel' out2 bitr blockNo btr subBtr.(bt_tPosEnd) (subBlockNo + 1) varRefNo
      end
      end
      end
  end.

Definition generateOutputArray (fuel : nat) : Eng (list string) :=
  let! t := get in
  let! bdtr0 := orTypeError (aget t.(blockDynTab) 0) in
  do! (if (bdtr0.(instances) =? 0) then addBlockByNo 0 else ret tt) in
  do! modify (set_blockDynTab
               (map (fun bdtr => with_currBlockInstNo bdtr.(firstBlockInstNo) bdtr))) in
  writeBlockInstances fuel [] 0 (-1).

(** [out.join("")] *)
Definition joinEmpty (out : list string) : string :=
  fold_right String.append EmptyString out.

Definition generateOutputString (fuel : nat) : Eng string :=
  let! out := generateOutputArray fuel in
  ret (joinEmpty out).

(** ** The parser (MiniTemplatorParser.ts) *)

Definition maxNestingLevel : Z := 30.
Definition maxCondLevels : Z := 30.
Definition maxInclTemplateSize : Z := 1000000.
Definition cmdStartStr : string := "<!--".
Definition cmdEndStr : string := "-->".
Definition cmdStartStrShort : string := "<$".
Definition cmdEndStrShort : string := ">".

Record ParserParms : Type := mkParserParms {
  mainTemplateName : string;
  conditionVars : list (string * JsValue);       (* a [Map], in insertion order *)
  shortFormEnabled : bool;
  loadTemplateFile : string -> option string }.  (* [None]: the promise is rejected *)

Record Parser : Type := mkParser {
  templateText : string;
  varTab : list string;
  varNameToNoMap : gmap string Z;
  varRefTab : list VarRefTabRec;
  blockTab : list BlockTabRec;
  blockNameToNoMap : gmap string Z;
  currentNestingLevel : Z;
  openBlocksTab : list Z;                        (* [Int16Array] *)
  condLevel : Z;
  condEnabled : gmap Z bool;                     (* index -> element *)
  condPassed : gmap Z bool;
  resumeCmdParsingFromStart : bool }.

Definition Prs (A : Type) : Type := M Parser A.

Definition set_templateText v (p : Parser) :=
  mkParser v p.(varTab) p.(varNameToNoMap) p.(varRefTab) p.(blockTab)
    p.(blockNameToNoMap) p.(currentNestingLevel) p.(openBlocksTab) p.(condLevel)
    p.(condEnabled) p.(condPassed) p.(resumeCmdParsingFromStart).
Definition set_varTab v (p : Parser) :=
  mkParser p.(templateText) v p.(varNameToNoMap) p.(varRefTab) p.(blockTab)
    p.(blockNameToNoMap) p.(currentNestingLevel) p.(openBlocksTab) p.(condLevel)
    p.(condEnabled) p.(condPassed) p.(resumeCmdParsingFromStart).
Definition set_varNameToNoMap v (p : Parser) :=
  mkParser p.(templateText) p.(varTab) v p.(varRefTab) p.(blockTab)
    p.(blockNameToNoMap) p.(currentNestingLevel) p.(openBlocksTab) p.(condLevel)
    p.(condEnabled) p.(condPassed) p.(resumeCmdParsingFromStart).
Definition set_varRefTab v (p : Parser) :=
  mkParser p.(templateText) p.(varTab) p.(varNameToNoMap) v p.(blockTab)
    p.(blockNameToNoMap) p.(currentNestingLevel) p.(openBlocksTab) p.(condLevel)
    p.(condEnabled) p.(condPassed) p.(resumeCmdParsingFromStart).
Definition set_blockTab v (p : Parser) :=
  mkParser p.(templateText) p.(varTab) p.(varNameToNoMap) p.(varRefTab) v
    p.(blockNameToNoMap) p.(currentNestingLevel) p.(openBlocksTab) p.(condLevel)
    p.(condEnabled) p.(condPassed) p.(resumeCmdParsingFromStart).
Definition set_blockNameToNoMap v (p : Parser) :=
  mkParser p.(templateText) p.(varTab) p.(varNameToNoMap) p.(varRefTab) p.(blockTab)
    v p.(currentNestingLevel) p.(openBlocksTab) p.(condLevel)
    p.(condEnabled) p.(condPassed) p.(resumeCmdParsingFromStart).
Definition set_currentNestingLevel v (p : Parser) :=
  mkParser p.(templateText) p.(varTab) p.(varNameToNoMap) p.(varRefTab) p.(blockTab)
    p.(blockNameToNoMap) v p.(openBlocksTab) p.(condLevel)
    p.(condEnabled) p.(condPassed) p.(resumeCmdParsingFromStart).
Definition set_openBlocksTab v (p : Parser) :=
  mkParser p.(templateText) p.(varTab) p.(varNameToNoMap) p.(varRefTab) p.(blockTab)
    p.(blockNameToNoMap) p.(currentNestingLevel) v p.(condLevel)
    p.(condEnabled) p.(condPassed) p.(resumeCmdParsingFromStart).
Definition set_condLevel v (p : Parser) :=
  mkParser p.(templateText) p.(varTab) p.(varNameToNoMap) p.(varRefTab) p.(blockTab)
    p.(blockNameToNoMap) p.(currentNestingLevel) p.(openBlocksTab) v
    p.(condEnabled) p.(condPassed) p.(resumeCmdParsingFromStart).
Definition set_condEnabled v (p : Parser) :=
  mkParser p.(templateText) p.(varTab) p.(varNameToNoMap) p.(varRefTab) p.(blockTab)
    p.(blockNameToNoMap) p.(currentNestingLevel) p.(openBlocksTab) p.(condLevel)
    v p.(condPassed) p.(resumeCmdParsingFromStart).
Definition set_condPassed v (p : Parser) :=
  mkParser p.(templateText) p.(varTab) p.(varNameToNoMap) p.(varRefTab) p.(blockTab)
    p.(blockNameToNoMap) p.(currentNestingLevel) p.(openBlocksTab) p.(condLevel)
    p.(condEnabled) v p.(resumeCmdParsingFromStart).
Definition set_resumeCmdParsingFromStart v (p : Parser) :=
  mkParser p.(templateText) p.(varTab) p.(varNameToNoMap) p.(varRefTab) p.(blockTab)
    p.(blockNameToNoMap) p.(currentNestingLevel) p.(openBlocksTab) p.(condLevel)
    p.(condEnabled) p.(condPassed) v.

(** Field assignments on block table records. *)
Definition with_tPosBegin v (b : BlockTabRec) :=
  mkBlock b.(bt_blockName) b.(bt_nextWithSameName) v b.(bt_tPosContentsBegin)
    b.(bt_tPosContentsEnd) b.(bt_tPosEnd) b.(bt_nestingLevel) b.(bt_parentBlockNo)
    b.(bt_definitionIsOpen) b.(bt_blockVarNoToVarNoMap) b.(bt_firstVarRefNo) b.(bt_dummy).
Definition with_tPosContentsBegin v (b : BlockTabRec) :=
  mkBlock b.(bt_blockName) b.(bt_nextWithSameName) b.(bt_tPosBegin) v
    b.(bt_tPosContentsEnd) b.(bt_tPosEnd) b.(bt_nestingLevel) b.(bt_parentBlockNo)
    b.(bt_definitionIsOpen) b.(bt_blockVarNoToVarNoMap) b.(bt_firstVarRefNo) b.(bt_dummy).
Definition with_tPosContentsEnd v (b : BlockTabRec) :=
  mkBlock b.(bt_blockName) b.(bt_nextWithSameName) b.(bt_tPosBegin) b.(bt_tPosContentsBegin)
    v b.(bt_tPosEnd) b.(bt_nestingLevel) b.(bt_parentBlockNo)
    b.(bt_definitionIsOpen) b.(bt_blockVarNoToVarNoMap) b.(bt_firstVarRefNo) b.(bt_dummy).
Definition with_tPosEnd v (b : BlockTabRec) :=
  mkBlock b.(bt_blockName) b.(bt_nextWithSameName) b.(bt_tPosBegin) b.(bt_tPosContentsBegin)
    b.(bt_tPosContentsEnd) v b.(bt_nestingLevel) b.(bt_parentBlockNo)
    b.(bt_definitionIsOpen) b.(bt_blockVarNoToVarNoMap) b.(bt_firstVarRefNo) b.(bt_dummy).
Definition with_definitionIsOpen v (b : BlockTabRec) :=
  mkBlock b.(bt_blockName) b.(bt_nextWithSameName) b.(bt_tPosBegin) b.(bt_tPosContentsBegin)
    b.(bt_tPosContentsEnd) b.(bt_tPosEnd) b.(bt_nestingLevel) b.(bt_parentBlockNo)
    v b.(bt_blockVarNoToVarNoMap) b.(bt_firstVarRefNo) b.(bt_dummy).
Definition with_blockVarNoToVarNoMap v (b : BlockTabRec) :=
  mkBlock b.(bt_blockName) b.(bt_nextWithSameName) b.(bt_tPosBegin) b.(bt_tPosContentsBegin)
    b.(bt_tPosContentsEnd) b.(bt_tPosEnd) b.(bt_nestingLevel) b.(bt_parentBlockNo)
    b.(bt_definitionIsOpen) v b.(bt_firstVarRefNo) b.(bt_dummy).
Definition with_firstVarRefNo v (b : BlockTabRec) :=
  mkBlock b.(bt_blockName) b.(bt_nextWithSameName) b.(bt_tPosBegin) b.(bt_tPosContentsBegin)
    b.(bt_tPosContentsEnd) b.(bt_tPosEnd) b.(bt_nestingLevel) b.(bt_parentBlockNo)
    b.(bt_definitionIsOpen) b.(bt_blockVarNoToVarNoMap) v b.(bt_dummy).
Definition with_dummy v (b : BlockTabRec) :=
  mkBlock b.(bt_blockName) b.(bt_nextWithSameName) b.(bt_tPosBegin) b.(bt_tPosContentsBegin)
    b.(bt_tPosContentsEnd) b.(bt_tPosEnd) b.(bt_nestingLevel) b.(bt_parentBlockNo)
    b.(bt_definitionIsOpen) b.(bt_blockVarNoToVarNoMap) b.(bt_firstVarRefNo) v.

Definition updBlock (blockNo : Z) (f : BlockTabRec -> BlockTabRec) : Prs unit :=
  let! p := get in
  let! btr := orTypeError (aget p.(blockTab) blockNo) in
  modify (set_blockTab (aset p.(blockTab) blockNo (f btr))).

Definition updVarRef (varRefNo : Z) (f : VarRefTabRec -> VarRefTabRec) : Prs unit :=
  let! p := get in
  let! vrtr := orTypeError (aget p.(varRefTab) varRefNo) in
  modify (set_varRefTab (aset p.(varRefTab) varRefNo (f vrtr))).

(** *** General utility routines *)

Definition isWhiteSpaceAt (s : string) (p : Z) : bool :=
  match Js.charCodeAt s p with
  | Some c => c <=? 32
  | None => false                       (* [NaN <= 32] *)
  end.

(** The number of loop turns of [while (p < len && cond(s, p)) p++]. *)
Fixpoint scanWhile (cond : string -> Z -> bool) (s : string) (p : Z) (n : nat) : Z :=
  match n with
  | O => p
  | S n' => if (p <? Js.strlen s) && cond s p
            then scanWhile cond s (p + 1) n' else p
  end.

Definition skipBlanks (s : string) (p0 : Z) : Z :=
  scanWhile isWhiteSpaceAt s p0 (Z.to_nat (Js.strlen s - p0)).

Definition skipNonBlanks (s : string) (p0 : Z) : Z :=
  scanWhile (fun s p => negb (isWhiteSpaceAt s p)) s p0 (Z.to_nat (Js.strlen s - p0)).

Definition isRestOfStringBlank (s : string) (p : Z) : bool :=
  Js.strlen s <=? skipBlanks s p.

Definition isStringBlank (s : string) : bool := isRestOfStringBlank s 0.

(** [ToInt16] of a block number stored in the [Int16Array]. *)
Definition wrap16 (z : Z) : Z := (z + 32768) mod 65536 - 32768.

Section ParserCode.
Variable pParms : ParserParms.

(** The host evaluation [new Function(...names, body)(...values)] of a
    condition expression, converted by [Boolean(r)]; [inl e] is a thrown
    exception [e] as the template literal renders it. *)
Variable evalJs : list (string * JsValue) -> string -> string + bool.

(** *** Name lookup routines *)

Definition p_lookupVariableName (p : Parser) (varName : string) : Z :=
  match p.(varNameToNoMap) !! varName with
  | None => -1
  | Some varNo => varNo
  end.

Definition p_lookupBlockName (p : Parser) (blockName : string) : Z :=
  match p.(blockNameToNoMap) !! blockName with
  | None => -1
  | Some blockNo => blockNo
  end.

(** *** Blocks *)

Definition registerBlock (blockName : option string) : Prs Z :=
  let! p := get in
  let blockNo := alen p.(blockTab) in
  let nextWithSameName :=
    match blockName with
    | Some n => p_lookupBlockName p n
    | None => -1
    end in
  let! parentBlockNo :=
    (if (0 <? p.(currentNestingLevel)) then
       match aget p.(openBlocksTab) (p.(currentNestingLevel) - 1) with
       | Some b => ret b
       | None => throw UndefinedNumber
       end
     else ret (-1)) in
  let btr := mkBlock blockName nextWithSameName 0 0 0 0
               p.(currentNestingLevel) parentBlockNo true [] (-1) false in
  do! (match blockName with
       | Some n => modify (fun p => set_blockNameToNoMap (<[n := blockNo]> p.(blockNameToNoMap)) p)
       | None => ret tt
       end) in
  do! modify (fun p => set_blockTab (p.(blockTab) ++ [btr]) p) in
  ret blockNo.

(** [this.openBlocksTab[this.currentNestingLevel] = blockNo]: a typed
    array ignores a write outside of it. *)
Definition openBlock (blockNo : Z) : Prs unit :=
  modify (fun p =>
    set_openBlocksTab (aset p.(openBlocksTab) p.(currentNestingLevel) (wrap16 blockNo)) p).

Definition beginMainBlock : Prs unit :=
  let! blockNo := registerBlock None in
  do! updBlock blockNo (with_tPosBegin 0) in
  do! updBlock blockNo (with_tPosContentsBegin 0) in
  do! openBlock blockNo in
  modify (fun p => set_currentNestingLevel (p.(currentNestingLevel) + 1) p).

Definition endMainBlock : Prs unit :=
  let! p := get in
  do! updBlock 0 (with_tPosContentsEnd (Js.strlen p.(templateText))) in
  do! updBlock 0 (with_tPosEnd (Js.strlen p.(templateText))) in
  do! updBlock 0 (with_definitionIsOpen false) in
  modify (fun p => set_currentNestingLevel (p.(currentNestingLevel) - 1) p).

Definition excludeTemplateRange (tPosBegin tPosEnd : Z) : Prs unit :=
  let! p := get in
  let last := alen p.(blockTab) - 1 in
  let extend :=
    if (0 <? alen p.(blockTab)) then
      match aget p.(blockTab) last with
      | Some btr => btr.(bt_dummy) && (btr.(bt_tPosEnd) =? tPosBegin)
      | None => false
      end
    else false in
  if extend then
    do! updBlock last (with_tPosContentsEnd tPosEnd) in
    updBlock last (with_tPosEnd tPosEnd)
  else
    let! blockNo := registerBlock None in
    do! updBlock blockNo (with_tPosBegin tPosBegin) in
    do! updBlock blockNo (with_tPosContentsBegin tPosBegin) in
    do! updBlock blockNo (with_tPosContentsEnd tPosEnd) in
    do! updBlock blockNo (with_tPosEnd tPosEnd) in
    do! updBlock blockNo (with_definitionIsOpen false) in
    updBlock blockNo (with_dummy true).

(** *** Conditional commands *)

Definition readFlag (m : gmap Z bool) (i : Z) : bool := default false (m !! i).

Definition isCondEnabled (p : Parser) (condLevel2 : Z) : bool :=
  if (condLevel2 <? 0) then true else readFlag p.(condEnabled) condLevel2.

Definition conditionalExclude (tPosBegin tPosEnd : Z) : Prs bool :=
  let! p := get in
  if isCondEnabled p p.(condLevel) then ret false
  else
    do! excludeTemplateRange tPosBegin tPosEnd in
    ret true.

Definition evaluateCondition (condExpr : string) : Prs bool :=
  match evalJs pParms.(conditionVars) condExpr with
  | inr r => ret r
  | inl e =>
      throw (newTemplateSyntaxError
               ("Invalid condition expression " ++ Js.dquote ++ condExpr
                  ++ Js.dquote ++ ". " ++ e))
  end.

Definition processIfCmd (parms : string) (cmdTPosBegin cmdTPosEnd : Z) : Prs unit :=
  do! excludeTemplateRange cmdTPosBegin cmdTPosEnd in
  let! p := get in
  if (maxCondLevels - 1 <=? p.(condLevel))
  then throw (newTemplateSyntaxError "Too many nested $if commands.")
  else
    do! modify (fun p => set_condLevel (p.(condLevel) + 1) p) in
    let! p := get in
    let! enabled :=
      (if isCondEnabled p (p.(condLevel) - 1) then evaluateCondition parms
       else ret false) in
    do! modify (fun p => set_condEnabled (<[p.(condLevel) := enabled]> p.(condEnabled)) p) in
    modify (fun p => set_condPassed (<[p.(condLevel) := enabled]> p.(condPassed)) p).

Definition processElseIfCmd (parms : string) (cmdTPosBegin cmdTPosEnd : Z) : Prs unit :=
  do! excludeTemplateRange cmdTPosBegin cmdTPosEnd in
  let! p := get in
  if (p.(condLevel) <? 0)
  then throw (newTemplateSyntaxError "$elseIf without matching $if.")
  else
    let! enabled :=
      (if isCondEnabled p (p.(condLevel) - 1)
          && negb (readFlag p.(condPassed) p.(condLevel))
       then evaluateCondition parms else ret false) in
    do! modify (fun p => set_condEnabled (<[p.(condLevel) := enabled]> p.(condEnabled)) p) in
    if enabled
    then modify (fun p => set_condPassed (<[p.(condLevel) := true]> p.(condPassed)) p)
    else ret tt.

Definition processElseCmd (parms : string) (cmdTPosBegin cmdTPosEnd : Z) : Prs unit :=
  do! excludeTemplateRange cmdTPosBegin cmdTPosEnd in
  if negb (isStringBlank parms)
  then throw (newTemplateSyntaxError "Invalid parameters for $else command.")
  else
    let! p := get in
    if (p.(condLevel) <? 0)
    then throw (newTemplateSyntaxError "$else without matching $if.")
    else
      let enabled := isCondEnabled p (p.(condLevel) - 1)
                     && negb (readFlag p.(condPassed) p.(condLevel)) in
      do! modify (fun p => set_condEnabled (<[p.(condLevel) := enabled]> p.(condEnabled)) p) in
      if enabled
      then modify (fun p => set_condPassed (<[p.(condLevel) := true]> p.(condPassed)) p)
      else ret tt.

Definition processEndIfCmd (parms : string) (cmdTPosBegin cmdTPosEnd : Z) : Prs unit :=
  do! excludeTemplateRange cmdTPosBegin cmdTPosEnd in
  if negb (isStringBlank parms)
  then throw (newTemplateSyntaxError "Invalid parameters for $endIf command.")
  else
    let! p := get in
    if (p.(condLevel) <? 0)
    then throw (newTemplateSyntaxError "$endif without matching $if.")
    else modify (fun p => set_condLevel (p.(condLevel) - 1) p).
(** *** Block commands *)

Definition atOffset (what : string) (cmdTPosBegin : Z) : string :=
  what ++ " in template at offset " ++ Js.numToString cmdTPosBegin ++ ".".

Definition quoted (s : string) : string := Js.dquote ++ s ++ Js.dquote.

Definition processBeginBlockCmd (parms : string) (cmdTPosBegin cmdTPosEnd : Z) : Prs unit :=
  let! excluded := conditionalExclude cmdTPosBegin cmdTPosEnd in
  if excluded then ret tt else
  let p0 := skipBlanks parms 0 in
  if (Js.strlen parms <=? p0)
  then throw (newTemplateSyntaxError
                (atOffset "Missing block name in $beginBlock command" cmdTPosBegin))
  else
    let p := skipNonBlanks parms p0 in
    let blockName := Js.substring parms p0 p in
    if negb (isRestOfStringBlank parms p)
    then throw (newTemplateSyntaxError
                  (atOffset "Extra parameter in $beginBlock command" cmdTPosBegin))
    else
      let! blockNo := registerBlock (Some blockName) in
      do! updBlock blockNo (with_tPosBegin cmdTPosBegin) in
      do! updBlock blockNo (with_tPosContentsBegin cmdTPosEnd) in
      do! openBlock blockNo in
      do! modify (fun p => set_currentNestingLevel (p.(currentNestingLevel) + 1) p) in
      let! p := get in
      if (maxNestingLevel <? p.(currentNestingLevel))
      then throw (newTemplateSyntaxError
                    (atOffset ("Block nesting overflow for block " ++ quoted blockName)
                              cmdTPosBegin))
      else ret tt.

Definition processEndBlockCmd (parms : string) (cmdTPosBegin cmdTPosEnd : Z) : Prs unit :=
  let! excluded := conditionalExclude cmdTPosBegin cmdTPosEnd in
  if excluded then ret tt else
  let p0 := skipBlanks parms 0 in
  if (Js.strlen parms <=? p0)
  then throw (newTemplateSyntaxError
                (atOffset "Missing block name in $endBlock command" cmdTPosBegin))
  else
    let p := skipNonBlanks parms p0 in
    let blockName := Js.substring parms p0 p in
    if negb (isRestOfStringBlank parms p)
    then throw (newTemplateSyntaxError
                  (atOffset "Extra parameter in $endBlock command" cmdTPosBegin))
    else
      let! st := get in
      let blockNo := p_lookupBlockName st blockName in
      if (blockNo =? -1)
      then throw (newTemplateSyntaxError
                    (atOffset ("Undefined block name " ++ quoted blockName
                                 ++ " in $endBlock command") cmdTPosBegin))
      else
        do! modify (fun p => set_currentNestingLevel (p.(currentNestingLevel) - 1) p) in
        let! st := get in
        let! btr := orTypeError (aget st.(blockTab) blockNo) in
        if negb btr.(bt_definitionIsOpen)
        then throw (newTemplateSyntaxError
                      (atOffset ("Multiple $endBlock commands for block "
                                   ++ quoted blockName) cmdTPosBegin))
        else if negb (btr.(bt_nestingLevel) =? st.(currentNestingLevel))
        then throw (newTemplateSyntaxError
                      (atOffset ("Block nesting level mismatch at $endBlock command for block "
                                   ++ quoted blockName) cmdTPosBegin))
        else
          do! updBlock blockNo (with_tPosContentsEnd cmdTPosBegin) in
          do! updBlock blockNo (with_tPosEnd cmdTPosEnd) in
          updBlock blockNo (with_definitionIsOpen false).

Definition checkBlockDefinitionsComplete : Prs unit :=
  let! p := get in
  match List.find bt_definitionIsOpen p.(blockTab) with
  | Some btr =>
      throw (newTemplateSyntaxError
               ("Missing $endBlock command in template for block "
                  ++ quoted (default "undefined"%string btr.(bt_blockName)) ++ "."))
  | None =>
      if negb (p.(currentNestingLevel) =? 0)
      then throw (newTemplateSyntaxError "Block nesting level error at end of template.")
      else ret tt
  end.

(** *** Inclusion *)

Definition insertSubTemplate (subTemplateName : string) (tPos1 tPos2 : Z) : Prs unit :=
  match pParms.(loadTemplateFile) subTemplateName with
  | None => throw (LoaderRejected subTemplateName)
  | Some subTemplateText =>
      let! p := get in
      if (maxInclTemplateSize <? Js.strlen p.(templateText) + Js.strlen subTemplateText)
      then throw (JsError
             ("Subtemplate include aborted because the internal template string would become longer than "
                ++ Js.numToString maxInclTemplateSize ++ " characters."))
      else
        do! modify (set_templateText
                      (Js.substring p.(templateText) 0 tPos1 ++ subTemplateText
                         ++ Js.substringFrom p.(templateText) tPos2)) in
        modify (set_resumeCmdParsingFromStart true)
  end.

Definition processIncludeCmd (parms : string) (cmdTPosBegin cmdTPosEnd : Z) : Prs unit :=
  let! excluded := conditionalExclude cmdTPosBegin cmdTPosEnd in
  if excluded then ret tt else
  let p0 := skipBlanks parms 0 in
  if (Js.strlen parms <=? p0)
  then throw (newTemplateSyntaxError
                (atOffset "Missing subtemplate name in $include command" cmdTPosBegin))
  else
    let! '(p0, p) :=
      (if bool_decide (Js.charAt parms p0 = Some "034"%char) then
         let p0 := p0 + 1 in
         let p := Js.indexOf parms Js.dquote p0 in
         if (p =? -1)
         then throw (newTemplateSyntaxError
                (atOffset "Missing closing quote for subtemplate name in $include command"
                          cmdTPosBegin))
         else ret (p0, p)
       else ret (p0, skipNonBlanks parms p0)) in
    let subTemplateName := Js.substring parms p0 p in
    let p := p + 1 in
    if negb (isRestOfStringBlank parms p)
    then throw (newTemplateSyntaxError
                  (atOffset "Extra parameter in $include command" cmdTPosBegin))
    else insertSubTemplate subTemplateName cmdTPosBegin cmdTPosEnd.

(** *** Template commands *)

(** Returns [false] if the command should be treated as normal template
    text. *)
Definition processTemplateCommand (cmdLine : string) (cmdTPosBegin cmdTPosEnd : Z) : Prs bool :=
  let p0 := skipBlanks cmdLine 0 in
  if (Js.strlen cmdLine <=? p0) then ret false else
  let p := skipNonBlanks cmdLine p0 in
  let cmd := Js.substring cmdLine p0 p in
  let parms := Js.substringFrom cmdLine p in
  if String.eqb cmd "$beginBlock" then
    do! processBeginBlockCmd parms cmdTPosBegin cmdTPosEnd in ret true
  else if String.eqb cmd "$endBlock" then
    do! processEndBlockCmd parms cmdTPosBegin cmdTPosEnd in ret true
  else if String.eqb cmd "$include" then
    do! processIncludeCmd parms cmdTPosBegin cmdTPosEnd in ret true
  else if String.eqb cmd "$if" then
    do! processIfCmd parms cmdTPosBegin cmdTPosEnd in ret true
  else if String.eqb cmd "$elseIf" then
    do! processElseIfCmd parms cmdTPosBegin cmdTPosEnd in ret true
  else if String.eqb cmd "$else" then
    do! processElseCmd parms cmdTPosBegin cmdTPosEnd in ret true
  else if String.eqb cmd "$endIf" then
    do! processEndIfCmd parms cmdTPosBegin cmdTPosEnd in ret true
  else if Js.startsWith cmd "$" && negb (Js.startsWith cmd "${")
  then throw (newTemplateSyntaxError
                (atOffset ("Unknown command " ++ quoted cmd) cmdTPosBegin))
  else ret false.

Definition processShortFormTemplateCommand (cmdLine : string)
    (cmdTPosBegin cmdTPosEnd : Z) : Prs bool :=
  let p0 := skipBlanks cmdLine 0 in
  if (Js.strlen cmdLine <=? p0) then ret false else
  let p := p0 + 1 in
  let cmd1 := Js.charAt cmdLine p0 in
  let p := if bool_decide (cmd1 = Some "/"%char)
              && (p <? Js.strlen cmdLine) && negb (isWhiteSpaceAt cmdLine p)
           then p + 1 else p in
  let cmd := Js.substring cmdLine p0 p in
  let parms := Js.trim (Js.substringFrom cmdLine p) in
  if String.eqb cmd "?" then
    do! processIfCmd parms cmdTPosBegin cmdTPosEnd in ret true
  else if String.eqb cmd ":" then
    do! (if (0 <? Js.strlen parms)
         then processElseIfCmd parms cmdTPosBegin cmdTPosEnd
         else processElseCmd parms cmdTPosBegin cmdTPosEnd) in
    ret true
  else if String.eqb cmd "/?" then
    do! processEndIfCmd parms cmdTPosBegin cmdTPosEnd in ret true
  else ret false.

(** The [while (true)] loop of [parseTemplateCommands]; [p] is the
    current position within [templateText]. *)
Fixpoint parseTemplateCommandsFrom (fuel : nat) (p : Z) : Prs unit :=
  match fuel with
  | O => throw OutOfFuel
  | S fuel' =>
      let! st := get in
      let templateText := st.(templateText) in
      let p0 := Js.indexOf templateText cmdStartStr p in
      let '(p0, shortForm) :=
        if pParms.(shortFormEnabled) && negb (p0 =? p) then
          if (p0 =? -1) then (Js.indexOf templateText cmdStartStrShort p, true)
          else
            let p2 := Js.indexOf (Js.substring templateText p p0) cmdStartStrShort 0 in
            if negb (p2 =? -1) then (p + p2, true) else (p0, false)
        else (p0, false) in
      if (p0 =? -1) then ret tt else
      let! _ := conditionalExclude p p0 in
      if shortForm then
        let p := Js.indexOf templateText cmdEndStrShort (p0 + Js.strlen cmdStartStrShort) in
        if (p =? -1) then
          let p := p0 + Js.strlen cmdStartStrShort in
          let! _ := conditionalExclude p0 p in
          parseTemplateCommandsFrom fuel' p
        else
          let p := p + Js.strlen cmdEndStrShort in
          let cmdLine := Js.substring templateText (p0 + Js.strlen cmdStartStrShort)
                           (p - Js.strlen cmdEndStrShort) in
          let! recognized := processShortFormTemplateCommand cmdLine p0 p in
          let! _ := (if negb recognized then conditionalExclude p0 p else ret false) in
          parseTemplateCommandsFrom fuel' p
      else
        let p := Js.indexOf templateText cmdEndStr (p0 + Js.strlen cmdStartStr) in
        if (p =? -1)
        then throw (newTemplateSyntaxError
                      ("Invalid HTML comment in template at offset "
                         ++ Js.numToString p0 ++ "."))
        else
          let p := p + Js.strlen cmdEndStr in
          let cmdLine := Js.substring templateText (p0 + Js.strlen cmdStartStr)
                           (p - Js.strlen cmdEndStr) in
          do! modify (set_resumeCmdParsingFromStart false) in
          let! recognized := processTemplateCommand cmdLine p0 p in
          let! _ := (if negb recognized then conditionalExclude p0 p else ret false) in
          let! st := get in
          parseTemplateCommandsFrom fuel'
            (if st.(resumeCmdParsingFromStart) then p0 else p)
  end.

Definition parseTemplateCommands (fuel : nat) : Prs unit :=
  parseTemplateCommandsFrom fuel 0.

(** *** Template variables *)

Definition registerVariable (varName : string) : Prs Z :=
  let! p := get in
  let varNo := alen p.(varTab) in
  do! modify (fun p => set_varTab (p.(varTab) ++ [varName]) p) in
  do! modify (fun p => set_varNameToNoMap (<[varName := varNo]> p.(varNameToNoMap)) p) in
  ret varNo.

(** [blockNo] and [blockVarNo] of the new record are assigned by
    [associateVariablesWithBlocks] before they are read. *)
Definition registerVariableReference (varName : string) (tPosBegin tPosEnd : Z) : Prs unit :=
  let! p := get in
  let varNo := p_lookupVariableName p varName in
  let! varNo := (if (varNo =? -1) then registerVariable varName else ret varNo) in
  modify (fun p => set_varRefTab (p.(varRefTab) ++ [mkVarRef varNo tPosBegin tPosEnd 0 0]) p).

Fixpoint parseTemplateVariablesFrom (fuel : nat) (p : Z) : Prs unit :=
  match fuel with
  | O => throw OutOfFuel
  | S fuel' =>
      let! st := get in
      let templateText := st.(templateText) in
      let p := Js.indexOf templateText "${" p in
      if (p =? -1) then ret tt else
      let p0 := p in
      let p := Js.indexOf templateText "}" p in
      if (p =? -1)
      then throw (newTemplateSyntaxError
                    ("Invalid variable reference in template at offset "
                       ++ Js.numToString p0 ++ "."))
      else
        let p := p + 1 in
        let varName := Js.trim (Js.substring templateText (p0 + 2) (p - 1)) in
        if (Js.strlen varName =? 0)
        then throw (newTemplateSyntaxError
                      ("Empty variable name in template at offset "
                         ++ Js.numToString p0 ++ "."))
        else
          do! registerVariableReference varName p0 p in
          parseTemplateVariablesFrom fuel' p
  end.

Definition parseTemplateVariables (fuel : nat) : Prs unit :=
  parseTemplateVariablesFrom fuel 0.

(** The [while] loop of [associateVariablesWithBlocks]. *)
Fixpoint associateFrom (fuel : nat) (varRefNo activeBlockNo nextBlockNo : Z) : Prs unit :=
  match fuel with
  | O => throw OutOfFuel
  | S fuel' =>
      let! p := get in
      if negb (varRefNo <? alen p.(varRefTab)) then ret tt else
      let! vrtr := orTypeError (aget p.(varRefTab) varRefNo) in
      let varRefTPos := vrtr.(vr_tPosBegin) in
      let varNo := vrtr.(vr_varNo) in
      let! active := orTypeError (aget p.(blockTab) activeBlockNo) in
      if (active.(bt_tPosEnd) <=? varRefTPos)
      then associateFrom fuel' varRefNo active.(bt_parentBlockNo) nextBlockNo
      else
        let! enter :=
          (if (nextBlockNo <? alen p.(blockTab)) then
             let! next := orTypeError (aget p.(blockTab) nextBlockNo) in
             ret (next.(bt_tPosBegin) <=? varRefTPos)
           else ret false) in
        if enter
        then associateFrom fuel' varRefNo nextBlockNo (nextBlockNo + 1)
        else
          let btr := active in
          do! assert (btr.(bt_tPosBegin) <=? varRefTPos) in
          let blockVarNo := alen btr.(bt_blockVarNoToVarNoMap) in
          do! updBlock activeBlockNo
                (fun b => with_blockVarNoToVarNoMap (b.(bt_blockVarNoToVarNoMap) ++ [varNo]) b) in
          do! (if (btr.(bt_firstVarRefNo) =? -1)
               then updBlock activeBlockNo (with_firstVarRefNo varRefNo)
               else ret tt) in
          do! updVarRef varRefNo
                (fun r => mkVarRef r.(vr_varNo) r.(vr_tPosBegin) r.(vr_tPosEnd)
                            activeBlockNo r.(vr_blockVarNo)) in
          do! updVarRef varRefNo
                (fun r => mkVarRef r.(vr_varNo) r.(vr_tPosBegin) r.(vr_tPosEnd)
                            r.(vr_blockNo) blockVarNo) in
          associateFrom fuel' (varRefNo + 1) activeBlockNo nextBlockNo
  end.

Definition associateVariablesWithBlocks (fuel : nat) : Prs unit :=
  associateFrom fuel 0 0 1.

(** *** Main *)

Definition initialParser (mainText : string) : Parser :=
  mkParser mainText [] ∅ [] [] ∅ 0
    (replicate (Z.to_nat (maxNestingLevel + 1)) 0)
    (-1)
    (list_to_map (map (fun i => (Z.of_nat i, false)) (seq 0 (Z.to_nat maxCondLevels))))
    (list_to_map (map (fun i => (Z.of_nat i, false)) (seq 0 (Z.to_nat maxCondLevels))))
    false.

Definition parseTemplate (fuel : nat) : Prs unit :=
  do! beginMainBlock in
  do! parseTemplateCommands fuel in
  do! endMainBlock in
  do! checkBlockDefinitionsComplete in
  let! p := get in
  if negb (p.(condLevel) =? -1)
  then throw (newTemplateSyntaxError "$if without matching $endIf.")
  else
    do! parseTemplateVariables fuel in
    associateVariablesWithBlocks fuel.

(** [main]: the promise is fulfilled with the parsed template, or
    rejected with the exception; the parser object is not reachable
    afterwards. *)
Definition parserResult (p : Parser) : ParsedTemplate :=
  mkParsedTemplate p.(templateText) p.(varTab) p.(varRefTab) p.(blockTab)
    (p_lookupVariableName p) (p_lookupBlockName p).

Definition main (fuel : nat) : outcome ParsedTemplate :=
  match pParms.(loadTemplateFile) pParms.(mainTemplateName) with
  | None => Throw (LoaderRejected pParms.(mainTemplateName))
  | Some mainText =>
      match parseTemplate fuel (initialParser mainText) with
      | (Ok _, p) => Ok (parserResult p)
      | (Throw e, _) => Throw e
      end
  end.
End ParserCode.


(** ** The template cache (MiniTemplatorCache.ts) *)

Definition encodeConditionVarValue (v : JsValue) : outcome string :=
  match v with
  | JsString s => Ok s
  | JsNumber n => Ok (Js.numToString n)
  | _ => Throw (JsError "Unsupported data type of a condition variable value.")
  end.

(** [Array.prototype.sort()] without a comparator, on strings. *)
Fixpoint sortInsert (x : string) (l : list string) : list string :=
  match l with
  | [] => [x]
  | y :: l' => if String.leb x y then x :: l else y :: sortInsert x l'
  end.

Definition jsSort (l : list string) : list string := fold_right sortInsert [] l.

(** [Map.prototype.get] *)
Fixpoint mapGet (k : string) (m : list (string * JsValue)) : option JsValue :=
  match m with
  | [] => None
  | (k', v) :: m' => if String.eqb k k' then Some v else mapGet k m'
  end.

(** [ToString] of an array element in [join]. *)
Definition joinElement (v : JsValue) : string :=
  match v with
  | JsUndefined | JsNull => ""
  | _ => formatVariableValue v
  end.

Definition recordSeparator : string := String "030"%char EmptyString.

(** The loop body of [genConditionVarsCacheKey]: what is pushed to [out]
    for one variable name. *)
Definition cacheKeyPart (conditionVars : list (string * JsValue)) (varName : string)
    : outcome (list JsValue) :=
  let varValue := default JsUndefined (mapGet varName conditionVars) in
  match varValue with
  | JsBool false | JsUndefined | JsNull => Ok []          (* ignore variable *)
  | JsString "" => Ok []
  | JsBool true => Ok [varValue]
  | _ =>
      match encodeConditionVarValue varValue with
      | Ok encodedValue =>
          Ok [JsString (formatVariableValue varValue ++ "=" ++ encodedValue)]
      | Throw e => Throw e
      end
  end.

Fixpoint cacheKeyParts (conditionVars : list (string * JsValue)) (names : list string)
    : outcome (list JsValue) :=
  match names with
  | [] => Ok []
  | varName :: rest =>
      match cacheKeyPart conditionVars varName with
      | Ok part =>
          match cacheKeyParts conditionVars rest with
          | Ok out => Ok (part ++ out)
          | Throw e => Throw e
          end
      | Throw e => Throw e
      end
  end.

Definition genConditionVarsCacheKey (conditionVars : list (string * JsValue))
    : outcome string :=
  let sortedVarNames := jsSort (map fst conditionVars) in
  match cacheKeyParts conditionVars sortedVarNames with
  | Ok out => Ok (String.concat recordSeparator (map joinElement out))
  | Throw e => Throw e
  end.

Record MiniTemplatorCacheParms : Type := mkCacheParms {
  templateDir : string;
  c_shortFormEnabled : bool }.

Section CacheCode.
Variable cParms : MiniTemplatorCacheParms.
(** [Fs.promises.readFile(Path.join(templateDir, templateName))] *)
Variable readTemplateFile : string -> string -> option string.
Variable evalJs : list (string * JsValue) -> string -> string + bool.

Definition cacheKeyOf (templateName : string)
    (conditionVars : option (list (string * JsValue))) : outcome string :=
  match conditionVars with
  | Some cv =>
      match genConditionVarsCacheKey cv with
      | Ok k => Ok (templateName ++ "|" ++ k)%string
      | Throw e => Throw e
      end
  | None => Ok templateName
  end.

(** [MiniTemplatorCache.get]; the state is the [cache] map. *)
Definition cacheGet (fuel : nat) (templateName : string)
    (conditionVars : option (list (string * JsValue)))
    : M (gmap string ParsedTemplate) MiniTemplator :=
  match cacheKeyOf templateName conditionVars with
  | Throw e => throw e
  | Ok cacheKey =>
      let! cache := get in
      match cache !! cacheKey with
      | Some template => ret (newMiniTemplator template)
      | None =>
          let pParms := mkParserParms templateName (default [] conditionVars)
                          cParms.(c_shortFormEnabled)
                          (readTemplateFile cParms.(templateDir)) in
          match main pParms evalJs fuel with
          | Throw e => throw e
          | Ok template =>
              do! modify (fun cache => <[cacheKey := template]> cache) in
              ret (newMiniTemplator template)
          end
      end
  end.
End CacheCode.

(** [MiniTemplatorCache.clear] *)
Definition cacheClear : M (gmap string ParsedTemplate) unit :=
  modify (fun _ => ∅).



(** * Specification vocabulary *)

(** ** Weakest preconditions for computations in [M] *)

(** [mspec m s Q E]: run from [s], [m] either returns [a] in a state [s']
    with [Q a s'], or throws [e] in a state [s'] with [E e s']. *)
Definition mspec {S A} (m : M S A) (s : S)
    (Q : A -> S -> Prop) (E : exn -> S -> Prop) : Prop :=
  match m s with
  | (Ok a, s') => Q a s'
  | (Throw e, s') => E e s'
  end.

(** ** Example host for condition expressions

    The fragment of JavaScript expression evaluation that the examples
    use: a condition that is a bare identifier evaluates to the condition
    variable of that name, converted by [Boolean]; an identifier that is
    not a condition variable raises a [ReferenceError]. *)
Definition toBoolean (v : JsValue) : bool :=
  match v with
  | JsUndefined | JsNull => false
  | JsBool b => b
  | JsString s => negb (String.eqb s "")
  | JsNumber n => negb (Z.eqb n 0)
  | JsObject _ => true
  end.

Definition evalIdentifier (conditionVars : list (string * JsValue)) (condExpr : string)
    : string + bool :=
  match mapGet (Js.trim condExpr) conditionVars with
  | Some v => inr (toBoolean v)
  | None => inl ("ReferenceError: " ++ Js.trim condExpr ++ " is not defined")%string
  end.

(** A loader that knows the listed templates only. *)
Fixpoint loaderOf (files : list (string * string)) (templateName : string) : option string :=
  match files with
  | [] => None
  | (n, text) :: rest => if String.eqb templateName n then Some text else loaderOf rest templateName
  end.

(** Parser parameters for a single template text, long form only. *)
Definition parmsOf (text : string) (conditionVars : list (string * JsValue)) : ParserParms :=
  mkParserParms "template.html" conditionVars false (loaderOf [("template.html"%string, text)]).

(** Parse, construct a fresh [MiniTemplator], apply [ops] and generate the
    output. *)
Definition renderWith (pParms : ParserParms)
    (evalJs : list (string * JsValue) -> string -> string + bool)
    (fuel : nat) (ops : Eng unit) : outcome string :=
  match main pParms evalJs fuel with
  | Ok pt => fst ((do! ops in generateOutputString fuel) (newMiniTemplator pt))
  | Throw e => Throw e
  end.

(** ** Inputs of the cache key examples *)

Definition condVarsA : list (string * JsValue) :=
  [("a"%string, JsBool true); ("b"%string, JsBool false)].
Definition condVarsB : list (string * JsValue) :=
  [("a"%string, JsBool false); ("b"%string, JsBool true)].
Definition twoConditionsText : string :=
  "<!-- $if a -->A<!-- $endIf --><!-- $if b -->B<!-- $endIf -->".

Definition exampleCacheParms : MiniTemplatorCacheParms := mkCacheParms "." false.
Definition exampleFiles (dir : string) : string -> option string :=
  loaderOf [("t.html"%string, twoConditionsText)].

(** [cache.get("t.html", condVarsA)] followed by
    [cache.get("t.html", condVarsB)] on an empty cache, then
    [generateOutputString()] on the second result. *)
Definition secondGetOutput (fuel : nat) : outcome string :=
  let gets2 :=
    do! cacheGet exampleCacheParms exampleFiles evalIdentifier fuel "t.html" (Some condVarsA) in
    cacheGet exampleCacheParms exampleFiles evalIdentifier fuel "t.html" (Some condVarsB) in
  match gets2 ∅ with
  | (Ok t, _) => fst (generateOutputString fuel t)
  | (Throw e, _) => Throw e
  end.

(** ** The template on which output generation fails its assertion *)

Definition overlapText : string :=
  "${a<!-- $beginBlock b -->}Y${c}<!-- $endBlock b -->Z".

(** ** Frames of the output engine *)

(** Two sessions with the same template, dynamic records and instances;
    they may differ in the current variable values. *)
Definition same_instances (t1 t2 : MiniTemplator) : Prop :=
  template t1 = template t2
  /\ blockDynTab t1 = blockDynTab t2
  /\ blockInstTab t1 = blockInstTab t2.

(** A computation that neither reads nor writes the current variable
    values: replacing them beforehand replaces them afterwards and changes
    nothing else. *)
Definition ignoresVarValues {A} (m : Eng A) : Prop :=
  forall (v : list (option string)) (t : MiniTemplator),
    m (set_varValuesTab (fun _ => v) t)
    = (fst (m t), set_varValuesTab (fun _ => v) (snd (m t))).

(** The values that [addBlockByNo] copies for a block with the given
    [blockVarNoToVarNoMap]. *)
Definition snapshotOf (varValues : list (option string)) (varNos : list Z)
    : option (list (option string)) :=
  if (0 <? alen varNos)
  then Some (map (fun varNo => mjoin (aget varValues varNo)) varNos)
  else None.

(** ** The effect of [addBlockByNo] in closed form *)

(** The forward pointer of the previous last instance of the block. *)
Definition linkLast (insts : list BlockInstTabRec) (lastNo newNo : Z)
    : list BlockInstTabRec :=
  if (lastNo =? -1) then insts
  else match aget insts lastNo with
       | Some r => aset insts lastNo (with_nextBlockInstNo newNo r)
       | None => insts
       end.

Definition afterAddBlockByNo (t : MiniTemplator) (blockNo : Z)
    (btr : BlockTabRec) (bdtr : BlockDynTabRec) : MiniTemplator :=
  let blockInstNo := alen t.(blockInstTab) in
  let dyn := aset t.(blockDynTab) blockNo
               (mkBlockDyn (bdtr.(instances) + 1)
                  (if (bdtr.(firstBlockInstNo) =? -1) then blockInstNo
                   else bdtr.(firstBlockInstNo))
                  blockInstNo bdtr.(currBlockInstNo)) in
  let parentLevel :=
    if (btr.(bt_parentBlockNo) =? -1) then -1
    else match aget dyn btr.(bt_parentBlockNo) with
         | Some pbdtr => pbdtr.(instances)
         | None => 0
         end in
  mkMiniTemplator t.(template) t.(varValuesTab) dyn
    (linkLast t.(blockInstTab) bdtr.(lastBlockInstNo) blockInstNo
       ++ [mkBlockInst blockNo bdtr.(instances) parentLevel (-1)
             (snapshotOf t.(varValuesTab) btr.(bt_blockVarNoToVarNoMap))]).

(** ** Sequences of calls of the public interface *)

Inductive ApiCall : Type :=
| SetVariable (varName : string) (varValue : JsValue)
| SetVariableOpt (varName : string) (varValue : JsValue)
| AddBlock (blockName : string)
| AddBlockOpt (blockName : string)
| Reset
| GenerateOutput.

(** One call; [generateOutputString] returns the output. *)
Definition runCall (fuel : nat) (c : ApiCall) : Eng (option string) :=
  match c with
  | SetVariable n v => do! setVariable n v in ret None
  | SetVariableOpt n v => do! setVariableOpt n v in ret None
  | AddBlock n => do! addBlock fuel n in ret None
  | AddBlockOpt n => do! addBlockOpt fuel n in ret None
  | Reset => do! reset in ret None
  | GenerateOutput => let! s := generateOutputString fuel in ret (Some s)
  end.

(** A caller that catches every exception and goes on: what each call
    returned or threw, and the state the sequence leaves. *)
Fixpoint runCalls (fuel : nat) (calls : list ApiCall) (t : MiniTemplator)
    : list (outcome (option string)) * MiniTemplator :=
  match calls with
  | [] => ([], t)
  | c :: rest =>
      let (r, t1) := runCall fuel c t in
      let (rs, t2) := runCalls fuel rest t1 in
      (r :: rs, t2)
  end.

Definition isSetCall (c : ApiCall) : bool :=
  match c with
  | SetVariable _ _ | SetVariableOpt _ _ => true
  | _ => false
  end.

Definition mainBlockAdded (t : MiniTemplator) : Prop :=
  exists bdtr0, aget t.(blockDynTab) 0 = Some bdtr0 /\ instances bdtr0 <> 0.

(** ** Chains through a table *)

(** [linked next start l]: following [next] from [start] visits the
    entries [l], in this order, and then reaches [-1]. *)
Inductive linked (next : Z -> option Z) : Z -> list Z -> Prop :=
| linked_end : linked next (-1) []
| linked_step i nx rest :
    i <> -1 -> next i = Some nx -> linked next nx rest -> linked next i (i :: rest).

(** The indices, counted from [start], of the entries that satisfy [f]. *)
Fixpoint indicesFrom {A} (f : A -> bool) (l : list A) (start : Z) : list Z :=
  match l with
  | [] => []
  | x :: l' => (if f x then [start] else []) ++ indicesFrom f l' (start + 1)
  end.

(** The static block definitions with the name [n], in the order of their
    definition (the block table is in the order of the template text). *)
Definition definitionsNamed (bt : list BlockTabRec) (n : string) : list Z :=
  indicesFrom (fun b => bool_decide (bt_blockName b = Some n)) bt 0.

Definition nextWithSameNameOf (bt : list BlockTabRec) (blockNo : Z) : option Z :=
  bt_nextWithSameName <$> aget bt blockNo.

(** Name lookup returns the last definition of a name, and the chain of
    [nextWithSameName] runs through the definitions of the name from the
    last one back to the first one. *)
Definition names_ok (bt : list BlockTabRec) (lookup : string -> Z) : Prop :=
  forall n, linked (nextWithSameNameOf bt) (lookup n) (rev (definitionsNamed bt n)).

(** The instances of a block definition, in the order of their creation. *)
Definition instancesOf (insts : list BlockInstTabRec) (blockNo : Z) : list Z :=
  indicesFrom (fun r => bi_blockNo r =? blockNo) insts 0.

Definition nextBlockInstNoOf (insts : list BlockInstTabRec) (i : Z) : option Z :=
  nextBlockInstNo <$> aget insts i.

(** The part of a block record that the chain of same-named blocks reads. *)
Definition nameLink (b : BlockTabRec) : option string * Z :=
  (bt_blockName b, bt_nextWithSameName b).

(** ** Invariants of the parser *)

(** The part of a block record that is fixed when the block is registered
    (the dummy flag is set right after). *)
Definition blockSkeleton (b : BlockTabRec) : option string * Z * Z * Z * bool :=
  (bt_blockName b, bt_nextWithSameName b, bt_nestingLevel b, bt_parentBlockNo b,
   bt_dummy b).

(** What holds of the record of block [i]: its parent is an earlier block,
    as the [Int16Array] of open blocks returns it; a dummy block has no
    name; a named block is nested in the main block. *)
Record block_ok (i : Z) (btr : BlockTabRec) : Prop := mkBlockOk {
  bo_parent : (i = 0 /\ bt_parentBlockNo btr = -1)
              \/ exists b, 0 <= b < i /\ bt_parentBlockNo btr = wrap16 b;
  bo_dummy : bt_dummy btr = true -> bt_blockName btr = None;
  bo_named : bt_blockName btr <> None -> 1 <= bt_nestingLevel btr }.

Record blocks_inv (bt : list BlockTabRec) (lookup : string -> Z) : Prop := mkBlocksInv {
  bi_names : names_ok bt lookup;
  bi_blocks : forall i btr, aget bt i = Some btr -> block_ok i btr;
  bi_root : exists b0, aget bt 0 = Some b0
      /\ bt_blockName b0 = None /\ bt_dummy b0 = false }.

(** While the commands are parsed. *)
Record parser_inv (p : Parser) : Prop := mkParserInv {
  pi_blocks : blocks_inv p.(blockTab) (p_lookupBlockName p);
  pi_level : 1 <= p.(currentNestingLevel) <= maxNestingLevel;
  pi_openLen : alen p.(openBlocksTab) = maxNestingLevel + 1;
  pi_open : forall l, 0 <= l < p.(currentNestingLevel) ->
      exists b, aget p.(openBlocksTab) l = Some (wrap16 b) /\ 0 <= b < alen p.(blockTab);
  pi_maps : forall i btr, aget p.(blockTab) i = Some btr ->
      bt_blockVarNoToVarNoMap btr = [];
  pi_vars : p.(varTab) = [] /\ p.(varRefTab) = [] /\ p.(varNameToNoMap) = ∅ }.

(** The fields that [parser_inv] reads. *)
Definition relevant (p : Parser) :=
  (blockTab p, blockNameToNoMap p, currentNestingLevel p, openBlocksTab p,
   varTab p, varRefTab p, varNameToNoMap p).

(** The record that [registerBlock] appends and the state it leaves. *)
Definition registeredBlock (p : Parser) (blockName : option string) (parentBlockNo : Z)
    : BlockTabRec :=
  mkBlock blockName
    (match blockName with Some n => p_lookupBlockName p n | None => -1 end)
    0 0 0 0 p.(currentNestingLevel) parentBlockNo true [] (-1) false.

Definition afterRegisterBlock (p : Parser) (blockName : option string) (parentBlockNo : Z)
    : Parser :=
  set_blockTab (p.(blockTab) ++ [registeredBlock p blockName parentBlockNo])
    (match blockName with
     | Some n => set_blockNameToNoMap (<[n := alen p.(blockTab)]> p.(blockNameToNoMap)) p
     | None => p
     end).

(** The exceptions that parsing raises by its own [throw] statements and by
    the loader. *)
Definition oversizeError : exn :=
  JsError ("Subtemplate include aborted because the internal template string would become longer than "
             ++ Js.numToString maxInclTemplateSize ++ " characters.").

Inductive parserThrows : exn -> Prop :=
| throws_syntax msg : parserThrows (newTemplateSyntaxError msg)
| throws_oversize : parserThrows oversizeError
| throws_loader templateName : parserThrows (LoaderRejected templateName)
| throws_fuel : parserThrows OutOfFuel.

(** A parser step keeps the invariant, and throws what [parserThrows]
    lists only. *)
Definition preserves {A} (m : Prs A) : Prop :=
  forall p, parser_inv p ->
    mspec m p (fun _ p' => parser_inv p') (fun e _ => parserThrows e).

(** The variable tables: a name is looked up to its index in [varTab], every
    entry of [varTab] is looked up to its own index, and every reference
    names a variable of the table. *)
Record vars_ok (vt : list string) (lookup : string -> Z) (refs : list VarRefTabRec)
    : Prop := mkVarsOk {
  vo_lookup : forall n i, lookup n = i -> i <> -1 -> aget vt i = Some n;
  vo_absent : forall n, lookup n = -1 -> n ∉ vt;
  vo_index : forall i n, aget vt i = Some n -> lookup n = i;
  vo_refs : Forall (fun varNo => 0 <= varNo < alen vt) (map vr_varNo refs) }.

(** The association of references with blocks: every entry of a block's
    [blockVarNoToVarNoMap] is the variable of a reference that was assigned
    to this block. *)
Definition assoc_ok (bt : list BlockTabRec) (refs : list VarRefTabRec) : Prop :=
  forall i btr v, aget bt i = Some btr -> v ∈ bt_blockVarNoToVarNoMap btr ->
    exists r, r ∈ refs /\ vr_varNo r = v /\ vr_blockNo r = i.

(** The same, while the references below [k] have been associated. *)
Definition assoc_upto (k : Z) (bt : list BlockTabRec) (refs : list VarRefTabRec) : Prop :=
  forall i btr v, aget bt i = Some btr -> v ∈ bt_blockVarNoToVarNoMap btr ->
    exists j r, 0 <= j < k /\ aget refs j = Some r /\ vr_varNo r = v /\ vr_blockNo r = i.

(** After the commands: the block table is complete. *)
Record parsed_inv (p : Parser) : Prop := mkParsedInv {
  pa_blocks : blocks_inv p.(blockTab) (p_lookupBlockName p);
  pa_maps : forall i btr, aget p.(blockTab) i = Some btr ->
      bt_blockVarNoToVarNoMap btr = [];
  pa_vars : p.(varTab) = [] /\ p.(varRefTab) = [] /\ p.(varNameToNoMap) = ∅ }.

(** While the variables are scanned. *)
Record scan_inv (p : Parser) : Prop := mkScanInv {
  sc_blocks : blocks_inv p.(blockTab) (p_lookupBlockName p);
  sc_maps : forall i btr, aget p.(blockTab) i = Some btr ->
      bt_blockVarNoToVarNoMap btr = [];
  sc_vars : vars_ok p.(varTab) (p_lookupVariableName p) p.(varRefTab) }.

(** While the references are associated with blocks; [k] is [varRefNo]. *)
Record assoc_inv (k : Z) (p : Parser) : Prop := mkAssocInv {
  as_blocks : blocks_inv p.(blockTab) (p_lookupBlockName p);
  as_vars : vars_ok p.(varTab) (p_lookupVariableName p) p.(varRefTab);
  as_assoc : assoc_upto k p.(blockTab) p.(varRefTab);
  as_pos : 0 <= k }.

(** What the association pass may throw beside running out of fuel. *)
Inductive assocThrows : exn -> Prop :=
| assoc_fuel : assocThrows OutOfFuel
| assoc_type : assocThrows JsTypeError
| assoc_assert : assocThrows assertionFailed.

(** What holds of every template that [main] returns. *)
Record template_ok (pt : ParsedTemplate) : Prop := mkTemplateOk {
  to_blocks : blocks_inv pt.(pt_blockTab) pt.(lookupBlockName);
  to_vars : vars_ok pt.(pt_varTab) pt.(lookupVariableName) pt.(pt_varRefTab);
  to_assoc : assoc_ok pt.(pt_blockTab) pt.(pt_varRefTab) }.


(** ** Invariant of the sessions of the output engine *)

(** The dynamic record of a block describes the instances of the block:
    their number, the first and the last one, and the chain of
    [nextBlockInstNo] through them in the order of their creation. *)
Record dyn_ok (insts : list BlockInstTabRec) (blockNo : Z) (bdtr : BlockDynTabRec)
    : Prop := mkDynOk {
  do_instances : instances bdtr = alen (instancesOf insts blockNo);
  do_first : firstBlockInstNo bdtr = hd (-1) (instancesOf insts blockNo);
  do_last : lastBlockInstNo bdtr = List.last (instancesOf insts blockNo) (-1);
  do_linked : linked (nextBlockInstNoOf insts) (firstBlockInstNo bdtr)
                (instancesOf insts blockNo) }.

Record session_inv (t : MiniTemplator) : Prop := mkSessionInv {
  si_len : alen t.(blockDynTab) = alen t.(template).(pt_blockTab);
  si_dyn : forall blockNo bdtr, aget t.(blockDynTab) blockNo = Some bdtr ->
      dyn_ok t.(blockInstTab) blockNo bdtr;
  si_level : forall i r, aget t.(blockInstTab) i = Some r ->
      instancesOf t.(blockInstTab) (bi_blockNo r) !! Z.to_nat (instanceLevel r) = Some i
      /\ 0 <= instanceLevel r }.

(** The parent of every block of the template is a block of the template
    (or [-1]); this is what a template with at most 32768 blocks has. *)
Definition parents_valid (pt : ParsedTemplate) : Prop :=
  forall i btr, aget pt.(pt_blockTab) i = Some btr ->
    bt_parentBlockNo btr = -1 \/ 0 <= bt_parentBlockNo btr < alen pt.(pt_blockTab).

(** The part of a dynamic record that output generation leaves alone. *)
Definition dynCounts (r : BlockDynTabRec) : Z * Z * Z :=
  (instances r, firstBlockInstNo r, lastBlockInstNo r).

(** Two sessions that differ in the cursors [currBlockInstNo] at most. *)
Definition same_but_cursors (t1 t2 : MiniTemplator) : Prop :=
  template t1 = template t2
  /\ varValuesTab t1 = varValuesTab t2
  /\ map dynCounts (blockDynTab t1) = map dynCounts (blockDynTab t2)
  /\ blockInstTab t1 = blockInstTab t2.

(** The effect of [addBlocksByNo] along a chain of block numbers. *)
Fixpoint afterAddBlocks (t : MiniTemplator) (chain : list Z) : MiniTemplator :=
  match chain with
  | [] => t
  | blockNo :: rest =>
      match aget t.(template).(pt_blockTab) blockNo, aget t.(blockDynTab) blockNo with
      | Some btr, Some bdtr => afterAddBlocks (afterAddBlockByNo t blockNo btr bdtr) rest
      | _, _ => t
      end
  end.

(** ** Example templates *)

Definition emptyTemplate : ParsedTemplate :=
  mkParsedTemplate "" [] [] [] (fun _ => -1) (fun _ => -1).

(** The template that [main] returns for a text, with the example host. *)
Definition parsedExample (text : string) (conditionVars : list (string * JsValue))
    : ParsedTemplate :=
  match main (parmsOf text conditionVars) evalIdentifier 1000 with
  | Ok pt => pt
  | Throw _ => emptyTemplate
  end.

(** Two block definitions with the same name. *)
Definition twoRowsText : string :=
  "<!-- $beginBlock r -->1<!-- $endBlock r -->-<!-- $beginBlock r -->2<!-- $endBlock r -->".

(** A call sequence leaves the template alone and keeps the invariant. *)
Definition stable (t t' : MiniTemplator) : Prop :=
  session_inv t' /\ template t' = template t.

(** ** Rendering of a chain of instances *)

Definition cursorOf (t : MiniTemplator) (blockNo : Z) : option Z :=
  currBlockInstNo <$> aget t.(blockDynTab) blockNo.

(** A computation that returns [a] and leaves a state with [Q]. *)
Definition returns {S A} (m : M S A) (s : S) (Q : A -> S -> Prop) : Prop :=
  mspec m s Q (fun _ _ => False).

(** ** A block of rows *)

Definition rowText : string :=
  "A<!-- $beginBlock row -->[${x}]<!-- $endBlock row -->B".

(** The tables that [main] returns for [rowText]. *)
Definition rowBlock0 : BlockTabRec :=
  mkBlock None (-1) 0 0 54 54 0 (-1) false [] (-1) false.
Definition rowBlock1 : BlockTabRec :=
  mkBlock (Some "row"%string) (-1) 1 25 31 53 1 0 false [0] 0 false.
Definition rowVarRef : VarRefTabRec := mkVarRef 0 26 30 1 0.

Definition rowTemplate (lookupVariable lookupBlock : string -> Z) : ParsedTemplate :=
  mkParsedTemplate rowText ["x"%string] [rowVarRef] [rowBlock0; rowBlock1]
    lookupVariable lookupBlock.

(** [setVariable("x", v); addBlock("row")] for each [v]. *)
Definition rowCalls (vs : list JsValue) : list ApiCall :=
  flat_map (fun v => [SetVariable "x" v; AddBlock "row"]) vs.

Fixpoint rowsOutput (vs : list JsValue) : string :=
  match vs with
  | [] => ""
  | v :: rest => ("[" ++ formatVariableValue v ++ "]" ++ rowsOutput rest)%string
  end.

Definition rowOutput (vs : list JsValue) : string :=
  ("A" ++ rowsOutput vs ++ "B")%string.

(** What output generation reads of an instance of the row block. *)
Definition rowView (r : BlockInstTabRec) : Z * Z * option (list (option string)) :=
  (bi_blockNo r, parentInstLevel r, blockVarTab r).

Definition rowViewOf (v : JsValue) : Z * Z * option (list (option string)) :=
  (1, 0, Some [Some (formatVariableValue v)]).

(** The chunks that an instance of the row block pushes. *)
Definition rowBody (s : string) : list string :=
  ["["%string] ++ (if negb (String.eqb s "") then [s] else []) ++ ["]"%string].

(** The sessions after [rowCalls vs] on a new session. *)
Record rowState (pt : ParsedTemplate) (vs : list JsValue) (t : MiniTemplator) : Prop :=
  mkRowState {
  rs_template : template t = pt;
  rs_inv : session_inv t;
  rs_values : List.length (varValuesTab t) = 1%nat;
  rs_root : exists d0, aget (blockDynTab t) 0 = Some d0 /\ instances d0 = 0;
  rs_rows : map rowView (blockInstTab t) = map rowViewOf vs }.

(** Nested blocks. *)
Definition nestedText : string :=
  "<!-- $beginBlock p --><!-- $beginBlock n -->X<!-- $endBlock n --><!-- $endBlock p -->".

(** The chunks of the [i]-th row. *)
Definition bodyAt (vs : list JsValue) (i : Z) : list string :=
  match vs !! Z.to_nat i with
  | Some v => rowBody (formatVariableValue v)
  | None => []
  end.

(** The instance of the main block that output generation adds. *)
Definition rootInst : BlockInstTabRec := mkBlockInst 0 0 (-1) (-1) None.

(** ** Variables whose references are all in excluded ranges *)

Definition setValues (v : list (option string)) : MiniTemplator -> MiniTemplator :=
  set_varValuesTab (fun _ => v).

(** Two tables of current values that agree except for the variable
    [varNo]. *)
Definition agreeExcept (varNo : Z) (v1 v2 : list (option string)) : Prop :=
  List.length v1 = List.length v2 /\ forall i, i <> varNo -> aget v1 i = aget v2 i.

(** A computation that, in the sessions of the template [pt], does not look
    at the current value of [varNo] and leaves the template and the current
    values alone. *)
Definition ignoresValueOf (pt : ParsedTemplate) (varNo : Z) {A} (m : Eng A) : Prop :=
  forall v t, template t = pt -> agreeExcept varNo (varValuesTab t) v ->
    m (setValues v t) = (fst (m t), setValues v (snd (m t)))
    /\ varValuesTab (snd (m t)) = varValuesTab t
    /\ template (snd (m t)) = template t.

(** Every reference to the variable belongs to a dummy block. *)
Definition hiddenVariable (pt : ParsedTemplate) (varNo : Z) : Prop :=
  forall r btr, r ∈ pt.(pt_varRefTab) -> vr_varNo r = varNo ->
    aget pt.(pt_blockTab) (vr_blockNo r) = Some btr -> bt_dummy btr = true.

(** The block does not copy the variable into its instances. *)
Definition safeBlock (pt : ParsedTemplate) (varNo blockNo : Z) : Prop :=
  forall btr, aget pt.(pt_blockTab) blockNo = Some btr ->
    varNo ∉ bt_blockVarNoToVarNoMap btr.

(** Two calls that differ at most in the value they give to [x]. *)
Inductive sameCallBut (x : string) : ApiCall -> ApiCall -> Prop :=
| same_call c : sameCallBut x c c
| same_set v1 v2 : sameCallBut x (SetVariable x v1) (SetVariable x v2)
| same_setOpt v1 v2 : sameCallBut x (SetVariableOpt x v1) (SetVariableOpt x v2).

(** Two sessions that differ at most in the current value of [varNo]. *)
Definition related (varNo : Z) (t1 t2 : MiniTemplator) : Prop :=
  template t1 = template t2
  /\ blockDynTab t1 = blockDynTab t2
  /\ blockInstTab t1 = blockInstTab t2
  /\ agreeExcept varNo (varValuesTab t1) (varValuesTab t2).

(** A placeholder in a branch that is not taken. *)
Definition dummyText : string := "<!-- $if a -->${x}<!-- $endIf -->Y${y}".

(** The reference belongs to a dummy block. *)
Definition inDummyBlock (pt : ParsedTemplate) (r : VarRefTabRec) : bool :=
  match aget pt.(pt_blockTab) (vr_blockNo r) with
  | Some btr => bt_dummy btr
  | None => false
  end.

(** Every reference to the variable [varNo] belongs to a dummy block. *)
Definition onlyInDummyBlocks (pt : ParsedTemplate) (varNo : Z) : bool :=
  forallb (fun r => negb (vr_varNo r =? varNo) || inDummyBlock pt r) pt.(pt_varRefTab).

Definition dummyCondVars : list (string * JsValue) := [("a"%string, JsBool false)].

(** ** Templates without commands and variables *)

(** The one block of a template without commands. *)
Definition plainBlock (text : string) : BlockTabRec :=
  mkBlock None (-1) 0 0 (Js.strlen text) (Js.strlen text) 0 (-1) false [] (-1) false.

(** The main block has at most one instance, and its dynamic record counts
    it. *)
Record root_inv (t : MiniTemplator) : Prop := mkRootInv {
  ri_len : alen t.(blockDynTab) = alen t.(template).(pt_blockTab);
  ri_root : exists d0, aget t.(blockDynTab) 0 = Some d0
      /\ instances d0 = alen (instancesOf t.(blockInstTab) 0)
      /\ instances d0 <= 1
      /\ (lastBlockInstNo d0 = -1 \/ 0 <= lastBlockInstNo d0 < alen t.(blockInstTab)) }.

(** While [addBlockByNo] runs for a block other than the main block, from
    the session [t]: the new instance is the last one and is no instance
    of the main block; the record and the instances of the main block are
    those of [t]. *)
Record adding (t s : MiniTemplator) : Prop := mkAdding {
  ad_template : template s = template t;
  ad_values : varValuesTab s = varValuesTab t;
  ad_dynLen : alen s.(blockDynTab) = alen t.(blockDynTab);
  ad_root : aget s.(blockDynTab) 0 = aget t.(blockDynTab) 0;
  ad_rootInsts : instancesOf s.(blockInstTab) 0 = instancesOf t.(blockInstTab) 0;
  ad_len : alen s.(blockInstTab) = alen t.(blockInstTab) + 1;
  ad_new : exists r, aget s.(blockInstTab) (alen t.(blockInstTab)) = Some r
      /\ bi_blockNo r <> 0 }.

(** What a call that adds no instance of the main block keeps. *)
Record keepsRoot (t s : MiniTemplator) : Prop := mkKeepsRoot {
  kr_template : template s = template t;
  kr_dynLen : alen s.(blockDynTab) = alen t.(blockDynTab);
  kr_root : aget s.(blockDynTab) 0 = aget t.(blockDynTab) 0;
  kr_rootInsts : instancesOf s.(blockInstTab) 0 = instancesOf t.(blockInstTab) 0;
  kr_len : alen t.(blockInstTab) <= alen s.(blockInstTab) }.

(** ** Conditional commands *)

(** The state of the conditions. *)
Definition condView (p : Parser) : Z * gmap Z bool * gmap Z bool :=
  (condLevel p, condEnabled p, condPassed p).

(** The condition of an [$if] or [$elseIf] evaluates to [true]. *)
Definition exprTrue (pParms : ParserParms)
    (evalJs : list (string * JsValue) -> string -> string + bool) (parms : string) : bool :=
  match evalJs pParms.(conditionVars) parms with
  | inr r => r
  | inl _ => false
  end.

(** The branches example. *)
Definition branchesText : string :=
  "<!-- $if a -->A<!-- $elseIf b -->B<!-- $elseIf c -->C<!-- $else -->D<!-- $endIf -->".
Definition branchesVars : list (string * JsValue) :=
  [("a"%string, JsBool false); ("b"%string, JsBool true); ("c"%string, JsBool true)].

(** The sessions of the branches example: the main block has an instance
    or not; the cursors are any. *)
(** The template that [main] returns for it. *)
Definition branchesTemplate : ParsedTemplate :=
  Eval vm_compute in parsedExample branchesText branchesVars.

Definition branchesState (added : bool) (c0 c1 c2 : Z) : MiniTemplator :=
  mkMiniTemplator branchesTemplate []
    [ (if added then mkBlockDyn 1 0 0 c0 else mkBlockDyn 0 (-1) (-1) c0);
      mkBlockDyn 0 (-1) (-1) c1; mkBlockDyn 0 (-1) (-1) c2 ]
    (if added then [rootInst] else []).

(** An output, when the call returned one, is [s]. *)
Definition outputIs (s : string) (r : outcome (option string)) : Prop :=
  match r with
  | Ok (Some o) => o = s
  | _ => True
  end.

(** ** An inclusion that makes the text too long *)

Definition bigText : string := Pos.iter (String "x"%char) EmptyString 1000001%positive.

Definition oversizeParms : ParserParms :=
  mkParserParms "template.html" [] false
    (loaderOf [("template.html"%string, "<!-- $include big -->"%string);
               ("big"%string, bigText)]).



(** ** Escaping, character by character *)

(** What [escapeHtml] writes for one character. *)
Definition escapeChar (c : ascii) : string :=
  match escapeEntity (Some (Z.of_nat (nat_of_ascii c))) with
  | Some r => r
  | None => String c EmptyString
  end.

Fixpoint escapeChars (s : string) : string :=
  match s with
  | EmptyString => EmptyString
  | String c s' => (escapeChar c ++ escapeChars s')%string
  end.

(** The five characters that [escapeHtml] replaces. *)
Definition isHtmlSpecial (c : ascii) : bool :=
  match escapeEntity (Some (Z.of_nat (nat_of_ascii c))) with
  | Some _ => true
  | None => false
  end.

Fixpoint stringForall (f : ascii -> bool) (s : string) : bool :=
  match s with
  | EmptyString => true
  | String c s' => f c && stringForall f s'
  end.

(** The characters that can end or open a tag or an attribute value. *)
Definition isMarkup (c : ascii) : bool :=
  let n := nat_of_ascii c in
  ((n =? 34) || (n =? 39) || (n =? 60) || (n =? 62))%nat.

(** ** The table of the variable values *)

(** [s] has the template and the variable values of [t]. *)
Definition keepsValues (t s : MiniTemplator) : Prop :=
  template s = template t /\ varValuesTab s = varValuesTab t.

(** The table of the values has one entry for each variable of the
    template. *)
Definition values_ok (t : MiniTemplator) : Prop :=
  alen (varValuesTab t) = alen (pt_varTab (template t)).

(** The session after [setVariable] has stored [s] as the value of the
    variable [varNo]. *)
Definition withValue (varNo : Z) (s : string) (t : MiniTemplator) : MiniTemplator :=
  set_varValuesTab (fun l => aset l varNo (Some s)) t.

(** ** Output generation, step by step *)

(** The assignment of the cursors at the start of [generateOutputArray]. *)
Definition resetCursors : MiniTemplator -> MiniTemplator :=
  set_blockDynTab (map (fun bdtr => with_currBlockInstNo bdtr.(firstBlockInstNo) bdtr)).

(** The block [b] has [n] instances, as its dynamic record counts them. *)
Definition instancesAt (b n : Z) (s : MiniTemplator) : Prop :=
  exists d, aget (blockDynTab s) b = Some d /\ instances d = n.

(** ** The template cache *)

(** The error of [encodeConditionVarValue]. *)
Definition unsupportedValue : exn :=
  JsError "Unsupported data type of a condition variable value.".

(** ** Parse errors *)

Definition invalidComment (offset : Z) : exn :=
  newTemplateSyntaxError
    ("Invalid HTML comment in template at offset " ++ Js.numToString offset ++ ".").

Definition invalidReference (offset : Z) : exn :=
  newTemplateSyntaxError
    ("Invalid variable reference in template at offset " ++ Js.numToString offset ++ ".").

Definition emptyVariableName (offset : Z) : exn :=
  newTemplateSyntaxError
    ("Empty variable name in template at offset " ++ Js.numToString offset ++ ".").


(** ** Templates that hold variables only *)

(** The text with every reference [${name}] replaced by [val name]: the
    meaning of a template text without commands.  [None] when a reference
    is not closed, when a name is blank, or when the fuel does not cover
    the references. *)
Fixpoint expand (fuel : nat) (val : string -> string) (text : string) (p : Z)
    : option string :=
  match fuel with
  | O => None
  | S fuel' =>
      let p0 := Js.indexOf text "${" p in
      if (p0 =? -1) then Some (Js.substringFrom text p) else
      let p1 := Js.indexOf text "}" p0 in
      if (p1 =? -1) then None else
      let name := Js.trim (Js.substring text (p0 + 2) p1) in
      if (Js.strlen name =? 0) then None else
      match expand fuel' val text (p1 + 1) with
      | Some rest => Some (Js.substring text p p0 ++ val name ++ rest)%string
      | None => None
      end
  end.

(** The references of a text from the position [p] on: the name and the
    positions of the first and behind the last character of each. *)
Fixpoint scanRefs (fuel : nat) (text : string) (p : Z) : option (list (string * Z * Z)) :=
  match fuel with
  | O => None
  | S fuel' =>
      let p0 := Js.indexOf text "${" p in
      if (p0 =? -1) then Some [] else
      let p1 := Js.indexOf text "}" p0 in
      if (p1 =? -1) then None else
      let name := Js.trim (Js.substring text (p0 + 2) p1) in
      if (Js.strlen name =? 0) then None else
      match scanRefs fuel' text (p1 + 1) with
      | Some l => Some ((name, p0, p1 + 1) :: l)
      | None => None
      end
  end.

Fixpoint expandRefs (val : string -> string) (text : string) (p : Z)
    (l : list (string * Z * Z)) : string :=
  match l with
  | [] => Js.substringFrom text p
  | (n, b, e) :: l' => (Js.substring text p b ++ val n ++ expandRefs val text e l')%string
  end.

(** Each reference begins at or after the end of the one before it, and
    inside the text. *)
Fixpoint refsSorted (len p : Z) (l : list (string * Z * Z)) : Prop :=
  match l with
  | [] => True
  | (n, b, e) :: l' => p <= b /\ b < e /\ e <= len /\ refsSorted len e l'
  end.

Definition refName (r : string * Z * Z) : string := r.1.1.

(** The record of the reference number [k] once it is associated with the
    main block. *)
Definition refRecord (lookup : string -> Z) (k : Z) (r : string * Z * Z) : VarRefTabRec :=
  mkVarRef (lookup (refName r)) r.1.2 r.2 0 k.

Fixpoint refRecords (lookup : string -> Z) (k : Z) (l : list (string * Z * Z))
    : list VarRefTabRec :=
  match l with
  | [] => []
  | r :: l' => refRecord lookup k r :: refRecords lookup (k + 1) l'
  end.

(** The main block of a text without commands that holds the references
    [l]. *)
Definition variablesBlock (text : string) (lookup : string -> Z)
    (l : list (string * Z * Z)) : BlockTabRec :=
  mkBlock None (-1) 0 0 (Js.strlen text) (Js.strlen text) 0 (-1) false
    (map (fun r => lookup (refName r)) l)
    (match l with [] => -1 | _ => 0 end) false.

(** The current value of a variable of the session, as output generation
    writes it. *)
Definition currentValue (t : MiniTemplator) (name : string) : string :=
  default ""%string
    (mjoin (aget (varValuesTab t) (lookupVariableName (template t) name))).

(** The parser after the commands of a text without commands. *)
Definition afterCommands (text : string) : Parser :=
  mkParser text [] ∅ [] [plainBlock text] ∅ 0
    (replicate (Z.to_nat (maxNestingLevel + 1)) 0)
    (-1)
    (list_to_map (map (fun i => (Z.of_nat i, false)) (seq 0 (Z.to_nat maxCondLevels))))
    (list_to_map (map (fun i => (Z.of_nat i, false)) (seq 0 (Z.to_nat maxCondLevels))))
    false.

(** The record of a reference before it is associated with a block. *)
Definition rawRecord (lookup : string -> Z) (r : string * Z * Z) : VarRefTabRec :=
  mkVarRef (lookup (refName r)) r.1.2 r.2 0 0.

(** What the scan of the variables has registered: the references [l],
    each with the number of its variable. *)
Record scanned (text : string) (l : list (string * Z * Z)) (s : Parser) : Prop := mkScanned {
  sd_text : templateText s = text;
  sd_blocks : blockTab s = [plainBlock text];
  sd_refs : varRefTab s = map (rawRecord (p_lookupVariableName s)) l;
  sd_known : forall r, r ∈ l -> p_lookupVariableName s (refName r) <> -1 }.

(** While the references are associated with the main block: those of
    [l1] are, those of [l2] are not yet. *)
Record associated (text : string) (lookup : string -> Z)
    (l1 l2 : list (string * Z * Z)) (s : Parser) : Prop := mkAssociated {
  asd_text : templateText s = text;
  asd_lookup : forall n, p_lookupVariableName s n = lookup n;
  asd_blocks : blockTab s = [variablesBlock text lookup l1];
  asd_refs : varRefTab s = refRecords lookup 0 l1 ++ map (rawRecord lookup) l2 }.

(** What [writeBlockInstance] pushes for the main block of a template that
    holds variables only: the text between the references where there is
    some, and the value of each reference where it is not empty. *)
Fixpoint chunks (value : string -> option string) (text : string) (p : Z)
    (l : list (string * Z * Z)) : list string :=
  match l with
  | [] => if (p <? Js.strlen text) then [Js.substring text p (Js.strlen text)] else []
  | (n, b, e) :: l' =>
      (if (p <? b) then [Js.substring text p b] else [])
      ++ (if isTruthy (value n) then [default ""%string (value n)] else [])
      ++ chunks value text e l'
  end.

(** The value of a variable as [addBlockByNo] copies it. *)
Definition copiedValue (t : MiniTemplator) (name : string) : option string :=
  mjoin (aget (varValuesTab t) (lookupVariableName (template t) name)).


(** ** Parse failures and loops that do not end *)

(** [m'] does what [m] does, wherever [m] does not run out of fuel. *)
Definition extends {S A} (m m' : M S A) : Prop :=
  forall s, fst (m s) <> Throw OutOfFuel -> m' s = m s.

(** [parseTemplate] up to the association of the variables with the
    blocks, which is its last step. *)
Definition parseBeforeAssociation (pParms : ParserParms)
    (evalJs : list (string * JsValue) -> string -> string + bool) (fuel : nat) : Prs unit :=
  do! beginMainBlock in
  do! parseTemplateCommands pParms evalJs fuel in
  do! endMainBlock in
  do! checkBlockDefinitionsComplete in
  let! p := get in
  if negb (p.(condLevel) =? -1)
  then throw (newTemplateSyntaxError "$if without matching $endIf.")
  else parseTemplateVariables fuel.

(** [main] throws [e] from the association pass: the main template is
    loaded, the commands and the variables are parsed, and
    [associateVariablesWithBlocks] throws [e]. *)
Definition thrownByAssociation (pParms : ParserParms)
    (evalJs : list (string * JsValue) -> string -> string + bool) (fuel : nat) (e : exn)
    : Prop :=
  exists mainText p,
    pParms.(loadTemplateFile) pParms.(mainTemplateName) = Some mainText
    /\ parseBeforeAssociation pParms evalJs fuel (initialParser mainText) = (Ok tt, p)
    /\ fst (associateVariablesWithBlocks fuel p) = Throw e.

(** What a parse throws, and from where. *)
Definition parseFailureOf (pParms : ParserParms)
    (evalJs : list (string * JsValue) -> string -> string + bool) (fuel : nat) (e : exn)
    : Prop :=
  (exists msg, e = newTemplateSyntaxError msg)
  \/ e = oversizeError
  \/ (exists templateName, e = LoaderRejected templateName)
  \/ ((e = JsTypeError \/ e = assertionFailed) /\ thrownByAssociation pParms evalJs fuel e)
  \/ e = OutOfFuel.

(** A template that includes itself. *)
Definition selfIncludeText : string := "<!-- $include t -->".

Definition selfIncludeParms : ParserParms :=
  mkParserParms "t" [] false (loaderOf [("t"%string, selfIncludeText)]).

(** The parser of the template that includes itself, at the begin of a
    turn of the loop of [parseTemplateCommands]; [resume] is
    [resumeCmdParsingFromStart]. *)
Definition selfIncludeParser (resume : bool) : Parser :=
  set_resumeCmdParsingFromStart resume
    (snd (beginMainBlock (initialParser selfIncludeText))).

(** ** Texts without commands *)

(** The text of an HTML comment is a command line when its first word
    begins with [$] and not with [${]: [processTemplateCommand] takes such
    a word for the name of a command. *)
Definition isCommandLine (cmdLine : string) : bool :=
  let p0 := skipBlanks cmdLine 0 in
  if (Js.strlen cmdLine <=? p0) then false else
  let cmd := Js.substring cmdLine p0 (skipNonBlanks cmdLine p0) in
  Js.startsWith cmd "$" && negb (Js.startsWith cmd "${").

(** From the position [p] on, every [<!--] of the text is followed by a
    [-->], and the comment between them is no command line.  [false] also
    when the fuel does not cover the comments. *)
Fixpoint plainComments (fuel : nat) (text : string) (p : Z) : bool :=
  match fuel with
  | O => false
  | S fuel' =>
      let p0 := Js.indexOf text cmdStartStr p in
      if (p0 =? -1) then true else
      let p1 := Js.indexOf text cmdEndStr (p0 + Js.strlen cmdStartStr) in
      if (p1 =? -1) then false else
      negb (isCommandLine (Js.substring text (p0 + Js.strlen cmdStartStr) p1))
      && plainComments fuel' text (p1 + Js.strlen cmdEndStr)
  end.

(** ** The references of a parsed text *)

(** What the scan of the variables has registered: a record for each of
    the references [l], with the number of a registered variable. *)
Record registered (l : list (string * Z * Z)) (s : Parser) : Prop := mkRegistered {
  rg_refs : varRefTab s = map (rawRecord (p_lookupVariableName s)) l;
  rg_known : forall r, r ∈ l -> p_lookupVariableName s (refName r) <> -1 }.

(** The variable and the positions of a reference record. *)
Definition refKey (r : VarRefTabRec) : Z * Z * Z :=
  (vr_varNo r, vr_tPosBegin r, vr_tPosEnd r).

(** The variable and the positions of a reference of the text. *)
Definition keyOf (lookup : string -> Z) (r : string * Z * Z) : Z * Z * Z :=
  (lookup (refName r), r.1.2, r.2).

(** The positions of a block, and whether it is a dummy block. *)
Definition blockRange (b : BlockTabRec) : Z * Z * bool :=
  (bt_tPosBegin b, bt_tPosEnd b, bt_dummy b).

(** The reference begins inside the block it belongs to. *)
Definition insideItsBlock (bt : list BlockTabRec) (r : VarRefTabRec) : Prop :=
  exists btr, aget bt (vr_blockNo r) = Some btr
    /\ bt_tPosBegin btr <= vr_tPosBegin r < bt_tPosEnd btr.

(** While the references are associated with blocks: the text, the
    variables, the positions of the references and of the blocks are those
    of [s0], and the references before [k] begin inside their blocks. *)
Record associating (s0 : Parser) (k : Z) (s : Parser) : Prop := mkAssociating {
  ag_text : templateText s = templateText s0;
  ag_map : varNameToNoMap s = varNameToNoMap s0;
  ag_refs : map refKey (varRefTab s) = map refKey (varRefTab s0);
  ag_blocks : map blockRange (blockTab s) = map blockRange (blockTab s0);
  ag_inside : forall j r, 0 <= j < k -> aget (varRefTab s) j = Some r ->
      insideItsBlock (blockTab s) r }.


(** ** Templates without nested blocks *)

(** A block at the top level of the text: its name, the positions of its
    [$beginBlock] command, of its contents and behind its [$endBlock]
    command, and the references in its contents. *)
Record topBlock : Type := mkTopBlock {
  tb_name : string;
  tb_begin : Z;
  tb_contentsBegin : Z;
  tb_contentsEnd : Z;
  tb_end : Z;
  tb_refs : list (string * Z * Z) }.

(** What the main block of such a text holds, in the order of the text:
    references and blocks. *)
Inductive item : Type :=
| IRef (r : string * Z * Z)
| IBlock (b : topBlock).

(** The items follow one another from the position [p] on and end inside
    the text; a [$beginBlock] command is not empty, and the references of
    a block are in its contents. *)
Fixpoint itemsSorted (len p : Z) (items : list item) : Prop :=
  match items with
  | [] => p <= len
  | IRef r :: rest => p <= r.1.2 /\ r.1.2 < r.2 /\ itemsSorted len r.2 rest
  | IBlock b :: rest =>
      p <= tb_begin b /\ tb_begin b < tb_contentsBegin b
      /\ tb_contentsBegin b <= tb_contentsEnd b
      /\ refsSorted (tb_contentsEnd b) (tb_contentsBegin b) (tb_refs b)
      /\ tb_contentsEnd b <= tb_end b
      /\ itemsSorted len (tb_end b) rest
  end.

(** The records of the references of the block number [j], the first of
    them being the reference number [k] of the block. *)
Fixpoint blockRefs (lookup : string -> Z) (j k : Z) (l : list (string * Z * Z))
    : list VarRefTabRec :=
  match l with
  | [] => []
  | r :: l' => mkVarRef (lookup (refName r)) r.1.2 r.2 j k :: blockRefs lookup j (k + 1) l'
  end.

(** The reference table of the items: [j] is the number of the next block
    and [k] the number, within the main block, of its next reference. *)
Fixpoint refsOf (lookup : string -> Z) (j k : Z) (items : list item) : list VarRefTabRec :=
  match items with
  | [] => []
  | IRef r :: rest =>
      mkVarRef (lookup (refName r)) r.1.2 r.2 0 k :: refsOf lookup j (k + 1) rest
  | IBlock b :: rest => blockRefs lookup j 0 (tb_refs b) ++ refsOf lookup (j + 1) k rest
  end.

(** The record of a block of the top level; [f] is the number of its
    first reference in the reference table. *)
Definition topBlockRecord (lookup : string -> Z) (f : Z) (b : topBlock) : BlockTabRec :=
  mkBlock (Some (tb_name b)) (-1) (tb_begin b) (tb_contentsBegin b) (tb_contentsEnd b)
    (tb_end b) 1 0 false (map (fun r => lookup (refName r)) (tb_refs b))
    (match tb_refs b with [] => -1 | _ => f end) false.

(** The block table of the items behind the main block; [f] is the
    number of the next reference of the reference table. *)
Fixpoint blocksOf (lookup : string -> Z) (f : Z) (items : list item) : list BlockTabRec :=
  match items with
  | [] => []
  | IRef _ :: rest => blocksOf lookup (f + 1) rest
  | IBlock b :: rest =>
      topBlockRecord lookup f b :: blocksOf lookup (f + alen (tb_refs b)) rest
  end.

(** The references of the main block. *)
Fixpoint mainRefs (items : list item) : list (string * Z * Z) :=
  match items with
  | [] => []
  | IRef r :: rest => r :: mainRefs rest
  | IBlock _ :: rest => mainRefs rest
  end.

(** The number of the first reference of the main block in the reference
    table, [-1] when it has none. *)
Fixpoint firstMainRef (f : Z) (items : list item) : Z :=
  match items with
  | [] => -1
  | IRef _ :: _ => f
  | IBlock b :: rest => firstMainRef (f + alen (tb_refs b)) rest
  end.

Definition mainBlockRecord (lookup : string -> Z) (text : string) (items : list item)
    : BlockTabRec :=
  mkBlock None (-1) 0 0 (Js.strlen text) (Js.strlen text) 0 (-1) false
    (map (fun r => lookup (refName r)) (mainRefs items)) (firstMainRef 0 items) false.

(** The tables of the template are those of a text without nested blocks
    that holds the items. *)
Record flatTemplate (pt : ParsedTemplate) (items : list item) : Prop := mkFlatTemplate {
  ft_blocks : pt_blockTab pt
              = mainBlockRecord (lookupVariableName pt) (pt_templateText pt) items
                :: blocksOf (lookupVariableName pt) 0 items;
  ft_refs : pt_varRefTab pt = refsOf (lookupVariableName pt) 1 0 items;
  ft_sorted : itemsSorted (Js.strlen (pt_templateText pt)) 0 items }.

(** *** What the output is *)

(** The value of a variable among the values [vals], as output
    generation writes it. *)
Definition valueIn (lookup : string -> Z) (vals : list (option string)) (name : string)
    : string :=
  default ""%string (mjoin (aget vals (lookup name))).

(** The text from [p] to [q] with the references [l] replaced by their
    values. *)
Fixpoint expandUpTo (val : string -> string) (text : string) (p q : Z)
    (l : list (string * Z * Z)) : string :=
  match l with
  | [] => Js.substring text p q
  | (n, b, e) :: l' => (Js.substring text p b ++ val n ++ expandUpTo val text e q l')%string
  end.

(** The text from [p] on with the references of the main block replaced
    by their values [val0], and each block replaced by its contents once
    for each of its instances, in their order, with the values of the
    instance; [rows j] are the values of the instances of the block number
    [j]. *)
Fixpoint expandItems (val0 : string -> string) (rows : Z -> list (string -> string))
    (text : string) (p j : Z) (items : list item) : string :=
  match items with
  | [] => Js.substringFrom text p
  | IRef (n, b, e) :: rest =>
      (Js.substring text p b ++ val0 n ++ expandItems val0 rows text e j rest)%string
  | IBlock b :: rest =>
      (Js.substring text p (tb_begin b)
       ++ joinEmpty
            (map (fun val => expandUpTo val text (tb_contentsBegin b) (tb_contentsEnd b)
                               (tb_refs b))
                 (rows j))
       ++ expandItems val0 rows text (tb_end b) (j + 1) rest)%string
  end.

(** *** The instances that calls add *)

(** Calls that set variables and add blocks. *)
Definition isBuildCall (c : ApiCall) : bool :=
  match c with
  | Reset | GenerateOutput => false
  | _ => true
  end.

(** What a call adds: the number of the block and the values of the
    variables at the time of the call. *)
Definition addedByCall (c : ApiCall) (t : MiniTemplator) : list (Z * list (option string)) :=
  match c with
  | AddBlock n | AddBlockOpt n =>
      if (lookupBlockName (template t) n =? -1) then []
      else [(lookupBlockName (template t) n, varValuesTab t)]
  | _ => []
  end.

(** What the calls add from the session [t] on, in the order of the
    calls. *)
Fixpoint addedBy (fuel : nat) (calls : list ApiCall) (t : MiniTemplator)
    : list (Z * list (option string)) :=
  match calls with
  | [] => []
  | c :: rest => addedByCall c t ++ addedBy fuel rest (snd (runCall fuel c t))
  end.

(** The values of the instances of the block [j] among the added ones. *)
Definition rowsOf (lookup : string -> Z) (added : list (Z * list (option string))) (j : Z)
    : list (string -> string) :=
  map (fun h => valueIn lookup h.2) (List.filter (fun h => h.1 =? j) added).

(** What output generation reads of an instance. *)
Definition instView (r : BlockInstTabRec) : Z * Z * option (list (option string)) :=
  (bi_blockNo r, parentInstLevel r, blockVarTab r).

(** The instance of the block [h.1] that is added at the top level while
    the variables have the values [h.2]. *)
Definition viewOf (pt : ParsedTemplate) (h : Z * list (option string))
    : Z * Z * option (list (option string)) :=
  (h.1, 0,
   snapshotOf h.2
     (match aget (pt_blockTab pt) h.1 with
      | Some btr => bt_blockVarNoToVarNoMap btr
      | None => []
      end)).

(** The sessions that calls which set variables and add blocks reach:
    the main block has no instance, and the instances are the added
    ones. *)
Record built (pt : ParsedTemplate) (added : list (Z * list (option string)))
    (t : MiniTemplator) : Prop := mkBuilt {
  bu_template : template t = pt;
  bu_inv : session_inv t;
  bu_root : instancesAt 0 0 t;
  bu_insts : map instView (blockInstTab t) = map (viewOf pt) added }.

(** *** The chunks that output generation pushes *)

Definition pushText (text : string) (p q : Z) : list string :=
  if (p <? q) then [Js.substring text p q] else [].

Definition pushValue (v : option string) : list string :=
  if isTruthy v then [default ""%string v] else [].

(** The chunks of the contents of a block from [p] to [q]; [value k] is
    the value of the reference number [k] of the block. *)
Fixpoint chunksUpTo (value : Z -> option string) (text : string) (p q k : Z)
    (l : list (string * Z * Z)) : list string :=
  match l with
  | [] => pushText text p q
  | r :: l' =>
      pushText text p r.1.2 ++ pushValue (value k) ++ chunksUpTo value text r.2 q (k + 1) l'
  end.

(** The chunks of the main block from [p] on; [value k] is the value of
    the reference number [k] of the main block and [rows j] are the chunks
    of the instances of the block number [j]. *)
Fixpoint chunksItems (value : Z -> option string) (rows : Z -> list string)
    (text : string) (p j k : Z) (items : list item) : list string :=
  match items with
  | [] => pushText text p (Js.strlen text)
  | IRef r :: rest =>
      pushText text p r.1.2 ++ pushValue (value k)
      ++ chunksItems value rows text r.2 j (k + 1) rest
  | IBlock b :: rest =>
      pushText text p (tb_begin b) ++ rows j
      ++ chunksItems value rows text (tb_end b) (j + 1) k rest
  end.

(** No block is met before the position [lim]: the block table [bt] has
    no block number [sb], or this block begins at the positions [tPos] and
    [lim] or behind them. *)
Definition noSubBlock (bt : list BlockTabRec) (sb tPos lim : Z) : Prop :=
  alen bt <= sb
  \/ exists b, aget bt sb = Some b /\ tPos <= bt_tPosBegin b /\ lim <= bt_tPosBegin b.

(** The numbers of the references, of the blocks, and of the references
    of the blocks before the first reference of the main block. *)
Fixpoint refCount (items : list item) : Z :=
  match items with
  | [] => 0
  | IRef _ :: rest => 1 + refCount rest
  | IBlock b :: rest => alen (tb_refs b) + refCount rest
  end.

Fixpoint blockCount (items : list item) : Z :=
  match items with
  | [] => 0
  | IRef _ :: rest => blockCount rest
  | IBlock _ :: rest => 1 + blockCount rest
  end.

Fixpoint leadRefs (items : list item) : Z :=
  match items with
  | IBlock b :: rest => alen (tb_refs b) + leadRefs rest
  | _ => 0
  end.

(** The value of the reference number [k] of a block in an instance with
    the variable values [tab]. *)
Definition valueAt (tab : option (list (option string))) (k : Z) : option string :=
  match tab with
  | Some l => mjoin (aget l k)
  | None => None
  end.

(** The chunks of an instance of a block of the top level. *)
Definition blockChunks (text : string) (b : topBlock) (r : BlockInstTabRec) : list string :=
  chunksUpTo (valueAt (blockVarTab r)) text (tb_contentsBegin b) (tb_contentsEnd b) 0
    (tb_refs b).

(** What holds of the number [v] of the next reference while the main
    block is written: the items [done] are written, the items [rest] are
    not, and the position is [tPos]. *)
Definition nextRefOk (pt : ParsedTemplate) (items done rest : list item) (tPos v : Z)
    : Prop :=
  (v = -1 /\ mainRefs items = [])
  \/ (0 <= v <= refCount done + leadRefs rest /\ mainRefs items <> []
      /\ forall i r, v <= i < refCount done ->
           aget (pt_varRefTab pt) i = Some r -> vr_tPosBegin r < tPos).

(** The block number [j] of the items; the first one has the number 1. *)
Fixpoint nthBlock (items : list item) (j : Z) : option topBlock :=
  match items with
  | [] => None
  | IRef _ :: rest => nthBlock rest j
  | IBlock b :: rest => if (j =? 1) then Some b else nthBlock rest (j - 1)
  end.

(** The chunks of the instance number [i] of the table [insts], which is
    an instance of the block [b]. *)
Definition instanceChunks (text : string) (insts : list BlockInstTabRec) (b : topBlock)
    (i : Z) : list string :=
  match aget insts i with
  | Some r => blockChunks text b r
  | None => []
  end.

(** The chunks of the instances of the block number [j], in the order of
    the instances. *)
Definition rowChunks (text : string) (items : list item) (insts : list BlockInstTabRec)
    (j : Z) : list string :=
  match nthBlock items j with
  | Some b => List.concat (map (instanceChunks text insts b) (instancesOf insts j))
  | None => []
  end.

(** The items of the rows template: the one block [row] that holds the
    reference [${x}]. *)
Definition rowItems : list item :=
  [IBlock (mkTopBlock "row" 1 25 31 53 [("x"%string, 26, 30)])].


(** * Properties *)

(** ** The cache key *)

(** C8 (evaluation at the failing input).  [genConditionVarsCacheKey]
    pushes the value of a variable where its comment announces the name:
    the condition-variable sets [{a: true, b: false}] and
    [{a: false, b: true}] (and [{a: true}], [{b: true}]) obtain the same key,
    although the template compiles to different artifacts under them; the
    second [get] is answered from the cache with the artifact of the first. *)
Theorem cache_key_collision :
  genConditionVarsCacheKey condVarsA = Ok "true"%string
  /\ genConditionVarsCacheKey condVarsB = Ok "true"%string
  /\ genConditionVarsCacheKey [("a"%string, JsBool true)]
     = genConditionVarsCacheKey [("b"%string, JsBool true)]
  /\ renderWith (parmsOf twoConditionsText condVarsA) evalIdentifier 100 (ret tt) = Ok "A"%string
  /\ renderWith (parmsOf twoConditionsText condVarsB) evalIdentifier 100 (ret tt) = Ok "B"%string
  /\ secondGetOutput 100 = Ok "A"%string.
Proof. repeat split; vm_compute; reflexivity. Qed.

(** ** Rules for [mspec] *)

Section MSpec.
Context {S : Type}.
Implicit Types s : S.

Lemma mspec_ret {A} (a : A) s Q E : Q a s -> mspec (ret a) s Q E.
Proof. done. Qed.

Lemma mspec_throw {A} e s (Q : A -> S -> Prop) E : E e s -> mspec (throw e) s Q E.
Proof. done. Qed.

Lemma mspec_get s (Q : S -> S -> Prop) E : Q s s -> mspec get s Q E.
Proof. done. Qed.

Lemma mspec_modify f s (Q : unit -> S -> Prop) E : Q tt (f s) -> mspec (modify f) s Q E.
Proof. done. Qed.

Lemma mspec_bind {A B} (m : M S A) (k : A -> M S B) s Q E :
  mspec m s (fun a s1 => mspec (k a) s1 Q E) E -> mspec (bind m k) s Q E.
Proof. unfold mspec, bind. by destruct (m s) as [[a|e] s1]. Qed.

Lemma mspec_conseq {A} (m : M S A) s (Q Q' : A -> S -> Prop) (E E' : exn -> S -> Prop) :
  mspec m s Q' E' ->
  (forall a s1, Q' a s1 -> Q a s1) ->
  (forall e s1, E' e s1 -> E e s1) ->
  mspec m s Q E.
Proof. unfold mspec. destruct (m s) as [[a|e] s1]; eauto. Qed.

Lemma mspec_assert (c : bool) s (Q : unit -> S -> Prop) E :
  (c = true -> Q tt s) -> (c = false -> E assertionFailed s) -> mspec (assert c) s Q E.
Proof. destruct c; cbn; eauto. Qed.

Lemma mspec_orTypeError {A} (o : option A) s (Q : A -> S -> Prop) E :
  (forall a, o = Some a -> Q a s) -> (o = None -> E JsTypeError s) ->
  mspec (orTypeError o) s Q E.
Proof. destruct o; cbn; eauto. Qed.

Lemma mspec_run {A} (m : M S A) s Q E r s' :
  mspec m s Q E -> m s = (r, s') ->
  match r with Ok a => Q a s' | Throw e => E e s' end.
Proof. unfold mspec. intros H Heq. by rewrite Heq in H. Qed.

Lemma mspec_intro {A} (m : M S A) s (Q : A -> S -> Prop) (E : exn -> S -> Prop) :
  (forall a s', m s = (Ok a, s') -> Q a s') ->
  (forall e s', m s = (Throw e, s') -> E e s') ->
  mspec m s Q E.
Proof. unfold mspec. destruct (m s) as [[a|e] s1]; eauto. Qed.

Lemma mspec_and {A} (m : M S A) s (Q1 Q2 : A -> S -> Prop) (E1 E2 : exn -> S -> Prop) :
  mspec m s Q1 E1 -> mspec m s Q2 E2 ->
  mspec m s (fun a s' => Q1 a s' /\ Q2 a s') (fun e s' => E1 e s' /\ E2 e s').
Proof. unfold mspec. destruct (m s) as [[a|e] s1]; eauto. Qed.

Lemma bind_ok {A B} (m : M S A) (k : A -> M S B) s a s1 :
  m s = (Ok a, s1) -> bind m k s = k a s1.
Proof. unfold bind. by intros ->. Qed.

Lemma bind_throw {A B} (m : M S A) (k : A -> M S B) s e s1 :
  m s = (Throw e, s1) -> bind m k s = (Throw e, s1).
Proof. unfold bind. by intros ->. Qed.
Lemma mspec_bind_ok {A B} (m : M S A) (k : A -> M S B) s a s1 Q E :
  m s = (Ok a, s1) -> mspec (k a) s1 Q E -> mspec (bind m k) s Q E.
Proof. intros Hm Hk. unfold mspec. by rewrite (bind_ok _ _ _ _ _ Hm). Qed.
End MSpec.

Ltac wp_step :=
  lazymatch goal with
  | |- mspec (bind _ _) _ _ _ => apply mspec_bind
  | |- mspec (ret _) _ _ _ => apply mspec_ret
  | |- mspec get _ _ _ => apply mspec_get
  | |- mspec (modify _) _ _ _ => apply mspec_modify
  | |- mspec (throw _) _ _ _ => apply mspec_throw
  | |- mspec (assert _) _ _ _ => apply mspec_assert; intros ?
  | |- mspec (orTypeError _) _ _ _ =>
      apply mspec_orTypeError; [intros ? ? | intros ?]
  | |- mspec (if ?b then _ else _) _ _ _ => destruct b eqn:?
  | |- mspec (match ?x with _ => _ end) _ _ _ => destruct x eqn:?
  | |- mspec (let _ := _ in _) _ _ _ => cbv zeta
  | |- _ => progress cbv beta
  end.
Ltac wp := repeat wp_step.

(** ** Arrays *)

Section Arrays.
Context {A : Type}.
Implicit Types (l : list A) (i j : Z).

Lemma alen_nonneg l : 0 <= alen l.
Proof. unfold alen. lia. Qed.

Lemma alen_app l1 l2 : alen (l1 ++ l2) = alen l1 + alen l2.
Proof. unfold alen. rewrite length_app. lia. Qed.

Lemma alen_nil : alen (@nil A) = 0.
Proof. done. Qed.

Lemma alen_singleton (x : A) : alen [x] = 1.
Proof. done. Qed.

Lemma alen_cons (x : A) l : alen (x :: l) = 1 + alen l.
Proof. unfold alen. cbn [List.length]. lia. Qed.

Lemma aget_lookup l i : 0 <= i -> aget l i = l !! Z.to_nat i.
Proof. unfold aget. intros. destruct (Z.ltb_spec i 0); [lia|done]. Qed.

Lemma aget_neg l i : i < 0 -> aget l i = None.
Proof. unfold aget. intros. destruct (Z.ltb_spec i 0); [done|lia]. Qed.

Lemma aget_Some l i x : aget l i = Some x -> 0 <= i < alen l.
Proof.
  unfold aget, alen. destruct (Z.ltb_spec i 0); [done|].
  intros Hl%lookup_lt_Some. lia.
Qed.

Lemma aget_is_Some l i : 0 <= i < alen l -> is_Some (aget l i).
Proof.
  unfold alen. intros. rewrite aget_lookup by lia. apply lookup_lt_is_Some. lia.
Qed.

Lemma aget_None l i : aget l i = None -> i < 0 \/ alen l <= i.
Proof.
  unfold aget, alen. destruct (Z.ltb_spec i 0); [lia|].
  intros Hl%lookup_ge_None. lia.
Qed.

Lemma aget_ge l i : alen l <= i -> aget l i = None.
Proof.
  unfold aget, alen. intros. destruct (Z.ltb_spec i 0); [done|].
  apply lookup_ge_None. lia.
Qed.

Lemma aget_app_l l1 l2 i : i < alen l1 -> aget (l1 ++ l2) i = aget l1 i.
Proof.
  unfold aget, alen. intros. destruct (Z.ltb_spec i 0); [done|].
  apply lookup_app_l. lia.
Qed.

Lemma aget_app_last l x : aget (l ++ [x]) (alen l) = Some x.
Proof.
  unfold alen. rewrite aget_lookup by lia. rewrite Nat2Z.id.
  by rewrite lookup_app_r, Nat.sub_diag.
Qed.

Lemma aget_app_r l1 l2 i : alen l1 <= i -> aget (l1 ++ l2) i = aget l2 (i - alen l1).
Proof.
  unfold alen. intros. rewrite !aget_lookup by lia.
  rewrite lookup_app_r by lia. f_equal. lia.
Qed.

Lemma alen_aset l i x : alen (aset l i x) = alen l.
Proof.
  unfold aset, alen. destruct (Z.ltb_spec i 0); [done|]. by rewrite length_insert.
Qed.

Lemma aget_aset_eq l i x : 0 <= i < alen l -> aget (aset l i x) i = Some x.
Proof.
  unfold aset, alen. intros. rewrite aget_lookup by lia.
  destruct (Z.ltb_spec i 0); [lia|]. apply list_lookup_insert_eq. lia.
Qed.

Lemma aget_aset_ne l i j x : i <> j -> aget (aset l i x) j = aget l j.
Proof.
  unfold aset, aget. intros.
  destruct (Z.ltb_spec i 0), (Z.ltb_spec j 0); try done.
  apply list_lookup_insert_ne. lia.
Qed.

Lemma aset_aset_eq l i x y : aset (aset l i x) i y = aset l i y.
Proof.
  unfold aset. destruct (Z.ltb_spec i 0); [done|]. apply list_insert_insert_eq.
Qed.

Lemma aset_app_l l1 l2 i x : i < alen l1 -> aset (l1 ++ l2) i x = aset l1 i x ++ l2.
Proof.
  unfold aset, alen. intros. destruct (Z.ltb_spec i 0); [done|].
  apply insert_app_l. lia.
Qed.

Lemma aset_app_last l x y : aset (l ++ [x]) (alen l) y = l ++ [y].
Proof.
  unfold aset, alen. destruct (Z.ltb_spec (Z.of_nat (List.length l)) 0); [lia|].
  rewrite Nat2Z.id.
  replace (List.length l) with (List.length l + 0)%nat at 1 by lia.
  by rewrite insert_app_r.
Qed.

Lemma aget_app_last_eq l x i : i = alen l -> aget (l ++ [x]) i = Some x.
Proof. intros ->. apply aget_app_last. Qed.

Lemma aset_app_last_eq l x y i : i = alen l -> aset (l ++ [x]) i y = l ++ [y].
Proof. intros ->. apply aset_app_last. Qed.

Lemma aset_id l i x : aget l i = Some x -> aset l i x = l.
Proof.
  unfold aset, aget. destruct (Z.ltb_spec i 0); [done|]. apply list_insert_id.
Qed.
End Arrays.

(** ** Output generation on the overlapping template *)

(** C9 (evaluation at the failing input).  A variable placeholder whose
    text runs over the [$beginBlock] command of block [b] is followed, inside
    [b], by a second placeholder.  The parser accepts the template and
    assigns the second reference to block [b]; while the main block is
    written the block [b] is stepped over, the second reference is met in the
    main block, and [assert(vrtr.blockNo == blockNo)] fails: on a fresh
    session, without any call before it, [generateOutputString] throws. *)
Theorem generateOutput_assertion_fails :
  (exists pt, main (parmsOf overlapText []) evalIdentifier 100 = Ok pt
     /\ map vr_blockNo pt.(pt_varRefTab) = [0; 1]
     /\ map bt_tPosBegin pt.(pt_blockTab) = [0; 3])
  /\ renderWith (parmsOf overlapText []) evalIdentifier 100 (ret tt)
     = Throw (JsError "Assertion failed.").
Proof.
  split; [eexists; split; [vm_compute; reflexivity|split; reflexivity]|].
  vm_compute. reflexivity.
Qed.


(** ** The output engine does not look at the current variable values *)

Section IgnoresVarValues.

Lemma ignores_ret {A} (a : A) : ignoresVarValues (ret a).
Proof. done. Qed.

Lemma ignores_throw {A} e : ignoresVarValues (@throw _ A e).
Proof. done. Qed.

Lemma ignores_bind {A B} (m : Eng A) (k : A -> Eng B) :
  ignoresVarValues m -> (forall a, ignoresVarValues (k a)) -> ignoresVarValues (bind m k).
Proof.
  intros Hm Hk v t. unfold bind. rewrite Hm.
  destruct (m t) as [[a|e] t1]; cbn; [apply Hk|done].
Qed.

Lemma ignores_get_bind {A} (k : MiniTemplator -> Eng A) :
  (forall v t s, k (set_varValuesTab (fun _ => v) t) s = k t s) ->
  (forall t0, ignoresVarValues (k t0)) ->
  ignoresVarValues (bind get k).
Proof.
  intros Hk1 Hk2 v t. unfold bind, get. rewrite Hk1. apply Hk2.
Qed.

Lemma ignores_modify (f : MiniTemplator -> MiniTemplator) :
  (forall v t, f (set_varValuesTab (fun _ => v) t) = set_varValuesTab (fun _ => v) (f t)) ->
  ignoresVarValues (modify f).
Proof. intros Hf v t. unfold modify. cbn. by rewrite Hf. Qed.

Lemma ignores_orTypeError {A} (o : option A) : ignoresVarValues (orTypeError o).
Proof. by destruct o. Qed.

Lemma ignores_assert c : ignoresVarValues (assert c).
Proof. by destruct c. Qed.

Lemma ignores_updBlockDyn blockNo f : ignoresVarValues (updBlockDyn blockNo f).
Proof.
  unfold updBlockDyn. apply ignores_get_bind; [done|intros].
  apply ignores_bind; [apply ignores_orTypeError|intros].
  by apply ignores_modify.
Qed.
End IgnoresVarValues.

Ltac ignores_step :=
  lazymatch goal with
  | |- ignoresVarValues (ret _) => apply ignores_ret
  | |- ignoresVarValues (throw _) => apply ignores_throw
  | |- ignoresVarValues (orTypeError _) => apply ignores_orTypeError
  | |- ignoresVarValues (assert _) => apply ignores_assert
  | |- ignoresVarValues (updBlockDyn _ _) => apply ignores_updBlockDyn
  | |- ignoresVarValues (bind get _) =>
      apply ignores_get_bind; [intros; reflexivity | intros]
  | |- ignoresVarValues (bind _ _) => apply ignores_bind; [ | intros]
  | |- ignoresVarValues (if ?b then _ else _) => destruct b
  | |- ignoresVarValues (match ?x with _ => _ end) => destruct x
  end.

Lemma ignores_writers fuel :
  (forall out blockNo lvl, ignoresVarValues (writeBlockInstances fuel out blockNo lvl))
  /\ (forall out blockInstNo, ignoresVarValues (writeBlockInstance fuel out blockInstNo))
  /\ (forall out bitr blockNo btr tPos subBlockNo varRefNo,
        ignoresVarValues (writeChunks fuel out bitr blockNo btr tPos subBlockNo varRefNo)).
Proof.
  induction fuel as [|fuel (IH1 & IH2 & IH3)].
  { repeat split; intros; apply ignores_throw. }
  repeat split; intros; cbn [writeBlockInstances writeBlockInstance writeChunks].
  - repeat ignores_step; auto.
  - repeat ignores_step; auto.
  - repeat ignores_step; auto.
Qed.

Lemma same_instances_set (t1 t2 : MiniTemplator) :
  same_instances t1 t2 -> t2 = set_varValuesTab (fun _ => varValuesTab t2) t1.
Proof. destruct t1, t2. unfold same_instances. cbn. intros (? & ? & ?). by subst. Qed.

Lemma same_instances_refl t : same_instances t t.
Proof. done. Qed.

Lemma same_instances_trans t1 t2 t3 :
  same_instances t1 t2 -> same_instances t2 t3 -> same_instances t1 t3.
Proof. unfold same_instances. intuition congruence. Qed.

(** Output generation when the main block has an instance already. *)
Lemma generateOutputString_unfold fuel (t : MiniTemplator) bdtr0 :
  aget (blockDynTab t) 0 = Some bdtr0 -> instances bdtr0 <> 0 ->
  generateOutputString fuel t
  = (let! out :=
       (do! modify (set_blockDynTab
                      (map (fun bdtr => with_currBlockInstNo bdtr.(firstBlockInstNo) bdtr)))
        in writeBlockInstances fuel [] 0 (-1))
     in ret (joinEmpty out)) t.
Proof.
  intros H0 Hne. unfold generateOutputString, generateOutputArray.
  unfold bind at 1 2 3 4. unfold get at 1. rewrite H0. cbn [orTypeError ret].
  destruct (Z.eqb_spec (instances bdtr0) 0) as [|_]; [done|]. done.
Qed.

(** Once the main block has an instance, output generation does not look at
    the current variable values. *)
Lemma generateOutputString_ignores fuel (t1 t2 : MiniTemplator) bdtr0 :
  same_instances t1 t2 ->
  aget (blockDynTab t1) 0 = Some bdtr0 -> instances bdtr0 <> 0 ->
  fst (generateOutputString fuel t1) = fst (generateOutputString fuel t2)
  /\ same_instances (snd (generateOutputString fuel t1)) (snd (generateOutputString fuel t2)).
Proof.
  intros Hs H0 Hne. rewrite (same_instances_set _ _ Hs).
  set (v := varValuesTab t2). clearbody v. clear Hs t2.
  rewrite (generateOutputString_unfold fuel t1 bdtr0) by done.
  rewrite (generateOutputString_unfold fuel (set_varValuesTab (fun _ => v) t1) bdtr0) by done.
  match goal with |- context [?m t1] =>
    assert (Hi : ignoresVarValues m)
  end.
  { repeat ignores_step; [done|apply ignores_writers]. }
  rewrite Hi. cbn [fst snd]. split; [done|].
  unfold same_instances. by destruct (snd _).
Qed.

(** ** Field assignments of the engine *)

Lemma updBlockDyn_ok blockNo f (t : MiniTemplator) bdtr :
  aget (blockDynTab t) blockNo = Some bdtr ->
  updBlockDyn blockNo f t
  = (Ok tt, set_blockDynTab (fun l => aset l blockNo (f bdtr)) t).
Proof. intros H. unfold updBlockDyn, bind, get. by rewrite H. Qed.

Lemma updBlockInst_ok blockInstNo f (t : MiniTemplator) bitr :
  aget (blockInstTab t) blockInstNo = Some bitr ->
  updBlockInst blockInstNo f t
  = (Ok tt, set_blockInstTab (fun l => aset l blockInstNo (f bitr)) t).
Proof. intros H. unfold updBlockInst, bind, get. by rewrite H. Qed.

Lemma set_blockDynTab_id f (t : MiniTemplator) :
  f (blockDynTab t) = blockDynTab t -> set_blockDynTab f t = t.
Proof. destruct t. unfold set_blockDynTab. cbn. by intros ->. Qed.

Lemma set_blockInstTab_id f (t : MiniTemplator) :
  f (blockInstTab t) = blockInstTab t -> set_blockInstTab f t = t.
Proof. destruct t. unfold set_blockInstTab. cbn. by intros ->. Qed.

Lemma linkLast_length insts lastNo newNo :
  alen (linkLast insts lastNo newNo) = alen insts.
Proof.
  unfold linkLast. destruct (lastNo =? -1); [done|].
  destruct (aget insts lastNo); [apply alen_aset|done].
Qed.

Ltac unfst :=
  repeat match goal with x := _ : MiniTemplator |- _ => subst x end.

(** [addBlockByNo] succeeds when the records it reaches exist, and then has
    the effect [afterAddBlockByNo]. *)
Lemma addBlockByNo_ok blockNo (t : MiniTemplator) btr bdtr :
  aget (pt_blockTab (template t)) blockNo = Some btr ->
  aget (blockDynTab t) blockNo = Some bdtr ->
  (lastBlockInstNo bdtr = -1 \/ 0 <= lastBlockInstNo bdtr < alen (blockInstTab t)) ->
  (bt_parentBlockNo btr = -1 \/ 0 <= bt_parentBlockNo btr < alen (blockDynTab t)) ->
  addBlockByNo blockNo t = (Ok tt, afterAddBlockByNo t blockNo btr bdtr).
Proof.
  intros Hbtr Hbdtr Hlast Hparent.
  pose proof (aget_Some _ _ _ Hbdtr) as Hrange.
  pose proof (alen_nonneg (blockInstTab t)) as Hn.
  unfold addBlockByNo.
  rewrite (bind_ok get _ t t t) by done.
  rewrite (bind_ok (modify _) _ _ tt _) by done.
  rewrite Hbdtr. rewrite (bind_ok (orTypeError _) _ _ bdtr _) by done.
  remember (alen (blockInstTab t)) as n eqn:Hndef.
  (* firstBlockInstNo *)
  set (first' := if firstBlockInstNo bdtr =? -1 then n else firstBlockInstNo bdtr).
  set (t1 := set_blockInstTab (fun l => l ++ [emptyBlockInst]) t).
  set (d1 := with_firstBlockInstNo first' bdtr).
  assert (H1 : (if firstBlockInstNo bdtr =? -1
                then updBlockDyn blockNo (with_firstBlockInstNo n) else ret tt) t1
               = (Ok tt, set_blockDynTab (fun l => aset l blockNo d1) t1)).
  { subst first' d1. destruct (firstBlockInstNo bdtr =? -1) eqn:Hf.
    - by rewrite (updBlockDyn_ok _ _ _ bdtr).
    - cbn [ret]. f_equal. symmetry. apply set_blockDynTab_id.
      apply aset_id. cbn. rewrite Hbdtr. f_equal. by destruct bdtr. }
  rewrite (bind_ok _ _ _ _ _ H1). clear H1.
  set (t2 := set_blockDynTab (fun l => aset l blockNo d1) t1).
  (* forward pointer of the chain *)
  set (insts3 := linkLast (blockInstTab t) (lastBlockInstNo bdtr) n ++ [emptyBlockInst]).
  assert (H2 : (if negb (lastBlockInstNo bdtr =? -1)
                then updBlockInst (lastBlockInstNo bdtr) (with_nextBlockInstNo n)
                else ret tt) t2
               = (Ok tt, set_blockInstTab (fun _ => insts3) t2)).
  { subst insts3. unfold linkLast.
    destruct (Z.eqb_spec (lastBlockInstNo bdtr) (-1)) as [Hl|Hl]; cbn [negb].
    - cbn [ret]. f_equal; symmetry; by apply set_blockInstTab_id.
    - destruct Hlast as [?|Hlast]; [done|].
      destruct (aget_is_Some (blockInstTab t) (lastBlockInstNo bdtr)) as [r Hr]; [lia|].
      rewrite Hr.
      rewrite (updBlockInst_ok _ _ _ r).
      + f_equal. subst t2 t1. unfold set_blockInstTab, set_blockDynTab. cbn.
        f_equal. rewrite aset_app_l by lia. done.
      + subst t2 t1. cbn. rewrite aget_app_l by lia. done. }
  rewrite (bind_ok _ _ _ _ _ H2). clear H2.
  set (t3 := set_blockInstTab (fun _ => insts3) t2).
  assert (Hd3 : aget (blockDynTab t3) blockNo = Some d1).
  { unfst. cbn. by apply aget_aset_eq. }
  rewrite (bind_ok _ _ _ _ _ (updBlockDyn_ok blockNo _ t3 d1 Hd3)).
  set (t4 := set_blockDynTab _ t3).
  assert (Hlen : alen (linkLast (blockInstTab t) (lastBlockInstNo bdtr) n) = n)
    by (rewrite Hndef; apply linkLast_length).
  assert (Hi4 : aget (blockInstTab t4) n = Some emptyBlockInst).
  { unfst. cbn. subst insts3. by apply aget_app_last_eq. }
  rewrite (bind_ok _ _ _ _ _ (updBlockInst_ok n _ t4 _ Hi4)).
  set (t5 := set_blockInstTab _ t4).
  assert (Hi5 : aget (blockInstTab t5) n = Some (with_bi_blockNo blockNo emptyBlockInst)).
  { unfst. cbn. apply aget_aset_eq. subst insts3. rewrite alen_app, Hlen, alen_singleton. lia. }
  rewrite (bind_ok _ _ _ _ _ (updBlockInst_ok n _ t5 _ Hi5)).
  set (t6 := set_blockInstTab _ t5).
  assert (Hd6 : aget (blockDynTab t6) blockNo = Some (with_lastBlockInstNo n d1)).
  { unfst. cbn. apply aget_aset_eq. by rewrite alen_aset. }
  rewrite (bind_ok _ _ _ _ _ (updBlockDyn_ok blockNo _ t6 _ Hd6)).
  set (t7 := set_blockDynTab _ t6).
  rewrite Hbtr. rewrite (bind_ok (orTypeError _) _ _ btr _) by done.
  set (dyn7 := blockDynTab t7).
  set (parentLevel := if bt_parentBlockNo btr =? -1 then -1
                      else match aget dyn7 (bt_parentBlockNo btr) with
                           | Some pbdtr => instances pbdtr
                           | None => 0
                           end).
  set (r6 := with_instanceLevel (instances bdtr) (with_bi_blockNo blockNo emptyBlockInst)).
  assert (Hi7 : aget (blockInstTab t7) n = Some r6).
  { unfst. cbn. rewrite aset_aset_eq. apply aget_aset_eq.
    subst insts3. rewrite alen_app, Hlen, alen_singleton. lia. }
  assert (H8 : (if bt_parentBlockNo btr =? -1
                then updBlockInst n (with_parentInstLevel (-1))
                else
                  let! t1 := get in
                  let! pbdtr := orTypeError (aget (blockDynTab t1) (bt_parentBlockNo btr)) in
                  updBlockInst n (with_parentInstLevel (instances pbdtr))) t7
               = (Ok tt, set_blockInstTab
                           (fun l => aset l n (with_parentInstLevel parentLevel r6)) t7)).
  { subst parentLevel.
    destruct (Z.eqb_spec (bt_parentBlockNo btr) (-1)) as [Hp|Hp].
    - by rewrite (updBlockInst_ok _ _ _ r6).
    - destruct Hparent as [?|Hparent]; [done|].
      destruct (aget_is_Some dyn7 (bt_parentBlockNo btr)) as [pb Hpb].
      { subst dyn7. unfst. cbn. by rewrite !alen_aset. }
      rewrite (bind_ok get _ t7 t7 t7) by done.
      fold dyn7. rewrite Hpb. rewrite (bind_ok (orTypeError _) _ _ pb _) by done.
      by rewrite (updBlockInst_ok _ _ _ r6). }
  rewrite (bind_ok _ _ _ _ _ H8). clear H8.
  set (t8 := set_blockInstTab _ t7).
  set (r8 := with_parentInstLevel parentLevel r6).
  assert (Hi8 : aget (blockInstTab t8) n = Some r8).
  { unfst. cbn. rewrite !aset_aset_eq. apply aget_aset_eq.
    subst insts3. rewrite alen_app, Hlen, alen_singleton. lia. }
  rewrite (bind_ok _ _ _ _ _ (updBlockInst_ok n _ t8 _ Hi8)).
  set (t9 := set_blockInstTab _ t8).
  set (r9 := with_nextBlockInstNo (-1) r8).
  assert (Hi9 : aget (blockInstTab t9) n = Some r9).
  { unfst. cbn. rewrite !aset_aset_eq. apply aget_aset_eq.
    subst insts3. rewrite alen_app, Hlen, alen_singleton. lia. }
  assert (Hfin : forall tab, set_blockInstTab (fun l => aset l n (with_blockVarTab tab r9)) t9
            = mkMiniTemplator (template t) (varValuesTab t) dyn7
                (linkLast (blockInstTab t) (lastBlockInstNo bdtr) n
                   ++ [mkBlockInst blockNo (instances bdtr) parentLevel (-1) tab])).
  { intros tab. subst dyn7. unfst. unfold set_blockInstTab. cbn. f_equal.
    rewrite !aset_aset_eq. subst insts3.
    rewrite (aset_app_last_eq _ _ _ n) by done.
    subst r9 r8 r6. done. }
  assert (Hdyn : dyn7 = aset (blockDynTab t) blockNo
            (mkBlockDyn (instances bdtr + 1) first' n (currBlockInstNo bdtr))).
  { subst dyn7. unfst. cbn. by rewrite !aset_aset_eq. }
  unfold afterAddBlockByNo, snapshotOf. rewrite <- Hndef. fold first'. rewrite <- Hdyn. fold parentLevel.
  destruct (0 <? alen (bt_blockVarNoToVarNoMap btr)) eqn:Hcnt.
  - rewrite (bind_ok get _ t9 t9 t9) by done.
    rewrite (updBlockInst_ok _ _ _ r9 Hi9). f_equal. apply Hfin.
  - cbn [ret]. f_equal. rewrite <- (Hfin None).
    symmetry. apply set_blockInstTab_id. apply aset_id. rewrite Hi9.
    by subst r9 r8 r6.
Qed.

(** ** Setting variables leaves the instances alone *)

Lemma storeVariable_frame varNo v t :
  mspec (storeVariable varNo v) t
    (fun _ t' => same_instances t t') (fun _ t' => same_instances t t').
Proof. unfold storeVariable. wp; done. Qed.

Lemma setVariable_frame name v t :
  mspec (setVariable name v) t
    (fun _ t' => same_instances t t') (fun _ t' => same_instances t t').
Proof.
  unfold setVariable. wp; try done. apply storeVariable_frame.
Qed.

Lemma setVariableOpt_frame name v t :
  mspec (setVariableOpt name v) t
    (fun _ t' => same_instances t t') (fun _ t' => same_instances t t').
Proof.
  unfold setVariableOpt. wp; try done. apply storeVariable_frame.
Qed.

Lemma mspec_snd {S A} (m : M S A) (s : S) (P : S -> Prop) :
  mspec m s (fun _ s' => P s') (fun _ s' => P s') -> P (snd (m s)).
Proof. unfold mspec. by destruct (m s) as [[?|?] ?]. Qed.

Lemma runCall_set_frame fuel c t :
  isSetCall c = true -> same_instances t (snd (runCall fuel c t)).
Proof.
  intros Hc. apply (mspec_snd _ _ (same_instances t)).
  destruct c; try done; cbn [runCall]; apply mspec_bind.
  - eapply mspec_conseq; [apply setVariable_frame|done..].
  - eapply mspec_conseq; [apply setVariableOpt_frame|done..].
Qed.

Lemma runCalls_cons fuel c rest t :
  snd (runCalls fuel (c :: rest) t) = snd (runCalls fuel rest (snd (runCall fuel c t))).
Proof.
  cbn [runCalls]. destruct (runCall fuel c t) as [r t1]. cbn [snd].
  by destruct (runCalls fuel rest t1).
Qed.

Lemma runCalls_sets_frame fuel calls t :
  forallb isSetCall calls = true -> same_instances t (snd (runCalls fuel calls t)).
Proof.
  revert t. induction calls as [|c rest IH]; intros t Hall; [done|].
  cbn [forallb] in Hall. apply andb_true_iff in Hall as [Hc Hrest].
  rewrite runCalls_cons.
  eapply same_instances_trans; [by apply runCall_set_frame|by apply IH].
Qed.




(** ** Chains and index lists *)

Lemma elem_of_rev {A} (x : A) (l : list A) : x ∈ rev l <-> x ∈ l.
Proof. rewrite !list_elem_of_In. symmetry. apply in_rev. Qed.

Section Indices.
Context {A : Type}.
Implicit Types (f : A -> bool) (l : list A) (s i : Z).

Lemma indicesFrom_app f l1 l2 s :
  indicesFrom f (l1 ++ l2) s = indicesFrom f l1 s ++ indicesFrom f l2 (s + alen l1).
Proof.
  revert s. induction l1 as [|x l1 IH]; intros s; cbn [indicesFrom app].
  - by rewrite alen_nil, Z.add_0_r.
  - rewrite IH, alen_cons, <- app_assoc. do 3 f_equal. lia.
Qed.

Lemma indicesFrom_snoc f l x s :
  indicesFrom f (l ++ [x]) s
  = indicesFrom f l s ++ (if f x then [s + alen l] else []).
Proof. rewrite indicesFrom_app. cbn. by rewrite app_nil_r. Qed.

Lemma indicesFrom_range f l s i :
  i ∈ indicesFrom f l s -> s <= i < s + alen l.
Proof.
  revert s. induction l as [|x l IH]; intros s; cbn [indicesFrom].
  - by intros ?%elem_of_nil.
  - rewrite alen_cons. pose proof (alen_nonneg l). intros [Hi|Hi]%elem_of_app.
    + destruct (f x); [apply list_elem_of_singleton in Hi; lia|by apply elem_of_nil in Hi].
    + apply IH in Hi. lia.
Qed.

Lemma indicesFrom_spec f l s i :
  i ∈ indicesFrom f l s <-> exists x, aget l (i - s) = Some x /\ f x = true.
Proof.
  revert s. induction l as [|x l IH]; intros s; cbn [indicesFrom].
  - split; [by intros ?%elem_of_nil|]. intros (y & Hy & _).
    apply aget_Some in Hy. unfold alen in Hy. cbn in Hy. lia.
  - rewrite elem_of_app, IH. split.
    + intros [Hi|(y & Hy & Hf)].
      * destruct (f x) eqn:Hfx; [|by apply elem_of_nil in Hi].
        apply list_elem_of_singleton in Hi as ->. exists x.
        by rewrite Z.sub_diag.
      * exists y. split; [|done]. pose proof (aget_Some _ _ _ Hy).
        rewrite aget_lookup in Hy |- * by lia.
        replace (Z.to_nat (i - s)) with (S (Z.to_nat (i - (s + 1)))) by lia. done.
    + intros (y & Hy & Hf). pose proof (aget_Some _ _ _ Hy) as Hr.
      destruct (decide (i = s)) as [->|Hne].
      * left. rewrite Z.sub_diag in Hy. cbn in Hy. injection Hy as ->.
        rewrite Hf. by apply list_elem_of_singleton.
      * right. exists y. split; [|done].
        rewrite aget_lookup in Hy |- * by lia.
        replace (Z.to_nat (i - s)) with (S (Z.to_nat (i - (s + 1)))) in Hy by lia. done.
Qed.

Lemma indicesFrom_ext {B} f (g : B -> bool) l (l' : list B) s :
  map f l = map g l' -> indicesFrom f l s = indicesFrom g l' s.
Proof.
  revert l' s. induction l as [|x l IH]; intros [|y l'] s Hm; try done.
  cbn in Hm. injection Hm as Hxy Hm. cbn [indicesFrom]. by rewrite Hxy, (IH l').
Qed.
End Indices.

Section Linked.
Implicit Types (next : Z -> option Z) (l : list Z).

Lemma linked_ext next next' i l :
  (forall j, j ∈ l -> next j = next' j) -> linked next i l -> linked next' i l.
Proof.
  intros Hn Hl. induction Hl as [|i nx rest Hi Hnx Hl IH]; [constructor|].
  econstructor; [done| |].
  - rewrite <- Hn; [done|]. apply list_elem_of_here.
  - apply IH. intros j Hj. apply Hn. by apply list_elem_of_further.
Qed.

Lemma linked_nil_inv next i : linked next i [] -> i = -1.
Proof. by inversion 1. Qed.

Lemma linked_head next i l : linked next i l -> i = hd (-1) l.
Proof. by destruct 1. Qed.

Lemma linked_functional next i l1 l2 :
  linked next i l1 -> linked next i l2 -> l1 = l2.
Proof.
  intros H1. revert l2. induction H1 as [|i nx rest Hi Hnx Hl IH]; intros l2 H2.
  - by inversion H2.
  - inversion H2 as [|? nx' rest' ? Hnx' Hl']; subst; [done|].
    rewrite Hnx in Hnx'. injection Hnx' as <-. f_equal. by apply IH.
Qed.
End Linked.

(** ** The chain of same-named blocks *)

Lemma map_lookup_eq {A B} (g : A -> B) (l l' : list A) i :
  map g l = map g l' -> g <$> aget l i = g <$> aget l' i.
Proof.
  intros Hm. unfold aget. destruct (i <? 0); [done|].
  change (map g l) with (g <$> l) in Hm. change (map g l') with (g <$> l') in Hm.
  by rewrite <- !list_lookup_fmap, Hm.
Qed.

Lemma map_alen_eq {A B} (g : A -> B) (l l' : list A) :
  map g l = map g l' -> alen l = alen l'.
Proof.
  intros Hm. apply (f_equal (@List.length B)) in Hm.
  rewrite !length_map in Hm. unfold alen. lia.
Qed.

Lemma map_aset_same {A B} (g : A -> B) (l : list A) i x y :
  aget l i = Some x -> g y = g x -> map g (aset l i y) = map g l.
Proof.
  intros Hx Hg. unfold aset, aget in *. destruct (i <? 0); [done|].
  change (g <$> <[Z.to_nat i:=y]> l = g <$> l).
  rewrite list_fmap_insert, Hg. apply list_insert_id.
  by rewrite list_lookup_fmap, Hx.
Qed.

Lemma nextWithSameNameOf_ext (bt bt' : list BlockTabRec) i :
  map nameLink bt = map nameLink bt' ->
  nextWithSameNameOf bt i = nextWithSameNameOf bt' i.
Proof.
  intros Hm. unfold nextWithSameNameOf.
  pose proof (map_lookup_eq nameLink bt bt' i Hm) as H.
  destruct (aget bt i) as [b|], (aget bt' i) as [b'|]; cbn in *; try done.
  unfold nameLink in H. congruence.
Qed.

Lemma definitionsNamed_ext (bt bt' : list BlockTabRec) n :
  map nameLink bt = map nameLink bt' ->
  definitionsNamed bt n = definitionsNamed bt' n.
Proof.
  intros Hm. apply indicesFrom_ext.
  assert (H : map (fun nl : option string * Z => bool_decide (nl.1 = Some n))
                (map nameLink bt)
              = map (fun nl : option string * Z => bool_decide (nl.1 = Some n))
                  (map nameLink bt'))
    by (by rewrite Hm).
  by rewrite !map_map in H.
Qed.

Lemma names_ok_ext (bt bt' : list BlockTabRec) lookup :
  map nameLink bt = map nameLink bt' ->
  names_ok bt lookup -> names_ok bt' lookup.
Proof.
  intros Hm Hok n. rewrite <- (definitionsNamed_ext bt bt') by done.
  eapply linked_ext; [|apply Hok]. intros j _. by apply nextWithSameNameOf_ext.
Qed.

Lemma skeleton_nameLink (bt bt' : list BlockTabRec) :
  map blockSkeleton bt = map blockSkeleton bt' -> map nameLink bt = map nameLink bt'.
Proof.
  intros Hm.
  assert (H : map (fun sk : option string * Z * Z * Z * bool => (sk.1.1.1.1, sk.1.1.1.2))
                (map blockSkeleton bt)
              = map (fun sk : option string * Z * Z * Z * bool => (sk.1.1.1.1, sk.1.1.1.2))
                  (map blockSkeleton bt'))
    by (by rewrite Hm).
  by rewrite !map_map in H.
Qed.

Lemma definitionsNamed_range bt n i :
  i ∈ definitionsNamed bt n -> 0 <= i < alen bt.
Proof. intros H%indicesFrom_range. lia. Qed.

Lemma definitionsNamed_spec bt n i :
  i ∈ definitionsNamed bt n <-> exists b, aget bt i = Some b /\ bt_blockName b = Some n.
Proof.
  unfold definitionsNamed. rewrite indicesFrom_spec, Z.sub_0_r.
  split; intros (b & Hb & Hn); exists b; (split; [done|]).
  - by apply bool_decide_eq_true in Hn.
  - by apply bool_decide_eq_true.
Qed.

Lemma nextWithSameNameOf_app_l bt b i :
  i < alen bt -> nextWithSameNameOf (bt ++ [b]) i = nextWithSameNameOf bt i.
Proof. intros. unfold nextWithSameNameOf. by rewrite aget_app_l. Qed.

Lemma names_ok_push_unnamed bt b lookup :
  bt_blockName b = None -> names_ok bt lookup -> names_ok (bt ++ [b]) lookup.
Proof.
  intros Hb Hok n. unfold definitionsNamed. rewrite indicesFrom_snoc, Hb.
  rewrite bool_decide_eq_false_2 by done. rewrite app_nil_r.
  eapply linked_ext; [|apply Hok].
  intros j Hj%elem_of_rev%definitionsNamed_range.
  symmetry. apply nextWithSameNameOf_app_l. lia.
Qed.

Lemma names_ok_push_named bt b n0 lookup :
  bt_blockName b = Some n0 -> bt_nextWithSameName b = lookup n0 ->
  names_ok bt lookup ->
  names_ok (bt ++ [b]) (fun n => if decide (n = n0) then alen bt else lookup n).
Proof.
  intros Hb Hnext Hok n. unfold definitionsNamed. rewrite indicesFrom_snoc, Hb.
  pose proof (alen_nonneg bt).
  assert (Hold : linked (nextWithSameNameOf (bt ++ [b])) (lookup n)
                   (rev (definitionsNamed bt n))).
  { eapply linked_ext; [|apply Hok].
    intros j Hj%elem_of_rev%definitionsNamed_range.
    symmetry. apply nextWithSameNameOf_app_l. lia. }
  destruct (decide (n = n0)) as [->|Hne].
  - rewrite bool_decide_eq_true_2 by done. rewrite rev_app_distr. cbn [rev app].
    rewrite Z.add_0_l. econstructor; [lia| |].
    + unfold nextWithSameNameOf. by rewrite aget_app_last.
    + by rewrite Hnext.
  - rewrite bool_decide_eq_false_2 by congruence. by rewrite app_nil_r.
Qed.

(** Name lookup is [-1] exactly for the names without a definition. *)
Lemma names_ok_lookup_none bt lookup n :
  names_ok bt lookup -> (lookup n = -1 <-> definitionsNamed bt n = []).
Proof.
  intros Hok. specialize (Hok n). split.
  - intros Hl. rewrite Hl in Hok.
    destruct (rev (definitionsNamed bt n)) as [|z l] eqn:Hr.
    + apply (f_equal (@rev Z)) in Hr. by rewrite rev_involutive in Hr.
    + by inversion Hok.
  - intros Hd. rewrite Hd in Hok. by apply linked_nil_inv in Hok.
Qed.

Lemma names_ok_lookup_range bt lookup n :
  names_ok bt lookup -> lookup n = -1 \/ 0 <= lookup n < alen bt.
Proof.
  intros Hok. specialize (Hok n).
  destruct (rev (definitionsNamed bt n)) as [|z l] eqn:Hr.
  - left. by apply linked_nil_inv in Hok.
  - right. apply linked_head in Hok. cbn in Hok. subst z.
    apply (definitionsNamed_range bt n). apply elem_of_rev. rewrite Hr.
    apply list_elem_of_here.
Qed.


(** ** The invariant of the parser is kept by its state changes *)

Lemma block_ok_skeleton i b b' :
  blockSkeleton b' = blockSkeleton b -> block_ok i b -> block_ok i b'.
Proof.
  unfold blockSkeleton. intros Hs [Hp Hd Hn].
  assert (bt_blockName b' = bt_blockName b) as Hname by congruence.
  assert (bt_nestingLevel b' = bt_nestingLevel b) as Hnest by congruence.
  assert (bt_parentBlockNo b' = bt_parentBlockNo b) as Hpar by congruence.
  assert (bt_dummy b' = bt_dummy b) as Hdum by congruence.
  constructor; rewrite ?Hname, ?Hnest, ?Hpar, ?Hdum; done.
Qed.

Lemma blocks_inv_ext bt bt' lookup :
  map blockSkeleton bt' = map blockSkeleton bt ->
  blocks_inv bt lookup -> blocks_inv bt' lookup.
Proof.
  intros Hm [Hnames Hblocks (b0 & H0 & Hn0 & Hd0)].
  assert (Hget : forall i b', aget bt' i = Some b' ->
            exists b, aget bt i = Some b /\ blockSkeleton b' = blockSkeleton b).
  { intros i b' Hb'. pose proof (map_lookup_eq blockSkeleton bt' bt i Hm) as H.
    rewrite Hb' in H. destruct (aget bt i) as [b|]; [|done].
    exists b. split; [done|]. cbn in H. congruence. }
  constructor.
  - eapply names_ok_ext; [|done]. symmetry. by apply skeleton_nameLink.
  - intros i b' (b & Hb & Hs)%Hget. eapply block_ok_skeleton; eauto.
  - pose proof (map_lookup_eq blockSkeleton bt' bt 0 Hm) as H.
    rewrite H0 in H. destruct (aget bt' 0) as [b0'|]; [|done].
    exists b0'. split; [done|]. cbn in H. unfold blockSkeleton in H.
    split; congruence.
Qed.

Lemma parser_inv_relevant p p' :
  relevant p' = relevant p -> parser_inv p -> parser_inv p'.
Proof.
  destruct p, p'. unfold relevant. cbn. intros [= -> -> -> -> -> -> ->]. 
  intros [? ? ? ? ? ?]. by constructor.
Qed.

Lemma parser_inv_blockTab p bt' :
  map blockSkeleton bt' = map blockSkeleton (blockTab p) ->
  map bt_blockVarNoToVarNoMap bt' = map bt_blockVarNoToVarNoMap (blockTab p) ->
  parser_inv p -> parser_inv (set_blockTab bt' p).
Proof.
  intros Hs Hm [Hb Hl Hol Ho Hmaps Hv].
  constructor; cbn; try done.
  - eapply blocks_inv_ext; [done|].
    by destruct p.
  - intros l Hlr. destruct (Ho l Hlr) as (b & H1 & H2). exists b.
    by rewrite (map_alen_eq _ _ _ Hs).
  - intros i b' Hb'.
    pose proof (map_lookup_eq bt_blockVarNoToVarNoMap bt' (blockTab p) i Hm) as H.
    rewrite Hb' in H. destruct (aget (blockTab p) i) as [b|] eqn:Hbi; [|done].
    cbn in H. injection H as ->. by eapply Hmaps.
Qed.

(** A field assignment that leaves the skeleton and the variable map of
    the record alone. *)
Lemma parser_inv_updBlock p i b f :
  parser_inv p -> aget (blockTab p) i = Some b ->
  blockSkeleton (f b) = blockSkeleton b ->
  bt_blockVarNoToVarNoMap (f b) = bt_blockVarNoToVarNoMap b ->
  parser_inv (set_blockTab (aset (blockTab p) i (f b)) p).
Proof.
  intros Hinv Hb Hs Hm. apply parser_inv_blockTab; [..|done].
  - by eapply map_aset_same.
  - by eapply map_aset_same.
Qed.

Lemma updBlock_ok i f (p : Parser) b :
  aget (blockTab p) i = Some b ->
  updBlock i f p = (Ok tt, set_blockTab (aset (blockTab p) i (f b)) p).
Proof. intros H. unfold updBlock, bind, get. by rewrite H. Qed.

Lemma mspec_updBlock i f (p : Parser) b Q E :
  aget (blockTab p) i = Some b ->
  Q tt (set_blockTab (aset (blockTab p) i (f b)) p) ->
  mspec (updBlock i f) p Q E.
Proof. intros H HQ. unfold mspec. by rewrite (updBlock_ok _ _ _ b). Qed.

Lemma names_ok_lookup_ext bt (lookup lookup' : string -> Z) :
  (forall n, lookup n = lookup' n) -> names_ok bt lookup -> names_ok bt lookup'.
Proof. intros Hl Hok n. rewrite <- Hl. apply Hok. Qed.

Lemma blocks_inv_lookup_ext bt (lookup lookup' : string -> Z) :
  (forall n, lookup n = lookup' n) -> blocks_inv bt lookup -> blocks_inv bt lookup'.
Proof. intros Hl [? ? ?]. constructor; eauto using names_ok_lookup_ext. Qed.

Lemma parser_inv_register p name b :
  parser_inv p -> 0 <= b < alen (blockTab p) ->
  parser_inv (afterRegisterBlock p name (wrap16 b)).
Proof.
  intros [[Hnames Hblocks (b0 & H0 & Hn0 & Hd0)] Hl Hol Ho Hmaps Hv] Hb.
  pose proof (alen_nonneg (blockTab p)) as Hlen.
  set (btr := registeredBlock p name (wrap16 b)).
  assert (Hget : forall i b', aget (blockTab p ++ [btr]) i = Some b' ->
            (i < alen (blockTab p) /\ aget (blockTab p) i = Some b')
            \/ (i = alen (blockTab p) /\ b' = btr)).
  { intros i b' Hi. destruct (decide (i < alen (blockTab p))) as [Hlt|Hge].
    - left. by rewrite aget_app_l in Hi.
    - right. pose proof (aget_Some _ _ _ Hi) as Hr. rewrite alen_app, alen_singleton in Hr.
      assert (i = alen (blockTab p)) as -> by lia.
      rewrite aget_app_last in Hi. by injection Hi as <-. }
  assert (Hblocks' : blocks_inv (blockTab p ++ [btr])
            (p_lookupBlockName (afterRegisterBlock p name (wrap16 b)))).
  { constructor.
    - destruct name as [n0|].
      + eapply names_ok_lookup_ext;
          [|apply (names_ok_push_named (blockTab p) btr n0 (p_lookupBlockName p)); done].
        intros n. unfold afterRegisterBlock, p_lookupBlockName. cbn.
        destruct (decide (n = n0)) as [->|Hne].
        * by rewrite lookup_insert_eq.
        * by rewrite lookup_insert_ne.
      + eapply names_ok_lookup_ext; [|by apply (names_ok_push_unnamed (blockTab p) btr)].
        intros n. by destruct p.
    - intros i b' [[Hlt Hi]|[-> ->]]%Hget; [by eapply Hblocks|].
      constructor; cbn.
      + right. exists b. split; [lia|done].
      + done.
      + intros _. lia.
    - exists b0. split; [|done]. rewrite aget_app_l; [done|].
      apply aget_Some in H0. lia. }
  constructor.
  - by destruct name.
  - by destruct name.
  - by destruct name.
  - intros l Hlr. destruct name; cbn in *.
    all: destruct (Ho l Hlr) as (b1 & H1 & H2); exists b1; split; [done|].
    all: rewrite alen_app, alen_singleton; lia.
  - intros i b' Hi. assert (Hi' : aget (blockTab p ++ [btr]) i = Some b') by by destruct name.
    apply Hget in Hi' as [[Hlt Hi']|[-> ->]]; [by eapply Hmaps|done].
  - by destruct name.
Qed.

Lemma mspec_registerBlock name p (Q : Z -> Parser -> Prop) E :
  parser_inv p ->
  (forall b, 0 <= b < alen (blockTab p) ->
     parser_inv (afterRegisterBlock p name (wrap16 b)) ->
     Q (alen (blockTab p)) (afterRegisterBlock p name (wrap16 b))) ->
  mspec (registerBlock name) p Q E.
Proof.
  intros Hinv HQ. pose proof Hinv as [_ Hl Hol Ho _ _].
  destruct (Ho (currentNestingLevel p - 1)) as (b & Hb & Hbr); [lia|].
  specialize (HQ b Hbr (parser_inv_register p name b Hinv Hbr)).
  unfold mspec, registerBlock.
  rewrite (bind_ok get _ p p p) by done.
  destruct (Z.ltb_spec 0 (currentNestingLevel p)) as [_|]; [|lia].
  rewrite Hb. rewrite (bind_ok (ret _) _ p (wrap16 b) p) by done.
  destruct name as [n|]; cbn; exact HQ.
Qed.

Lemma mspec_updBlock_keep i f (p : Parser) b (Q : unit -> Parser -> Prop) E :
  parser_inv p -> aget (blockTab p) i = Some b ->
  blockSkeleton (f b) = blockSkeleton b ->
  bt_blockVarNoToVarNoMap (f b) = bt_blockVarNoToVarNoMap b ->
  (forall p', parser_inv p' -> aget (blockTab p') i = Some (f b) -> Q tt p') ->
  mspec (updBlock i f) p Q E.
Proof.
  intros Hinv Hb Hs Hm HQ. eapply mspec_updBlock; [done|]. apply HQ.
  - by apply parser_inv_updBlock.
  - cbn. apply aget_aset_eq. by eapply aget_Some.
Qed.

Lemma parser_inv_mark_dummy p i b :
  parser_inv p -> aget (blockTab p) i = Some b ->
  bt_blockName b = None -> i <> 0 ->
  parser_inv (set_blockTab (aset (blockTab p) i (with_dummy true b)) p).
Proof.
  intros [[Hnames Hblocks (b0 & H0 & Hn0 & Hd0)] Hl Hol Ho Hmaps Hv] Hb Hname Hi.
  assert (Hget : forall j b', aget (aset (blockTab p) i (with_dummy true b)) j = Some b' ->
            (j <> i /\ aget (blockTab p) j = Some b') \/ (j = i /\ b' = with_dummy true b)).
  { intros j b' Hj. destruct (decide (j = i)) as [->|Hne].
    - right. rewrite aget_aset_eq in Hj by by eapply aget_Some. by injection Hj as <-.
    - left. by rewrite aget_aset_ne in Hj. }
  constructor; cbn; try done.
  - constructor.
    + eapply names_ok_lookup_ext; [|eapply names_ok_ext; [|exact Hnames]].
      * intros n. by destruct p.
      * symmetry. by eapply map_aset_same.
    + intros j b' [[Hne Hj]|[-> ->]]%Hget; [by eapply Hblocks|].
      destruct (Hblocks i b Hb) as [Hp Hd Hn]. by constructor.
    + exists b0. by rewrite aget_aset_ne.
  - intros l Hlr. destruct (Ho l Hlr) as (b1 & H1 & H2). exists b1.
    by rewrite alen_aset.
  - intros j b' [[Hne Hj]|[-> ->]]%Hget; [by eapply Hmaps|]. cbn. by eapply Hmaps.
Qed.

Lemma excludeTemplateRange_preserves tPosBegin tPosEnd :
  preserves (excludeTemplateRange tPosBegin tPosEnd).
Proof.
  intros p Hinv. unfold excludeTemplateRange. apply mspec_bind, mspec_get. cbv zeta.
  match goal with |- mspec (if ?c then _ else _) _ _ _ => destruct c eqn:Hext end.
  - destruct (0 <? alen (blockTab p)); [|done].
    destruct (aget (blockTab p) (alen (blockTab p) - 1)) as [btr|] eqn:Hlast; [|done].
    apply mspec_bind.
    eapply mspec_updBlock_keep; [done..|]. intros p1 Hinv1 Hget1.
    eapply mspec_updBlock_keep; [done..|]. by intros p2 Hinv2 _.
  - apply mspec_bind. apply mspec_registerBlock; [done|]. intros b Hb Hinv1.
    pose proof (pi_blocks _ Hinv) as [_ _ (b0 & H0 & _)].
    assert (Hn : alen (blockTab p) <> 0) by (apply aget_Some in H0; lia).
    assert (Hget1 : aget (blockTab (afterRegisterBlock p None (wrap16 b))) (alen (blockTab p))
                    = Some (registeredBlock p None (wrap16 b))) by apply aget_app_last.
    revert Hinv1 Hget1. generalize (afterRegisterBlock p None (wrap16 b)). intros p1 Hinv1 Hget1.
    apply mspec_bind. eapply mspec_updBlock_keep; [done..|]. intros p2 Hinv2 Hget2.
    apply mspec_bind. eapply mspec_updBlock_keep; [done..|]. intros p3 Hinv3 Hget3.
    apply mspec_bind. eapply mspec_updBlock_keep; [done..|]. intros p4 Hinv4 Hget4.
    apply mspec_bind. eapply mspec_updBlock_keep; [done..|]. intros p5 Hinv5 Hget5.
    apply mspec_bind. eapply mspec_updBlock_keep; [done..|]. intros p6 Hinv6 Hget6.
    eapply mspec_updBlock; [done|]. by apply parser_inv_mark_dummy.
Qed.

Lemma preserves_call {A} (m : Prs A) p (Q : A -> Parser -> Prop) (E : exn -> Parser -> Prop) :
  preserves m -> parser_inv p ->
  (forall a p', parser_inv p' -> Q a p') ->
  (forall e p', parserThrows e -> E e p') ->
  mspec m p Q E.
Proof. intros Hm Hinv HQ HE. eapply mspec_conseq; [by apply Hm|done..]. Qed.

Lemma conditionalExclude_preserves tPosBegin tPosEnd :
  preserves (conditionalExclude tPosBegin tPosEnd).
Proof.
  intros p Hinv. unfold conditionalExclude. apply mspec_bind, mspec_get.
  destruct (isCondEnabled p (condLevel p)); [done|].
  apply mspec_bind.
  eapply preserves_call; [apply excludeTemplateRange_preserves|done|by intros|by intros].
Qed.

Lemma evaluateCondition_preserves pParms evalJs condExpr :
  preserves (evaluateCondition pParms evalJs condExpr).
Proof.
  intros p Hinv. unfold evaluateCondition.
  destruct (evalJs _ _); [apply throws_syntax|done].
Qed.

Create HintDb preserves_db.
#[export] Hint Resolve excludeTemplateRange_preserves conditionalExclude_preserves
  evaluateCondition_preserves : preserves_db.

Ltac inv_irrelevant :=
  first
    [ eassumption
    | eapply parser_inv_relevant; [|eassumption]; reflexivity ].

Ltac pwp_step :=
  lazymatch goal with
  | |- mspec (bind _ _) _ _ _ => apply mspec_bind
  | |- mspec (ret _) _ _ _ => apply mspec_ret
  | |- mspec get _ _ _ => apply mspec_get
  | |- mspec (modify _) _ _ _ => apply mspec_modify
  | |- mspec (throw _) _ _ _ => apply mspec_throw; constructor
  | |- mspec (if ?b then _ else _) _ _ _ => destruct b eqn:?
  | |- mspec (match ?x with _ => _ end) _ _ _ => destruct x eqn:?
  | |- mspec (let _ := _ in _) _ _ _ => cbv zeta
  | |- mspec _ _ _ _ =>
      eapply preserves_call;
        [ solve [eauto with preserves_db]
        | inv_irrelevant
        | intros ? ? ?
        | intros ? ? ?; assumption ]
  | |- parser_inv _ => inv_irrelevant
  | |- _ => progress cbv beta
  end.
Ltac pwp := repeat pwp_step.

Lemma processIfCmd_preserves pParms evalJs parms b e :
  preserves (processIfCmd pParms evalJs parms b e).
Proof. intros p Hinv. unfold processIfCmd. pwp. Qed.

Lemma processElseIfCmd_preserves pParms evalJs parms b e :
  preserves (processElseIfCmd pParms evalJs parms b e).
Proof. intros p Hinv. unfold processElseIfCmd. pwp. Qed.

Lemma processElseCmd_preserves parms b e :
  preserves (processElseCmd parms b e).
Proof. intros p Hinv. unfold processElseCmd. pwp. Qed.

Lemma processEndIfCmd_preserves parms b e :
  preserves (processEndIfCmd parms b e).
Proof. intros p Hinv. unfold processEndIfCmd. pwp. Qed.

#[export] Hint Resolve processIfCmd_preserves processElseIfCmd_preserves
  processElseCmd_preserves processEndIfCmd_preserves : preserves_db.

Lemma names_ok_lookup_named bt lookup n :
  names_ok bt lookup -> lookup n <> -1 ->
  exists b, aget bt (lookup n) = Some b /\ bt_blockName b = Some n.
Proof.
  intros Hok Hne. specialize (Hok n).
  destruct (rev (definitionsNamed bt n)) as [|z l] eqn:Hr.
  - by apply linked_nil_inv in Hok.
  - apply linked_head in Hok. cbn in Hok. subst z.
    apply definitionsNamed_spec. apply elem_of_rev. rewrite Hr. apply list_elem_of_here.
Qed.

Lemma parser_inv_open p blockNo :
  parser_inv p -> 0 <= blockNo < alen (blockTab p) ->
  currentNestingLevel p + 1 <= maxNestingLevel ->
  parser_inv (set_currentNestingLevel (currentNestingLevel p + 1)
                (set_openBlocksTab
                   (aset (openBlocksTab p) (currentNestingLevel p) (wrap16 blockNo)) p)).
Proof.
  intros [Hb Hl Hol Ho Hmaps Hv] Hbn Hlev.
  constructor; cbn; try done.
  - lia.
  - by rewrite alen_aset.
  - intros l Hlr. destruct (decide (l = currentNestingLevel p)) as [->|Hne].
    + exists blockNo. split; [|done]. apply aget_aset_eq. unfold maxNestingLevel in *. lia.
    + rewrite aget_aset_ne by done. apply Ho. lia.
Qed.

Lemma parser_inv_close p :
  parser_inv p -> 1 <= currentNestingLevel p - 1 ->
  parser_inv (set_currentNestingLevel (currentNestingLevel p - 1) p).
Proof.
  intros [Hb Hl Hol Ho Hmaps Hv] Hlev.
  constructor; cbn; try done.
  - lia.
  - intros l Hlr. apply Ho. lia.
Qed.

Lemma processBeginBlockCmd_preserves parms b e :
  preserves (processBeginBlockCmd parms b e).
Proof.
  intros p0 Hinv0. unfold processBeginBlockCmd.
  do 3 pwp_step; [by pwp|].
  pwp_step; [by pwp|]. pwp_step; [by pwp|].
  match goal with
  | Hq : parser_inv ?q |- mspec (bind (registerBlock (Some ?n)) _) ?q _ _ =>
      set (name := n); rename q into p; rename Hq into Hinv
  end.
  apply mspec_bind. apply mspec_registerBlock; [done|]. intros b1 Hb1 Hinv1.
  assert (Hget1 : aget (blockTab (afterRegisterBlock p (Some name) (wrap16 b1)))
                    (alen (blockTab p))
                  = Some (registeredBlock p (Some name) (wrap16 b1)))
    by apply aget_app_last.
  revert Hinv1 Hget1. generalize (afterRegisterBlock p (Some name) (wrap16 b1)).
  intros p1 Hinv1 Hget1.
  apply mspec_bind. eapply mspec_updBlock_keep; [done..|]. intros p2 Hinv2 Hget2.
  apply mspec_bind. eapply mspec_updBlock_keep; [done..|]. intros p3 Hinv3 Hget3.
  apply mspec_bind. unfold openBlock. apply mspec_modify. cbv beta.
  apply mspec_bind, mspec_modify. cbv beta.
  apply mspec_bind, mspec_get.
  match goal with |- mspec (if ?c then _ else _) _ _ _ => destruct c eqn:Hc end.
  - apply mspec_throw. constructor.
  - apply mspec_ret. cbn in Hc. apply Z.ltb_ge in Hc.
    apply (parser_inv_open p3 (alen (blockTab p))); [done| |lia].
    pose proof (alen_nonneg (blockTab p)). apply aget_Some in Hget3. lia.
Qed.

Lemma processEndBlockCmd_preserves parms b e :
  preserves (processEndBlockCmd parms b e).
Proof.
  intros p0 Hinv0. unfold processEndBlockCmd.
  do 3 pwp_step; [by pwp|].
  pwp_step; [by pwp|]. pwp_step; [by pwp|].
  apply mspec_bind, mspec_get.
  match goal with
  | Hq : parser_inv ?q |- mspec (if (p_lookupBlockName ?q ?n =? -1) then _ else _) _ _ _ =>
      set (name := n); rename q into p; rename Hq into Hinv
  end.
  destruct (Z.eqb_spec (p_lookupBlockName p name) (-1)) as [|Hlk];
    [apply mspec_throw; constructor|].
  pose proof (pi_blocks _ Hinv) as [Hnames Hblocks _].
  destruct (names_ok_lookup_named _ _ _ Hnames Hlk) as (btr & Hbtr & Hname).
  apply mspec_bind, mspec_modify. cbv beta. apply mspec_bind, mspec_get.
  cbn [blockTab set_currentNestingLevel]. rewrite Hbtr.
  apply mspec_bind, mspec_ret.
  destruct (bt_definitionIsOpen btr); cbn [negb]; [|apply mspec_throw; constructor].
  match goal with |- mspec (if negb ?c then _ else _) _ _ _ => destruct c eqn:Hnest end;
    cbn [negb]; [|apply mspec_throw; constructor].
  apply Z.eqb_eq in Hnest. cbn in Hnest.
  assert (Hinv1 : parser_inv (set_currentNestingLevel (currentNestingLevel p - 1) p)).
  { apply parser_inv_close; [done|]. rewrite <- Hnest.
    apply (bo_named _ _ (Hblocks _ _ Hbtr)). by rewrite Hname. }
  assert (Hget1 : aget (blockTab (set_currentNestingLevel (currentNestingLevel p - 1) p))
                    (p_lookupBlockName p name) = Some btr) by done.
  revert Hinv1 Hget1. generalize (set_currentNestingLevel (currentNestingLevel p - 1) p).
  intros p1 Hinv1 Hget1.
  apply mspec_bind. eapply mspec_updBlock_keep; [done..|]. intros p2 Hinv2 Hget2.
  apply mspec_bind. eapply mspec_updBlock_keep; [done..|]. intros p3 Hinv3 Hget3.
  eapply mspec_updBlock_keep; [done..|]. by intros p4 Hinv4 _.
Qed.

#[export] Hint Resolve processBeginBlockCmd_preserves processEndBlockCmd_preserves
  : preserves_db.

Lemma insertSubTemplate_preserves pParms subTemplateName tPos1 tPos2 :
  preserves (insertSubTemplate pParms subTemplateName tPos1 tPos2).
Proof. intros p Hinv. unfold insertSubTemplate. pwp. Qed.

#[export] Hint Resolve insertSubTemplate_preserves : preserves_db.

Lemma processIncludeCmd_preserves pParms parms b e :
  preserves (processIncludeCmd pParms parms b e).
Proof. intros p Hinv. unfold processIncludeCmd. pwp. Qed.

#[export] Hint Resolve processIncludeCmd_preserves : preserves_db.

Lemma processTemplateCommand_preserves pParms evalJs cmdLine b e :
  preserves (processTemplateCommand pParms evalJs cmdLine b e).
Proof. intros p Hinv. unfold processTemplateCommand. pwp. Qed.

Lemma processShortFormTemplateCommand_preserves pParms evalJs cmdLine b e :
  preserves (processShortFormTemplateCommand pParms evalJs cmdLine b e).
Proof. intros p Hinv. unfold processShortFormTemplateCommand. pwp. Qed.

#[export] Hint Resolve processTemplateCommand_preserves
  processShortFormTemplateCommand_preserves : preserves_db.

Lemma parseTemplateCommandsFrom_preserves pParms evalJs fuel pos :
  preserves (parseTemplateCommandsFrom pParms evalJs fuel pos).
Proof.
  revert pos. induction fuel as [|fuel IH]; intros pos p Hinv.
  { apply mspec_throw. constructor. }
  cbn [parseTemplateCommandsFrom].
  pose proof (fun pos' => IH pos') as IH'.
  assert (Hrec : forall pos' q (Q : unit -> Parser -> Prop) (E : exn -> Parser -> Prop),
            parser_inv q ->
            (forall a q', parser_inv q' -> Q a q') ->
            (forall e q', parserThrows e -> E e q') ->
            mspec (parseTemplateCommandsFrom pParms evalJs fuel pos') q Q E).
  { intros pos' q Q E Hq HQ HE. eapply mspec_conseq; [by apply IH|done..]. }
  clear IH IH'.
  repeat first
    [ apply Hrec; [inv_irrelevant|intros ? ? ?; assumption|intros ? ? ?; assumption]
    | pwp_step ].
Qed.


(** ** From the first to the last step of [parseTemplate] *)

Lemma names_ok_empty_lookup bt :
  Forall (fun b => bt_blockName b = None) bt -> names_ok bt (fun _ => -1).
Proof.
  intros Hall n. assert (definitionsNamed bt n = []) as ->; [|constructor].
  destruct (definitionsNamed bt n) as [|i l] eqn:Hd; [done|].
  assert (Hi : i ∈ definitionsNamed bt n) by (rewrite Hd; apply list_elem_of_here).
  apply definitionsNamed_spec in Hi as (b & Hb & Hn).
  rewrite Forall_forall in Hall. specialize (Hall b).
  rewrite Hall in Hn; [done|].
  unfold aget in Hb. destruct (i <? 0); [done|].
  by eapply list_elem_of_lookup_2.
Qed.

Lemma beginMainBlock_inv mainText :
  exists p, beginMainBlock (initialParser mainText) = (Ok tt, p) /\ parser_inv p.
Proof.
  eexists. split; [vm_compute; reflexivity|].
  constructor; cbn.
  - constructor.
    + eapply names_ok_lookup_ext; [|apply names_ok_empty_lookup].
      * intros n. reflexivity.
      * by repeat constructor.
    + intros i btr Hi. pose proof (aget_Some _ _ _ Hi) as Hr.
      assert (i = 0) as -> by (unfold alen in Hr; cbn in Hr; lia).
      cbn in Hi. injection Hi as <-. constructor; cbn; [by left|done|done].
    + by eexists.
  - unfold maxNestingLevel. lia.
  - done.
  - intros l Hl. assert (l = 0) as -> by lia. exists 0. by cbn.
  - intros i btr Hi. pose proof (aget_Some _ _ _ Hi) as Hr.
    assert (i = 0) as -> by (unfold alen in Hr; cbn in Hr; lia).
    cbn in Hi. by injection Hi as <-.
  - done.
Qed.

Lemma mspec_updBlock_keep_text i f (p : Parser) b (Q : unit -> Parser -> Prop) E :
  parser_inv p -> aget (blockTab p) i = Some b ->
  blockSkeleton (f b) = blockSkeleton b ->
  bt_blockVarNoToVarNoMap (f b) = bt_blockVarNoToVarNoMap b ->
  (forall p', parser_inv p' -> aget (blockTab p') i = Some (f b) ->
     templateText p' = templateText p -> Q tt p') ->
  mspec (updBlock i f) p Q E.
Proof.
  intros Hinv Hb Hs Hm HQ. eapply mspec_updBlock; [done|]. apply HQ.
  - by apply parser_inv_updBlock.
  - cbn [blockTab set_blockTab]. apply aget_aset_eq. by eapply aget_Some.
  - done.
Qed.

Lemma endMainBlock_spec p :
  parser_inv p ->
  mspec endMainBlock p (fun _ p' => parsed_inv p' /\ templateText p' = templateText p)
    (fun _ _ => False).
Proof.
  intros Hinv. unfold endMainBlock. apply mspec_bind, mspec_get.
  pose proof (pi_blocks _ Hinv) as [_ _ (b0 & H0 & _)].
  apply mspec_bind. eapply mspec_updBlock_keep_text; [done..|]. intros p1 Hinv1 Hget1 Ht1.
  apply mspec_bind. eapply mspec_updBlock_keep_text; [done..|]. intros p2 Hinv2 Hget2 Ht2.
  apply mspec_bind. eapply mspec_updBlock_keep_text; [done..|]. intros p3 Hinv3 Hget3 Ht3.
  apply mspec_modify. destruct Hinv3 as [Hb _ _ _ Hm Hv].
  split; [|cbn; congruence]. by constructor.
Qed.

Lemma checkBlockDefinitionsComplete_spec p :
  mspec checkBlockDefinitionsComplete p (fun _ p' => p' = p) (fun e _ => parserThrows e).
Proof. unfold checkBlockDefinitionsComplete. wp; (done || constructor). Qed.

(** *** The variable scan *)

Lemma vars_ok_nil : vars_ok [] (fun _ => -1) [].
Proof.
  constructor; [done| | |constructor].
  - intros n _ H. by apply elem_of_nil in H.
  - intros i n H. unfold aget in H. by destruct (i <? 0).
Qed.

Lemma vars_ok_lookup_ext vt (lookup lookup' : string -> Z) refs :
  (forall n, lookup n = lookup' n) -> vars_ok vt lookup refs -> vars_ok vt lookup' refs.
Proof.
  intros Hl [H1 H2 H4 H3]. constructor; [| | |done].
  - intros n i <-. rewrite <- Hl. by apply H1.
  - intros n. rewrite <- Hl. apply H2.
  - intros i n. rewrite <- Hl. apply H4.
Qed.

Lemma vars_ok_ref vt lookup refs n r :
  vars_ok vt lookup refs -> lookup n <> -1 -> vr_varNo r = lookup n ->
  vars_ok vt lookup (refs ++ [r]).
Proof.
  intros [H1 H2 H4 H3] Hn Hr. constructor; [done..|].
  rewrite map_app. apply Forall_app. split; [done|].
  pose proof (aget_Some _ _ _ (H1 n _ eq_refl Hn)).
  repeat constructor; rewrite Hr; lia.
Qed.

Lemma vars_ok_new vt lookup refs n r :
  vars_ok vt lookup refs -> lookup n = -1 -> vr_varNo r = alen vt ->
  vars_ok (vt ++ [n]) (fun n' => if decide (n' = n) then alen vt else lookup n')
    (refs ++ [r]).
Proof.
  intros [H1 H2 H4 H3] Hn Hr. pose proof (alen_nonneg vt). constructor.
  - intros n' i <- Hne. destruct (decide (n' = n)) as [->|Hnn].
    + apply aget_app_last.
    + rewrite aget_app_l; [by apply H1|]. by eapply aget_Some, H1.
  - intros n'. destruct (decide (n' = n)) as [->|Hnn]; [lia|].
    intros Hl [Hin|Hin%list_elem_of_singleton]%elem_of_app; [|done].
    by eapply H2.
  - intros i n' Hi. pose proof (aget_Some _ _ _ Hi) as Hrange.
    rewrite alen_app, alen_singleton in Hrange.
    destruct (decide (i = alen vt)) as [->|Hne].
    + rewrite aget_app_last in Hi. injection Hi as <-. by rewrite decide_True.
    + rewrite aget_app_l in Hi by lia. pose proof (H4 _ _ Hi) as Hl.
      rewrite decide_False; [done|]. intros ->. lia.
  - rewrite map_app. apply Forall_app. split.
    + eapply Forall_impl; [done|]. cbn. intros v Hv.
      rewrite alen_app, alen_singleton. lia.
    + repeat constructor; rewrite Hr, ?alen_app, ?alen_singleton; lia.
Qed.

Lemma registerVariableReference_spec varName b e p :
  scan_inv p ->
  mspec (registerVariableReference varName b e) p
    (fun _ p' => scan_inv p' /\ templateText p' = templateText p) (fun _ _ => False).
Proof.
  intros [Hb Hm Hv]. unfold registerVariableReference, registerVariable.
  apply mspec_bind, mspec_get.
  destruct (Z.eqb_spec (p_lookupVariableName p varName) (-1)) as [Hl|Hl].
  - wp. split; [|done]. constructor; cbn; try done.
    eapply vars_ok_lookup_ext;
      [|by eapply (vars_ok_new (varTab p) (p_lookupVariableName p) _ varName)].
    intros n. unfold p_lookupVariableName. cbn.
    destruct (decide (n = varName)) as [->|Hne].
    + by rewrite lookup_insert_eq.
    + by rewrite lookup_insert_ne.
  - wp. split; [|done]. constructor; cbn; try done.
    eapply vars_ok_lookup_ext;
      [|by eapply (vars_ok_ref (varTab p) (p_lookupVariableName p) _ varName)].
    intros n. by destruct p.
Qed.

Lemma parseTemplateVariablesFrom_spec fuel pos p :
  scan_inv p ->
  mspec (parseTemplateVariablesFrom fuel pos) p
    (fun _ p' => scan_inv p' /\ templateText p' = templateText p)
    (fun e _ => parserThrows e).
Proof.
  revert pos p. induction fuel as [|fuel IH]; intros pos p Hinv.
  { apply mspec_throw. constructor. }
  cbn [parseTemplateVariablesFrom]. apply mspec_bind, mspec_get. cbv zeta.
  destruct (_ =? -1); [done|].
  destruct (_ =? -1); [apply mspec_throw; constructor|].
  destruct (_ =? 0); [apply mspec_throw; constructor|].
  apply mspec_bind.
  eapply mspec_conseq; [by apply registerVariableReference_spec| |done].
  cbv beta. intros _ p1 [Hinv1 Ht1].
  eapply mspec_conseq; [by apply IH| |done].
  cbv beta. intros _ p2 [Hinv2 Ht2]. split; [done|congruence].
Qed.

(** *** The association pass *)

Lemma blocks_inv_aset bt lookup a b b' :
  blocks_inv bt lookup -> aget bt a = Some b ->
  blockSkeleton b' = blockSkeleton b -> blocks_inv (aset bt a b') lookup.
Proof.
  intros Hinv Hb Hs. eapply blocks_inv_ext; [|done]. by eapply map_aset_same.
Qed.

Lemma vars_ok_aset vt lookup refs k r r' :
  vars_ok vt lookup refs -> aget refs k = Some r ->
  vr_varNo r' = vr_varNo r -> vars_ok vt lookup (aset refs k r').
Proof.
  intros [H1 H2 H4 H3] Hr Hv. constructor; [done..|].
  by rewrite (map_aset_same vr_varNo refs k r r').
Qed.

Lemma assoc_upto_assign k bt refs a b b' r r' :
  assoc_upto k bt refs -> 0 <= k ->
  aget bt a = Some b -> aget refs k = Some r ->
  bt_blockVarNoToVarNoMap b' = bt_blockVarNoToVarNoMap b ++ [vr_varNo r] ->
  vr_varNo r' = vr_varNo r -> vr_blockNo r' = a ->
  assoc_upto (k + 1) (aset bt a b') (aset refs k r').
Proof.
  intros Hup Hk Hb Hr Hmap Hv Hbn i btr v Hi Hin.
  pose proof (aget_Some _ _ _ Hb) as Hra. pose proof (aget_Some _ _ _ Hr) as Hrk.
  assert (Hold : forall i0 btr0, aget bt i0 = Some btr0 -> v ∈ bt_blockVarNoToVarNoMap btr0 ->
            exists j r0, 0 <= j < k + 1 /\ aget (aset refs k r') j = Some r0
                         /\ vr_varNo r0 = v /\ vr_blockNo r0 = i0).
  { intros i0 btr0 Hi0 Hin0. destruct (Hup i0 btr0 v Hi0 Hin0) as (j & r0 & Hj & Hr0 & ? & ?).
    exists j, r0. split; [lia|]. split; [|done]. rewrite aget_aset_ne by lia. done. }
  destruct (decide (i = a)) as [->|Hne].
  - rewrite aget_aset_eq in Hi by done. injection Hi as <-.
    rewrite Hmap in Hin. apply elem_of_app in Hin as [Hin|Hin%list_elem_of_singleton].
    + by eapply Hold.
    + exists k, r'. split; [lia|]. split; [by apply aget_aset_eq|]. split; congruence.
  - rewrite aget_aset_ne in Hi by done. by eapply Hold.
Qed.

Lemma updVarRef_ok i f (p : Parser) r :
  aget (varRefTab p) i = Some r ->
  updVarRef i f p = (Ok tt, set_varRefTab (aset (varRefTab p) i (f r)) p).
Proof. intros H. unfold updVarRef, bind, get. by rewrite H. Qed.

Lemma mspec_updVarRef i f (p : Parser) r Q E :
  aget (varRefTab p) i = Some r ->
  Q tt (set_varRefTab (aset (varRefTab p) i (f r)) p) ->
  mspec (updVarRef i f) p Q E.
Proof. intros H HQ. unfold mspec. by rewrite (updVarRef_ok _ _ _ r). Qed.

Lemma associateFrom_spec fuel k active next p :
  assoc_inv k p ->
  mspec (associateFrom fuel k active next) p
    (fun _ p' => (exists k', assoc_inv k' p') /\ templateText p' = templateText p
                 /\ varTab p' = varTab p)
    (fun e _ => assocThrows e).
Proof.
  revert k active next p. induction fuel as [|fuel IH]; intros k active next p Hinv.
  { apply mspec_throw. constructor. }
  cbn [associateFrom]. apply mspec_bind, mspec_get.
  destruct (Z.ltb_spec k (alen (varRefTab p))) as [Hk|Hk]; cbn [negb];
    [|apply mspec_ret; eauto].
  pose proof Hinv as [Hb Hv Hup Hpos].
  destruct (aget_is_Some (varRefTab p) k) as [vrtr Hvrtr]; [lia|].
  rewrite Hvrtr. apply mspec_bind, mspec_ret. cbv zeta.
  apply mspec_bind. apply mspec_orTypeError; [|intros; constructor].
  intros btr Hbtr.
  destruct (_ <=? _); [by apply IH|].
  apply mspec_bind.
  match goal with |- mspec ?m _ _ _ =>
    assert (Hm : exists enter, m p = (Ok enter, p) \/ m p = (Throw JsTypeError, p))
  end.
  { destruct (_ <? _); [|by eexists; left].
    destruct (aget (blockTab p) next) as [nb|]; [by eexists; left|].
    exists true. by right. }
  destruct Hm as (enter & [Hm|Hm]); unfold mspec at 1; rewrite Hm; [|constructor].
  destruct enter; [by apply IH|].
  apply mspec_bind, mspec_assert; [|intros; constructor]. intros _.
  apply mspec_bind. eapply mspec_updBlock; [done|].
  set (b1 := with_blockVarNoToVarNoMap
               (bt_blockVarNoToVarNoMap btr ++ [vr_varNo vrtr]) btr).
  set (p1 := set_blockTab (aset (blockTab p) active b1) p).
  assert (Hget1 : aget (blockTab p1) active = Some b1).
  { subst p1. cbn [blockTab set_blockTab]. apply aget_aset_eq. by eapply aget_Some. }
  apply mspec_bind.
  set (b2 := if bt_firstVarRefNo btr =? -1 then with_firstVarRefNo k b1 else b1).
  set (p2 := set_blockTab (aset (blockTab p) active b2) p).
  match goal with |- mspec ?m _ _ _ => assert (Hm2 : m p1 = (Ok tt, p2)) end.
  { subst p2 b2. destruct (_ =? -1).
    - rewrite (updBlock_ok _ _ _ b1 Hget1). subst p1. f_equal. destruct p; cbn.
      unfold set_blockTab; cbn. by rewrite aset_aset_eq.
    - done. }
  unfold mspec at 1. rewrite Hm2. clear Hm2.
  assert (Hr2 : aget (varRefTab p2) k = Some vrtr) by done.
  apply mspec_bind. eapply mspec_updVarRef; [done|].
  apply mspec_bind. eapply mspec_updVarRef.
  { cbn [varRefTab set_varRefTab]. apply aget_aset_eq. by eapply aget_Some. }
  cbn [varRefTab set_varRefTab]. rewrite aset_aset_eq.
  eapply mspec_conseq; [apply IH| |done].
  - constructor; cbn [blockTab varRefTab varTab set_varRefTab set_blockTab p2].
    + eapply blocks_inv_lookup_ext; [|eapply blocks_inv_aset; [exact Hb|exact Hbtr|]].
      * intros n. by destruct p.
      * subst b2 b1. by destruct (_ =? -1).
    + eapply vars_ok_lookup_ext; [|eapply vars_ok_aset; [exact Hv|exact Hvrtr|done]].
      intros n. by destruct p.
    + eapply assoc_upto_assign; try done.
      subst b2 b1. by destruct (_ =? -1).
    + lia.
  - cbv beta. intros _ p' (Hk' & Ht & Hvt). by repeat split.
Qed.

(** *** The whole parse *)

Lemma parsed_inv_scan p : parsed_inv p -> scan_inv p.
Proof.
  intros [Hb Hm (Hvt & Hrefs & Hmap)]. constructor; [done..|].
  rewrite Hvt, Hrefs. eapply vars_ok_lookup_ext; [|apply vars_ok_nil].
  intros n. unfold p_lookupVariableName. by rewrite Hmap, lookup_empty.
Qed.

Lemma scan_inv_assoc p : scan_inv p -> assoc_inv 0 p.
Proof.
  intros [Hb Hm Hv]. constructor; [done..| |done].
  intros i btr v Hi Hin. rewrite (Hm i btr Hi) in Hin. by apply elem_of_nil in Hin.
Qed.

Lemma parseTemplate_spec pParms evalJs fuel mainText :
  mspec (parseTemplate pParms evalJs fuel) (initialParser mainText)
    (fun _ p' => exists k, assoc_inv k p')
    (fun e _ => parserThrows e \/ assocThrows e).
Proof.
  unfold parseTemplate.
  destruct (beginMainBlock_inv mainText) as (p1 & Hrun1 & Hinv1).
  eapply mspec_bind_ok; [exact Hrun1|].
  apply mspec_bind. unfold parseTemplateCommands.
  eapply mspec_conseq; [by apply parseTemplateCommandsFrom_preserves| |by left].
  cbv beta. intros _ p2 Hinv2.
  apply mspec_bind.
  eapply mspec_conseq; [by apply endMainBlock_spec| |done].
  cbv beta. intros _ p3 [Hinv3 _].
  apply mspec_bind.
  eapply mspec_conseq; [by apply checkBlockDefinitionsComplete_spec| |by left].
  cbv beta. intros _ ? ->.
  apply mspec_bind, mspec_get.
  destruct (negb _); [apply mspec_throw; left; constructor|].
  apply mspec_bind. unfold parseTemplateVariables.
  eapply mspec_conseq;
    [by apply parseTemplateVariablesFrom_spec, parsed_inv_scan| |by left].
  cbv beta. intros _ p4 [Hinv4 _].
  unfold associateVariablesWithBlocks.
  eapply mspec_conseq; [by apply associateFrom_spec, scan_inv_assoc| |by right].
  cbv beta. by intros _ p5 (Hk & _).
Qed.

Lemma assoc_inv_template_ok k p : assoc_inv k p -> template_ok (parserResult p).
Proof.
  intros [Hb Hv Hup Hk]. constructor; cbn; [done..|].
  intros i btr v Hi Hin. destruct (Hup i btr v Hi Hin) as (j & r & Hj & Hr & ? & ?).
  exists r. split; [|done]. unfold aget in Hr. destruct (j <? 0); [done|].
  by eapply list_elem_of_lookup_2.
Qed.

(** Every template that [main] returns satisfies [template_ok]. *)
Lemma main_template_ok pParms evalJs fuel pt :
  main pParms evalJs fuel = Ok pt -> template_ok pt.
Proof.
  unfold main. destruct (loadTemplateFile _ _) as [mainText|]; [|done].
  pose proof (parseTemplate_spec pParms evalJs fuel mainText) as Hspec.
  unfold mspec in Hspec.
  destruct (parseTemplate _ _ _ _) as [[[]|e] p]; [|done].
  intros [= <-]. destruct Hspec as (k & Hk). by eapply assoc_inv_template_ok.
Qed.

(** What [main] throws. *)
Lemma main_throws pParms evalJs fuel e :
  main pParms evalJs fuel = Throw e -> parserThrows e \/ assocThrows e.
Proof.
  unfold main. destruct (loadTemplateFile _ _) as [mainText|].
  - pose proof (parseTemplate_spec pParms evalJs fuel mainText) as Hspec.
    unfold mspec in Hspec.
    destruct (parseTemplate _ _ _ _) as [[[]|e'] p]; [done|].
    by intros [= <-].
  - intros [= <-]. left. constructor.
Qed.


(** ** Unknown names *)

Lemma vars_ok_unknown vt lookup refs n :
  vars_ok vt lookup refs -> n ∉ vt -> lookup n = -1.
Proof.
  intros [H1 _ _ _] Hn. destruct (decide (lookup n = -1)) as [|Hne]; [done|].
  exfalso. apply Hn. specialize (H1 n _ eq_refl Hne).
  unfold aget in H1. destruct (_ <? 0); [done|]. by eapply list_elem_of_lookup_2.
Qed.

Lemma setVariable_unknown (t : MiniTemplator) name v :
  lookupVariableName (template t) name = -1 ->
  setVariable name v t = (Throw (newVariableNotDefinedError name), t)
  /\ setVariableOpt name v t = (Ok tt, t).
Proof. intros H. unfold setVariable, setVariableOpt, bind, get. by rewrite H. Qed.

Lemma addBlock_unknown (t : MiniTemplator) name fuel :
  lookupBlockName (template t) name = -1 ->
  addBlock fuel name t = (Throw (newBlockNotDefinedError name), t)
  /\ addBlockOpt fuel name t = (Ok tt, t).
Proof.
  intros H. unfold addBlock, addBlockOpt, bind, get. rewrite H.
  split; [done|]. by destruct fuel.
Qed.

(** C5.  On a template that [main] returned: [setVariable] with a name that
    is not in the variable table throws [VariableNotDefinedError] and
    [addBlock] with a name that no block definition has throws
    [BlockNotDefinedError]; [setVariableOpt] and [addBlockOpt] return
    normally; in the four cases the session (variable values, dynamic
    records, instances) is the one before the call. *)
Theorem unknown_names_leave_session pParms evalJs fuel0 pt (t : MiniTemplator) :
  main pParms evalJs fuel0 = Ok pt -> template t = pt ->
  (forall name v, name ∉ pt_varTab pt ->
     setVariable name v t = (Throw (newVariableNotDefinedError name), t)
     /\ setVariableOpt name v t = (Ok tt, t))
  /\ (forall name fuel, definitionsNamed (pt_blockTab pt) name = [] ->
        addBlock fuel name t = (Throw (newBlockNotDefinedError name), t)
        /\ addBlockOpt fuel name t = (Ok tt, t)).
Proof.
  intros [[Hnames _ _] Hvars _]%main_template_ok <-. split.
  - intros name v Hn. apply setVariable_unknown. by eapply vars_ok_unknown.
  - intros name fuel Hn. apply addBlock_unknown. by eapply names_ok_lookup_none.
Qed.

Lemma unknown_names_leave_session_witness :
  setVariable "zz" JsNull (newMiniTemplator (parsedExample rowText []))
  = (Throw (newVariableNotDefinedError "zz"), newMiniTemplator (parsedExample rowText []))
  /\ addBlock 5 "zz" (newMiniTemplator (parsedExample rowText []))
     = (Throw (newBlockNotDefinedError "zz"), newMiniTemplator (parsedExample rowText [])).
Proof.
  destruct (unknown_names_leave_session (parmsOf rowText []) evalIdentifier 1000
              (parsedExample rowText []) (newMiniTemplator (parsedExample rowText [])))
    as [Hv Hb].
  - vm_compute. reflexivity.
  - reflexivity.
  - destruct (Hv "zz"%string JsNull) as [H1 _].
    { vm_compute. intros H. inversion H as [|? ? ? H']; inversion H'. }
    destruct (Hb "zz"%string 5%nat) as [H2 _].
    { vm_compute. reflexivity. }
    exact (conj H1 H2).
Defined.

(** ** Instance chains *)

Lemma indicesFrom_NoDup {A} (f : A -> bool) l s : NoDup (indicesFrom f l s).
Proof.
  revert s. induction l as [|x l IH]; intros s; cbn [indicesFrom]; [constructor|].
  destruct (f x); cbn [app]; [|apply IH].
  constructor; [|apply IH]. intros Hin%indicesFrom_range. lia.
Qed.

Lemma indicesFrom_nonneg {A} (f : A -> bool) l i : i ∈ indicesFrom f l 0 -> 0 <= i < alen l.
Proof. intros H%indicesFrom_range. lia. Qed.

Lemma last_snoc {A} (l : list A) x d : List.last (l ++ [x]) d = x.
Proof. apply last_last. Qed.

Lemma last_elem_of {A} (l : list A) d : l <> [] -> List.last l d ∈ l.
Proof.
  induction l as [|x [|y l] IH]; [done| |]; intros _.
  - apply list_elem_of_here.
  - apply list_elem_of_further. by apply IH.
Qed.

Lemma linked_single next n : n <> -1 -> next n = Some (-1) -> linked next n [n].
Proof. intros. econstructor; [done..|constructor]. Qed.

Lemma linked_snoc next next' i l n :
  linked next i l -> NoDup l -> n <> -1 -> n ∉ l ->
  next' n = Some (-1) ->
  (forall j, j ∈ l -> j <> List.last l (-1) -> next' j = next j) ->
  (l <> [] -> next' (List.last l (-1)) = Some n) ->
  linked next' (if decide (l = []) then n else i) (l ++ [n]).
Proof.
  intros Hl. induction Hl as [|i nx rest Hi Hnx Hl IH]; intros Hnd Hn Hnl Hnn Hagree Hlast.
  { rewrite decide_True by done. by apply linked_single. }
  rewrite decide_False by done. cbn [app].
  apply NoDup_cons in Hnd as [Hirest Hnd].
  apply not_elem_of_cons in Hnl as [Hni Hnrest].
  destruct rest as [|j rest].
  - econstructor; [done|by apply Hlast|]. by apply linked_single.
  - assert (Hlasteq : List.last (i :: j :: rest) (-1) = List.last (j :: rest) (-1)) by done.
    econstructor; [done| |].
    + rewrite Hagree; [done|apply list_elem_of_here|].
      rewrite Hlasteq. intros ->. apply Hirest. by apply last_elem_of.
    + assert (Hgoal : linked next' (if decide (j :: rest = []) then n else nx)
                        ((j :: rest) ++ [n])).
      { apply IH; try done.
        - intros j' Hj' Hne. apply Hagree; [by apply list_elem_of_further|].
          by rewrite Hlasteq.
        - intros _. rewrite <- Hlasteq. by apply Hlast. }
      by rewrite decide_False in Hgoal.
Qed.

Lemma linkLast_map {B} (g : BlockInstTabRec -> B) insts lastNo newNo :
  (forall v r, g (with_nextBlockInstNo v r) = g r) ->
  map g (linkLast insts lastNo newNo) = map g insts.
Proof.
  intros Hg. unfold linkLast. destruct (lastNo =? -1); [done|].
  destruct (aget insts lastNo) as [r|] eqn:Hr; [|done].
  by eapply map_aset_same.
Qed.

Lemma instancesOf_ext insts insts' blockNo :
  map bi_blockNo insts = map bi_blockNo insts' ->
  instancesOf insts blockNo = instancesOf insts' blockNo.
Proof.
  intros Hm. apply indicesFrom_ext.
  assert (H : map (fun b => b =? blockNo) (map bi_blockNo insts)
              = map (fun b => b =? blockNo) (map bi_blockNo insts')) by by rewrite Hm.
  by rewrite !map_map in H.
Qed.

Lemma instancesOf_spec insts blockNo i :
  i ∈ instancesOf insts blockNo <-> exists r, aget insts i = Some r /\ bi_blockNo r = blockNo.
Proof.
  unfold instancesOf. rewrite indicesFrom_spec, Z.sub_0_r.
  split; intros (r & Hr & Hb); exists r; (split; [done|]); by apply Z.eqb_eq.
Qed.

Lemma instancesOf_add insts lastNo new b :
  instancesOf (linkLast insts lastNo (alen insts) ++ [new]) b
  = instancesOf insts b ++ (if bi_blockNo new =? b then [alen insts] else []).
Proof.
  unfold instancesOf. rewrite indicesFrom_snoc, Z.add_0_l, linkLast_length.
  f_equal. apply instancesOf_ext. by apply linkLast_map.
Qed.

(** The forward pointers after [addBlockByNo]. *)
Lemma nextBlockInstNoOf_add insts lastNo new j :
  lastNo = -1 \/ 0 <= lastNo < alen insts ->
  nextBlockInstNoOf (linkLast insts lastNo (alen insts) ++ [new]) j
  = if decide (j = alen insts) then Some (nextBlockInstNo new)
    else if decide (j = lastNo /\ lastNo <> -1) then Some (alen insts)
    else nextBlockInstNoOf insts j.
Proof.
  intros Hlast. unfold nextBlockInstNoOf. pose proof (alen_nonneg insts).
  destruct (decide (j = alen insts)) as [->|Hj].
  { by rewrite aget_app_last_eq by by rewrite linkLast_length. }
  destruct (decide (j < alen insts)) as [Hlt|Hge].
  - rewrite aget_app_l by by rewrite linkLast_length.
    unfold linkLast. destruct (Z.eqb_spec lastNo (-1)) as [->|Hne].
    + rewrite decide_False by lia. done.
    + destruct Hlast as [?|Hlast]; [done|].
      destruct (aget_is_Some insts lastNo) as [r Hr]; [done|]. rewrite Hr.
      destruct (decide (j = lastNo /\ lastNo <> -1)) as [[-> _]|Hnot].
      * by rewrite aget_aset_eq.
      * rewrite aget_aset_ne; [done|]. intros ->. by apply Hnot.
  - rewrite aget_ge by (rewrite alen_app, alen_singleton, linkLast_length; lia).
    rewrite decide_False by lia. by rewrite aget_ge by lia.
Qed.

Lemma hd_nonneg_of_indices {A} (f : A -> bool) l :
  indicesFrom f l 0 <> [] -> 0 <= hd (-1) (indicesFrom f l 0).
Proof.
  destruct (indicesFrom f l 0) as [|i rest] eqn:Hl; [done|]. intros _. cbn.
  assert (Hi : i ∈ indicesFrom f l 0) by (rewrite Hl; apply list_elem_of_here).
  apply indicesFrom_nonneg in Hi. lia.
Qed.

Lemma dyn_ok_last_valid insts blockNo bdtr :
  dyn_ok insts blockNo bdtr ->
  (lastBlockInstNo bdtr = -1 /\ instancesOf insts blockNo = [])
  \/ (0 <= lastBlockInstNo bdtr < alen insts
      /\ lastBlockInstNo bdtr ∈ instancesOf insts blockNo).
Proof.
  intros [_ _ Hlast _]. destruct (instancesOf insts blockNo) as [|i rest] eqn:Hl.
  - by left.
  - right. assert (Hin : lastBlockInstNo bdtr ∈ instancesOf insts blockNo).
    { rewrite Hlast, Hl. by apply last_elem_of. }
    split; [|by rewrite <- Hl]. by apply indicesFrom_nonneg in Hin.
Qed.

Lemma session_inv_add (t : MiniTemplator) blockNo btr bdtr :
  session_inv t ->
  aget (blockDynTab t) blockNo = Some bdtr ->
  session_inv (afterAddBlockByNo t blockNo btr bdtr).
Proof.
  intros [Hlen Hdyn Hlevel] Hbdtr.
  pose proof (Hdyn _ _ Hbdtr) as Hok.
  pose proof Hok as [Hinst Hfirst Hlast Hlinked].
  pose proof (alen_nonneg (blockInstTab t)) as Hn.
  set (l := instancesOf (blockInstTab t) blockNo) in *.
  assert (Hlrange : forall j, j ∈ l -> 0 <= j < alen (blockInstTab t))
    by (intros j Hj; by apply indicesFrom_nonneg in Hj).
  assert (Hlastv : lastBlockInstNo bdtr = -1
                   \/ 0 <= lastBlockInstNo bdtr < alen (blockInstTab t)).
  { destruct (dyn_ok_last_valid _ _ _ Hok) as [[? _]|[? _]]; [by left|by right]. }
  unfold afterAddBlockByNo. cbv zeta.
  set (n := alen (blockInstTab t)) in *.
  match goal with |- session_inv (mkMiniTemplator _ _ _ (_ ++ [?r])) => set (new := r) end.
  set (insts' := linkLast (blockInstTab t) (lastBlockInstNo bdtr) n ++ [new]).
  assert (Hnext : forall j, nextBlockInstNoOf insts' j
            = if decide (j = n) then Some (-1)
              else if decide (j = lastBlockInstNo bdtr /\ lastBlockInstNo bdtr <> -1)
                   then Some n else nextBlockInstNoOf (blockInstTab t) j).
  { intros j. subst insts' n. by rewrite nextBlockInstNoOf_add. }
  assert (Hinsts : forall b, instancesOf insts' b
            = instancesOf (blockInstTab t) b ++ (if blockNo =? b then [n] else [])).
  { intros b. subst insts' n. by rewrite instancesOf_add. }
  constructor; cbn [template blockDynTab blockInstTab].
  - by rewrite alen_aset.
  - intros b d Hd. destruct (decide (b = blockNo)) as [->|Hne].
    + rewrite aget_aset_eq in Hd by by eapply aget_Some. injection Hd as <-.
      constructor; cbn [instances firstBlockInstNo lastBlockInstNo];
        rewrite Hinsts, Z.eqb_refl; fold l.
      * rewrite alen_app, alen_singleton. lia.
      * destruct l as [|i rest] eqn:Hl; cbn in Hfirst |- *.
        -- by rewrite Hfirst.
        -- assert (0 <= i) by (apply (Hlrange i); apply list_elem_of_here).
           rewrite Hfirst. destruct (Z.eqb_spec i (-1)); [lia|done].
      * by rewrite last_snoc.
      * assert (Hgoal : linked (nextBlockInstNoOf insts')
                  (if decide (l = []) then n else firstBlockInstNo bdtr) (l ++ [n])).
        { apply (linked_snoc (nextBlockInstNoOf (blockInstTab t))); try done.
          - apply indicesFrom_NoDup.
          - lia.
          - intros Hin%Hlrange. lia.
          - rewrite Hnext. by rewrite decide_True.
          - intros j Hj Hjl. rewrite Hnext.
            rewrite decide_False by (apply Hlrange in Hj; lia).
            rewrite decide_False; [done|]. intros [-> _]. by rewrite Hlast in Hjl.
          - intros Hne. rewrite Hnext.
            assert (Hin : List.last l (-1) ∈ l) by by apply last_elem_of.
            rewrite decide_False by (apply Hlrange in Hin; lia).
            rewrite decide_True; [done|]. rewrite Hlast. split; [done|].
            apply Hlrange in Hin. lia. }
        destruct l as [|i rest] eqn:Hl; cbn in Hfirst.
        -- rewrite decide_True in Hgoal by done. by rewrite Hfirst.
        -- rewrite decide_False in Hgoal by done.
           assert (0 <= i) by (apply (Hlrange i); apply list_elem_of_here).
           rewrite Hfirst in *. by destruct (Z.eqb_spec i (-1)); [lia|].
    + rewrite aget_aset_ne in Hd by done.
      destruct (Hdyn _ _ Hd) as [H1 H2 H3 H4].
      assert (Hsame : instancesOf insts' b = instancesOf (blockInstTab t) b).
      { rewrite Hinsts. destruct (Z.eqb_spec blockNo b) as [->|_]; [done|].
        by rewrite app_nil_r. }
      constructor; rewrite Hsame; [done..|].
      eapply linked_ext; [|exact H4]. intros j Hj. rewrite Hnext.
      pose proof (indicesFrom_nonneg _ _ _ Hj).
      rewrite decide_False by lia.
      rewrite decide_False; [done|]. intros [-> Hl1].
      destruct (dyn_ok_last_valid _ _ _ Hok) as [[? _]|[_ Hin]]; [done|].
      apply instancesOf_spec in Hj as (r1 & Hr1 & Hb1).
      apply instancesOf_spec in Hin as (r2 & Hr2 & Hb2). congruence.
  - intros i r Hi.
    destruct (decide (i = n)) as [->|Hin].
    + subst insts'. rewrite aget_app_last_eq in Hi by by rewrite linkLast_length.
      injection Hi as <-. cbn [bi_blockNo instanceLevel new].
      rewrite Hinsts, Z.eqb_refl, Hinst. fold l. split; [|apply alen_nonneg].
      unfold alen. rewrite Nat2Z.id. by rewrite lookup_app_r, Nat.sub_diag.
    + assert (Hlt : i < n).
      { apply aget_Some in Hi. subst insts'.
        rewrite alen_app, alen_singleton, linkLast_length in Hi. lia. }
      subst insts'. rewrite aget_app_l in Hi by by rewrite linkLast_length.
      assert (Hmap : map (fun r => (bi_blockNo r, instanceLevel r))
                       (linkLast (blockInstTab t) (lastBlockInstNo bdtr) n)
                     = map (fun r => (bi_blockNo r, instanceLevel r)) (blockInstTab t))
        by by apply linkLast_map.
      pose proof (map_lookup_eq _ _ _ i Hmap) as Hm. cbv beta in Hm.
      rewrite Hi in Hm. destruct (aget (blockInstTab t) i) as [r0|] eqn:Hr0; [|done].
      cbn in Hm. injection Hm as Hb Hl0. rewrite Hb, Hl0.
      destruct (Hlevel _ _ Hr0) as [Hlk Hpos]. split; [|done].
      rewrite Hinsts. by apply lookup_app_l_Some.
Qed.

(** ** The invariant holds in every session *)

Lemma dyn_ok_counts insts blockNo d d' :
  dynCounts d' = dynCounts d -> dyn_ok insts blockNo d -> dyn_ok insts blockNo d'.
Proof.
  unfold dynCounts. intros [= H1 H2 H3] [? ? ? ?].
  constructor; rewrite ?H1, ?H2, ?H3; done.
Qed.

Lemma session_inv_cursors t1 t2 :
  same_but_cursors t1 t2 -> session_inv t1 -> session_inv t2.
Proof.
  intros (Ht & _ & Hd & Hi) [Hlen Hdyn Hlevel].
  constructor; rewrite <- ?Ht, <- ?Hi.
  - by rewrite <- (map_alen_eq _ _ _ Hd).
  - intros b d' Hd'. pose proof (map_lookup_eq dynCounts _ _ b Hd) as Hm.
    rewrite Hd' in Hm. destruct (aget (blockDynTab t1) b) as [d|] eqn:Hb; [|done].
    cbn in Hm. apply (dyn_ok_counts _ _ d); [unfold dynCounts in *; congruence|].
    by eapply Hdyn.
  - done.
Qed.

Lemma session_inv_same_instances t1 t2 :
  same_instances t1 t2 -> session_inv t1 -> session_inv t2.
Proof.
  intros (Ht & Hd & Hi) [Hlen Hdyn Hlevel].
  constructor; rewrite <- ?Ht, <- ?Hd, <- ?Hi; done.
Qed.

Lemma same_but_cursors_refl t : same_but_cursors t t.
Proof. done. Qed.

Lemma same_but_cursors_trans t1 t2 t3 :
  same_but_cursors t1 t2 -> same_but_cursors t2 t3 -> same_but_cursors t1 t3.
Proof. unfold same_but_cursors. intuition congruence. Qed.

Lemma updBlockDyn_cursor blockNo v t :
  mspec (updBlockDyn blockNo (with_currBlockInstNo v)) t
    (fun _ t' => same_but_cursors t t') (fun _ t' => same_but_cursors t t').
Proof.
  unfold updBlockDyn. wp; try done.
  repeat split; try done. cbn. symmetry. by eapply map_aset_same.
Qed.

(** The writers move cursors only. *)
Lemma writers_cursors fuel :
  (forall out blockNo lvl t,
     mspec (writeBlockInstances fuel out blockNo lvl) t
       (fun _ t' => same_but_cursors t t') (fun _ t' => same_but_cursors t t'))
  /\ (forall out blockInstNo t,
        mspec (writeBlockInstance fuel out blockInstNo) t
          (fun _ t' => same_but_cursors t t') (fun _ t' => same_but_cursors t t'))
  /\ (forall out bitr blockNo btr tPos subBlockNo varRefNo t,
        mspec (writeChunks fuel out bitr blockNo btr tPos subBlockNo varRefNo) t
          (fun _ t' => same_but_cursors t t') (fun _ t' => same_but_cursors t t')).
Proof.
  induction fuel as [|fuel (IH1 & IH2 & IH3)].
  { repeat split; intros; by apply mspec_throw. }
  assert (Hc1 : forall out blockNo lvl t t0,
            same_but_cursors t0 t ->
            mspec (writeBlockInstances fuel out blockNo lvl) t
              (fun _ t' => same_but_cursors t0 t') (fun _ t' => same_but_cursors t0 t')).
  { intros. eapply mspec_conseq; [apply IH1|..]; cbv beta; eauto using same_but_cursors_trans. }
  assert (Hc2 : forall out blockInstNo t t0 (Q : list string -> MiniTemplator -> Prop),
            same_but_cursors t0 t ->
            (forall o t', same_but_cursors t0 t' -> Q o t') ->
            mspec (writeBlockInstance fuel out blockInstNo) t
              Q (fun _ t' => same_but_cursors t0 t')).
  { intros. eapply mspec_conseq; [apply IH2|..]; cbv beta; eauto using same_but_cursors_trans. }
  assert (Hc3 : forall out bitr blockNo btr tPos subBlockNo varRefNo t t0,
            same_but_cursors t0 t ->
            mspec (writeChunks fuel out bitr blockNo btr tPos subBlockNo varRefNo) t
              (fun _ t' => same_but_cursors t0 t') (fun _ t' => same_but_cursors t0 t')).
  { intros. eapply mspec_conseq; [apply IH3|..]; cbv beta; eauto using same_but_cursors_trans. }
  assert (Hc1' : forall out blockNo lvl t t0 (Q : list string -> MiniTemplator -> Prop),
            same_but_cursors t0 t ->
            (forall o t', same_but_cursors t0 t' -> Q o t') ->
            mspec (writeBlockInstances fuel out blockNo lvl) t
              Q (fun _ t' => same_but_cursors t0 t')).
  { intros. eapply mspec_conseq; [apply IH1|..]; cbv beta; eauto using same_but_cursors_trans. }
  clear IH1 IH2 IH3.
  repeat split; intros; cbn [writeBlockInstances writeBlockInstance writeChunks].
  - apply mspec_bind, mspec_get. wp; try done.
    apply Hc2; [done|]. intros o t1 Ht1. wp; try done.
    eapply mspec_conseq; [apply updBlockDyn_cursor|..]; cbv beta.
    + intros _ t2 Ht2. apply Hc1. eauto using same_but_cursors_trans.
    + intros; eauto using same_but_cursors_trans.
  - wp; try done. by apply Hc3.
  - apply mspec_bind, mspec_get. cbv zeta.
    repeat first
      [ apply Hc3; done
      | apply Hc1'; [done|intros ? ? ?]
      | wp_step ]; try done.
Qed.

Lemma session_inv_new pt : session_inv (newMiniTemplator pt).
Proof.
  constructor; cbn.
  - unfold alen. by rewrite length_replicate.
  - intros b d Hd. unfold aget in Hd. destruct (b <? 0); [done|].
    apply lookup_replicate in Hd as [-> _]. constructor; cbn; try done. constructor.
  - intros i r Hi. apply aget_Some in Hi. unfold alen in Hi. cbn in Hi. lia.
Qed.

Lemma resetBlockDynTab_spec n l b d :
  List.length l = n ->
  aget (resetBlockDynTab n l) b = Some d ->
  instances d = 0 /\ firstBlockInstNo d = -1 /\ lastBlockInstNo d = -1.
Proof.
  intros Hlen. unfold resetBlockDynTab.
  rewrite drop_ge by lia. rewrite app_nil_r.
  unfold aget. destruct (b <? 0); [done|].
  change (map ?f ?l) with (f <$> l).
  rewrite list_lookup_fmap. destruct (seq 0 n !! Z.to_nat b) as [k|]; [|done].
  cbn. intros [= <-]. by destruct (l !! k).
Qed.

Lemma resetBlockDynTab_length n l :
  List.length l = n -> List.length (resetBlockDynTab n l) = n.
Proof.
  intros Hlen. unfold resetBlockDynTab. rewrite length_app, length_map, length_seq.
  rewrite length_drop. lia.
Qed.

Lemma session_inv_reset t : session_inv t -> session_inv (snd (reset t)).
Proof.
  intros [Hlen _ _]. unfold reset, modify. cbn [snd].
  assert (Hl : List.length (blockDynTab t) = List.length (pt_blockTab (template t)))
    by (unfold alen in Hlen; lia).
  constructor; cbn [template blockDynTab blockInstTab].
  - unfold alen. by rewrite resetBlockDynTab_length.
  - intros b d Hd. apply resetBlockDynTab_spec in Hd as (H1 & H2 & H3); [|done].
    constructor; cbn; rewrite ?H1, ?H2, ?H3; try done. constructor.
  - intros i r Hi. apply aget_Some in Hi. unfold alen in Hi. cbn in Hi. lia.
Qed.

Lemma wrap16_small b : 0 <= b < 32768 -> wrap16 b = b.
Proof. intros. unfold wrap16. rewrite Z.mod_small by lia. lia. Qed.

Lemma parents_valid_of_template_ok pt :
  template_ok pt -> alen (pt_blockTab pt) <= 32768 -> parents_valid pt.
Proof.
  intros [[_ Hblocks _] _ _] Hlen i btr Hi.
  pose proof (aget_Some _ _ _ Hi).
  destruct (bo_parent _ _ (Hblocks _ _ Hi)) as [[_ ->]|(b & Hb & ->)]; [by left|right].
  rewrite wrap16_small by lia. lia.
Qed.

(** [addBlockByNo] on a block of the template, in a session that satisfies
    the invariant. *)
Lemma addBlockByNo_session (t : MiniTemplator) blockNo btr :
  session_inv t -> parents_valid (template t) ->
  aget (pt_blockTab (template t)) blockNo = Some btr ->
  exists bdtr, aget (blockDynTab t) blockNo = Some bdtr
    /\ addBlockByNo blockNo t = (Ok tt, afterAddBlockByNo t blockNo btr bdtr)
    /\ session_inv (afterAddBlockByNo t blockNo btr bdtr).
Proof.
  intros Hinv Hpar Hbtr. pose proof Hinv as [Hlen Hdyn _].
  destruct (aget_is_Some (blockDynTab t) blockNo) as [bdtr Hbdtr].
  { rewrite Hlen. by eapply aget_Some. }
  exists bdtr. split; [done|]. split; [|by apply session_inv_add].
  apply addBlockByNo_ok; [done..| |].
  - destruct (dyn_ok_last_valid _ _ _ (Hdyn _ _ Hbdtr)) as [[? _]|[? _]]; [by left|by right].
  - rewrite Hlen. by eapply Hpar.
Qed.

Lemma afterAddBlockByNo_template t blockNo btr bdtr :
  template (afterAddBlockByNo t blockNo btr bdtr) = template t.
Proof. done. Qed.

Lemma addBlocksByNo_chain fuel (t : MiniTemplator) blockNo chain :
  session_inv t -> parents_valid (template t) ->
  linked (nextWithSameNameOf (pt_blockTab (template t))) blockNo chain ->
  (List.length chain <= fuel)%nat ->
  addBlocksByNo fuel blockNo t = (Ok tt, afterAddBlocks t chain)
  /\ session_inv (afterAddBlocks t chain)
  /\ template (afterAddBlocks t chain) = template t.
Proof.
  intros Hinv Hpar Hl. remember (template t) as pt eqn:Hpt.
  revert fuel t Hinv Hpar Hpt.
  induction Hl as [|i nx rest Hi Hnx Hl IH]; intros fuel t Hinv Hpar -> Hfuel.
  { by destruct fuel. }
  destruct fuel as [|fuel]; [cbn in Hfuel; lia|]. cbn [addBlocksByNo afterAddBlocks].
  destruct (Z.eqb_spec i (-1)) as [|_]; [done|].
  unfold nextWithSameNameOf in Hnx.
  destruct (aget (pt_blockTab (template t)) i) as [btr|] eqn:Hbtr; [|done].
  cbn in Hnx. injection Hnx as <-.
  destruct (addBlockByNo_session t i btr Hinv Hpar Hbtr) as (bdtr & Hbdtr & Hrun & Hinv1).
  rewrite Hbdtr. rewrite (bind_ok _ _ _ _ _ Hrun).
  rewrite (bind_ok get _ _ _ _ eq_refl). rewrite afterAddBlockByNo_template, Hbtr.
  rewrite (bind_ok (orTypeError _) _ _ btr _) by done.
  destruct (IH fuel (afterAddBlockByNo t i btr bdtr)) as (H1 & H2 & H3);
    [done|done|done|cbn in Hfuel; lia|].
  done.
Qed.

Lemma afterAddBlocks_blockNos (t : MiniTemplator) chain :
  session_inv t ->
  Forall (fun b => is_Some (aget (pt_blockTab (template t)) b)) chain ->
  map bi_blockNo (blockInstTab (afterAddBlocks t chain))
  = map bi_blockNo (blockInstTab t) ++ chain.
Proof.
  revert t. induction chain as [|b rest IH]; intros t Hinv Hall.
  { by rewrite app_nil_r. }
  apply Forall_cons in Hall as [[btr Hbtr] Hall]. cbn [afterAddBlocks]. rewrite Hbtr.
  destruct (aget_is_Some (blockDynTab t) b) as [bdtr Hbdtr].
  { rewrite (si_len _ Hinv). by eapply aget_Some. }
  rewrite Hbdtr, IH; [|by apply session_inv_add|done].
  cbn [afterAddBlockByNo blockInstTab]. rewrite map_app. cbn [map bi_blockNo].
  rewrite (linkLast_map bi_blockNo) by done. by rewrite <- app_assoc.
Qed.


(** * Sessions reached through the public interface *)

Lemma stable_refl t : stable t t -> session_inv t.
Proof. by intros [? _]. Qed.

Lemma addBlocksByNo_session fuel (t : MiniTemplator) blockNo chain :
  session_inv t -> parents_valid (template t) ->
  linked (nextWithSameNameOf (pt_blockTab (template t))) blockNo chain ->
  mspec (addBlocksByNo fuel blockNo) t (fun _ t' => stable t t') (fun _ t' => stable t t').
Proof.
  intros Hinv Hpar Hl. remember (template t) as pt eqn:Hpt.
  assert (Hgen : forall t0, template t0 = pt -> session_inv t0 ->
            mspec (addBlocksByNo fuel blockNo) t0
              (fun _ t' => session_inv t' /\ template t' = pt)
              (fun _ t' => session_inv t' /\ template t' = pt)).
  { clear t Hinv Hpt. revert fuel.
    induction Hl as [|i nx rest Hi Hnx Hl IH]; intros fuel t Hpt Hinv.
    { by destruct fuel. }
    subst pt. destruct fuel as [|fuel]; cbn [addBlocksByNo];
      destruct (Z.eqb_spec i (-1)) as [|_]; try done.
    unfold nextWithSameNameOf in Hnx.
    destruct (aget (pt_blockTab (template t)) i) as [btr|] eqn:Hbtr; [|done].
    cbn in Hnx. injection Hnx as <-.
    destruct (addBlockByNo_session t i btr Hinv Hpar Hbtr) as (bdtr & Hbdtr & Hrun & Hinv1).
    eapply mspec_bind_ok; [exact Hrun|].
    apply mspec_bind, mspec_get, mspec_bind. rewrite afterAddBlockByNo_template, Hbtr.
    cbn [orTypeError]. apply mspec_ret. by apply IH. }
  subst pt. by apply Hgen.
Qed.

Lemma generateOutputString_session fuel (t : MiniTemplator) :
  session_inv t -> parents_valid (template t) ->
  mspec (generateOutputString fuel) t (fun _ t' => stable t t') (fun _ t' => stable t t').
Proof.
  intros Hinv Hpar. unfold generateOutputString, generateOutputArray.
  apply mspec_bind, mspec_bind, mspec_get, mspec_bind, mspec_orTypeError; [|done].
  intros bdtr0 Hb0. apply mspec_bind.
  assert (Hadd : mspec (if instances bdtr0 =? 0 then addBlockByNo 0 else ret ()) t
                   (fun _ t' => stable t t') (fun _ t' => stable t t')).
  { destruct (instances bdtr0 =? 0); [|done].
    destruct (aget_is_Some (pt_blockTab (template t)) 0) as [btr Hbtr].
    { rewrite <- (si_len _ Hinv). by eapply aget_Some. }
    destruct (addBlockByNo_session t 0 btr Hinv Hpar Hbtr) as (bdtr & Hbdtr & Hrun & Hinv1).
    unfold mspec. by rewrite Hrun. }
  eapply mspec_conseq; [apply Hadd| |done]. cbv beta. intros _ t1 [Hinv1 Ht1].
  apply mspec_bind, mspec_modify.
  match goal with |- mspec _ ?t2 _ _ => assert (Hc : same_but_cursors t1 t2) end.
  { repeat split; try done. cbn. rewrite map_map. by apply map_ext. }
  pose proof (session_inv_cursors _ _ Hc Hinv1) as Hinv2.
  destruct (writers_cursors fuel) as (Hw & _ & _).
  eapply mspec_conseq; [apply Hw|..]; cbv beta.
  - intros out t3 Hc3. apply mspec_ret. split.
    + by eapply session_inv_cursors.
    + destruct Hc3 as (<- & _). by destruct Hc as (<- & _).
  - intros e t3 Hc3. split.
    + by eapply session_inv_cursors.
    + destruct Hc3 as (<- & _). by destruct Hc as (<- & _).
Qed.

Lemma runCall_session fuel c (t : MiniTemplator) :
  session_inv t -> parents_valid (template t) ->
  names_ok (pt_blockTab (template t)) (lookupBlockName (template t)) ->
  stable t (snd (runCall fuel c t)).
Proof.
  intros Hinv Hpar Hnames. apply (mspec_snd _ _ (stable t)).
  assert (Hset : forall t', same_instances t t' -> stable t t').
  { intros t' Hs. split; [by eapply session_inv_same_instances|]. by destruct Hs as (<- & _). }
  destruct c; cbn [runCall]; apply mspec_bind.
  - eapply mspec_conseq; [apply setVariable_frame|cbv beta; eauto..].
  - eapply mspec_conseq; [apply setVariableOpt_frame|cbv beta; eauto..].
  - unfold addBlock. apply mspec_bind, mspec_get.
    destruct (_ =? -1); [done|].
    eapply mspec_conseq; [by eapply addBlocksByNo_session|done..].
  - unfold addBlockOpt. apply mspec_bind, mspec_get.
    eapply mspec_conseq; [by eapply addBlocksByNo_session|done..].
  - unfold reset. apply mspec_modify, mspec_ret. split; [|done].
    by apply (session_inv_reset t).
  - eapply mspec_conseq; [by apply generateOutputString_session|done..].
Qed.

Lemma runCalls_session fuel calls (t : MiniTemplator) :
  session_inv t -> parents_valid (template t) ->
  names_ok (pt_blockTab (template t)) (lookupBlockName (template t)) ->
  stable t (snd (runCalls fuel calls t)).
Proof.
  revert t. induction calls as [|c rest IH]; intros t Hinv Hpar Hnames; [done|].
  rewrite runCalls_cons.
  destruct (runCall_session fuel c t Hinv Hpar Hnames) as [Hinv1 Ht1].
  destruct (IH (snd (runCall fuel c t))) as [Hinv2 Ht2]; rewrite ?Ht1; try done.
  split; [done|congruence].
Qed.

(** The sessions that a caller reaches on a template that [main] returned. *)
Lemma reachable_session pParms evalJs fuel0 pt fuel calls :
  main pParms evalJs fuel0 = Ok pt -> alen (pt_blockTab pt) <= 32768 ->
  stable (newMiniTemplator pt) (snd (runCalls fuel calls (newMiniTemplator pt)))
  /\ template_ok pt /\ parents_valid pt.
Proof.
  intros Hok%main_template_ok Hlen.
  pose proof (parents_valid_of_template_ok pt Hok Hlen) as Hpar.
  split; [|done]. apply runCalls_session; [apply session_inv_new|done|].
  apply Hok.
Qed.

Lemma linked_valid bt i chain :
  linked (nextWithSameNameOf bt) i chain -> Forall (fun b => is_Some (aget bt b)) chain.
Proof.
  induction 1 as [|i nx rest Hi Hnx Hl IH]; constructor; [|done].
  unfold nextWithSameNameOf in Hnx. by destruct (aget bt i).
Qed.

(** C1 (as the code has it).  On a template that [main] returned, with at
    most 32768 blocks, and in a session reached from a new one by any calls
    of the public interface: [addBlock n] throws [BlockNotDefinedError] and
    leaves the session when no block definition has the name [n];
    otherwise it returns (the fuel covering the definitions) and appends
    exactly one instance for each block definition named [n], from the last
    definition in the template text back to the first one. *)
Theorem addBlock_instances pParms evalJs fuel0 pt fuel calls name fuel' :
  main pParms evalJs fuel0 = Ok pt ->
  alen (pt_blockTab pt) <= 32768 ->
  let t := snd (runCalls fuel calls (newMiniTemplator pt)) in
  let defs := definitionsNamed (pt_blockTab pt) name in
  (defs = [] -> addBlock fuel' name t = (Throw (newBlockNotDefinedError name), t))
  /\ (defs <> [] -> (List.length defs <= fuel')%nat ->
      exists t', addBlock fuel' name t = (Ok tt, t')
        /\ map bi_blockNo (blockInstTab t')
           = map bi_blockNo (blockInstTab t) ++ rev defs).
Proof.
  intros Hmain Hlen t defs.
  destruct (reachable_session _ _ _ _ fuel calls Hmain Hlen) as ([Hinv Ht] & Hok & Hpar).
  fold t in Hinv, Ht. cbn [template newMiniTemplator] in Ht.
  pose proof (bi_names _ _ (to_blocks _ Hok) name) as Hl. fold defs in Hl.
  split.
  - intros Hdefs. apply addBlock_unknown. rewrite Ht.
    by apply (names_ok_lookup_none _ _ name (bi_names _ _ (to_blocks _ Hok))).
  - intros Hdefs Hfuel. exists (afterAddBlocks t (rev defs)).
    unfold addBlock, bind, get. rewrite Ht.
    destruct (Z.eqb_spec (lookupBlockName pt name) (-1)) as [Hm1|_].
    { by apply (names_ok_lookup_none _ _ name (bi_names _ _ (to_blocks _ Hok))) in Hm1. }
    destruct (addBlocksByNo_chain fuel' t (lookupBlockName pt name) (rev defs))
      as (Hrun & _ & _); rewrite ?Ht; try done.
    { by rewrite length_rev. }
    split; [done|]. apply afterAddBlocks_blockNos; [done|].
    rewrite Ht. by eapply linked_valid.
Qed.

(** C1 (the claim as stated is refuted).  With two block definitions named
    [r], [addBlock r] on a new session creates the instance of the second
    definition before the instance of the first one: the instances are not
    in the definitions' order of appearance. *)
Lemma addBlock_not_in_definition_order :
  ~ (forall text name fuel t',
       addBlock fuel name (newMiniTemplator (parsedExample text [])) = (Ok tt, t') ->
       map bi_blockNo (blockInstTab t')
       = definitionsNamed (pt_blockTab (parsedExample text [])) name).
Proof.
  intros H. specialize (H twoRowsText "r"%string 5%nat).
  destruct (addBlock 5 "r" (newMiniTemplator (parsedExample twoRowsText []))) as [r t'] eqn:Hrun.
  vm_compute in Hrun. injection Hrun as <- <-.
  specialize (H _ eq_refl). vm_compute in H. discriminate H.
Qed.

Lemma addBlock_instances_witness :
  exists t',
    addBlock 5 "r" (newMiniTemplator (parsedExample twoRowsText [])) = (Ok tt, t')
    /\ map bi_blockNo (blockInstTab t') = [2; 1].
Proof.
  destruct (addBlock_instances (parmsOf twoRowsText []) evalIdentifier 1000
              (parsedExample twoRowsText []) 5 [] "r" 5) as [_ H].
  - vm_compute. reflexivity.
  - vm_compute. discriminate.
  - apply H.
    + vm_compute. discriminate.
    + vm_compute. lia.
Defined.


(** * Repeated [addBlock] and the rendering of the instances *)

Lemma returns_eq {S A} (m : M S A) (s : S) Q :
  returns m s Q -> exists a s', m s = (Ok a, s') /\ Q a s'.
Proof. unfold returns, mspec. destruct (m s) as [[a|e] s']; [eauto|done]. Qed.

Lemma eq_returns {S A} (m : M S A) (s : S) (Q : A -> S -> Prop) a s' :
  m s = (Ok a, s') -> Q a s' -> returns m s Q.
Proof. unfold returns, mspec. by intros ->. Qed.

Lemma same_but_cursors_upd (t t1 : MiniTemplator) b bdtr v :
  same_but_cursors t t1 -> aget (blockDynTab t1) b = Some bdtr ->
  same_but_cursors t
    (set_blockDynTab (fun l => aset l b (with_currBlockInstNo v bdtr)) t1).
Proof.
  intros (H1 & H2 & H3 & H4) Hb. repeat split; try done.
  cbn. rewrite H3. symmetry. by eapply map_aset_same.
Qed.

(** [writeBlockInstances] follows the chain of the instances from the
    cursor while their parent level is the active one; [body i] is what
    [writeBlockInstance] pushes for the instance [i]. *)
Lemma writeBlockInstances_chain (t : MiniTemplator) b lvl (body : Z -> list string) F c chain :
  linked (nextBlockInstNoOf (blockInstTab t)) c chain ->
  (forall i, i ∈ chain ->
     exists bitr, aget (blockInstTab t) i = Some bitr /\ parentInstLevel bitr = lvl) ->
  (forall i f out t2, i ∈ chain -> (F <= f)%nat -> same_but_cursors t t2 ->
     writeBlockInstance f out i t2 = (Ok (out ++ body i), t2)) ->
  forall out fuel t1,
    same_but_cursors t t1 -> cursorOf t1 b = Some c ->
    (List.length chain + F + 1 <= fuel)%nat ->
    returns (writeBlockInstances fuel out b lvl) t1
      (fun o t' => o = out ++ List.concat (map body chain) /\ same_but_cursors t t').
Proof.
  intros Hl. induction Hl as [|i nx rest Hi Hnx Hl IH];
    intros Hpar Hpure out fuel t1 Hc Hcur Hfuel;
    (destruct fuel as [|fuel]; [cbn in Hfuel; lia|]);
    unfold returns; cbn [writeBlockInstances];
    apply mspec_bind, mspec_get; unfold cursorOf in Hcur;
    (destruct (aget (blockDynTab t1) b) as [bdtr|] eqn:Hb; [|done]);
    cbn in Hcur; injection Hcur as Hcur; cbn [orTypeError];
    apply mspec_bind, mspec_ret; cbv zeta; rewrite Hcur.
  { cbn. by rewrite app_nil_r. }
  destruct (Z.eqb_spec i (-1)) as [|_]; [done|].
  destruct (Hpar i) as (bitr & Hbitr & Hlvl); [apply list_elem_of_here|].
  assert (Hinsts : blockInstTab t1 = blockInstTab t) by (by destruct Hc as (_ & _ & _ & <-)).
  rewrite Hinsts, Hbitr. cbn [orTypeError]. apply mspec_bind, mspec_ret.
  rewrite Hlvl, Z.leb_refl, Z.ltb_irrefl. cbn [assert]. apply mspec_bind, mspec_ret.
  eapply mspec_bind_ok.
  { apply Hpure; [apply list_elem_of_here| cbn in Hfuel; lia | done]. }
  apply mspec_bind, mspec_get. rewrite Hinsts, Hbitr. cbn [orTypeError].
  apply mspec_bind, mspec_ret. eapply mspec_bind_ok; [by apply updBlockDyn_ok|].
  eapply mspec_conseq; [apply (IH); clear IH|..].
  - intros j Hj. apply Hpar. by apply list_elem_of_further.
  - intros j f o t2 Hj. apply Hpure. by apply list_elem_of_further.
  - by apply same_but_cursors_upd.
  - unfold cursorOf. cbn [blockDynTab set_blockDynTab]. rewrite aget_aset_eq.
    + cbn. f_equal. unfold nextBlockInstNoOf in Hnx. rewrite Hbitr in Hnx. by injection Hnx.
    + by eapply aget_Some.
  - cbn in Hfuel. lia.
  - cbv beta. intros o t' [-> Ht']. split; [|done].
    cbn [map List.concat]. by rewrite app_assoc.
  - done.
Qed.

(** ** [addBlock] of a name with one definition *)

Lemma addBlock_unique fuel (t : MiniTemplator) name b :
  session_inv t -> parents_valid (template t) ->
  names_ok (pt_blockTab (template t)) (lookupBlockName (template t)) ->
  definitionsNamed (pt_blockTab (template t)) name = [b] ->
  (1 <= fuel)%nat ->
  exists btr bdtr,
    aget (pt_blockTab (template t)) b = Some btr
    /\ aget (blockDynTab t) b = Some bdtr
    /\ addBlock fuel name t = (Ok tt, afterAddBlockByNo t b btr bdtr)
    /\ session_inv (afterAddBlockByNo t b btr bdtr).
Proof.
  intros Hinv Hpar Hnames Hdefs Hfuel.
  pose proof (Hnames name) as Hl. rewrite Hdefs in Hl. cbn in Hl.
  pose proof (linked_head _ _ _ Hl) as Hhd. cbn in Hhd.
  destruct (addBlocksByNo_chain fuel t _ _ Hinv Hpar Hl) as (Hrun & Hinv' & _); [done|].
  pose proof (linked_valid _ _ _ Hl) as Hv. apply Forall_cons in Hv as [[btr Hbtr] _].
  destruct (aget_is_Some (blockDynTab t) b) as [bdtr Hbdtr].
  { rewrite (si_len _ Hinv). by eapply aget_Some. }
  exists btr, bdtr. cbn [afterAddBlocks] in Hrun, Hinv'. rewrite Hbtr, Hbdtr in Hrun, Hinv'.
  split; [done|]. split; [done|]. split; [|done].
  unfold addBlock, bind, get. rewrite Hhd in *.
  assert (Hne : b <> -1) by by inversion Hl.
  by destruct (Z.eqb_spec b (-1)).
Qed.

Lemma indicesFrom_replicate {A} (f : A -> bool) x n s :
  f x = true -> indicesFrom f (replicate n x) s = seqZ s (Z.of_nat n).
Proof.
  intros Hx. revert s. induction n as [|n IH]; intros s; [done|].
  cbn [replicate indicesFrom]. rewrite Hx, IH.
  rewrite Nat2Z.inj_succ, (seqZ_cons s) by lia. cbn [app]. do 2 f_equal; lia.
Qed.

Lemma indicesFrom_replicate_false {A} (f : A -> bool) x n s :
  f x = false -> indicesFrom f (replicate n x) s = [].
Proof.
  intros Hx. revert s. induction n as [|n IH]; intros s; [done|].
  cbn [replicate indicesFrom]. by rewrite Hx, IH.
Qed.

Lemma instancesOf_replicate insts insts' b n :
  map bi_blockNo insts' = map bi_blockNo insts ++ replicate n b ->
  instancesOf insts' b = instancesOf insts b ++ seqZ (alen insts) (Z.of_nat n).
Proof.
  intros Hm.
  rewrite (instancesOf_ext insts' (insts ++ replicate n (mkBlockInst b 0 0 0 None))).
  - unfold instancesOf. rewrite indicesFrom_app, Z.add_0_l.
    f_equal. apply indicesFrom_replicate. cbn. apply Z.eqb_refl.
  - rewrite Hm, map_app. f_equal.
    change (map ?f ?l) with (f <$> l). by rewrite fmap_replicate.
Qed.

Lemma runCalls_addBlock_repeated fuel name b N (t : MiniTemplator) :
  session_inv t -> parents_valid (template t) ->
  names_ok (pt_blockTab (template t)) (lookupBlockName (template t)) ->
  definitionsNamed (pt_blockTab (template t)) name = [b] ->
  (1 <= fuel)%nat ->
  fst (runCalls fuel (replicate N (AddBlock name)) t) = replicate N (Ok None)
  /\ map bi_blockNo (blockInstTab (snd (runCalls fuel (replicate N (AddBlock name)) t)))
     = map bi_blockNo (blockInstTab t) ++ replicate N b.
Proof.
  revert t. induction N as [|N IH]; intros t Hinv Hpar Hnames Hdefs Hfuel.
  { cbn. by rewrite app_nil_r. }
  destruct (addBlock_unique fuel t name b) as (btr & bdtr & Hbtr & Hbdtr & Hrun & Hinv1);
    try done.
  cbn [replicate runCalls runCall]. rewrite (bind_ok _ _ _ _ _ Hrun). cbn [ret].
  specialize (IH (afterAddBlockByNo t b btr bdtr) Hinv1 Hpar Hnames Hdefs Hfuel).
  destruct (runCalls fuel (replicate N (AddBlock name)) _) as [rs t2].
  cbn [fst snd] in *. destruct IH as [-> ->]. split; [done|].
  cbn [afterAddBlockByNo blockInstTab]. rewrite map_app. cbn [map bi_blockNo].
  rewrite (linkLast_map bi_blockNo) by done. by rewrite <- app_assoc.
Qed.

(** Running the engine on a template whose tables are known: the tests
    are decided by evaluation. *)
Ltac run_step :=
  lazymatch goal with
  | |- mspec (bind _ _) _ _ _ => apply mspec_bind
  | |- mspec (ret _) _ _ _ => apply mspec_ret
  | |- mspec get _ _ _ => apply mspec_get
  | |- mspec (modify _) _ _ _ => apply mspec_modify
  | |- mspec (if ?b then _ else _) _ _ _ =>
      let v := eval vm_compute in b in
      progress (change b with v; cbv iota)
  | |- mspec (match ?x with _ => _ end) _ _ _ =>
      let v := eval vm_compute in x in
      progress (change x with v; cbv iota)
  | |- mspec (assert ?b) _ _ _ =>
      let v := eval vm_compute in b in
      progress (change b with v; cbn [assert])
  | |- mspec (orTypeError ?o) _ _ _ =>
      let v := eval vm_compute in o in
      progress (change o with v; cbn [orTypeError])
  | |- mspec (let _ := _ in _) _ _ _ => cbv zeta
  | |- _ => progress cbv beta
  end.
Ltac run := repeat run_step.

Lemma string_app_assoc (s1 s2 s3 : string) :
  ((s1 ++ s2) ++ s3 = s1 ++ (s2 ++ s3))%string.
Proof.
  induction s1 as [|a s1 IH]; [done|].
  change (String a ((s1 ++ s2) ++ s3) = String a (s1 ++ (s2 ++ s3)))%string.
  by rewrite IH.
Qed.

Lemma string_app_nil_r (s : string) : (s ++ "" = s)%string.
Proof.
  induction s as [|a s IH]; [done|].
  change (String a (s ++ "") = String a s)%string. by rewrite IH.
Qed.

Lemma joinEmpty_app l1 l2 :
  joinEmpty (l1 ++ l2) = (joinEmpty l1 ++ joinEmpty l2)%string.
Proof.
  induction l1 as [|x l1 IH]; [done|].
  change (joinEmpty ((x :: l1) ++ l2)) with (x ++ joinEmpty (l1 ++ l2))%string.
  change (joinEmpty (x :: l1)) with (x ++ joinEmpty l1)%string.
  by rewrite IH, string_app_assoc.
Qed.

Lemma joinEmpty_rowBody s : joinEmpty (rowBody s) = ("[" ++ s ++ "]")%string.
Proof.
  unfold rowBody. destruct s as [|a s]; [done|].
  change ("[" ++ String a s ++ "]" ++ "" = "[" ++ String a s ++ "]")%string.
  by rewrite string_app_nil_r.
Qed.

Lemma joinEmpty_rows pre vs :
  joinEmpty (List.concat (map (bodyAt (pre ++ vs))
                            (seqZ (Z.of_nat (List.length pre)) (Z.of_nat (List.length vs)))))
  = rowsOutput vs.
Proof.
  revert pre. induction vs as [|v vs IH]; intros pre; [done|].
  rewrite seqZ_cons by (cbn [List.length]; lia). cbn [map List.concat rowsOutput].
  rewrite joinEmpty_app. unfold bodyAt at 1. rewrite Nat2Z.id.
  rewrite lookup_app_r, Nat.sub_diag by done. cbn [lookup list_lookup].
  rewrite joinEmpty_rowBody.
  specialize (IH (pre ++ [v])). rewrite <- app_assoc in IH. cbn [app] in IH.
  rewrite length_app in IH. cbn [List.length] in IH.
  replace (Z.succ (Z.of_nat (List.length pre)))
    with (Z.of_nat (List.length pre + 1)) by lia.
  replace (Z.pred (Z.of_nat (List.length (v :: vs))))
    with (Z.of_nat (List.length vs)) by (cbn [List.length]; lia).
  rewrite IH. by rewrite !string_app_assoc.
Qed.

Lemma aget_map_with {A B} (f : A -> B) (l : list A) i :
  f <$> aget l i = aget (map f l) i.
Proof.
  unfold aget. destruct (i <? 0); [done|].
  change (map f l) with (f <$> l). by rewrite list_lookup_fmap.
Qed.

(** ** The rows example *)

Section RowTemplate.
Variables lv lb : string -> Z.
Hypothesis Hok : template_ok (rowTemplate lv lb).
Hypothesis HlookV : lv "x" = 0.

Lemma row_blockTab : pt_blockTab (rowTemplate lv lb) = [rowBlock0; rowBlock1].
Proof. done. Qed.

Lemma row_parents_valid : parents_valid (rowTemplate lv lb).
Proof. apply parents_valid_of_template_ok; [done|]. by rewrite row_blockTab. Qed.

Lemma row_definitions : definitionsNamed (pt_blockTab (rowTemplate lv lb)) "row" = [1].
Proof. rewrite row_blockTab. vm_compute. reflexivity. Qed.

Lemma rowState_new : rowState (rowTemplate lv lb) [] (newMiniTemplator (rowTemplate lv lb)).
Proof.
  constructor; try done.
  - apply session_inv_new.
  - cbn. by eexists.
Qed.

Lemma rowState_step fuel vs v (t : MiniTemplator) :
  rowState (rowTemplate lv lb) vs t -> (1 <= fuel)%nat ->
  exists t', runCalls fuel [SetVariable "x" v; AddBlock "row"] t = ([Ok None; Ok None], t')
    /\ rowState (rowTemplate lv lb) (vs ++ [v]) t'.
Proof.
  intros [Ht Hinv Hvals (d0 & Hd0 & Hi0) Hrows] Hfuel.
  destruct (varValuesTab t) as [|o [|? ?]] eqn:Hv; try done.
  set (t1 := set_varValuesTab (fun _ => [Some (formatVariableValue v)]) t).
  assert (Hset : setVariable "x" v t = (Ok tt, t1)).
  { unfold setVariable, bind, get. rewrite Ht. cbn [lookupVariableName rowTemplate].
    rewrite HlookV. cbn.
    unfold storeVariable, bind, get. by rewrite Hv. }
  assert (Hinv1 : session_inv t1) by by apply (session_inv_same_instances t).
  destruct (addBlock_unique fuel t1 "row" 1) as (btr & bdtr & Hbtr & Hbdtr & Hrun & Hinv2);
    try done.
  { cbn. rewrite Ht. apply row_parents_valid. }
  { cbn. rewrite Ht. apply Hok. }
  { cbn. rewrite Ht. apply row_definitions. }
  cbn [template t1 set_varValuesTab] in Hbtr. rewrite Ht, row_blockTab in Hbtr.
  cbn in Hbtr. injection Hbtr as <-.
  eexists. split.
  { cbn [runCalls runCall]. rewrite (bind_ok _ _ _ _ _ Hset). cbn [ret].
    rewrite (bind_ok _ _ _ _ _ Hrun). done. }
  constructor; try done.
  - cbn [afterAddBlockByNo blockDynTab t1 set_varValuesTab].
    exists d0. split; [|done]. rewrite aget_aset_ne by done. done.
  - cbn [afterAddBlockByNo blockInstTab t1 set_varValuesTab varValuesTab blockDynTab].
    rewrite !map_app. rewrite (linkLast_map rowView) by done. rewrite Hrows.
    f_equal. cbn [map rowView rowViewOf bi_blockNo parentInstLevel blockVarTab].
    cbn [rowBlock1 bt_parentBlockNo bt_blockVarNoToVarNoMap].
    rewrite aget_aset_ne, Hd0 by done. cbn. by rewrite Hi0.
Qed.

Lemma rowState_calls fuel vs0 vs (t : MiniTemplator) :
  rowState (rowTemplate lv lb) vs0 t -> (1 <= fuel)%nat ->
  fst (runCalls fuel (rowCalls vs) t) = replicate (2 * List.length vs) (Ok None)
  /\ rowState (rowTemplate lv lb) (vs0 ++ vs) (snd (runCalls fuel (rowCalls vs) t)).
Proof.
  revert vs0 t. induction vs as [|v vs IH]; intros vs0 t Hst Hfuel.
  { cbn. by rewrite app_nil_r. }
  destruct (rowState_step fuel vs0 v t Hst Hfuel) as (t' & Hrun & Hst').
  destruct (IH _ _ Hst' Hfuel) as [IH1 IH2].
  change (rowCalls (v :: vs)) with ([SetVariable "x" v; AddBlock "row"] ++ rowCalls vs).
  cbn [runCalls app] in Hrun |- *.
  destruct (runCall fuel (SetVariable "x" v) t) as [r1 t1].
  destruct (runCall fuel (AddBlock "row") t1) as [r2 t2].
  injection Hrun as -> -> ->.
  destruct (runCalls fuel (rowCalls vs) t') as [rs t3]. cbn [fst snd] in *.
  rewrite IH1. rewrite <- app_assoc in IH2. split; [|done].
  replace (2 * List.length (v :: vs))%nat with (S (S (2 * List.length vs)))
    by (cbn [List.length]; lia).
  done.
Qed.

(** [writeBlockInstance] on an instance of the row block. *)
Lemma row_instance (t2 : MiniTemplator) i bitr s f out :
  template t2 = (rowTemplate lv lb) -> aget (blockInstTab t2) i = Some bitr ->
  rowView bitr = (1, 0, Some [Some s]) -> (3 <= f)%nat ->
  writeBlockInstance f out i t2 = (Ok (out ++ rowBody s), t2).
Proof.
  intros Ht Hi Hview Hf.
  destruct f as [|[|[|f]]]; try lia.
  cbn [writeBlockInstance]. rewrite (bind_ok get _ t2 t2 t2) by done.
  rewrite Hi. cbn [orTypeError]. rewrite (bind_ok (ret _) _ t2 bitr t2) by done.
  destruct bitr as [bn il pl nx bv]. cbn in Hview. injection Hview as -> -> ->.
  cbv zeta. cbn [bi_blockNo]. rewrite Ht. cbn [pt_blockTab rowTemplate aget Z.ltb Z.compare
    Z.to_nat lookup list_lookup orTypeError].
  destruct t2 as [tpl vals dyn insts]. cbn in Ht. subst tpl.
  destruct s as [|a s].
  - change (out ++ rowBody "") with (out ++ (["["%string] ++ ["]"%string])).
    rewrite app_assoc. vm_compute. reflexivity.
  - change (out ++ rowBody (String a s))
      with (out ++ (["["%string] ++ ([String a s] ++ ["]"%string]))).
    rewrite !app_assoc. vm_compute. reflexivity.
Qed.

(** The chunks of the main block, around the instances of the row block. *)
Lemma row_root_chunks (t2 : MiniTemplator) bitr f out rows :
  template t2 = rowTemplate lv lb ->
  (forall out1, returns (writeBlockInstances (S f) out1 1 (instanceLevel bitr)) t2
     (fun o t' => o = out1 ++ rows /\ same_but_cursors t2 t')) ->
  returns (writeChunks (S (S f)) out bitr 0 rowBlock0 0 1 (-1)) t2
     (fun o t' => o = ((out ++ ["A"%string]) ++ rows) ++ ["B"%string]
                  /\ same_but_cursors t2 t').
Proof.
  intros Ht Hsub. unfold returns. cbn [writeChunks].
  apply mspec_bind, mspec_get.
  destruct t2 as [tpl vals dyn insts]. cbn in Ht. subst tpl.
  run. eapply mspec_conseq; [apply Hsub| |done]. cbv beta.
  intros o [tpl3 vals3 dyn3 insts3] [-> Hc]. pose proof Hc as (Ht3 & _).
  cbn in Ht3. subst tpl3. run. split; [|done].
  vm_compute. reflexivity.
Qed.

Lemma rowState_chain vs (t : MiniTemplator) :
  rowState (rowTemplate lv lb) vs t ->
  instancesOf (blockInstTab t) 0 = []
  /\ instancesOf (blockInstTab t) 1 = seqZ 0 (Z.of_nat (List.length vs))
  /\ alen (blockInstTab t) = Z.of_nat (List.length vs).
Proof.
  intros [_ _ _ _ Hrows].
  assert (Hm : map bi_blockNo (blockInstTab t) = map bi_blockNo [] ++ replicate (List.length vs) 1).
  { assert (H : map (fun v : Z * Z * option (list (option string)) => v.1.1)
                  (map rowView (blockInstTab t))
                = map (fun v : Z * Z * option (list (option string)) => v.1.1)
                    (map rowViewOf vs)) by by rewrite Hrows.
    rewrite !map_map in H. cbn in H.
    change (map bi_blockNo (blockInstTab t)
            = map (fun _ : JsValue => 1) vs) in H. rewrite H. clear.
    induction vs as [|v vs IH]; [done|]. cbn. cbn in IH. by rewrite IH. }
  split; [|split].
  - rewrite (instancesOf_ext _ (replicate (List.length vs) (mkBlockInst 1 0 0 0 None))).
    + by apply indicesFrom_replicate_false.
    + rewrite Hm. cbn [map app]. change (map ?f ?l) with (f <$> l).
      by rewrite fmap_replicate.
  - by rewrite (instancesOf_replicate [] _ 1 _ Hm).
  - apply (f_equal (@List.length Z)) in Hm. rewrite length_map in Hm. cbn in Hm.
    rewrite length_replicate in Hm. unfold alen. by rewrite Hm.
Qed.

Lemma map_aget_eq {A B C} (f : A -> C) (g : B -> C) (l : list A) (l' : list B) i :
  map f l = map g l' -> f <$> aget l i = g <$> aget l' i.
Proof.
  intros Hm. unfold aget. destruct (i <? 0); [done|].
  change (map f l) with (f <$> l) in Hm. change (map g l') with (g <$> l') in Hm.
  by rewrite <- !list_lookup_fmap, Hm.
Qed.

Lemma rowState_instance vs (t : MiniTemplator) i :
  rowState (rowTemplate lv lb) vs t -> 0 <= i < Z.of_nat (List.length vs) ->
  exists bitr v, aget (blockInstTab t) i = Some bitr /\ vs !! Z.to_nat i = Some v
    /\ rowView bitr = rowViewOf v.
Proof.
  intros Hst Hi. destruct (rowState_chain vs t Hst) as (_ & _ & Hn).
  destruct Hst as [_ _ _ _ Hrows].
  destruct (aget_is_Some (blockInstTab t) i) as [bitr Hbitr]; [lia|].
  pose proof (map_aget_eq rowView rowViewOf _ _ i Hrows) as Hm.
  rewrite Hbitr in Hm. rewrite aget_lookup in Hm by lia.
  destruct (vs !! Z.to_nat i) as [v|] eqn:Hv; [|done].
  exists bitr, v. cbn in Hm. injection Hm as Hm Hp Hb.
  split; [done|]. split; [done|]. unfold rowView, rowViewOf. by rewrite Hm, Hp, Hb.
Qed.

(** The instances of the row block are written in the order of their
    creation. *)
Lemma row_instances vs (t t2 : MiniTemplator) d1 d1' f out :
  rowState (rowTemplate lv lb) vs t ->
  aget (blockDynTab t) 1 = Some d1 ->
  template t2 = rowTemplate lv lb ->
  blockInstTab t2 = blockInstTab t ++ [rootInst] ->
  aget (blockDynTab t2) 1 = Some d1' -> currBlockInstNo d1' = firstBlockInstNo d1 ->
  (List.length vs + 4 <= f)%nat ->
  returns (writeBlockInstances f out 1 0) t2
    (fun o t' => o = out ++ List.concat (map (bodyAt vs) (seqZ 0 (Z.of_nat (List.length vs))))
                 /\ same_but_cursors t2 t').
Proof.
  intros Hst Hd1 Ht2 Hinsts Hd1' Hcur Hf.
  destruct (rowState_chain vs t Hst) as (_ & Hrowsof & Hn).
  pose proof (si_dyn _ (rs_inv _ _ _ Hst) 1 d1 Hd1) as [_ _ _ Hlinked].
  rewrite Hrowsof in Hlinked.
  assert (Hrange : forall i, i ∈ seqZ 0 (Z.of_nat (List.length vs)) ->
                     0 <= i < Z.of_nat (List.length vs)).
  { intros i Hi%elem_of_seqZ. lia. }
  eapply (writeBlockInstances_chain t2 1 0 (bodyAt vs) 3 (firstBlockInstNo d1)).
  - eapply linked_ext; [|exact Hlinked]. intros j Hj%Hrange.
    unfold nextBlockInstNoOf. rewrite Hinsts, aget_app_l by lia. done.
  - intros i Hi%Hrange.
    destruct (rowState_instance vs t i Hst Hi) as (bitr & v & Hbitr & _ & Hview).
    exists bitr. rewrite Hinsts, aget_app_l by lia. split; [done|].
    unfold rowView, rowViewOf in Hview. by injection Hview.
  - intros i f' o t3 Hi%Hrange Hf' Hc.
    destruct (rowState_instance vs t i Hst Hi) as (bitr & v & Hbitr & Hv & Hview).
    unfold bodyAt. rewrite Hv. apply (row_instance t3 i bitr); try done.
    + destruct Hc as (<- & _). done.
    + destruct Hc as (_ & _ & _ & <-). rewrite Hinsts, aget_app_l by lia. done.
  - done.
  - unfold cursorOf. rewrite Hd1'. cbn. by rewrite Hcur.
  - rewrite length_seqZ. lia.
Qed.

(** Output generation after [rowCalls vs]. *)
Lemma row_generate vs (t : MiniTemplator) fuel :
  rowState (rowTemplate lv lb) vs t -> (List.length vs + 10 <= fuel)%nat ->
  returns (generateOutputString fuel) t (fun o _ => o = rowOutput vs).
Proof.
  intros Hst Hfuel.
  destruct (rowState_chain vs t Hst) as (Hroot & Hrowsof & Hn).
  pose proof Hst as [Ht Hinv Hvals (d0 & Hd0 & Hi0) Hrows].
  pose proof (si_len _ Hinv) as Hlen. rewrite Ht in Hlen.
  pose proof (si_dyn _ Hinv 0 d0 Hd0) as [_ Hfirst0 Hlast0 _].
  rewrite Hroot in Hfirst0, Hlast0. cbn in Hfirst0, Hlast0.
  destruct (aget_is_Some (blockDynTab t) 1) as [d1 Hd1]; [rewrite Hlen; done|].
  assert (Hpar : parents_valid (template t)) by (rewrite Ht; apply row_parents_valid).
  destruct (addBlockByNo_session t 0 rowBlock0 Hinv Hpar) as (d0' & Hd0' & Hrun & Hinv1).
  { by rewrite Ht. }
  rewrite Hd0 in Hd0'. injection Hd0' as <-.
  unfold returns, generateOutputString, generateOutputArray.
  apply mspec_bind, mspec_bind, mspec_get. rewrite Hd0. cbn [orTypeError].
  apply mspec_bind, mspec_ret. rewrite Hi0. cbn [Z.eqb].
  eapply mspec_bind_ok; [exact Hrun|]. apply mspec_bind, mspec_modify.
  set (n := alen (blockInstTab t)) in *.
  assert (Hn0 : 0 <= n) by (unfold n; apply alen_nonneg).
  match goal with |- mspec _ ?s _ _ => set (t2 := s) end.
  assert (Ht2 : template t2 = rowTemplate lv lb) by done.
  assert (Hinsts2 : blockInstTab t2 = blockInstTab t ++ [rootInst]).
  { cbn. unfold linkLast. rewrite Hlast0. cbn [Z.eqb]. by rewrite Hi0. }
  assert (Hd0_2 : aget (blockDynTab t2) 0 = Some (mkBlockDyn 1 n n n)).
  { cbn [t2 blockDynTab set_blockDynTab afterAddBlockByNo].
    rewrite <- (aget_map_with _ _ 0). rewrite aget_aset_eq by (rewrite Hlen; done).
    cbn. rewrite Hi0, Hfirst0. done. }
  assert (Hd1_2 : exists d1', aget (blockDynTab t2) 1 = Some d1'
                     /\ currBlockInstNo d1' = firstBlockInstNo d1).
  { cbn [t2 blockDynTab set_blockDynTab afterAddBlockByNo].
    rewrite <- (aget_map_with _ _ 1). rewrite aget_aset_ne, Hd1 by done.
    cbn. by eexists. }
  destruct Hd1_2 as (d1' & Hd1' & Hcur1).
  clearbody t2.
  destruct fuel as [|f1]; [lia|]. cbn [writeBlockInstances].
  apply mspec_bind, mspec_get. rewrite Hd0_2. cbn [orTypeError].
  apply mspec_bind, mspec_ret. cbv zeta. cbn [currBlockInstNo].
  destruct (Z.eqb_spec n (-1)) as [|_]; [lia|].
  rewrite Hinsts2, aget_app_last_eq by done. cbn [orTypeError].
  apply mspec_bind, mspec_ret. cbn [rootInst parentInstLevel Z.leb Z.ltb Z.compare assert].
  apply mspec_bind, mspec_ret. apply mspec_bind.
  destruct f1 as [|f2]; [lia|]. cbn [writeBlockInstance].
  apply mspec_bind, mspec_get. rewrite Hinsts2, aget_app_last_eq by done.
  cbn [orTypeError]. apply mspec_bind, mspec_ret. cbv zeta. rewrite Ht2.
  cbn [bi_blockNo rowTemplate pt_blockTab]. 
  change (aget [rowBlock0; rowBlock1] 0) with (Some rowBlock0). cbn [orTypeError].
  apply mspec_bind, mspec_ret.
  destruct f2 as [|[|f3]]; [lia..|].
  eapply mspec_conseq;
    [apply (row_root_chunks t2 rootInst f3 []
              (List.concat (map (bodyAt vs) (seqZ 0 (Z.of_nat (List.length vs))))) Ht2)
    | |done].
  { intros out1. cbn [instanceLevel].
    apply (row_instances vs t t2 d1 d1'); try done. lia. }
  cbv beta. intros o t3 [-> Hc3].
  apply mspec_bind, mspec_get.
  assert (Hinsts3 : blockInstTab t3 = blockInstTab t ++ [rootInst]).
  { destruct Hc3 as (_ & _ & _ & <-). done. }
  rewrite Hinsts3, aget_app_last_eq by done. cbn [orTypeError].
  apply mspec_bind, mspec_ret.
  destruct (aget_is_Some (blockDynTab t3) 0) as [d3 Hd3].
  { destruct Hc3 as (_ & _ & Hm & _). rewrite <- (map_alen_eq _ _ _ Hm).
    apply aget_Some in Hd0_2. lia. }
  eapply mspec_bind_ok; [by apply updBlockDyn_ok|].
  cbn [writeBlockInstances]. apply mspec_bind, mspec_get.
  cbn [blockDynTab set_blockDynTab]. rewrite aget_aset_eq by (by eapply aget_Some).
  cbn [orTypeError]. apply mspec_bind, mspec_ret. cbv zeta.
  cbn [currBlockInstNo with_currBlockInstNo nextBlockInstNo rootInst Z.eqb].
  apply mspec_ret, mspec_ret.
  rewrite !joinEmpty_app. pose proof (joinEmpty_rows [] vs) as Hj.
  cbn [app List.length] in Hj. change (Z.of_nat 0) with 0 in Hj. rewrite Hj.
  unfold rowOutput. change (joinEmpty []) with ""%string.
  change (joinEmpty ["A"%string]) with ("A" ++ "")%string.
  change (joinEmpty ["B"%string]) with ("B" ++ "")%string.
  rewrite !string_app_nil_r. change ("" ++ "A")%string with "A"%string.
  by rewrite string_app_assoc.
Qed.
End RowTemplate.

Lemma runCalls_app fuel calls1 calls2 (t : MiniTemplator) :
  runCalls fuel (calls1 ++ calls2) t
  = (fst (runCalls fuel calls1 t) ++ fst (runCalls fuel calls2 (snd (runCalls fuel calls1 t))),
     snd (runCalls fuel calls2 (snd (runCalls fuel calls1 t)))).
Proof.
  revert t. induction calls1 as [|c calls1 IH]; intros t.
  { cbn. by destruct (runCalls fuel calls2 t). }
  cbn [app runCalls]. destruct (runCall fuel c t) as [r t1]. rewrite IH.
  destruct (runCalls fuel calls1 t1) as [rs t2]. cbn [fst snd].
  by destruct (runCalls fuel calls2 t2).
Qed.

Lemma rows_rendered vs fuel :
  (List.length vs + 10 <= fuel)%nat ->
  fst (runCalls fuel (rowCalls vs ++ [GenerateOutput])
         (newMiniTemplator (parsedExample rowText [])))
  = replicate (2 * List.length vs) (Ok None) ++ [Ok (Some (rowOutput vs))].
Proof.
  intros Hfuel.
  assert (Hpt : parsedExample rowText []
                = rowTemplate (lookupVariableName (parsedExample rowText []))
                    (lookupBlockName (parsedExample rowText []))).
  { vm_compute. reflexivity. }
  assert (Hok : template_ok (parsedExample rowText [])).
  { apply (main_template_ok (parmsOf rowText []) evalIdentifier 1000).
    vm_compute. reflexivity. }
  assert (HlookV : lookupVariableName (parsedExample rowText []) "x" = 0).
  { vm_compute. reflexivity. }
  revert Hok HlookV. rewrite Hpt.
  generalize (lookupVariableName (parsedExample rowText [])) as lv.
  generalize (lookupBlockName (parsedExample rowText [])) as lb.
  intros lb lv Hok HlookV.
  destruct (rowState_calls lv lb Hok HlookV fuel [] vs _ (rowState_new lv lb)) as [Hrs Hst];
    [lia|].
  rewrite runCalls_app, Hrs. cbn [fst]. f_equal.
  pose proof (row_generate lv lb Hok vs _ fuel Hst Hfuel) as Hgen.
  apply returns_eq in Hgen as (o & t' & Hrun & ->).
  cbn [runCalls runCall]. rewrite (bind_ok _ _ _ _ _ Hrun). done.
Qed.



(** * Variables in excluded ranges *)

(** The variable of a reference is in the variable table, under a name that
    [lookupVariableName] maps to it. *)
Lemma reference_registered pt r :
  template_ok pt -> r ∈ pt_varRefTab pt ->
  exists n, aget (pt_varTab pt) (vr_varNo r) = Some n
    /\ lookupVariableName pt n = vr_varNo r /\ 0 <= vr_varNo r.
Proof.
  intros [_ [Hlook Habsent Hindex Hrefs] _] Hr.
  rewrite Forall_forall in Hrefs.
  assert (Hrange : 0 <= vr_varNo r < alen (pt_varTab pt)).
  { apply Hrefs. change (map ?f ?l) with (f <$> l). by apply list_elem_of_fmap_2. }
  destruct (aget_is_Some _ _ Hrange) as [n Hn]. exists n. split; [done|].
  split; [by apply Hindex|lia].
Qed.

Lemma storeVariable_returns varNo s (t : MiniTemplator) :
  0 <= varNo ->
  exists l, jsArraySet (varValuesTab t) varNo s = Some l
    /\ storeVariable varNo s t = (Ok tt, setValues l t)
    /\ List.length l = Nat.max (List.length (varValuesTab t)) (Z.to_nat varNo + 1)
    /\ aget l varNo = Some (Some s)
    /\ forall i, i <> varNo -> mjoin (aget l i) = mjoin (aget (varValuesTab t) i).
Proof.
  intros Hpos. unfold storeVariable, bind, get, jsArraySet.
  destruct (Z.ltb_spec varNo 0) as [|_]; [lia|].
  destruct (Z.ltb_spec varNo (alen (varValuesTab t))) as [Hlt|Hge]; unfold alen in *.
  - eexists. split; [done|]. split; [done|]. split; [rewrite length_insert; lia|]. split.
    + rewrite aget_lookup by lia. apply list_lookup_insert_eq. lia.
    + intros i Hi. unfold aget. destruct (i <? 0) eqn:Hneg; [done|].
      rewrite list_lookup_insert_ne; [done|]. apply Z.ltb_ge in Hneg. lia.
  - eexists. split; [done|]. split; [done|]. split.
    { rewrite !length_app, length_replicate. cbn. lia. }
    split.
    + rewrite aget_lookup by lia. rewrite lookup_app_r by lia.
      rewrite lookup_app_r by (rewrite length_replicate; lia).
      rewrite length_replicate.
      replace (_ - _ - _)%nat with 0%nat by lia. done.
    + intros i Hi. unfold aget. destruct (i <? 0) eqn:Hneg; [done|].
      apply Z.ltb_ge in Hneg.
      destruct (decide (Z.to_nat i < List.length (varValuesTab t))%nat) as [Hin|Hout].
      * by rewrite lookup_app_l by lia.
      * rewrite (lookup_ge_None_2 (varValuesTab t)) by lia.
        rewrite lookup_app_r by lia.
        destruct (decide (Z.to_nat i - List.length (varValuesTab t)
                          < Z.to_nat (varNo - Z.of_nat (List.length (varValuesTab t))))%nat).
        -- rewrite lookup_app_l by (rewrite length_replicate; lia).
           by rewrite lookup_replicate_2 by lia.
        -- rewrite lookup_app_r by (rewrite length_replicate; lia).
           rewrite length_replicate.
           rewrite lookup_ge_None_2; [done|]. cbn. lia.
Qed.

Lemma bind_get_eq {S A} (k : S -> M S A) s : bind get k s = k s s.
Proof. done. Qed.

Lemma agreeExcept_refl varNo v : agreeExcept varNo v v.
Proof. done. Qed.

Lemma jsArraySet_agree varNo j s1 s2 v1 v2 l1 l2 :
  agreeExcept varNo v1 v2 -> j = varNo \/ s1 = s2 ->
  jsArraySet v1 j s1 = Some l1 -> jsArraySet v2 j s2 = Some l2 ->
  agreeExcept varNo l1 l2.
Proof.
  intros [Hlen Hag] Hj. unfold jsArraySet, alen. rewrite <- Hlen.
  destruct (Z.ltb_spec j 0) as [|Hpos]; [done|].
  assert (Hlook : forall i : nat, Z.of_nat i <> varNo -> v1 !! i = v2 !! i).
  { intros i Hi. specialize (Hag (Z.of_nat i) Hi). unfold aget in Hag.
    destruct (Z.ltb_spec (Z.of_nat i) 0); [lia|]. by rewrite Nat2Z.id in Hag. }
  assert (Hval : forall i : nat, Z.of_nat i <> varNo -> i = Z.to_nat j -> s1 = s2).
  { intros i Hi ->. destruct Hj as [->|]; [lia|done]. }
  destruct (Z.ltb_spec j (Z.of_nat (List.length v1))) as [Hlt|Hge]; intros [= <-] [= <-].
  - split; [by rewrite !length_insert|].
    intros i Hi. unfold aget. destruct (Z.ltb_spec i 0) as [|Hi0]; [done|].
    destruct (decide (Z.to_nat i = Z.to_nat j)) as [He|Hne].
    + rewrite He, !list_lookup_insert_eq by lia.
      by rewrite (Hval (Z.to_nat i)) by lia.
    + rewrite !list_lookup_insert_ne by done. apply Hlook. lia.
  - split; [rewrite !length_app, !length_replicate; cbn; lia|].
    intros i Hi. unfold aget. destruct (Z.ltb_spec i 0) as [|Hi0]; [done|].
    destruct (decide (Z.to_nat i < List.length v1)%nat) as [Hin|Hout].
    { rewrite !lookup_app_l by lia. apply Hlook. lia. }
    rewrite (lookup_app_r v1), (lookup_app_r v2) by lia. rewrite <- Hlen.
    destruct (decide (Z.to_nat i - List.length v1
                      < Z.to_nat (j - Z.of_nat (List.length v1)))%nat).
    { by rewrite !lookup_app_l by (rewrite length_replicate; lia). }
    rewrite !lookup_app_r by (rewrite length_replicate; lia).
    rewrite !length_replicate.
    destruct (decide (Z.to_nat i = Z.to_nat j)) as [He|Hne].
    + replace (_ - _ - _)%nat with 0%nat by lia. cbn.
      by rewrite (Hval (Z.to_nat i)) by lia.
    + rewrite !lookup_ge_None_2; [done|cbn; lia|cbn; lia].
Qed.

(** ** Computations that do not look at the value of one variable *)

Section IgnoresValueOf.
Variable pt : ParsedTemplate.
Variable varNo : Z.

Lemma ivo_ret {A} (a : A) : ignoresValueOf pt varNo (ret a).
Proof. done. Qed.

Lemma ivo_throw {A} e : ignoresValueOf pt varNo (@throw _ A e).
Proof. done. Qed.

Lemma ivo_orTypeError {A} (o : option A) : ignoresValueOf pt varNo (orTypeError o).
Proof. by destruct o. Qed.

Lemma ivo_assert c : ignoresValueOf pt varNo (assert c).
Proof. by destruct c. Qed.

Lemma ivo_bind {A B} (m : Eng A) (k : A -> Eng B) :
  ignoresValueOf pt varNo m -> (forall a, ignoresValueOf pt varNo (k a)) ->
  ignoresValueOf pt varNo (bind m k).
Proof.
  intros Hm Hk v t Ht Hag. destruct (Hm v t Ht Hag) as (Hrun & Hvals & Htpl).
  unfold bind. rewrite Hrun. destruct (m t) as [[a|e] t1]; cbn [fst snd] in *; [|done].
  destruct (Hk a v t1) as (Hrun2 & Hvals2 & Htpl2); [congruence|by rewrite Hvals|].
  split; [done|]. split; congruence.
Qed.

Lemma ivo_orTypeError_bind {A B} (o : option A) (k : A -> Eng B) :
  (forall a, o = Some a -> ignoresValueOf pt varNo (k a)) ->
  ignoresValueOf pt varNo (bind (orTypeError o) k).
Proof. intros Hk. destruct o as [a|]; [by apply Hk|done]. Qed.

Lemma ivo_get_bind {A} (k : MiniTemplator -> Eng A) :
  (forall v t s, k (setValues v t) s = k t s) ->
  (forall t0, template t0 = pt -> ignoresValueOf pt varNo (k t0)) ->
  ignoresValueOf pt varNo (bind get k).
Proof.
  intros Hk1 Hk2 v t Ht Hag. unfold bind, get. rewrite Hk1. by apply Hk2.
Qed.

Lemma ivo_modify (f : MiniTemplator -> MiniTemplator) :
  (forall v t, f (setValues v t) = setValues v (f t)) ->
  (forall t, varValuesTab (f t) = varValuesTab t /\ template (f t) = template t) ->
  ignoresValueOf pt varNo (modify f).
Proof. intros Hf Hp v t _ _. unfold modify. cbn. by rewrite Hf. Qed.

Lemma ivo_updBlockDyn blockNo f : ignoresValueOf pt varNo (updBlockDyn blockNo f).
Proof.
  unfold updBlockDyn. apply ivo_get_bind; [done|intros].
  apply ivo_bind; [apply ivo_orTypeError|intros].
  by apply ivo_modify.
Qed.

Lemma ivo_updBlockInst blockInstNo f : ignoresValueOf pt varNo (updBlockInst blockInstNo f).
Proof.
  unfold updBlockInst. apply ivo_get_bind; [done|intros].
  apply ivo_bind; [apply ivo_orTypeError|intros].
  by apply ivo_modify.
Qed.

(** The copy of the variables of a block that does not have [varNo]. *)
Lemma ivo_copy blockInstNo (varNos : list Z) :
  varNo ∉ varNos ->
  ignoresValueOf pt varNo
    (let! t2 := get in
     updBlockInst blockInstNo
       (with_blockVarTab
          (Some (map (fun varNo => mjoin (aget t2.(varValuesTab) varNo)) varNos)))).
Proof.
  intros Hnot v t Ht Hag. rewrite !bind_get_eq.
  assert (Heq : map (fun x => mjoin (aget (varValuesTab (setValues v t)) x)) varNos
                = map (fun x => mjoin (aget (varValuesTab t) x)) varNos).
  { apply map_ext_in. intros x Hx%list_elem_of_In. cbn.
    destruct Hag as [_ Hag]. rewrite Hag; [done|]. by intros ->. }
  rewrite Heq. by apply ivo_updBlockInst.
Qed.

(** What ignores all the values ignores one. *)
Lemma ivo_of_ignores {A} (m : Eng A) :
  ignoresVarValues m ->
  (forall t, mspec m t (fun _ t' => same_but_cursors t t')
               (fun _ t' => same_but_cursors t t')) ->
  ignoresValueOf pt varNo m.
Proof.
  intros Hi Hc v t _ _. split; [apply Hi|].
  specialize (Hc t). apply mspec_snd in Hc. destruct Hc as (<- & <- & _). done.
Qed.
End IgnoresValueOf.

Ltac ivo_step :=
  lazymatch goal with
  | |- ignoresValueOf _ _ (ret _) => apply ivo_ret
  | |- ignoresValueOf _ _ (throw _) => apply ivo_throw
  | |- ignoresValueOf _ _ (orTypeError _) => apply ivo_orTypeError
  | |- ignoresValueOf _ _ (assert _) => apply ivo_assert
  | |- ignoresValueOf _ _ (updBlockDyn _ _) => apply ivo_updBlockDyn
  | |- ignoresValueOf _ _ (updBlockInst _ _) => apply ivo_updBlockInst
  | |- ignoresValueOf _ _ (modify _) => apply ivo_modify; [done|done]
  | |- ignoresValueOf _ _ (bind get _) =>
      apply ivo_get_bind; [intros; reflexivity | intros ? ?]
  | |- ignoresValueOf _ _ (bind (orTypeError _) _) =>
      apply ivo_orTypeError_bind; intros ? ?
  | |- ignoresValueOf _ _ (bind _ _) => apply ivo_bind; [ | intros]
  | |- ignoresValueOf _ _ (if ?b then _ else _) => destruct b
  | |- ignoresValueOf _ _ (let _ := _ in _) => cbv zeta
  end.

Lemma ivo_addBlockByNo pt varNo blockNo :
  safeBlock pt varNo blockNo -> ignoresValueOf pt varNo (addBlockByNo blockNo).
Proof.
  intros Hsafe. unfold addBlockByNo. repeat ivo_step.
  apply ivo_copy. apply Hsafe. congruence.
Qed.

Lemma ivo_addBlocksByNo pt varNo fuel blockNo chain :
  linked (nextWithSameNameOf (pt_blockTab pt)) blockNo chain ->
  (forall b, b ∈ chain -> safeBlock pt varNo b) ->
  ignoresValueOf pt varNo (addBlocksByNo fuel blockNo).
Proof.
  intros Hl. revert fuel. induction Hl as [|i nx rest Hi Hnx Hl IH]; intros fuel Hsafe.
  { destruct fuel; apply ivo_ret. }
  destruct fuel as [|fuel]; cbn [addBlocksByNo];
    destruct (Z.eqb_spec i (-1)) as [|_]; try done.
  apply ivo_bind; [apply ivo_addBlockByNo, Hsafe, list_elem_of_here|intros _].
  apply ivo_get_bind; [done|intros t0 Ht0]. rewrite Ht0.
  apply ivo_orTypeError_bind. intros btr Hbtr.
  unfold nextWithSameNameOf in Hnx. rewrite Hbtr in Hnx. cbn in Hnx. injection Hnx as ->.
  apply IH. intros b Hb. by apply Hsafe, list_elem_of_further.
Qed.

Lemma ivo_generateOutputString pt varNo fuel :
  safeBlock pt varNo 0 -> ignoresValueOf pt varNo (generateOutputString fuel).
Proof.
  intros Hsafe. unfold generateOutputString, generateOutputArray.
  apply ivo_bind; [|intros; apply ivo_ret].
  apply ivo_get_bind; [done|intros t0 Ht0]. apply ivo_orTypeError_bind. intros bdtr0 _.
  apply ivo_bind; [destruct (_ =? 0); [by apply ivo_addBlockByNo|apply ivo_ret]|intros _].
  apply ivo_bind; [by apply ivo_modify|intros _].
  apply ivo_of_ignores; [apply ignores_writers|apply writers_cursors].
Qed.

Lemma related_set varNo (t1 t2 : MiniTemplator) :
  related varNo t1 t2 -> t2 = setValues (varValuesTab t2) t1.
Proof. destruct t1, t2. unfold related. cbn. intros (? & ? & ? & _). by subst. Qed.

Lemma related_refl varNo t : related varNo t t.
Proof. done. Qed.

Lemma ivo_related {A} pt varNo (m : Eng A) (t1 t2 : MiniTemplator) :
  ignoresValueOf pt varNo m -> template t1 = pt -> related varNo t1 t2 ->
  fst (m t1) = fst (m t2)
  /\ related varNo (snd (m t1)) (snd (m t2))
  /\ template (snd (m t1)) = pt.
Proof.
  intros Hm Ht Hr. pose proof Hr as (_ & _ & _ & Hag).
  rewrite (related_set _ _ _ Hr). destruct (Hm _ _ Ht Hag) as (-> & Hv & Htpl).
  cbn [fst snd]. split; [done|]. split; [|congruence].
  unfold related. cbn. by rewrite Hv.
Qed.

Lemma safe_of_hidden pt varNo b btr :
  template_ok pt -> hiddenVariable pt varNo ->
  aget (pt_blockTab pt) b = Some btr -> bt_dummy btr = false ->
  safeBlock pt varNo b.
Proof.
  intros [_ _ Hassoc] Hhid Hb Hd btr' Hb' Hin.
  rewrite Hb in Hb'. injection Hb' as <-.
  destruct (Hassoc b btr varNo Hb Hin) as (r & Hr & Hv & Hblock).
  rewrite <- Hblock in Hb. rewrite (Hhid r btr Hr Hv Hb) in Hd. done.
Qed.

Section Hidden.
Variable pt : ParsedTemplate.
Variable x : string.
Hypothesis Hok : template_ok pt.
Hypothesis Hhidden : hiddenVariable pt (lookupVariableName pt x).

Lemma hidden_safe_root : safeBlock pt (lookupVariableName pt x) 0.
Proof.
  destruct (bi_root _ _ (to_blocks _ Hok)) as (b0 & Hb0 & _ & Hd).
  by eapply safe_of_hidden.
Qed.

Lemma hidden_safe_named n b :
  b ∈ rev (definitionsNamed (pt_blockTab pt) n) -> safeBlock pt (lookupVariableName pt x) b.
Proof.
  intros Hb. rewrite elem_of_rev in Hb.
  apply definitionsNamed_spec in Hb as (btr & Hbtr & Hname).
  eapply safe_of_hidden; [done..|].
  pose proof (bo_dummy _ _ (bi_blocks _ _ (to_blocks _ Hok) _ _ Hbtr)) as Hd.
  destruct (bt_dummy btr); [|done]. rewrite Hd in Hname; done.
Qed.

Lemma lookup_other_variable n :
  n <> x -> lookupVariableName pt n <> -1 -> lookupVariableName pt n <> lookupVariableName pt x.
Proof.
  intros Hn Hne Heq. pose proof (vo_lookup _ _ _ (to_vars _ Hok)) as Hl.
  pose proof (Hl n _ eq_refl Hne) as H1. rewrite Heq in Hne, H1.
  pose proof (Hl x _ eq_refl Hne) as H2. congruence.
Qed.

(** [setVariable] and [setVariableOpt] in two related sessions, with the
    same value unless the variable is [x]. *)
Lemma setVariable_related n v1 v2 (t1 t2 : MiniTemplator) :
  template t1 = pt -> related (lookupVariableName pt x) t1 t2 ->
  n = x \/ v1 = v2 ->
  (fst (setVariable n v1 t1) = fst (setVariable n v2 t2)
   /\ related (lookupVariableName pt x) (snd (setVariable n v1 t1)) (snd (setVariable n v2 t2))
   /\ template (snd (setVariable n v1 t1)) = pt)
  /\ (fst (setVariableOpt n v1 t1) = fst (setVariableOpt n v2 t2)
      /\ related (lookupVariableName pt x)
           (snd (setVariableOpt n v1 t1)) (snd (setVariableOpt n v2 t2))
      /\ template (snd (setVariableOpt n v1 t1)) = pt).
Proof.
  intros Ht1 Hr Hn. pose proof Hr as (Htpl & Hdyn & Hinsts & Hag).
  assert (Ht2 : template t2 = pt) by congruence.
  unfold setVariable, setVariableOpt. rewrite !bind_get_eq. cbv zeta. rewrite Ht1, Ht2.
  destruct (Z.eqb_spec (lookupVariableName pt n) (-1)) as [Hm1|Hne]; [done|].
  assert (Hstore : fst (storeVariable (lookupVariableName pt n) (formatVariableValue v1) t1)
                   = fst (storeVariable (lookupVariableName pt n) (formatVariableValue v2) t2)
                   /\ related (lookupVariableName pt x)
                        (snd (storeVariable (lookupVariableName pt n) (formatVariableValue v1) t1))
                        (snd (storeVariable (lookupVariableName pt n) (formatVariableValue v2) t2))
                   /\ template (snd (storeVariable (lookupVariableName pt n)
                                       (formatVariableValue v1) t1)) = pt); [|done].
  unfold storeVariable. rewrite !bind_get_eq.
  destruct (jsArraySet (varValuesTab t1) _ _) as [l1|] eqn:H1;
    destruct (jsArraySet (varValuesTab t2) _ _) as [l2|] eqn:H2.
  - cbn. split; [done|]. split; [|done]. repeat split; try done.
    + eapply (jsArraySet_agree _ _ _ _ _ _ _ _ Hag); [|exact H1|exact H2].
      destruct Hn as [-> | ->]; [by left|by right].
    + eapply (jsArraySet_agree _ _ _ _ _ _ _ _ Hag); [|exact H1|exact H2].
      destruct Hn as [-> | ->]; [by left|by right].
  - exfalso. unfold jsArraySet in H1, H2. destruct Hag as [Hlen _].
    destruct (_ <? 0); [done|]. by destruct (_ <? alen (varValuesTab t2)).
  - exfalso. unfold jsArraySet in H1, H2. destruct Hag as [Hlen _].
    destruct (_ <? 0); [done|]. by destruct (_ <? alen (varValuesTab t1)).
  - done.
Qed.

Lemma runCall_related fuel c1 c2 (t1 t2 : MiniTemplator) :
  template t1 = pt -> related (lookupVariableName pt x) t1 t2 ->
  sameCallBut x c1 c2 ->
  fst (runCall fuel c1 t1) = fst (runCall fuel c2 t2)
  /\ related (lookupVariableName pt x) (snd (runCall fuel c1 t1)) (snd (runCall fuel c2 t2))
  /\ template (snd (runCall fuel c1 t1)) = pt.
Proof.
  intros Ht1 Hr Hc.
  assert (Hlift : forall (m1 m2 : Eng unit),
            fst (m1 t1) = fst (m2 t2)
            /\ related (lookupVariableName pt x) (snd (m1 t1)) (snd (m2 t2))
            /\ template (snd (m1 t1)) = pt ->
            fst ((do! m1 in ret None) t1) = fst ((do! m2 in ret (@None string)) t2)
            /\ related (lookupVariableName pt x)
                 (snd ((do! m1 in ret (@None string)) t1))
                 (snd ((do! m2 in ret (@None string)) t2))
            /\ template (snd ((do! m1 in ret (@None string)) t1)) = pt).
  { intros m1 m2. unfold bind.
    destruct (m1 t1) as [[[]|e1] s1], (m2 t2) as [[[]|e2] s2]; cbn; intuition congruence. }
  assert (Hivo : forall (m : Eng unit), ignoresValueOf pt (lookupVariableName pt x) m ->
            fst ((do! m in ret None) t1) = fst ((do! m in ret (@None string)) t2)
            /\ related (lookupVariableName pt x)
                 (snd ((do! m in ret (@None string)) t1))
                 (snd ((do! m in ret (@None string)) t2))
            /\ template (snd ((do! m in ret (@None string)) t1)) = pt).
  { intros m Hm. apply Hlift. by apply (ivo_related pt). }
  destruct Hc as [c|v1 v2|v1 v2]; [destruct c|..]; cbn [runCall].
  - apply Hlift. apply setVariable_related; auto.
  - apply Hlift. apply setVariable_related; auto.
  - apply Hivo. unfold addBlock. apply ivo_get_bind; [done|intros t0 Ht0]. cbv zeta.
    rewrite Ht0. destruct (_ =? -1); [apply ivo_throw|].
    eapply ivo_addBlocksByNo; [apply (bi_names _ _ (to_blocks _ Hok))|].
    apply hidden_safe_named.
  - apply Hivo. unfold addBlockOpt. apply ivo_get_bind; [done|intros t0 Ht0]. cbv zeta.
    rewrite Ht0.
    eapply ivo_addBlocksByNo; [apply (bi_names _ _ (to_blocks _ Hok))|].
    apply hidden_safe_named.
  - apply Hlift. unfold reset, modify. cbn [fst snd].
    destruct Hr as (Htpl & Hdyn & Hinsts & Hlen & Hag).
    split; [done|]. split; [|done]. unfold related. cbn. rewrite Htpl, Hdyn.
    repeat split; try done.
    + by rewrite !length_map.
    + intros i _. unfold aget. destruct (i <? 0); [done|].
      change (map ?f ?l) with (f <$> l). rewrite !list_lookup_fmap.
      destruct (varValuesTab t1 !! Z.to_nat i) eqn:H1, (varValuesTab t2 !! Z.to_nat i) eqn:H2;
        try done.
      * apply lookup_lt_Some in H1. apply lookup_ge_None in H2. lia.
      * apply lookup_lt_Some in H2. apply lookup_ge_None in H1. lia.
  - apply (ivo_related pt); [|done..].
    apply ivo_bind; [|intros; apply ivo_ret].
    apply ivo_generateOutputString, hidden_safe_root.
  - apply Hlift. apply setVariable_related; auto.
  - apply Hlift. apply setVariable_related; auto.
Qed.

Lemma runCalls_related fuel calls1 calls2 (t1 t2 : MiniTemplator) :
  template t1 = pt -> related (lookupVariableName pt x) t1 t2 ->
  Forall2 (sameCallBut x) calls1 calls2 ->
  fst (runCalls fuel calls1 t1) = fst (runCalls fuel calls2 t2).
Proof.
  intros Ht1 Hr Hall. revert t1 t2 Ht1 Hr.
  induction Hall as [|c1 c2 calls1 calls2 Hc Hall IH]; intros t1 t2 Ht1 Hr; [done|].
  destruct (runCall_related fuel c1 c2 t1 t2 Ht1 Hr Hc) as (Hres & Hr' & Ht1').
  cbn [runCalls].
  destruct (runCall fuel c1 t1) as [r1 s1], (runCall fuel c2 t2) as [r2 s2].
  cbn [fst snd] in *. specialize (IH s1 s2 Ht1' Hr').
  destruct (runCalls fuel calls1 s1) as [rs1 u1], (runCalls fuel calls2 s2) as [rs2 u2].
  cbn [fst] in *. congruence.
Qed.
End Hidden.

Lemma onlyInDummyBlocks_hidden pt varNo :
  onlyInDummyBlocks pt varNo = true -> hiddenVariable pt varNo.
Proof.
  unfold onlyInDummyBlocks. rewrite forallb_forall.
  intros Hall r btr Hr%list_elem_of_In Hv Hb. specialize (Hall r Hr).
  rewrite Hv, Z.eqb_refl in Hall. cbn in Hall. unfold inDummyBlock in Hall.
  by rewrite Hb in Hall.
Qed.


(** * Texts whose comments are no commands *)

(** ** Positions found by [indexOf] *)

Lemma prefix_length (s1 s2 : string) :
  String.prefix s1 s2 = true -> (String.length s1 <= String.length s2)%nat.
Proof.
  revert s2. induction s1 as [|a s1 IH]; intros [|b s2]; simpl; try done; try lia.
  destruct (ascii_dec a b); [|done]. intros H%IH. lia.
Qed.

Lemma index_range (n m : nat) (s1 s2 : string) :
  String.index n s1 s2 = Some m ->
  (n <= m /\ m + String.length s1 <= String.length s2)%nat.
Proof.
  revert n m. induction s2 as [|b s2 IH]; intros n m; cbn [String.index String.length].
  - destruct n; [|done]. destruct s1; [|done]. intros [= <-]. simpl. lia.
  - destruct n as [|n].
    + destruct (String.prefix s1 (String b s2)) eqn:Hp.
      * intros [= <-]. apply prefix_length in Hp. simpl in Hp. lia.
      * destruct (String.index 0 s1 s2) as [k|] eqn:Hk; [|done].
        intros [= <-]. apply IH in Hk. lia.
    + destruct (String.index n s1 s2) as [k|] eqn:Hk; [|done].
      intros [= <-]. apply IH in Hk. lia.
Qed.

Lemma indexOf_range (s pat : string) (from : Z) :
  Js.indexOf s pat from <> -1 ->
  0 <= Js.indexOf s pat from
  /\ from <= Js.indexOf s pat from
  /\ Js.indexOf s pat from + Js.strlen pat <= Js.strlen s.
Proof.
  unfold Js.indexOf, Js.strlen.
  destruct (String.index _ pat s) as [k|] eqn:Hk; [|done]. intros _.
  apply index_range in Hk. lia.
Qed.

Lemma prefix_substring (pat s : string) (len : nat) :
  String.prefix pat (String.substring 0 len s) = true -> String.prefix pat s = true.
Proof.
  revert s len. induction pat as [|a pat IH]; intros s len; [by destruct s|].
  destruct s as [|b s]; [by destruct len|].
  destruct len as [|len]; [done|]. cbn [String.substring String.prefix].
  destruct (ascii_dec a b); [|done]. apply IH.
Qed.

Lemma index_none_substring (pat s : string) (a len : nat) :
  String.index 0 pat s = None -> String.index 0 pat (String.substring a len s) = None.
Proof.
  revert a len. induction s as [|b s IH]; intros a len H.
  - by destruct a, len.
  - cbn [String.index] in H.
    destruct (String.prefix pat (String b s)) eqn:Hp; [done|].
    destruct (String.index 0 pat s) as [k|] eqn:Hk; [done|].
    destruct a as [|a]; [|by apply IH].
    destruct len as [|len].
    + cbn [String.substring String.index]. destruct pat; [by destruct b|done].
    + cbn [String.substring String.index].
      destruct (String.prefix pat (String b (String.substring 0 len s))) eqn:Hp2.
      * apply (prefix_substring pat (String b s) (S len)) in Hp2. congruence.
      * by rewrite (IH 0%nat len).
Qed.

Lemma index_none_from (pat s : string) (n : nat) :
  String.index 0 pat s = None -> String.index n pat s = None.
Proof.
  revert n. induction s as [|b s IH]; intros n H.
  - by destruct n.
  - destruct n as [|n]; [done|]. cbn [String.index] in *.
    destruct (String.prefix pat (String b s)); [done|].
    destruct (String.index 0 pat s) as [k|] eqn:Hk; [done|].
    by rewrite (IH n).
Qed.

Lemma indexOf_none (s pat : string) (from : Z) :
  Js.indexOf s pat from = -1 <-> String.index (Z.to_nat (Z.max 0 from)) pat s = None.
Proof.
  unfold Js.indexOf. destruct (String.index _ pat s) as [k|]; [|done].
  split; [lia|done].
Qed.

(** A pattern that the text does not hold is found from no position, and
    in no part of the text. *)
Lemma indexOf_none_from (s pat : string) (from : Z) :
  Js.indexOf s pat 0 = -1 -> Js.indexOf s pat from = -1.
Proof. rewrite !indexOf_none. apply index_none_from. Qed.

Lemma indexOf_none_substring (s pat : string) (a b : Z) :
  Js.indexOf s pat 0 = -1 -> Js.indexOf (Js.substring s a b) pat 0 = -1.
Proof. rewrite !indexOf_none. apply index_none_substring. Qed.

(** ** Comments that are no commands *)

Lemma plainComments_none fuel (text : string) p :
  Js.indexOf text cmdStartStr p = -1 -> plainComments (S fuel) text p = true.
Proof. intros H. cbn [plainComments]. by rewrite H. Qed.

Section Comments.
Variable pParms : ParserParms.
Variable evalJs : list (string * JsValue) -> string -> string + bool.

(** [processTemplateCommand] leaves a comment that is no command line to
    the text. *)
Lemma processTemplateCommand_plain (cmdLine : string) b e (s : Parser) :
  isCommandLine cmdLine = false ->
  processTemplateCommand pParms evalJs cmdLine b e s = (Ok false, s).
Proof.
  unfold isCommandLine, processTemplateCommand. cbv zeta.
  destruct (Js.strlen cmdLine <=? skipBlanks cmdLine 0); [done|].
  set (cmd := Js.substring cmdLine _ _). intros H.
  repeat lazymatch goal with
    | |- context [String.eqb cmd ?w] =>
        destruct (String.eqb_spec cmd w) as [Heq|_];
          [rewrite Heq in H; vm_compute in H; discriminate H|]
    end.
  by rewrite H.
Qed.

Lemma conditionalExclude_none b e (s : Parser) :
  condLevel s = -1 -> conditionalExclude b e s = (Ok false, s).
Proof. intros H. unfold conditionalExclude, bind, get, isCondEnabled. by rewrite H. Qed.

(** The loop of [parseTemplateCommands] passes the comments that are no
    commands and leaves the parser as it is. *)
Lemma parseTemplateCommandsFrom_comments fuel p (s : Parser) :
  plainComments fuel (templateText s) p = true ->
  (shortFormEnabled pParms = true -> Js.indexOf (templateText s) cmdStartStrShort 0 = -1) ->
  condLevel s = -1 -> resumeCmdParsingFromStart s = false ->
  parseTemplateCommandsFrom pParms evalJs fuel p s = (Ok tt, s).
Proof.
  intros Hcom Hshort Hlevel Hresume. revert p Hcom.
  induction fuel as [|fuel IH]; intros p Hcom; [done|].
  cbn [plainComments] in Hcom. cbn [parseTemplateCommandsFrom].
  rewrite bind_get_eq. cbv zeta.
  set (p0 := Js.indexOf (templateText s) cmdStartStr p) in *.
  assert (Hp0 : (if shortFormEnabled pParms && negb (p0 =? p)
                 then if p0 =? -1
                      then (Js.indexOf (templateText s) cmdStartStrShort p, true)
                      else if negb (Js.indexOf (Js.substring (templateText s) p p0)
                                      cmdStartStrShort 0 =? -1)
                           then (p + Js.indexOf (Js.substring (templateText s) p p0)
                                       cmdStartStrShort 0, true)
                           else (p0, false)
                 else (p0, false))
                = (p0, (p0 =? -1) && shortFormEnabled pParms && negb (p0 =? p))).
  { destruct (shortFormEnabled pParms) eqn:Hs; [|by rewrite andb_false_r].
    specialize (Hshort eq_refl). cbn [andb].
    destruct (negb (p0 =? p)); [|by rewrite andb_false_r].
    destruct (Z.eqb_spec p0 (-1)) as [Heq|Hne].
    - by rewrite indexOf_none_from, Heq.
    - by rewrite indexOf_none_substring. }
  rewrite Hp0. clear Hp0.
  destruct (Z.eqb_spec p0 (-1)) as [|Hne]; [done|]. cbn [andb].
  unfold bind at 1. rewrite conditionalExclude_none by done.
  destruct (Z.eqb_spec (Js.indexOf (templateText s) cmdEndStr (p0 + Js.strlen cmdStartStr))
              (-1)) as [|Hend]; [done|].
  apply andb_prop in Hcom as [Hline%negb_true_iff Hrest].
  unfold bind at 1. unfold modify at 1.
  assert (Hs : set_resumeCmdParsingFromStart false s = s).
  { destruct s. cbn in Hresume. by subst. }
  rewrite Hs. unfold bind at 1.
  replace (Js.indexOf (templateText s) cmdEndStr (p0 + Js.strlen cmdStartStr)
           + Js.strlen cmdEndStr - Js.strlen cmdEndStr)
    with (Js.indexOf (templateText s) cmdEndStr (p0 + Js.strlen cmdStartStr)) by lia.
  rewrite processTemplateCommand_plain by done. cbn [negb].
  unfold bind at 1. rewrite conditionalExclude_none by done.
  rewrite bind_get_eq. rewrite Hresume. by apply IH.
Qed.
End Comments.


(** * Templates without commands and variables *)

Lemma mspec_eq {S A} (m : M S A) (s : S) (Q : A -> S -> Prop) E a s' :
  m s = (Ok a, s') -> Q a s' -> mspec m s Q E.
Proof. unfold mspec. by intros ->. Qed.

Lemma returns_eq' {S A} (m : M S A) (s : S) (a : A) (P : S -> Prop) :
  returns m s (fun a' s' => a' = a /\ P s') -> exists s', m s = (Ok a, s') /\ P s'.
Proof.
  intros H. apply returns_eq in H as (a' & s' & Hrun & -> & HP). eauto.
Qed.

Section Plain.
Variable pParms : ParserParms.
Variable evalJs : list (string * JsValue) -> string -> string + bool.
Variable text : string.
Hypothesis Hshort : shortFormEnabled pParms = true -> Js.indexOf text cmdStartStrShort 0 = -1.
Hypothesis Hvar : Js.indexOf text "${" 0 = -1.

Lemma parseTemplate_plain fuel :
  plainComments fuel text 0 = true ->
  returns (parseTemplate pParms evalJs fuel) (initialParser text)
    (fun _ p => templateText p = text /\ varTab p = [] /\ varRefTab p = []
                /\ blockTab p = [plainBlock text]).
Proof.
  intros Hcom. destruct fuel as [|f]; [done|]. unfold returns, parseTemplate.
  eapply mspec_bind_ok; [vm_compute; reflexivity|].
  eapply mspec_bind_ok.
  { unfold parseTemplateCommands.
    apply parseTemplateCommandsFrom_comments; [exact Hcom|exact Hshort|done|done]. }
  eapply mspec_bind_ok; [vm_compute; reflexivity|].
  eapply mspec_bind_ok; [vm_compute; reflexivity|].
  apply mspec_bind, mspec_get. cbn [condLevel Z.eqb negb].
  apply mspec_bind.
  cbn [parseTemplateVariables parseTemplateVariablesFrom].
  apply mspec_bind, mspec_get. cbv zeta. cbn [templateText]. rewrite Hvar.
  cbn [Z.eqb]. apply mspec_ret.
  eapply mspec_eq; [vm_compute; reflexivity|].
  repeat split; reflexivity.
Qed.

Lemma main_plain fuel :
  loadTemplateFile pParms (mainTemplateName pParms) = Some text ->
  plainComments fuel text 0 = true ->
  exists pt, main pParms evalJs fuel = Ok pt
    /\ pt_templateText pt = text /\ pt_varTab pt = [] /\ pt_varRefTab pt = []
    /\ pt_blockTab pt = [plainBlock text].
Proof.
  intros Hload Hcom. unfold main. rewrite Hload.
  destruct (returns_eq _ _ _ (parseTemplate_plain fuel Hcom)) as ([] & p & -> & H).
  eexists. split; [done|]. exact H.
Qed.
End Plain.

Lemma substring_all (s : string) : String.substring 0 (String.length s) s = s.
Proof.
  induction s as [|a s IH]; [done|]. cbn [String.length String.substring]. by rewrite IH.
Qed.

Lemma substring_full (s : string) : Js.substring s 0 (Js.strlen s) = s.
Proof.
  unfold Js.substring, Js.clamp, Js.strlen. cbv zeta.
  pose proof (Nat2Z.is_nonneg (String.length s)).
  replace (Z.max 0 (Z.min 0 (Z.of_nat (String.length s)))) with 0 by lia.
  replace (Z.max 0 (Z.min (Z.of_nat (String.length s)) (Z.of_nat (String.length s))))
    with (Z.of_nat (String.length s)) by lia.
  replace (Z.min 0 (Z.of_nat (String.length s))) with 0 by lia.
  replace (Z.max 0 (Z.of_nat (String.length s))) with (Z.of_nat (String.length s)) by lia.
  rewrite Z.sub_0_r, Nat2Z.id. apply substring_all.
Qed.

Lemma generate_plain pt fuel :
  pt_varTab pt = [] -> pt_varRefTab pt = [] ->
  pt_blockTab pt = [plainBlock (pt_templateText pt)] -> (3 <= fuel)%nat ->
  exists t', generateOutputString fuel (newMiniTemplator pt) = (Ok (pt_templateText pt), t')
    /\ map bi_blockNo (blockInstTab t') = [0].
Proof.
  intros Hvt Hrefs Hbt Hfuel. destruct pt as [text vt refs bt lv lb]. cbn in *. subst.
  destruct fuel as [|[|[|f]]]; try lia.
  apply returns_eq'. unfold returns, generateOutputString, generateOutputArray.
  run. eapply mspec_eq; [vm_compute; reflexivity|]. run.
  cbn [writeBlockInstances writeBlockInstance writeChunks]. run.
  unfold updBlockDyn. run. split; [|reflexivity].
  change (joinEmpty (if 0 <? Js.strlen text
                     then [] ++ [Js.substring text 0 (Js.strlen text)] else []) = text).
  rewrite substring_full. destruct (Z.ltb_spec 0 (Js.strlen text)) as [Hpos|Hnil].
  - apply string_app_nil_r.
  - destruct text as [|a s]; [done|]. unfold Js.strlen in Hnil. cbn in Hnil. lia.
Qed.


(** ** The main block is added once *)

Lemma instancesOf_aset insts i r r' b :
  aget insts i = Some r -> (bi_blockNo r' =? b) = (bi_blockNo r =? b) ->
  instancesOf (aset insts i r') b = instancesOf insts b.
Proof.
  intros Hi Hb. unfold instancesOf. apply indicesFrom_ext.
  by apply (map_aset_same (fun r => bi_blockNo r =? b) insts i r r').
Qed.

Lemma adding_updBlockDyn t s blockNo f :
  blockNo <> 0 -> adding t s ->
  mspec (updBlockDyn blockNo f) s (fun _ s' => adding t s') (fun _ s' => adding t s').
Proof.
  intros Hb Had. pose proof Had as [H1 H2 H3 H4 H5 H6 H7].
  unfold updBlockDyn. wp; [|exact Had].
  constructor; cbn [template varValuesTab blockDynTab blockInstTab set_blockDynTab set_blockInstTab]; try done.
  - by rewrite alen_aset.
  - by rewrite aget_aset_ne.
Qed.

Lemma adding_updBlockInst t s i f :
  (forall r, bi_blockNo (f r) = bi_blockNo r
             \/ (i = alen (blockInstTab t) /\ bi_blockNo (f r) <> 0)) ->
  adding t s ->
  mspec (updBlockInst i f) s (fun _ s' => adding t s') (fun _ s' => adding t s').
Proof.
  intros Hf Had. pose proof Had as [H1 H2 H3 H4 H5 H6 (r0 & Hr0 & Hne)].
  unfold updBlockInst. wp; [|exact Had].
  match goal with H : aget (blockInstTab s) i = Some ?a |- _ => rename a into r; rename H into Hr end.
  assert (Htest : (bi_blockNo (f r) =? 0) = (bi_blockNo r =? 0)).
  { destruct (Hf r) as [->|[-> Hfr]]; [done|].
    rewrite Hr0 in Hr. injection Hr as <-.
    destruct (Z.eqb_spec (bi_blockNo (f r0)) 0), (Z.eqb_spec (bi_blockNo r0) 0); done. }
  constructor; cbn [template varValuesTab blockDynTab blockInstTab set_blockDynTab set_blockInstTab]; try done.
  - by rewrite (instancesOf_aset _ _ r).
  - by rewrite alen_aset.
  - destruct (decide (i = alen (blockInstTab t))) as [->|Hi].
    + exists (f r). rewrite aget_aset_eq by (by eapply aget_Some). split; [done|].
      rewrite Hr0 in Hr. injection Hr as <-.
      destruct (Hf r0) as [->|[_ ?]]; done.
    + exists r0. by rewrite aget_aset_ne.
Qed.

Lemma adding_keepsRoot t s : adding t s -> keepsRoot t s.
Proof. intros [H1 H2 H3 H4 H5 H6 H7]. constructor; try done. lia. Qed.

Ltac adding_step :=
  lazymatch goal with
  | |- mspec (bind _ _) _ _ _ => apply mspec_bind
  | |- mspec (ret _) _ _ _ => apply mspec_ret
  | |- mspec get _ _ _ => apply mspec_get
  | |- mspec (throw _) _ _ _ => apply mspec_throw
  | |- mspec (orTypeError _) _ _ _ => apply mspec_orTypeError; [intros ? ? | intros ?]
  | |- mspec (if ?b then _ else _) _ _ _ => destruct b
  | |- mspec (updBlockDyn _ _) _ _ _ =>
      eapply mspec_conseq; [eapply adding_updBlockDyn; eassumption| intros ? ? ?; cbv beta in * | done]
  | |- mspec (updBlockInst _ _) _ _ _ =>
      eapply mspec_conseq;
        [eapply adding_updBlockInst; [intros ?; cbn; auto|eassumption]
        | intros ? ? ?; cbv beta in * | done]
  | |- mspec (let _ := _ in _) _ _ _ => cbv zeta
  | |- _ => progress cbv beta
  end.

Lemma addBlockByNo_keepsRoot blockNo (t : MiniTemplator) :
  blockNo <> 0 ->
  mspec (addBlockByNo blockNo) t (fun _ s => keepsRoot t s) (fun _ s => keepsRoot t s).
Proof.
  intros Hb. unfold addBlockByNo.
  apply mspec_bind, mspec_get. cbv zeta. apply mspec_bind, mspec_modify.
  assert (Had : adding t (set_blockInstTab (fun l => l ++ [emptyBlockInst]) t)).
  { constructor; cbn [template varValuesTab blockDynTab blockInstTab set_blockDynTab set_blockInstTab]; try done.
    - unfold instancesOf. by rewrite indicesFrom_snoc, app_nil_r.
    - by rewrite alen_app, alen_singleton.
    - exists emptyBlockInst. by rewrite aget_app_last. }
  eapply mspec_conseq with (Q' := fun _ s => adding t s) (E' := fun _ s => adding t s);
    [|intros; by apply adding_keepsRoot..].
  revert Had. generalize (set_blockInstTab (fun l => l ++ [emptyBlockInst]) t) as s.
  intros s Had. repeat adding_step; try done.
Qed.

Lemma keepsRoot_refl t : keepsRoot t t.
Proof. by constructor. Qed.

Lemma keepsRoot_trans t1 t2 t3 : keepsRoot t1 t2 -> keepsRoot t2 t3 -> keepsRoot t1 t3.
Proof. intros [? ? ? ? ?] [? ? ? ? ?]. constructor; try congruence. lia. Qed.

Lemma root_inv_keeps t s : root_inv t -> keepsRoot t s -> root_inv s.
Proof.
  intros [Hlen (d0 & Hd0 & Hc & Hle & Hlast)] [H1 H2 H3 H4 H5]. constructor.
  - congruence.
  - exists d0. rewrite H3, H4. repeat split; try done. lia.
Qed.

Lemma addBlocksByNo_keepsRoot fuel (t : MiniTemplator) blockNo chain :
  linked (nextWithSameNameOf (pt_blockTab (template t))) blockNo chain ->
  0 ∉ chain ->
  mspec (addBlocksByNo fuel blockNo) t (fun _ s => keepsRoot t s) (fun _ s => keepsRoot t s).
Proof.
  intros Hl. remember (template t) as pt eqn:Hpt.
  assert (Hgen : forall t0 s, template s = pt -> keepsRoot t0 s -> 0 ∉ chain ->
            mspec (addBlocksByNo fuel blockNo) s
              (fun _ s' => keepsRoot t0 s') (fun _ s' => keepsRoot t0 s')).
  { clear t Hpt. revert fuel.
    induction Hl as [|i nx rest Hi Hnx Hl IH]; intros fuel t0 s Hs Hk H0.
    { destruct fuel; by cbn. }
    destruct fuel as [|fuel]; cbn [addBlocksByNo];
      destruct (Z.eqb_spec i (-1)) as [|_]; try done.
    apply mspec_bind.
    eapply mspec_conseq; [apply addBlockByNo_keepsRoot|..]; cbv beta.
    - intros ->. apply H0, list_elem_of_here.
    - intros _ s1 Hk1. apply mspec_bind, mspec_get.
      rewrite (kr_template _ _ Hk1), Hs. apply mspec_bind.
      unfold nextWithSameNameOf in Hnx.
      destruct (aget (pt_blockTab pt) i) as [btr|]; [|done].
      cbn in Hnx. injection Hnx as <-. cbn [orTypeError]. apply mspec_ret.
      apply IH.
      + by rewrite (kr_template _ _ Hk1).
      + by eapply keepsRoot_trans.
      + intros Hin. apply H0. by apply list_elem_of_further.
    - intros _ s1 Hk1. by eapply keepsRoot_trans. }
  intros H0. apply Hgen; [done|apply keepsRoot_refl|done].
Qed.

Lemma root_inv_cursors t1 t2 : same_but_cursors t1 t2 -> root_inv t1 -> root_inv t2.
Proof.
  intros (Ht & _ & Hd & Hi) [Hlen (d0 & Hd0 & Hc & Hle & Hlast)]. constructor.
  - by rewrite <- Ht, <- (map_alen_eq _ _ _ Hd).
  - pose proof (map_lookup_eq dynCounts _ _ 0 Hd) as Hm. rewrite Hd0 in Hm.
    destruct (aget (blockDynTab t2) 0) as [d0'|]; [|done].
    cbn in Hm. unfold dynCounts in Hm. injection Hm as H1 H2 H3.
    exists d0'. rewrite <- Hi, <- H1, <- H3. done.
Qed.

Lemma root_inv_new pt : 0 < alen (pt_blockTab pt) -> root_inv (newMiniTemplator pt).
Proof.
  intros Hlen. constructor; cbn [newMiniTemplator template blockDynTab blockInstTab].
  - unfold alen. by rewrite length_replicate.
  - exists (mkBlockDyn 0 (-1) (-1) (-1)). split; [|cbn; split; [done|split; [lia|by left]]].
    rewrite aget_lookup by lia. apply lookup_replicate_2. unfold alen in Hlen. lia.
Qed.

(** What output generation does with the main block: it adds an instance
    when there is none, and no instance otherwise. *)
Lemma generateOutputString_root fuel (t : MiniTemplator) b0 :
  root_inv t -> aget (pt_blockTab (template t)) 0 = Some b0 -> bt_parentBlockNo b0 = -1 ->
  root_inv (snd (generateOutputString fuel t))
  /\ template (snd (generateOutputString fuel t)) = template t
  /\ instancesOf (blockInstTab (snd (generateOutputString fuel t))) 0
     = (if decide (instancesOf (blockInstTab t) 0 = []) then [alen (blockInstTab t)]
        else instancesOf (blockInstTab t) 0)
  /\ map bi_blockNo (blockInstTab (snd (generateOutputString fuel t)))
     = map bi_blockNo (blockInstTab t)
       ++ (if decide (instancesOf (blockInstTab t) 0 = []) then [0] else []).
Proof.
  intros Hinv Hb0 Hpar. pose proof Hinv as [Hlen (d0 & Hd0 & Hc & Hle & Hlast)].
  set (P := fun s : MiniTemplator =>
    root_inv s /\ template s = template t
    /\ instancesOf (blockInstTab s) 0
       = (if decide (instancesOf (blockInstTab t) 0 = []) then [alen (blockInstTab t)]
          else instancesOf (blockInstTab t) 0)
    /\ map bi_blockNo (blockInstTab s)
       = map bi_blockNo (blockInstTab t)
         ++ (if decide (instancesOf (blockInstTab t) 0 = []) then [0] else [])).
  apply (mspec_snd _ _ P).
  assert (Hfinish : forall s, P s ->
            mspec (do! modify (set_blockDynTab
                         (map (fun bdtr => with_currBlockInstNo bdtr.(firstBlockInstNo) bdtr)))
                   in writeBlockInstances fuel [] 0 (-1)) s
              (fun _ s' => P s') (fun _ s' => P s')).
  { intros s HP. apply mspec_bind, mspec_modify.
    match goal with |- mspec _ ?s2 _ _ => assert (Hc2 : same_but_cursors s s2) end.
    { repeat split; try done. cbn. rewrite map_map. by apply map_ext. }
    assert (Hall : forall s', same_but_cursors s s' -> P s').
    { intros s' Hs'. destruct HP as (Hr & Ht & Hi & Hm).
      pose proof Hs' as (Ht' & _ & _ & Hi'). unfold P. rewrite <- Hi', <- Ht'.
      split; [by eapply root_inv_cursors|done]. }
    destruct (writers_cursors fuel) as (Hw & _ & _).
    eapply mspec_conseq; [apply Hw|..]; cbv beta;
      intros ? s3 Hc3; apply Hall; by eapply same_but_cursors_trans. }
  unfold generateOutputString, generateOutputArray.
  apply mspec_bind, mspec_bind, mspec_get. rewrite Hd0. cbn [orTypeError].
  apply mspec_bind, mspec_ret. 
  destruct (Z.eqb_spec (instances d0) 0) as [Hz|Hnz].
  - eapply mspec_bind_ok; [by apply addBlockByNo_ok; [| |done|left]|].
    assert (Hnil : instancesOf (blockInstTab t) 0 = []).
    { rewrite Hz in Hc. destruct (instancesOf (blockInstTab t) 0); [done|].
      unfold alen in Hc. cbn in Hc. lia. }
    eapply mspec_conseq; [apply Hfinish|intros; by apply mspec_ret|done].
    unfold P. rewrite !decide_True by done.
    cbn [afterAddBlockByNo template blockInstTab blockDynTab].
    rewrite instancesOf_add, Hnil. cbn [bi_blockNo Z.eqb app].
    rewrite map_app, (linkLast_map bi_blockNo) by done. cbn [map bi_blockNo].
    split; [|done]. constructor; cbn [afterAddBlockByNo template blockInstTab blockDynTab].
    + by rewrite alen_aset.
    + eexists. rewrite aget_aset_eq by (by eapply aget_Some). split; [done|].
      cbn [instances lastBlockInstNo]. rewrite instancesOf_add, Hnil, Hz.
      cbn [bi_blockNo Z.eqb app]. pose proof (alen_nonneg (blockInstTab t)).
      split; [done|]. split; [lia|]. right.
      pose proof (linkLast_length (blockInstTab t) (lastBlockInstNo d0)
                    (alen (blockInstTab t))) as Hl.
      unfold alen in *. rewrite length_app. cbn [List.length]. lia.
  - eapply mspec_conseq; [apply Hfinish|intros; by apply mspec_ret|done].
    assert (Hne : instancesOf (blockInstTab t) 0 <> []).
    { intros Hnil. rewrite Hnil in Hc. done. }
    unfold P. rewrite !decide_False by done. by rewrite app_nil_r.
Qed.

Lemma root_inv_same_instances t1 t2 : same_instances t1 t2 -> root_inv t1 -> root_inv t2.
Proof.
  intros (Ht & Hd & Hi) [Hlen Hroot]. constructor; rewrite <- ?Ht, <- ?Hd, <- ?Hi; done.
Qed.

Lemma root_block pt :
  template_ok pt ->
  exists b0, aget (pt_blockTab pt) 0 = Some b0 /\ bt_parentBlockNo b0 = -1
    /\ bt_blockName b0 = None.
Proof.
  intros [[_ Hblocks (b0 & Hb0 & Hname & _)] _ _]. exists b0. split; [done|].
  split; [|done]. destruct (bo_parent _ _ (Hblocks _ _ Hb0)) as [[_ ?]|(b & ? & _)]; [done|lia].
Qed.

Lemma main_block_unnamed pt n : template_ok pt -> 0 ∉ rev (definitionsNamed (pt_blockTab pt) n).
Proof.
  intros Hok Hin. rewrite elem_of_rev in Hin.
  apply definitionsNamed_spec in Hin as (b & Hb & Hname).
  destruct (root_block pt Hok) as (b0 & Hb0 & _ & Hnone). congruence.
Qed.

Lemma runCall_root fuel c (t : MiniTemplator) :
  root_inv t -> template_ok (template t) ->
  root_inv (snd (runCall fuel c t)) /\ template (snd (runCall fuel c t)) = template t.
Proof.
  intros Hinv Hok.
  apply (mspec_snd _ _ (fun s => root_inv s /\ template s = template t)).
  assert (Hset : forall s, same_instances t s -> root_inv s /\ template s = template t).
  { intros s Hs. split; [by eapply root_inv_same_instances|]. by destruct Hs as (<- & _). }
  assert (Hkeep : forall s, keepsRoot t s -> root_inv s /\ template s = template t).
  { intros s Hs. split; [by eapply root_inv_keeps|]. apply Hs. }
  destruct c; cbn [runCall]; apply mspec_bind.
  - eapply mspec_conseq; [apply setVariable_frame|cbv beta; eauto..].
  - eapply mspec_conseq; [apply setVariableOpt_frame|cbv beta; eauto..].
  - unfold addBlock. apply mspec_bind, mspec_get. cbv zeta.
    destruct (_ =? -1); [done|].
    eapply mspec_conseq;
      [eapply addBlocksByNo_keepsRoot;
         [apply (bi_names _ _ (to_blocks _ Hok))|by apply main_block_unnamed]
      |cbv beta; eauto..].
  - unfold addBlockOpt. apply mspec_bind, mspec_get. cbv zeta.
    eapply mspec_conseq;
      [eapply addBlocksByNo_keepsRoot;
         [apply (bi_names _ _ (to_blocks _ Hok))|by apply main_block_unnamed]
      |cbv beta; eauto..].
  - unfold reset. apply mspec_modify, mspec_ret. split; [|done].
    destruct Hinv as [Hlen (d0 & Hd0 & _)].
    assert (Hl : List.length (blockDynTab t) = List.length (pt_blockTab (template t)))
      by (unfold alen in Hlen; lia).
    constructor; cbn [template blockDynTab blockInstTab].
    + unfold alen. by rewrite resetBlockDynTab_length.
    + destruct (aget_is_Some (resetBlockDynTab (List.length (pt_blockTab (template t)))
                                (blockDynTab t)) 0) as [d Hd].
      { unfold alen. rewrite resetBlockDynTab_length by done.
        apply aget_Some in Hd0. unfold alen in Hd0. lia. }
      exists d. split; [done|].
      apply resetBlockDynTab_spec in Hd as (H1 & H2 & H3); [|done].
      rewrite H1, H3. cbn. split; [done|]. split; [lia|by left].
  - destruct (root_block _ Hok) as (b0 & Hb0 & Hpar & _).
    destruct (generateOutputString_root fuel t b0 Hinv Hb0 Hpar) as (H1 & H2 & _).
    unfold mspec. destruct (generateOutputString fuel t) as [[o|e] s]; cbn in *; done.
Qed.

Lemma runCalls_root fuel calls (t : MiniTemplator) :
  root_inv t -> template_ok (template t) ->
  root_inv (snd (runCalls fuel calls t)) /\ template (snd (runCalls fuel calls t)) = template t.
Proof.
  revert t. induction calls as [|c rest IH]; intros t Hinv Hok; [done|].
  rewrite runCalls_cons.
  destruct (runCall_root fuel c t Hinv Hok) as [Hinv1 Ht1].
  destruct (IH (snd (runCall fuel c t))) as [Hinv2 Ht2]; rewrite ?Ht1; try done.
  split; [done|congruence].
Qed.





(** * Conditional commands *)

Lemma excludeTemplateRange_cond b e (p : Parser) :
  mspec (excludeTemplateRange b e) p
    (fun _ p' => condView p' = condView p) (fun _ _ => True).
Proof.
  unfold excludeTemplateRange, registerBlock, updBlock. wp; done.
Qed.

Lemma isCondEnabled_view p p' l :
  condView p' = condView p -> isCondEnabled p' l = isCondEnabled p l.
Proof. unfold condView, isCondEnabled. by intros [= _ -> _]. Qed.

Section Conditions.
Variable pParms : ParserParms.
Variable evalJs : list (string * JsValue) -> string -> string + bool.

Lemma evaluateCondition_spec parms (p : Parser) (Q : bool -> Parser -> Prop) :
  Q (exprTrue pParms evalJs parms) p ->
  mspec (evaluateCondition pParms evalJs parms) p Q (fun _ _ => True).
Proof.
  unfold evaluateCondition, exprTrue. by destruct (evalJs _ _).
Qed.

Lemma processIfCmd_spec parms b e (p : Parser) :
  -1 <= condLevel p ->
  mspec (processIfCmd pParms evalJs parms b e) p
    (fun _ p' =>
       condLevel p' = condLevel p + 1
       /\ isCondEnabled p' (condLevel p')
          = isCondEnabled p (condLevel p) && exprTrue pParms evalJs parms
       /\ readFlag (condPassed p') (condLevel p') = isCondEnabled p' (condLevel p'))
    (fun _ _ => True).
Proof.
  intros Hlevel. unfold processIfCmd. apply mspec_bind.
  eapply mspec_conseq; [apply excludeTemplateRange_cond| |done]. cbv beta.
  intros _ p1 Hview. pose proof Hview as [= Hl He Hp].
  apply mspec_bind, mspec_get. destruct (_ <=? _); [done|].
  apply mspec_bind, mspec_modify, mspec_bind, mspec_get.
  cbn [condLevel set_condLevel]. rewrite Hl. replace (condLevel p + 1 - 1) with (condLevel p) by lia.
  set (enc := isCondEnabled _ (condLevel p)).
  assert (Henc : enc = isCondEnabled p (condLevel p)).
  { unfold enc, isCondEnabled. cbn. by rewrite He. }
  clearbody enc. subst enc.
  assert (Hfin : forall r, r = isCondEnabled p (condLevel p) && exprTrue pParms evalJs parms ->
            forall s, condLevel s = condLevel p + 1 ->
            mspec (do! modify (fun p => set_condEnabled (<[condLevel p := r]> (condEnabled p)) p)
                   in modify (fun p => set_condPassed (<[condLevel p := r]> (condPassed p)) p)) s
              (fun _ p' =>
                 condLevel p' = condLevel p + 1
                 /\ isCondEnabled p' (condLevel p')
                    = isCondEnabled p (condLevel p) && exprTrue pParms evalJs parms
                 /\ readFlag (condPassed p') (condLevel p') = isCondEnabled p' (condLevel p'))
              (fun _ _ => True)).
  { intros r Hr s Hs. apply mspec_bind, mspec_modify, mspec_modify.
    cbn [condLevel set_condEnabled set_condPassed condEnabled condPassed].
    split; [done|]. unfold isCondEnabled, readFlag.
    cbn [condLevel set_condEnabled set_condPassed condEnabled condPassed].
    rewrite Hs. destruct (Z.ltb_spec (condLevel p + 1) 0); [lia|].
    rewrite !lookup_insert_eq. cbn. by rewrite Hr. }
  apply mspec_bind. destruct (isCondEnabled p (condLevel p)) eqn:Hen.
  - apply evaluateCondition_spec. apply Hfin; [done|]. cbn. lia.
  - apply mspec_ret. apply Hfin; [done|]. cbn. lia.
Qed.

(** The assignments that end [$elseIf] and [$else]. *)
Lemma branch_flags_spec (p s : Parser) (r enc : bool) :
  condView s = condView p -> 0 <= condLevel p ->
  r = enc && negb (readFlag (condPassed p) (condLevel p)) ->
  mspec (do! modify (fun p => set_condEnabled (<[condLevel p := r]> (condEnabled p)) p)
         in if r
            then modify (fun p => set_condPassed (<[condLevel p := true]> (condPassed p)) p)
            else ret tt) s
    (fun _ p' =>
       condLevel p' = condLevel p
       /\ isCondEnabled p' (condLevel p') = r
       /\ readFlag (condPassed p') (condLevel p')
          = readFlag (condPassed p) (condLevel p) || r)
    (fun _ _ => True).
Proof.
  intros [= Hl He Hp] Hlevel Hr. apply mspec_bind, mspec_modify.
  assert (Hen : forall (s' : Parser) l, l = condLevel p ->
            condEnabled s' = <[condLevel p := r]> (condEnabled s) ->
            isCondEnabled s' l = r).
  { intros s' l -> He'. unfold isCondEnabled, readFlag. rewrite He'.
    destruct (Z.ltb_spec (condLevel p) 0); [lia|]. by rewrite lookup_insert_eq. }
  destruct r.
  - apply mspec_modify. cbn [condLevel set_condEnabled set_condPassed condEnabled condPassed].
    split; [done|]. split; [apply Hen; cbn; by rewrite ?Hl|].
    unfold readFlag. rewrite Hl, lookup_insert_eq. cbn. by rewrite orb_true_r.
  - apply mspec_ret. cbn [condLevel set_condEnabled set_condPassed condEnabled condPassed].
    split; [done|]. split; [apply Hen; cbn; by rewrite ?Hl|].
    rewrite Hl, Hp. by rewrite orb_false_r.
Qed.

Lemma processElseIfCmd_spec parms b e (p : Parser) :
  mspec (processElseIfCmd pParms evalJs parms b e) p
    (fun _ p' =>
       0 <= condLevel p /\ condLevel p' = condLevel p
       /\ isCondEnabled p' (condLevel p')
          = isCondEnabled p (condLevel p - 1)
            && negb (readFlag (condPassed p) (condLevel p))
            && exprTrue pParms evalJs parms
       /\ readFlag (condPassed p') (condLevel p')
          = readFlag (condPassed p) (condLevel p) || isCondEnabled p' (condLevel p'))
    (fun _ _ => True).
Proof.
  unfold processElseIfCmd. apply mspec_bind.
  eapply mspec_conseq; [apply excludeTemplateRange_cond| |done]. cbv beta.
  intros _ p1 Hview. pose proof Hview as [= Hl He Hp].
  apply mspec_bind, mspec_get. rewrite Hl.
  destruct (Z.ltb_spec (condLevel p) 0) as [|Hlevel]; [done|].
  rewrite (isCondEnabled_view _ _ _ Hview), Hp. apply mspec_bind.
  set (c := isCondEnabled p (condLevel p - 1) && negb (readFlag (condPassed p) (condLevel p))).
  assert (Hfin : forall r, r = c && exprTrue pParms evalJs parms ->
            mspec (do! modify (fun p => set_condEnabled (<[condLevel p := r]> (condEnabled p)) p)
                   in if r
                      then modify (fun p =>
                             set_condPassed (<[condLevel p := true]> (condPassed p)) p)
                      else ret tt) p1
              (fun _ p' =>
                 0 <= condLevel p /\ condLevel p' = condLevel p
                 /\ isCondEnabled p' (condLevel p') = c && exprTrue pParms evalJs parms
                 /\ readFlag (condPassed p') (condLevel p')
                    = readFlag (condPassed p) (condLevel p) || isCondEnabled p' (condLevel p'))
              (fun _ _ => True)).
  { intros r Hr.
    eapply mspec_conseq;
      [apply (branch_flags_spec p p1 r (isCondEnabled p (condLevel p - 1) && exprTrue pParms evalJs parms));
         [done|done|]| |done].
    - rewrite Hr. unfold c. by destruct (isCondEnabled _ _), (negb _), (exprTrue _ _ _).
    - cbv beta. intros _ p' (H1 & H2 & H3). rewrite H2, H3, <- Hr. done. }
  destruct c.
  - apply evaluateCondition_spec. by apply Hfin.
  - apply mspec_ret. by apply Hfin.
Qed.

Lemma processElseCmd_spec parms b e (p : Parser) :
  mspec (processElseCmd parms b e) p
    (fun _ p' =>
       0 <= condLevel p /\ condLevel p' = condLevel p
       /\ isCondEnabled p' (condLevel p')
          = isCondEnabled p (condLevel p - 1)
            && negb (readFlag (condPassed p) (condLevel p))
       /\ readFlag (condPassed p') (condLevel p')
          = readFlag (condPassed p) (condLevel p) || isCondEnabled p' (condLevel p'))
    (fun _ _ => True).
Proof.
  unfold processElseCmd. apply mspec_bind.
  eapply mspec_conseq; [apply excludeTemplateRange_cond| |done]. cbv beta.
  intros _ p1 Hview. pose proof Hview as [= Hl He Hp].
  destruct (negb _); [done|]. apply mspec_bind, mspec_get. rewrite Hl.
  destruct (Z.ltb_spec (condLevel p) 0) as [|Hlevel]; [done|]. cbv zeta.
  rewrite (isCondEnabled_view _ _ _ Hview), Hp.
  eapply mspec_conseq;
    [apply (branch_flags_spec p p1 _ (isCondEnabled p (condLevel p - 1))); done| |done].
  cbv beta. intros _ p' (H1 & H2 & H3). by rewrite H2, H3.
Qed.
End Conditions.

(** ** The branches example *)

Lemma branches_main :
  main (parmsOf branchesText branchesVars) evalIdentifier 1000 = Ok branchesTemplate.
Proof. vm_compute. reflexivity. Qed.

Ltac branches_run :=
  match goal with
  | |- exists added' c0' c1' c2', snd ?run = _ /\ _ =>
      let r := fresh "r" in let s := fresh "s" in let E := fresh "E" in
      destruct run as [r s] eqn:E; vm_compute in E; injection E as <- <-;
      first
        [ exists true; eexists _, _, _; split; [reflexivity|exact I || reflexivity]
        | exists false; eexists _, _, _; split; [reflexivity|exact I || reflexivity] ]
  end.

Lemma branches_call fuel c added c0 c1 c2 :
  exists added' c0' c1' c2',
    snd (runCall fuel c (branchesState added c0 c1 c2)) = branchesState added' c0' c1' c2'
    /\ outputIs "B" (fst (runCall fuel c (branchesState added c0 c1 c2))).
Proof.
  destruct c as [n v|n v|n|n| |].
  - destruct added; branches_run.
  - destruct added; branches_run.
  - destruct added; branches_run.
  - destruct added, fuel; branches_run.
  - destruct added; branches_run.
  - destruct added; destruct fuel as [|[|[|[|[|[|[|[|[|[|fuel]]]]]]]]]]; branches_run.
Qed.

Lemma branches_calls fuel calls added c0 c1 c2 :
  Forall (outputIs "B") (fst (runCalls fuel calls (branchesState added c0 c1 c2))).
Proof.
  revert added c0 c1 c2. induction calls as [|c calls IH]; intros added c0 c1 c2.
  { constructor. }
  destruct (branches_call fuel c added c0 c1 c2) as (added' & c0' & c1' & c2' & Hs & Ho).
  cbn [runCalls]. destruct (runCall fuel c _) as [r s]. cbn [fst snd] in *. subst s.
  specialize (IH added' c0' c1' c2').
  destruct (runCalls fuel calls _) as [rs s2]. cbn [fst] in *. by constructor.
Qed.



Lemma mspec_fst_snd {S A} (m : M S A) (s : S) Q E a :
  mspec m s Q E -> fst (m s) = Ok a -> Q a (snd (m s)).
Proof. unfold mspec. destruct (m s) as [[a'|e] s']; cbn; [by intros ? [= <-]|done]. Qed.



(** * Parse failures *)



(** * [escapeHtml] *)

Lemma strlen_app (a b : string) : Js.strlen (a ++ b) = Js.strlen a + Js.strlen b.
Proof.
  unfold Js.strlen. induction a as [|c a IH].
  - change ("" ++ b)%string with b. simpl String.length. lia.
  - change (String c a ++ b)%string with (String c (a ++ b)).
    simpl String.length. lia.
Qed.

Lemma strlen_cons c (a : string) : Js.strlen (String c a) = Js.strlen a + 1.
Proof. unfold Js.strlen. simpl String.length. lia. Qed.

Lemma strlen_nonneg (a : string) : 0 <= Js.strlen a.
Proof. unfold Js.strlen. lia. Qed.

Lemma get_app_here (a : string) c (rest : string) :
  String.get (String.length a) (a ++ String c rest) = Some c.
Proof. induction a as [|x a IH]; [reflexivity|]. exact IH. Qed.

Lemma substring_drop (a b : string) n :
  String.substring (String.length a) n (a ++ b) = String.substring 0 n b.
Proof. induction a as [|x a IH]; [reflexivity|]. exact IH. Qed.

Lemma substring_take (b c : string) :
  String.substring 0 (String.length b) (b ++ c) = b.
Proof.
  induction b as [|x b IH].
  - destruct c; reflexivity.
  - change (String x (String.substring 0 (String.length b) (b ++ c)) = String x b).
    by rewrite IH.
Qed.

Lemma substring_middle (a b c : string) :
  Js.substring (a ++ b ++ c) (Js.strlen a) (Js.strlen a + Js.strlen b) = b.
Proof.
  unfold Js.substring, Js.clamp. rewrite !strlen_app.
  pose proof (strlen_nonneg a). pose proof (strlen_nonneg b).
  pose proof (strlen_nonneg c).
  replace (Z.max 0 (Z.min (Js.strlen a) (Js.strlen a + (Js.strlen b + Js.strlen c))))
    with (Js.strlen a) by lia.
  replace (Z.max 0 (Z.min (Js.strlen a + Js.strlen b)
                      (Js.strlen a + (Js.strlen b + Js.strlen c))))
    with (Js.strlen a + Js.strlen b) by lia.
  replace (Z.min (Js.strlen a) (Js.strlen a + Js.strlen b)) with (Js.strlen a) by lia.
  replace (Z.max (Js.strlen a) (Js.strlen a + Js.strlen b) - Js.strlen a)
    with (Js.strlen b) by lia.
  unfold Js.strlen. rewrite !Nat2Z.id.
  rewrite substring_drop. apply substring_take.
Qed.

Lemma substringFrom_drop (a b : string) :
  Js.substringFrom (a ++ b) (Js.strlen a) = b.
Proof.
  unfold Js.substringFrom.
  pose proof (substring_middle a b "") as H.
  rewrite string_app_nil_r in H. by rewrite strlen_app.
Qed.

Lemma charCodeAt_app_here (a : string) c (rest : string) :
  Js.charCodeAt (a ++ String c rest) (Js.strlen a)
  = Some (Z.of_nat (nat_of_ascii c)).
Proof.
  unfold Js.charCodeAt, Js.strlen.
  destruct (Z.ltb_spec (Z.of_nat (String.length a)) 0) as [?|_]; [lia|].
  by rewrite Nat2Z.id, get_app_here.
Qed.

Lemma escapeChars_app (a b : string) :
  escapeChars (a ++ b) = (escapeChars a ++ escapeChars b)%string.
Proof.
  induction a as [|x a IH]; [reflexivity|].
  change (escapeChar x ++ escapeChars (a ++ b)
          = (escapeChar x ++ escapeChars a) ++ escapeChars b)%string.
  by rewrite IH, string_app_assoc.
Qed.

Lemma escapeChars_plain (s : string) :
  stringForall (fun c => negb (isHtmlSpecial c)) s = true -> escapeChars s = s.
Proof.
  induction s as [|c s IH]; [done|]. simpl. intros [Hc Hs]%andb_prop.
  rewrite (IH Hs). unfold escapeChar. unfold isHtmlSpecial in Hc.
  by destruct (escapeEntity _).
Qed.

Lemma stringForall_app f (a b : string) :
  stringForall f (a ++ b) = stringForall f a && stringForall f b.
Proof.
  induction a as [|x a IH]; [reflexivity|].
  change (f x && stringForall f (a ++ b) = f x && stringForall f a && stringForall f b).
  rewrite IH. by destruct (f x).
Qed.

(** The result of [escapeHtml] from the values the loop leaves. *)
Lemma escapeHtmlLoop_spec (rest pre mid out : string) :
  out = escapeChars pre ->
  stringForall (fun c => negb (isHtmlSpecial c)) mid = true ->
  let s := (pre ++ mid ++ rest)%string in
  (let '(out', p2) := escapeHtmlLoop (String.length rest) s
                        (Js.strlen pre + Js.strlen mid) out (Js.strlen pre) in
   if (p2 =? 0) then s
   else if (p2 <? Js.strlen s) then (out' ++ Js.substringFrom s p2)%string
   else out')
  = escapeChars s.
Proof.
  revert pre mid out. induction rest as [|c rest IH]; intros pre mid out Hout Hmid s.
  - subst s. simpl escapeHtmlLoop. rewrite string_app_nil_r.
    pose proof (strlen_nonneg pre). pose proof (strlen_nonneg mid).
    rewrite escapeChars_app, (escapeChars_plain mid Hmid), <- Hout.
    destruct (Z.eqb_spec (Js.strlen pre) 0) as [Hz|Hz].
    + destruct pre; [|rewrite strlen_cons in Hz; pose proof (strlen_nonneg pre); lia].
      simpl in Hout. by subst out.
    + rewrite strlen_app.
      destruct (Z.ltb_spec (Js.strlen pre) (Js.strlen pre + Js.strlen mid)) as [Hlt|Hge].
      * by rewrite substringFrom_drop.
      * destruct mid; [by rewrite string_app_nil_r|].
        rewrite strlen_cons in Hge. pose proof (strlen_nonneg mid). lia.
  - simpl escapeHtmlLoop.
    assert (Hs : s = ((pre ++ mid) ++ String c rest)%string)
      by (subst s; by rewrite string_app_assoc).
    assert (Hp : Js.strlen pre + Js.strlen mid = Js.strlen (pre ++ mid))
      by (by rewrite strlen_app).
    pose proof (strlen_nonneg pre). pose proof (strlen_nonneg mid).
    pose proof (strlen_nonneg rest).
    destruct (Z.ltb_spec (Js.strlen pre + Js.strlen mid) (Js.strlen s)) as [_|Hge].
    2: { rewrite Hs, !strlen_app, strlen_cons in Hge. lia. }
    rewrite Hp. rewrite Hs at 1. rewrite charCodeAt_app_here.
    destruct (escapeEntity (Some (Z.of_nat (nat_of_ascii c)))) as [r|] eqn:Hc.
    + set (out1 := if Js.strlen pre <? Js.strlen (pre ++ mid)
                   then (out ++ Js.substring s (Js.strlen pre) (Js.strlen (pre ++ mid)))%string
                   else out).
      assert (Hout1 : out1 = escapeChars (pre ++ mid)).
      { subst out1. rewrite escapeChars_app, (escapeChars_plain mid Hmid), <- Hout.
        rewrite <- Hp.
        destruct (Z.ltb_spec (Js.strlen pre) (Js.strlen pre + Js.strlen mid)) as [Hlt|Hge].
        - subst s. by rewrite substring_middle.
        - destruct mid; [by rewrite string_app_nil_r|].
          rewrite strlen_cons in Hge. pose proof (strlen_nonneg mid). lia. }
      specialize (IH ((pre ++ mid) ++ String c "")%string ""%string (out1 ++ r)%string).
      assert (Hlen : Js.strlen ((pre ++ mid) ++ String c "") = Js.strlen (pre ++ mid) + 1).
      { rewrite strlen_app, strlen_cons. reflexivity. }
      rewrite Hlen in IH. change (Js.strlen "") with 0 in IH.
      rewrite Z.add_0_r in IH.
      assert (Hs' : (((pre ++ mid) ++ String c "") ++ "" ++ rest)%string = s).
      { rewrite Hs, string_app_assoc. reflexivity. }
      cbv zeta in IH. rewrite Hs' in IH. apply IH; [|done].
      rewrite escapeChars_app, <- Hout1. f_equal.
      simpl. unfold escapeChar. rewrite Hc. by rewrite string_app_nil_r.
    + specialize (IH pre (mid ++ String c "")%string out Hout).
      assert (Hs' : (pre ++ (mid ++ String c "") ++ rest)%string = s).
      { rewrite Hs, !string_app_assoc. reflexivity. }
      cbv zeta in IH. rewrite Hs' in IH.
      replace (Js.strlen pre + Js.strlen (mid ++ String c ""))
        with (Js.strlen (pre ++ mid) + 1) in IH.
      2: { rewrite !strlen_app, strlen_cons. change (Js.strlen "") with 0. lia. }
      apply IH. rewrite stringForall_app, Hmid. simpl.
      unfold isHtmlSpecial. by rewrite Hc.
Qed.

Lemma escapeHtml_escapeChars (v : JsValue) :
  escapeHtml v = escapeChars (formatVariableValue v).
Proof.
  unfold escapeHtml.
  exact (escapeHtmlLoop_spec (formatVariableValue v) "" "" "" eq_refl eq_refl).
Qed.

Lemma str_app_cons c (s t : string) : (String c s ++ t)%string = String c (s ++ t).
Proof. reflexivity. Qed.

Lemma str_app_nil_l (t : string) : ("" ++ t)%string = t.
Proof. reflexivity. Qed.

(** The six cases of one character. *)
Lemma escapeChar_cases (c : ascii) :
  (isHtmlSpecial c = false /\ isMarkup c = false /\ escapeChar c = String c "")
  \/ (isHtmlSpecial c = true
      /\ ((c = "034"%char /\ escapeChar c = "&quot;"%string)
          \/ (c = "038"%char /\ escapeChar c = "&amp;"%string)
          \/ (c = "039"%char /\ escapeChar c = "&#39;"%string)
          \/ (c = "060"%char /\ escapeChar c = "&lt;"%string)
          \/ (c = "062"%char /\ escapeChar c = "&gt;"%string))).
Proof.
  destruct c as [[] [] [] [] [] [] [] []];
    first [ left; repeat split; reflexivity
          | right; split; [reflexivity|];
            repeat first [ left; split; reflexivity | right ];
            split; reflexivity ].
Qed.

Lemma escapeChar_no_markup (c : ascii) :
  stringForall (fun c => negb (isMarkup c)) (escapeChar c) = true.
Proof.
  destruct (escapeChar_cases c) as [(_ & Hm & ->)|[_ H]].
  - simpl. by rewrite Hm.
  - destruct H as [[_ ->]|[[_ ->]|[[_ ->]|[[_ ->]|[_ ->]]]]]; reflexivity.
Qed.

Lemma escapeChars_no_markup (s : string) :
  stringForall (fun c => negb (isMarkup c)) (escapeChars s) = true.
Proof.
  induction s as [|c s IH]; [done|]. simpl.
  by rewrite stringForall_app, escapeChar_no_markup, IH.
Qed.

Lemma escapeChars_inj (a b : string) : escapeChars a = escapeChars b -> a = b.
Proof.
  revert b. induction a as [|x a IH]; intros [|y b] H; [done| | |].
  - exfalso. simpl in H.
    destruct (escapeChar_cases y) as [(_ & _ & E)|[_ [[_ E]|[[_ E]|[[_ E]|[[_ E]|[_ E]]]]]]];
      rewrite E in H; discriminate H.
  - exfalso. simpl in H.
    destruct (escapeChar_cases x) as [(_ & _ & E)|[_ [[_ E]|[[_ E]|[[_ E]|[[_ E]|[_ E]]]]]]];
      rewrite E in H; discriminate H.
  - simpl in H.
    destruct (escapeChar_cases x) as [(Sx & _ & Ex)|[_ Hx]];
      destruct (escapeChar_cases y) as [(Sy & _ & Ey)|[_ Hy]].
    + rewrite Ex, Ey, !str_app_cons, !str_app_nil_l in H.
      injection H as -> H. f_equal. by apply IH.
    + exfalso.
      destruct Hy as [[_ Ey]|[[_ Ey]|[[_ Ey]|[[_ Ey]|[_ Ey]]]]];
        rewrite Ex, Ey, !str_app_cons in H; injection H as -> _; discriminate Sx.
    + exfalso.
      destruct Hx as [[_ Ex]|[[_ Ex]|[[_ Ex]|[[_ Ex]|[_ Ex]]]]];
        rewrite Ex, Ey, !str_app_cons in H; injection H as <- _; discriminate Sy.
    + destruct Hx as [[-> Ex]|[[-> Ex]|[[-> Ex]|[[-> Ex]|[-> Ex]]]]];
        destruct Hy as [[-> Ey]|[[-> Ey]|[[-> Ey]|[[-> Ey]|[-> Ey]]]]];
        rewrite ?Ex, ?Ey, !str_app_cons, !str_app_nil_l in H;
        first [ discriminate H | f_equal; apply IH; congruence ].
Qed.

(** X1: [escapeHtml] works character by character: the empty string stays
    empty, and the result for a string is the entity of its first
    character, or this character itself where the [switch] has no case
    for it, followed by the result for the rest of the string. *)
Theorem escapeHtml_by_character :
  escapeHtml (JsString "") = ""%string
  /\ forall c (s : string),
       escapeHtml (JsString (String c s))
       = ((match escapeEntity (Js.charCodeAt (String c s) 0) with
           | Some r => r
           | None => String c ""
           end) ++ escapeHtml (JsString s))%string.
Proof.
  split; [reflexivity|]. intros c s.
  rewrite !escapeHtml_escapeChars. reflexivity.
Qed.

(** X2: escaping the concatenation of two strings gives the concatenation
    of the two escaped strings. *)
Theorem escapeHtml_append (a b : string) :
  escapeHtml (JsString (a ++ b))
  = (escapeHtml (JsString a) ++ escapeHtml (JsString b))%string.
Proof. rewrite !escapeHtml_escapeChars. apply escapeChars_app. Qed.

(** X3: whatever the value, the result of [escapeHtml] contains none of the
    characters double quote, single quote, less-than and greater-than. *)
Theorem escapeHtml_no_markup (v : JsValue) :
  stringForall (fun c => negb (isMarkup c)) (escapeHtml v) = true.
Proof. rewrite escapeHtml_escapeChars. apply escapeChars_no_markup. Qed.

(** X4: a value whose text contains none of the five characters that
    [escapeHtml] replaces is returned as [formatVariableValue] formats
    it. *)
Theorem escapeHtml_plain (v : JsValue) :
  stringForall (fun c => negb (isHtmlSpecial c)) (formatVariableValue v) = true ->
  escapeHtml v = formatVariableValue v.
Proof. intros H. rewrite escapeHtml_escapeChars. by apply escapeChars_plain. Qed.

Lemma escapeHtml_plain_witness :
  escapeHtml (JsNumber 42) = "42"%string.
Proof. apply (escapeHtml_plain (JsNumber 42)). vm_compute. reflexivity. Defined.

(** X5: [escapeHtml] loses nothing: two strings with the same escaped text
    are the same string. *)
Theorem escapeHtml_injective (a b : string) :
  escapeHtml (JsString a) = escapeHtml (JsString b) -> a = b.
Proof. rewrite !escapeHtml_escapeChars. apply escapeChars_inj. Qed.

Lemma escapeHtml_injective_witness :
  ("a<b" : string) = String "a" (String "<" (String "b" EmptyString)).
Proof.
  apply (escapeHtml_injective "a<b" (String "a" (String "<" (String "b" EmptyString)))).
  vm_compute. reflexivity.
Defined.


(** * The variable values of a session *)

Lemma keepsValues_refl t : keepsValues t t.
Proof. by split. Qed.

Lemma keepsValues_trans t1 t2 t3 :
  keepsValues t1 t2 -> keepsValues t2 t3 -> keepsValues t1 t3.
Proof. intros [? ?] [? ?]. split; congruence. Qed.

Lemma kv_updBlockDyn t s blockNo f :
  keepsValues t s ->
  mspec (updBlockDyn blockNo f) s
    (fun _ s' => keepsValues t s') (fun _ s' => keepsValues t s').
Proof. intros H. unfold updBlockDyn. wp; done. Qed.

Lemma kv_updBlockInst t s i f :
  keepsValues t s ->
  mspec (updBlockInst i f) s
    (fun _ s' => keepsValues t s') (fun _ s' => keepsValues t s').
Proof. intros H. unfold updBlockInst. wp; done. Qed.

Ltac kv_step :=
  lazymatch goal with
  | |- mspec (bind _ _) _ _ _ => apply mspec_bind
  | |- mspec (ret _) _ _ _ => apply mspec_ret
  | |- mspec get _ _ _ => apply mspec_get
  | |- mspec (throw _) _ _ _ => apply mspec_throw
  | |- mspec (orTypeError _) _ _ _ => apply mspec_orTypeError; [intros ? ? | intros ?]
  | |- mspec (if ?b then _ else _) _ _ _ => destruct b
  | |- mspec (updBlockDyn _ _) _ _ _ =>
      eapply mspec_conseq;
        [eapply kv_updBlockDyn; eassumption | intros ? ? ?; cbv beta in * | done]
  | |- mspec (updBlockInst _ _) _ _ _ =>
      eapply mspec_conseq;
        [eapply kv_updBlockInst; eassumption | intros ? ? ?; cbv beta in * | done]
  | |- mspec (let _ := _ in _) _ _ _ => cbv zeta
  | |- _ => progress cbv beta
  end.

Lemma addBlockByNo_keepsValues blockNo t s :
  keepsValues t s ->
  mspec (addBlockByNo blockNo) s
    (fun _ s' => keepsValues t s') (fun _ s' => keepsValues t s').
Proof.
  intros H. unfold addBlockByNo.
  apply mspec_bind, mspec_get. cbv zeta. apply mspec_bind, mspec_modify.
  assert (Hk : keepsValues t (set_blockInstTab (fun l => l ++ [emptyBlockInst]) s))
    by done.
  revert Hk. generalize (set_blockInstTab (fun l => l ++ [emptyBlockInst]) s) as s1.
  intros s1 Hk. repeat kv_step; try done.
Qed.

Lemma addBlocksByNo_keepsValues fuel blockNo t s :
  keepsValues t s ->
  mspec (addBlocksByNo fuel blockNo) s
    (fun _ s' => keepsValues t s') (fun _ s' => keepsValues t s').
Proof.
  revert blockNo s. induction fuel as [|fuel IH]; intros blockNo s H; simpl.
  - destruct (blockNo =? -1); wp; done.
  - destruct (blockNo =? -1); [by wp|].
    apply mspec_bind.
    eapply mspec_conseq; [by apply addBlockByNo_keepsValues| |done].
    intros u s1 H1. cbv beta. wp; try done. by apply IH.
Qed.

Lemma generateOutputString_keepsValues fuel t :
  keepsValues t (snd (generateOutputString fuel t)).
Proof.
  apply (mspec_snd (generateOutputString fuel) t (keepsValues t)).
  unfold generateOutputString, generateOutputArray.
  apply mspec_bind. apply mspec_bind, mspec_get.
  apply mspec_bind.
  apply mspec_orTypeError; [intros d0 Hd0|split; done]. apply mspec_bind.
  eapply mspec_conseq with (Q' := fun _ s => keepsValues t s)
                           (E' := fun _ s => keepsValues t s); [| |done].
  { destruct (instances d0 =? 0); [|by wp].
    by apply addBlockByNo_keepsValues. }
  intros u s1 H1. cbv beta. apply mspec_bind, mspec_modify.
  destruct (writers_cursors fuel) as [Hw _].
  eapply mspec_conseq; [apply Hw| |].
  - intros out s2 (Ht & Hv & _). wp. destruct H1 as [? ?].
    split; cbn in *; congruence.
  - intros e s2 (Ht & Hv & _). destruct H1 as [? ?].
    split; cbn in *; congruence.
Qed.

Lemma values_ok_keeps t s : keepsValues t s -> values_ok t -> values_ok s.
Proof. unfold values_ok. intros [-> ->]. done. Qed.

Lemma values_ok_new pt : values_ok (newMiniTemplator pt).
Proof. unfold values_ok, alen. simpl. by rewrite length_replicate. Qed.

Lemma setVariable_known (t : MiniTemplator) name v varNo :
  lookupVariableName (template t) name = varNo ->
  0 <= varNo < alen (varValuesTab t) ->
  setVariable name v t = (Ok tt, withValue varNo (formatVariableValue v) t)
  /\ setVariableOpt name v t = (Ok tt, withValue varNo (formatVariableValue v) t).
Proof.
  intros Hl Hr. unfold setVariable, setVariableOpt, bind, get. rewrite Hl.
  destruct (Z.eqb_spec varNo (-1)) as [?|_]; [lia|].
  unfold storeVariable, bind, get, jsArraySet, withValue, aset.
  destruct (Z.ltb_spec varNo 0) as [?|_]; [lia|].
  destruct (Z.ltb_spec varNo (alen (varValuesTab t))) as [_|?]; [|lia].
  done.
Qed.

Lemma known_variable vt lookup refs name :
  vars_ok vt lookup refs -> name ∈ vt ->
  aget vt (lookup name) = Some name /\ 0 <= lookup name < alen vt.
Proof.
  intros Hv Hin.
  assert (Hne : lookup name <> -1).
  { intros Habs. by apply (vo_absent _ _ _ Hv) in Habs. }
  pose proof (vo_lookup _ _ _ Hv name _ eq_refl Hne) as Hg.
  split; [done|]. by apply aget_Some in Hg.
Qed.

Lemma unknown_variable vt lookup refs name :
  vars_ok vt lookup refs -> lookup name <> -1 -> name ∈ vt.
Proof.
  intros Hv Hne. pose proof (vo_lookup _ _ _ Hv name _ eq_refl Hne) as Hg.
  unfold aget in Hg. destruct (lookup name <? 0); [done|].
  by apply list_elem_of_lookup_2 in Hg.
Qed.

Lemma runCall_values fuel c (t : MiniTemplator) :
  vars_ok (pt_varTab (template t)) (lookupVariableName (template t))
    (pt_varRefTab (template t)) ->
  values_ok t ->
  values_ok (snd (runCall fuel c t)) /\ template (snd (runCall fuel c t)) = template t.
Proof.
  intros Hv Hok.
  assert (Hset : forall name v,
    (snd (setVariable name v t) = t
     \/ snd (setVariable name v t)
        = withValue (lookupVariableName (template t) name) (formatVariableValue v) t)
    /\ (snd (setVariableOpt name v t) = t
     \/ snd (setVariableOpt name v t)
        = withValue (lookupVariableName (template t) name) (formatVariableValue v) t)).
  { intros name v.
    destruct (Z.eq_dec (lookupVariableName (template t) name) (-1)) as [Hu|Hk].
    - destruct (setVariable_unknown t name v Hu) as [-> ->]. by split; left.
    - pose proof (unknown_variable _ _ _ name Hv Hk) as Hin.
      destruct (known_variable _ _ _ name Hv Hin) as [_ Hr].
      unfold values_ok in Hok. rewrite <- Hok in Hr.
      destruct (setVariable_known t name v _ eq_refl Hr) as [-> ->]. by split; right. }
  assert (Hw : forall varNo s, values_ok (withValue varNo s t)
                               /\ template (withValue varNo s t) = template t).
  { intros varNo s. split; [|done]. unfold values_ok, withValue. cbn.
    by rewrite alen_aset. }
  assert (Hbind : forall (m : Eng unit),
            snd ((do! m in ret (@None string)) t) = snd (m t)).
  { intros m. unfold bind, ret. by destruct (m t) as [[|] ?]. }
  destruct c as [name v|name v|name|name| |]; unfold runCall.
  - rewrite Hbind. destruct (Hset name v) as [[->| ->] _]; [done|apply Hw].
  - rewrite Hbind. destruct (Hset name v) as [_ [->| ->]]; [done|apply Hw].
  - rewrite Hbind.
    assert (Hk : keepsValues t (snd (addBlock fuel name t))).
    { apply (mspec_snd (addBlock fuel name) t (keepsValues t)).
      unfold addBlock. apply mspec_bind, mspec_get. cbv zeta.
      destruct (_ =? -1); [by wp|]. by apply addBlocksByNo_keepsValues. }
    split; [by apply (values_ok_keeps t)|apply Hk].
  - rewrite Hbind.
    assert (Hk : keepsValues t (snd (addBlockOpt fuel name t))).
    { apply (mspec_snd (addBlockOpt fuel name) t (keepsValues t)).
      unfold addBlockOpt. apply mspec_bind, mspec_get. cbv zeta.
      by apply addBlocksByNo_keepsValues. }
    split; [by apply (values_ok_keeps t)|apply Hk].
  - rewrite Hbind. unfold reset, modify. cbn. split; [|done].
    unfold values_ok, alen in *. cbn. by rewrite length_map.
  - assert (Hk : keepsValues t (snd (generateOutputString fuel t)))
      by apply generateOutputString_keepsValues.
    assert (Hsnd : snd ((let! s := generateOutputString fuel in ret (Some s)) t)
                   = snd (generateOutputString fuel t)).
    { unfold bind, ret. by destruct (generateOutputString fuel t) as [[|] ?]. }
    rewrite Hsnd. split; [by apply (values_ok_keeps t)|apply Hk].
Qed.

Lemma runCalls_values fuel calls (t : MiniTemplator) :
  vars_ok (pt_varTab (template t)) (lookupVariableName (template t))
    (pt_varRefTab (template t)) ->
  values_ok t ->
  values_ok (snd (runCalls fuel calls t))
  /\ template (snd (runCalls fuel calls t)) = template t.
Proof.
  revert t. induction calls as [|c rest IH]; intros t Hv Hok; [done|].
  rewrite runCalls_cons.
  destruct (runCall_values fuel c t Hv Hok) as [H1 H2].
  destruct (IH (snd (runCall fuel c t))) as [H3 H4]; [by rewrite H2|done|].
  split; [done|congruence].
Qed.

Lemma reachable_values pParms evalJs fuel0 pt fuel calls :
  main pParms evalJs fuel0 = Ok pt ->
  values_ok (snd (runCalls fuel calls (newMiniTemplator pt)))
  /\ template (snd (runCalls fuel calls (newMiniTemplator pt))) = pt.
Proof.
  intros Hok%main_template_ok.
  apply (runCalls_values fuel calls (newMiniTemplator pt));
    [apply Hok|apply values_ok_new].
Qed.

Lemma known_reachable pParms evalJs fuel0 pt fuel calls name :
  main pParms evalJs fuel0 = Ok pt ->
  name ∈ pt_varTab pt ->
  let t := snd (runCalls fuel calls (newMiniTemplator pt)) in
  template t = pt
  /\ alen (varValuesTab t) = alen (pt_varTab pt)
  /\ aget (pt_varTab pt) (lookupVariableName pt name) = Some name
  /\ 0 <= lookupVariableName pt name < alen (varValuesTab t).
Proof.
  intros Hmain Hin t.
  pose proof (main_template_ok _ _ _ _ Hmain) as Hok.
  destruct (reachable_values _ _ _ _ fuel calls Hmain) as [Hval Htpl].
  fold t in Hval, Htpl. unfold values_ok in Hval. rewrite Htpl in Hval.
  destruct (known_variable _ _ _ name (to_vars _ Hok) Hin) as [Hg Hr].
  repeat split; try done; lia.
Qed.

(** X6: on a template that [main] returned, in a session reached by any
    calls of the public interface, [setVariable] and [setVariableOpt] with
    the name of a variable of the template return normally; they replace
    the entry of this variable in the table of the values by the formatted
    value and change nothing else; the table keeps one entry for each
    variable. *)
Theorem setVariable_stores pParms evalJs fuel0 pt fuel calls name v :
  main pParms evalJs fuel0 = Ok pt ->
  name ∈ pt_varTab pt ->
  let t := snd (runCalls fuel calls (newMiniTemplator pt)) in
  let t' := withValue (lookupVariableName pt name) (formatVariableValue v) t in
  aget (pt_varTab pt) (lookupVariableName pt name) = Some name
  /\ setVariable name v t = (Ok tt, t')
  /\ setVariableOpt name v t = (Ok tt, t')
  /\ aget (varValuesTab t') (lookupVariableName pt name)
     = Some (Some (formatVariableValue v))
  /\ (forall i, i <> lookupVariableName pt name ->
        aget (varValuesTab t') i = aget (varValuesTab t) i)
  /\ alen (varValuesTab t') = alen (pt_varTab pt)
  /\ same_instances t t'.
Proof.
  intros Hmain Hin t t'.
  destruct (known_reachable _ _ _ _ fuel calls name Hmain Hin) as (Htpl & Hlen & Hg & Hr).
  fold t in Htpl, Hlen, Hr.
  assert (Hl : lookupVariableName (template t) name = lookupVariableName pt name)
    by (by rewrite Htpl).
  destruct (setVariable_known t name v _ Hl Hr) as [H1 H2].
  split; [done|]. split; [done|]. split; [done|].
  subst t'. unfold withValue. cbn. split; [|split; [|split]].
  - by apply aget_aset_eq.
  - intros i Hi. by apply aget_aset_ne.
  - by rewrite alen_aset.
  - done.
Qed.

Lemma setVariable_stores_witness :
  setVariable "x" (JsNumber 7) (newMiniTemplator (parsedExample rowText []))
  = (Ok tt, withValue 0 "7" (newMiniTemplator (parsedExample rowText []))).
Proof.
  destruct (setVariable_stores (parmsOf rowText []) evalIdentifier 1000
              (parsedExample rowText []) 5 [] "x" (JsNumber 7)) as (_ & H & _).
  - vm_compute. reflexivity.
  - vm_compute. apply list_elem_of_here.
  - exact H.
Defined.

(** X7: [setVariableEsc] and [setVariableOptEsc].  In a session reached by
    any calls on a template that [main] returned: with the name of a
    variable of the template both return normally and store, as the value
    of this variable, the text that [escapeHtml] returns, which contains no
    quote and no angle bracket; with another name [setVariableEsc] throws
    [VariableNotDefinedError], [setVariableOptEsc] returns, and both leave
    the session as it was. *)
Theorem setVariableEsc_stores pParms evalJs fuel0 pt fuel calls name v :
  main pParms evalJs fuel0 = Ok pt ->
  let t := snd (runCalls fuel calls (newMiniTemplator pt)) in
  let t' := withValue (lookupVariableName pt name) (escapeHtml v) t in
  (name ∈ pt_varTab pt ->
     setVariableEsc name v t = (Ok tt, t')
     /\ setVariableOptEsc name v t = (Ok tt, t')
     /\ aget (varValuesTab t') (lookupVariableName pt name) = Some (Some (escapeHtml v))
     /\ stringForall (fun c => negb (isMarkup c)) (escapeHtml v) = true)
  /\ (name ∉ pt_varTab pt ->
     setVariableEsc name v t = (Throw (newVariableNotDefinedError name), t)
     /\ setVariableOptEsc name v t = (Ok tt, t)).
Proof.
  intros Hmain t t'. split; intros Hin.
  - destruct (known_reachable _ _ _ _ fuel calls name Hmain Hin) as (Htpl & Hlen & Hg & Hr).
    fold t in Htpl, Hlen, Hr.
    assert (Hl : lookupVariableName (template t) name = lookupVariableName pt name)
      by (by rewrite Htpl).
    destruct (setVariable_known t name (JsString (escapeHtml v)) _ Hl Hr) as [H1 H2].
    split; [exact H1|]. split; [exact H2|]. split.
    + subst t'. unfold withValue. cbn. by apply aget_aset_eq.
    + rewrite escapeHtml_escapeChars. apply escapeChars_no_markup.
  - pose proof (main_template_ok _ _ _ _ Hmain) as Hok.
    destruct (reachable_values _ _ _ _ fuel calls Hmain) as [_ Htpl]. fold t in Htpl.
    apply setVariable_unknown. rewrite Htpl.
    by apply (vars_ok_unknown _ _ _ _ (to_vars _ Hok)).
Qed.

Lemma setVariableEsc_stores_witness :
  setVariableEsc "x" (JsString "<b>") (newMiniTemplator (parsedExample rowText []))
  = (Ok tt, withValue 0 "&lt;b&gt;" (newMiniTemplator (parsedExample rowText []))).
Proof.
  destruct (setVariableEsc_stores (parmsOf rowText []) evalIdentifier 1000
              (parsedExample rowText []) 5 [] "x" (JsString "<b>")) as [H _].
  - vm_compute. reflexivity.
  - destruct H as (H & _).
    + vm_compute. apply list_elem_of_here.
    + exact H.
Defined.

Lemma lookup_block_defined bt lookup name :
  names_ok bt lookup -> (lookup name = -1 <-> definitionsNamed bt name = []).
Proof.
  intros Hn. specialize (Hn name). split; intros H.
  - rewrite H in Hn. inversion Hn as [Hr|i nx rest Hi]; [|done].
    destruct (definitionsNamed bt name) as [|b l]; [done|].
    simpl in *. by destruct (rev l).
  - rewrite H in Hn. by inversion Hn.
Qed.

(** X8: on a template that [main] returned, [variableExists] answers
    whether the name is in the variable table of the template, and
    [blockExists] answers whether some block definition has the name. *)
Theorem exists_spec pParms evalJs fuel0 pt (t : MiniTemplator) name :
  main pParms evalJs fuel0 = Ok pt ->
  template t = pt ->
  (variableExists t name = true <-> name ∈ pt_varTab pt)
  /\ (blockExists t name = true <-> definitionsNamed (pt_blockTab pt) name <> []).
Proof.
  intros Hmain%main_template_ok Htpl. unfold variableExists, blockExists.
  rewrite Htpl. split.
  - rewrite negb_true_iff, Z.eqb_neq. split.
    + apply (unknown_variable _ _ _ _ (to_vars _ Hmain)).
    + intros Hin Hu. by apply (vo_absent _ _ _ (to_vars _ Hmain)) in Hu.
  - rewrite negb_true_iff, Z.eqb_neq.
    by rewrite (lookup_block_defined _ _ name (bi_names _ _ (to_blocks _ Hmain))).
Qed.

Lemma exists_spec_witness :
  variableExists (newMiniTemplator (parsedExample rowText [])) "x" = true
  /\ blockExists (newMiniTemplator (parsedExample rowText [])) "row" = true.
Proof.
  destruct (exists_spec (parmsOf rowText []) evalIdentifier 1000
              (parsedExample rowText []) (newMiniTemplator (parsedExample rowText []))
              "x") as [[_ H1] _]; [vm_compute; reflexivity|reflexivity|].
  destruct (exists_spec (parmsOf rowText []) evalIdentifier 1000
              (parsedExample rowText []) (newMiniTemplator (parsedExample rowText []))
              "row") as [_ [_ H2]]; [vm_compute; reflexivity|reflexivity|].
  split.
  - apply H1. vm_compute. apply list_elem_of_here.
  - apply H2. vm_compute. discriminate.
Defined.


(** * Output generation and [reset] *)

Lemma mspec_skip {S A B} (m : M S A) (k : A -> M S B) s (Q : B -> S -> Prop) :
  (forall a s1, mspec (k a) s1 Q (fun _ _ => True)) ->
  mspec (bind m k) s Q (fun _ _ => True).
Proof. intros H. unfold mspec, bind. destruct (m s) as [[a|e] s1]; [apply H|done]. Qed.

Lemma ia_updBlockInst b n i f s :
  instancesAt b n s ->
  mspec (updBlockInst i f) s (fun _ s' => instancesAt b n s') (fun _ _ => True).
Proof.
  intros (d & Hd & Hn). unfold updBlockInst. wp; try done. by exists d.
Qed.

Lemma ia_set b n s :
  mspec (updBlockDyn b (with_instances n)) s
    (fun _ s' => instancesAt b n s') (fun _ _ => True).
Proof.
  unfold updBlockDyn. wp; [|done]. eexists.
  cbn [blockDynTab set_blockDynTab]. split.
  - apply aget_aset_eq. by eapply aget_Some.
  - reflexivity.
Qed.

Ltac ia_step :=
  lazymatch goal with
  | |- mspec (bind _ _) _ _ _ => apply mspec_bind
  | |- mspec (ret _) _ _ _ => apply mspec_ret
  | |- mspec get _ _ _ => apply mspec_get
  | |- mspec (throw _) _ _ _ => apply mspec_throw
  | |- mspec (orTypeError _) _ _ _ => apply mspec_orTypeError; [intros ? ? | intros ?]
  | |- mspec (if ?b then _ else _) _ _ _ => destruct b
  | |- mspec (updBlockInst _ _) _ _ _ =>
      eapply mspec_conseq;
        [eapply ia_updBlockInst; eassumption | intros ? ? ?; cbv beta in * | done]
  | |- mspec (let _ := _ in _) _ _ _ => cbv zeta
  | |- _ => progress cbv beta
  end.

(** [addBlockByNo], when it returns, has counted one more instance. *)
Lemma addBlockByNo_counts blockNo (t s : MiniTemplator) :
  addBlockByNo blockNo t = (Ok tt, s) ->
  exists d, aget (blockDynTab t) blockNo = Some d
            /\ instancesAt blockNo (instances d + 1) s.
Proof.
  intros Hrun.
  assert (H : mspec (addBlockByNo blockNo) t
            (fun _ s => exists d, aget (blockDynTab t) blockNo = Some d
                                  /\ instancesAt blockNo (instances d + 1) s)
            (fun _ _ => True)).
  { unfold addBlockByNo. apply mspec_bind, mspec_get. cbv zeta.
    apply mspec_bind, mspec_modify.
    apply mspec_bind, mspec_orTypeError; [intros d Hd|done].
    apply mspec_skip. intros _ s1. apply mspec_skip. intros _ s2.
    apply mspec_skip. intros _ s3. apply mspec_skip. intros _ s4.
    apply mspec_skip. intros _ s5. apply mspec_bind.
    eapply mspec_conseq; [apply ia_set| |done].
    intros u s6 H6. cbv beta in *.
    eapply mspec_conseq with (Q' := fun _ s => instancesAt blockNo (instances d + 1) s)
                             (E' := fun _ _ => True);
      [|intros; by exists d|done].
    repeat ia_step; done. }
  unfold mspec in H. by rewrite Hrun in H.
Qed.

Lemma same_but_cursors_sym t1 t2 : same_but_cursors t1 t2 -> same_but_cursors t2 t1.
Proof. intros (? & ? & ? & ?). by repeat split. Qed.

Lemma same_but_cursors_aget t1 t2 i d :
  same_but_cursors t1 t2 -> aget (blockDynTab t1) i = Some d ->
  exists d', aget (blockDynTab t2) i = Some d' /\ dynCounts d' = dynCounts d.
Proof.
  intros (_ & _ & Hm & _) Hd.
  assert (H : aget (map dynCounts (blockDynTab t2)) i = Some (dynCounts d)).
  { rewrite <- Hm. unfold aget in *. destruct (i <? 0); [done|].
    change (map dynCounts (blockDynTab t1)) with (dynCounts <$> blockDynTab t1).
    by rewrite list_lookup_fmap, Hd. }
  unfold aget in *. destruct (i <? 0); [done|].
  change (map dynCounts (blockDynTab t2)) with (dynCounts <$> blockDynTab t2) in H.
  rewrite list_lookup_fmap in H.
  destruct (blockDynTab t2 !! Z.to_nat i) as [d'|]; [|done].
  exists d'. split; [done|].
  change (Some (dynCounts d') = Some (dynCounts d)) in H. congruence.
Qed.

Lemma resetCursors_cursors s : same_but_cursors s (resetCursors s).
Proof. repeat split; try done. cbn. rewrite map_map. by apply map_ext. Qed.

Lemma resetCursors_same s t : same_but_cursors s t -> resetCursors t = resetCursors s.
Proof.
  intros (Ht & Hv & Hd & Hi). destruct s as [pt v d i], t as [pt' v' d' i'].
  cbn in *. subst. unfold resetCursors, set_blockDynTab. cbn. f_equal.
  set (g := fun c : Z * Z * Z => mkBlockDyn c.1.1 c.1.2 c.2 c.1.2).
  transitivity (map g (map dynCounts d')); [|rewrite <- Hd];
    rewrite map_map; apply map_ext; by intros [].
Qed.

Lemma resetCursors_idem s : resetCursors (resetCursors s) = resetCursors s.
Proof. apply resetCursors_same, resetCursors_cursors. Qed.

(** [generateOutputString] in two steps: the instance of the main block,
    then the instances are written from the cursors. *)
Lemma generateOutputString_steps fuel (t : MiniTemplator) out t1 :
  generateOutputString fuel t = (Ok out, t1) ->
  exists d0 s0 arr,
    aget (blockDynTab t) 0 = Some d0
    /\ (if instances d0 =? 0 then addBlockByNo 0 t = (Ok tt, s0) else s0 = t)
    /\ writeBlockInstances fuel [] 0 (-1) (resetCursors s0) = (Ok arr, t1)
    /\ out = joinEmpty arr.
Proof.
  unfold generateOutputString, generateOutputArray, bind, get, modify, orTypeError.
  destruct (aget (blockDynTab t) 0) as [d0|]; [|done].
  unfold ret. cbv beta iota.
  destruct (instances d0 =? 0) eqn:Hz.
  - destruct (addBlockByNo 0 t) as [[[]|e] s0]; [|done].
    fold (resetCursors s0).
    destruct (writeBlockInstances fuel [] 0 (-1) (resetCursors s0)) as [[arr|e] s2] eqn:Hw;
      [|done].
    intros [= <- <-]. exists d0, s0, arr. by rewrite Hz.
  - fold (resetCursors t).
    destruct (writeBlockInstances fuel [] 0 (-1) (resetCursors t)) as [[arr|e] s2] eqn:Hw;
      [|done].
    intros [= <- <-]. exists d0, t, arr. by rewrite Hz.
Qed.

Lemma generateOutputString_added fuel (t : MiniTemplator) d0 :
  aget (blockDynTab t) 0 = Some d0 -> instances d0 <> 0 ->
  generateOutputString fuel t
  = (let! arr := writeBlockInstances fuel [] 0 (-1) in ret (joinEmpty arr)) (resetCursors t).
Proof.
  intros Hd0 Hnz.
  unfold generateOutputString, generateOutputArray, bind, get, modify, orTypeError.
  rewrite Hd0. unfold ret. cbv beta iota.
  by destruct (Z.eqb_spec (instances d0) 0).
Qed.

(** X9: when [generateOutputString] has returned, a second call right
    after it returns the same output and leaves the session as the first
    call left it. *)
Theorem generateOutputString_repeatable fuel (t t1 : MiniTemplator) out :
  generateOutputString fuel t = (Ok out, t1) ->
  generateOutputString fuel t1 = (Ok out, t1).
Proof.
  intros (d0 & s0 & arr & Hd0 & Hadd & Hw & ->)%generateOutputString_steps.
  assert (Hs0 : exists d, aget (blockDynTab s0) 0 = Some d /\ instances d <> 0).
  { destruct (Z.eqb_spec (instances d0) 0) as [Hz|Hnz].
    - apply addBlockByNo_counts in Hadd as (d & Hd & d' & Hd' & Hn).
      exists d'. split; [done|]. rewrite Hd0 in Hd. injection Hd as <-. lia.
    - subst s0. by exists d0. }
  destruct Hs0 as (d & Hd & Hnz).
  assert (Hc : same_but_cursors (resetCursors s0) t1).
  { destruct (writers_cursors fuel) as (Hwc & _ & _).
    specialize (Hwc [] 0 (-1) (resetCursors s0)). unfold mspec in Hwc.
    by rewrite Hw in Hwc. }
  assert (Hc' : same_but_cursors s0 t1).
  { eapply same_but_cursors_trans; [apply resetCursors_cursors|done]. }
  destruct (same_but_cursors_aget _ _ _ _ Hc' Hd) as (d1 & Hd1 & Hcnt).
  assert (Hnz1 : instances d1 <> 0).
  { unfold dynCounts in Hcnt. injection Hcnt as -> _ _. done. }
  rewrite (generateOutputString_added fuel t1 d1 Hd1 Hnz1).
  rewrite (resetCursors_same _ _ Hc), resetCursors_idem.
  unfold bind, ret. by rewrite Hw.
Qed.

Lemma generateOutputString_repeatable_witness :
  let t1 := snd (generateOutputString 5 (newMiniTemplator (parsedExample "Hello" []))) in
  generateOutputString 5 t1 = (Ok "Hello"%string, t1).
Proof.
  intros t1.
  apply (generateOutputString_repeatable 5 (newMiniTemplator (parsedExample "Hello" []))).
  vm_compute. reflexivity.
Defined.

(** ** The cursors are not observable *)

Lemma map_aset {A B} (g : A -> B) (l : list A) i y :
  map g (aset l i y) = aset (map g l) i (g y).
Proof.
  unfold aset. destruct (i <? 0); [done|].
  change (g <$> <[Z.to_nat i:=y]> l = <[Z.to_nat i:=g y]> (g <$> l)).
  apply list_fmap_insert.
Qed.

Lemma aget_map {A B} (g : A -> B) (l : list A) i :
  aget (map g l) i = g <$> aget l i.
Proof.
  unfold aget. destruct (i <? 0); [done|].
  change (map g l) with (g <$> l). apply list_lookup_fmap.
Qed.

Lemma afterAddBlockByNo_cursors (t t' : MiniTemplator) b btr d d' :
  same_but_cursors t t' ->
  aget (blockDynTab t) b = Some d -> aget (blockDynTab t') b = Some d' ->
  same_but_cursors (afterAddBlockByNo t b btr d) (afterAddBlockByNo t' b btr d').
Proof.
  intros Hc Hd Hd'.
  destruct (same_but_cursors_aget _ _ _ _ Hc Hd) as (d2 & Hd2 & Hcnt).
  rewrite Hd' in Hd2. injection Hd2 as <-.
  destruct Hc as (Ht & Hv & Hm & Hi).
  unfold dynCounts in Hcnt. injection Hcnt as Hc1 Hc2 Hc3.
  unfold afterAddBlockByNo. rewrite <- Hi, <- Hv, Hc1, Hc2, Hc3.
  set (x := mkBlockDyn _ _ _ (currBlockInstNo d)).
  set (x' := mkBlockDyn _ _ _ (currBlockInstNo d')).
  assert (Hx : dynCounts x' = dynCounts x) by done.
  assert (Hm' : map dynCounts (aset (blockDynTab t) b x)
                = map dynCounts (aset (blockDynTab t') b x')).
  { by rewrite !map_aset, Hm, Hx. }
  assert (Hp : forall p,
    match aget (aset (blockDynTab t) b x) p with
    | Some pbdtr => instances pbdtr | None => 0 end
    = match aget (aset (blockDynTab t') b x') p with
      | Some pbdtr => instances pbdtr | None => 0 end).
  { intros p.
    assert (H : aget (map dynCounts (aset (blockDynTab t) b x)) p
                = aget (map dynCounts (aset (blockDynTab t') b x')) p) by (by rewrite Hm').
    rewrite !aget_map in H.
    destruct (aget (aset (blockDynTab t) b x) p) as [y|],
             (aget (aset (blockDynTab t') b x') p) as [y'|]; try done.
    cbn in H. by injection H. }
  repeat split; cbn [template varValuesTab blockDynTab blockInstTab]; try done.
  by rewrite Hp.
Qed.

Lemma addBlocksByNo_cursors fuel (t t' : MiniTemplator) blockNo chain :
  same_but_cursors t t' -> session_inv t -> parents_valid (template t) ->
  linked (nextWithSameNameOf (pt_blockTab (template t))) blockNo chain ->
  fst (addBlocksByNo fuel blockNo t) = fst (addBlocksByNo fuel blockNo t')
  /\ same_but_cursors (snd (addBlocksByNo fuel blockNo t))
                      (snd (addBlocksByNo fuel blockNo t')).
Proof.
  revert t t' blockNo chain.
  induction fuel as [|fuel IH]; intros t t' blockNo chain Hc Hinv Hpar Hl; simpl.
  - by destruct (blockNo =? -1).
  - destruct (Z.eqb_spec blockNo (-1)) as [|Hne]; [done|].
    inversion Hl as [|i nx rest Hi Hnx Hrest]; subst; [done|].
    unfold nextWithSameNameOf in Hnx.
    destruct (aget (pt_blockTab (template t)) blockNo) as [btr|] eqn:Hb; [|done].
    injection Hnx as <-.
    pose proof Hc as (Ht & _).
    destruct (addBlockByNo_session t blockNo btr Hinv Hpar Hb) as (d & Hd & Hrun & Hinv1).
    destruct (addBlockByNo_session t' blockNo btr) as (d' & Hd' & Hrun' & Hinv1');
      [by eapply session_inv_cursors|by rewrite <- Ht|by rewrite <- Ht|].
    rewrite !(bind_ok _ _ _ _ _ Hrun), !(bind_ok _ _ _ _ _ Hrun').
    unfold bind, get, orTypeError. rewrite !afterAddBlockByNo_template, <- Ht, Hb.
    unfold ret. cbv beta iota.
    apply (IH _ _ _ rest).
    + by apply afterAddBlockByNo_cursors.
    + done.
    + by rewrite afterAddBlockByNo_template.
    + by rewrite afterAddBlockByNo_template.
Qed.

Lemma generateOutputString_cursors fuel (t t' : MiniTemplator) b0 :
  same_but_cursors t t' -> session_inv t -> parents_valid (template t) ->
  aget (pt_blockTab (template t)) 0 = Some b0 ->
  generateOutputString fuel t = generateOutputString fuel t'.
Proof.
  intros Hc Hinv Hpar Hb0. pose proof Hc as (Ht & _).
  assert (Hd0 : is_Some (aget (blockDynTab t) 0)).
  { apply aget_is_Some. rewrite (si_len _ Hinv). by apply aget_Some in Hb0. }
  destruct Hd0 as [d0 Hd0].
  destruct (same_but_cursors_aget _ _ _ _ Hc Hd0) as (d0' & Hd0' & Hcnt).
  assert (Hi : instances d0' = instances d0).
  { unfold dynCounts in Hcnt. by injection Hcnt. }
  destruct (Z.eq_dec (instances d0) 0) as [Hz|Hnz].
  - destruct (addBlockByNo_session t 0 b0 Hinv Hpar Hb0) as (d & Hd & Hrun & _).
    destruct (addBlockByNo_session t' 0 b0) as (d' & Hd' & Hrun' & _);
      [by eapply session_inv_cursors|by rewrite <- Ht|by rewrite <- Ht|].
    unfold generateOutputString, generateOutputArray, bind, get, modify, orTypeError.
    rewrite Hd0, Hd0'. unfold ret. cbv beta iota. rewrite Hi, Hz.
    change (0 =? 0) with true. cbv iota. rewrite Hrun, Hrun'.
    fold (resetCursors (afterAddBlockByNo t 0 b0 d)).
    fold (resetCursors (afterAddBlockByNo t' 0 b0 d')).
    by rewrite (resetCursors_same (afterAddBlockByNo t 0 b0 d)
                  (afterAddBlockByNo t' 0 b0 d'))
      by (by apply afterAddBlockByNo_cursors).
  - rewrite (generateOutputString_added fuel t d0 Hd0 Hnz).
    rewrite (generateOutputString_added fuel t' d0' Hd0') by congruence.
    by rewrite (resetCursors_same t t').
Qed.

Lemma setVariable_cursors name v (t t' : MiniTemplator) :
  same_but_cursors t t' ->
  (fst (setVariable name v t) = fst (setVariable name v t')
   /\ same_but_cursors (snd (setVariable name v t)) (snd (setVariable name v t')))
  /\ (fst (setVariableOpt name v t) = fst (setVariableOpt name v t')
   /\ same_but_cursors (snd (setVariableOpt name v t)) (snd (setVariableOpt name v t'))).
Proof.
  intros (Ht & Hv & Hm & Hi).
  unfold setVariable, setVariableOpt, storeVariable, bind, get, modify, throw, ret.
  cbv beta iota. rewrite <- Ht.
  destruct (_ =? -1); [by repeat split|].
  cbv beta iota. rewrite <- Hv.
  destruct (jsArraySet _ _ _); by repeat split.
Qed.

Lemma addBlock_unfold fuel name (t : MiniTemplator) :
  addBlock fuel name t
  = (if lookupBlockName (template t) name =? -1
     then throw (newBlockNotDefinedError name)
     else addBlocksByNo fuel (lookupBlockName (template t) name)) t.
Proof. reflexivity. Qed.

Lemma addBlockOpt_unfold fuel name (t : MiniTemplator) :
  addBlockOpt fuel name t = addBlocksByNo fuel (lookupBlockName (template t) name) t.
Proof. reflexivity. Qed.

Lemma runCall_cursors fuel c (t t' : MiniTemplator) :
  same_but_cursors t t' -> session_inv t -> parents_valid (template t) ->
  template_ok (template t) ->
  fst (runCall fuel c t) = fst (runCall fuel c t')
  /\ same_but_cursors (snd (runCall fuel c t)) (snd (runCall fuel c t')).
Proof.
  intros Hc Hinv Hpar Hok. pose proof Hc as (Ht & Hv & Hm & Hi).
  assert (Hbind : forall (m : Eng unit) (s s' : MiniTemplator),
            fst (m s) = fst (m s') /\ same_but_cursors (snd (m s)) (snd (m s')) ->
            fst ((do! m in ret (@None string)) s) = fst ((do! m in ret (@None string)) s')
            /\ same_but_cursors (snd ((do! m in ret (@None string)) s))
                                (snd ((do! m in ret (@None string)) s'))).
  { intros m s s'. unfold bind, ret.
    destruct (m s) as [[[]|e] s1], (m s') as [[[]|e'] s1']; cbn; intros [H1 H2];
      try done. by injection H1 as ->. }
  destruct c as [name v|name v|name|name| |]; unfold runCall.
  - apply Hbind, setVariable_cursors, Hc.
  - apply Hbind, setVariable_cursors, Hc.
  - apply Hbind. rewrite !addBlock_unfold, <- Ht.
    destruct (_ =? -1); [by split|].
    eapply addBlocksByNo_cursors; try done. apply Hok.
  - apply Hbind. rewrite !addBlockOpt_unfold, <- Ht.
    eapply addBlocksByNo_cursors; try done. apply Hok.
  - apply Hbind. unfold reset, modify. cbn. split; [done|].
    repeat split; cbn; try done; [by rewrite Hv|].
    rewrite <- Ht.
    assert (Hlen : List.length (blockDynTab t') = List.length (blockDynTab t)).
    { by rewrite <- (length_map dynCounts), <- Hm, length_map. }
    unfold resetBlockDynTab. rewrite !map_app, !map_map. f_equal.
    + apply map_ext. intros b.
      destruct (blockDynTab t !! b), (blockDynTab t' !! b); done.
    + pose proof (si_len _ Hinv) as Hl. unfold alen in Hl.
      rewrite !drop_ge by lia. done.
  - destruct (root_block _ Hok) as (b0 & Hb0 & _).
    unfold bind. rewrite (generateOutputString_cursors fuel t t' b0 Hc Hinv Hpar Hb0).
    split; [done|]. apply same_but_cursors_refl.
Qed.

Lemma runCalls_cursors fuel calls (t t' : MiniTemplator) :
  same_but_cursors t t' -> session_inv t -> parents_valid (template t) ->
  template_ok (template t) ->
  fst (runCalls fuel calls t) = fst (runCalls fuel calls t').
Proof.
  revert t t'. induction calls as [|c rest IH]; intros t t' Hc Hinv Hpar Hok; [done|].
  destruct (runCall_cursors fuel c t t' Hc Hinv Hpar Hok) as [H1 H2].
  destruct (runCall_session fuel c t Hinv Hpar) as [Hinv1 Ht1]; [apply Hok|].
  specialize (IH _ _ H2 Hinv1). rewrite Ht1 in IH. specialize (IH Hpar Hok).
  simpl. destruct (runCall fuel c t) as [r s], (runCall fuel c t') as [r' s'].
  cbn in *. subst r'.
  destruct (runCalls fuel rest s) as [rs s2], (runCalls fuel rest s') as [rs' s2'].
  cbn in *. by subst.
Qed.

Lemma map_const_replicate {A B} (c : B) (l : list A) :
  map (fun _ => c) l = replicate (List.length l) c.
Proof. induction l as [|x l IH]; [done|]. simpl. by rewrite IH. Qed.

Lemma reset_cursors (t : MiniTemplator) :
  values_ok t -> alen (blockDynTab t) = alen (pt_blockTab (template t)) ->
  same_but_cursors (snd (reset t)) (newMiniTemplator (template t)).
Proof.
  intros Hv Hl. unfold values_ok, alen in *. unfold reset, modify.
  repeat split; cbn.
  - rewrite map_const_replicate. f_equal. lia.
  - unfold resetBlockDynTab. rewrite drop_ge by lia. rewrite app_nil_r, map_map.
    generalize (List.length (pt_blockTab (template t))) as n. intros n.
    transitivity (map (fun _ : nat => dynCounts (mkBlockDyn 0 (-1) (-1) (-1))) (seq 0 n)).
    + apply map_ext. intros b. by destruct (blockDynTab t !! b).
    + rewrite map_const_replicate, length_seq.
      change (map dynCounts ?l) with (dynCounts <$> l). by rewrite fmap_replicate.
Qed.

(** X10: [reset] brings back a new session.  On a template that [main]
    returned, with at most 32768 blocks: after [reset], in a session
    reached by any calls, every further sequence of calls returns and
    throws what it returns and throws in a new session of the template. *)
Theorem reset_as_new pParms evalJs fuel0 pt fuel calls fuel' calls' :
  main pParms evalJs fuel0 = Ok pt ->
  alen (pt_blockTab pt) <= 32768 ->
  let t := snd (runCalls fuel calls (newMiniTemplator pt)) in
  fst (runCalls fuel' calls' (snd (reset t)))
  = fst (runCalls fuel' calls' (newMiniTemplator pt)).
Proof.
  intros Hmain Hlen t.
  destruct (reachable_session _ _ _ _ fuel calls Hmain Hlen) as ([Hinv Htpl] & Hok & Hpar).
  destruct (reachable_values _ _ _ _ fuel calls Hmain) as [Hval _].
  fold t in Hinv, Htpl, Hval. cbn in Htpl.
  assert (Hc : same_but_cursors (snd (reset t)) (newMiniTemplator pt)).
  { rewrite <- Htpl. apply reset_cursors; [done|apply Hinv]. }
  apply runCalls_cursors; try done.
  - by apply session_inv_reset.
  - unfold reset, modify. cbn. by rewrite Htpl.
  - unfold reset, modify. cbn. by rewrite Htpl.
Qed.

Lemma reset_as_new_witness :
  fst (runCalls 9 [GenerateOutput]
         (snd (reset (snd (runCalls 9 [AddBlock "row"]
                             (newMiniTemplator (parsedExample rowText [])))))))
  = [Ok (Some "AB"%string)].
Proof.
  rewrite (reset_as_new (parmsOf rowText []) evalIdentifier 1000
             (parsedExample rowText []) 9 [AddBlock "row"] 9 [GenerateOutput]).
  - vm_compute. reflexivity.
  - vm_compute. reflexivity.
  - vm_compute. discriminate.
Defined.

Lemma generateOutputString_adding fuel (t s0 : MiniTemplator) d0 :
  aget (blockDynTab t) 0 = Some d0 -> instances d0 = 0 ->
  addBlockByNo 0 t = (Ok tt, s0) ->
  generateOutputString fuel t
  = (let! arr := writeBlockInstances fuel [] 0 (-1) in ret (joinEmpty arr)) (resetCursors s0).
Proof.
  intros Hd0 Hz Hrun.
  unfold generateOutputString, generateOutputArray, bind, get, modify, orTypeError.
  rewrite Hd0. unfold ret. cbv beta iota. rewrite Hz.
  change (0 =? 0) with true. cbv iota. by rewrite Hrun.
Qed.

Lemma written_cursors fuel (s : MiniTemplator) :
  same_but_cursors s
    (snd ((let! arr := writeBlockInstances fuel [] 0 (-1) in ret (joinEmpty arr))
            (resetCursors s))).
Proof.
  destruct (writers_cursors fuel) as (Hw & _ & _).
  specialize (Hw [] 0 (-1) (resetCursors s)). unfold mspec in Hw. unfold bind, ret.
  destruct (writeBlockInstances fuel [] 0 (-1) (resetCursors s)) as [[arr|e] s1];
    cbn [snd]; (eapply same_but_cursors_trans; [apply resetCursors_cursors|done]).
Qed.

(** X11: the counters of the blocks describe the instances.  On a template
    that [main] returned, with at most 32768 blocks, in every session
    reached by calls of the public interface (failed calls included): the
    dynamic record of a block holds the number of the instances of the
    block, its first and its last instance, and the chain of
    [nextBlockInstNo] from the first instance runs through the instances of
    the block in the order of their creation; the instance level of an
    instance is its position among the instances of its block. *)
Theorem instance_counters pParms evalJs fuel0 pt fuel calls :
  main pParms evalJs fuel0 = Ok pt ->
  alen (pt_blockTab pt) <= 32768 ->
  let t := snd (runCalls fuel calls (newMiniTemplator pt)) in
  alen (blockDynTab t) = alen (pt_blockTab pt)
  /\ (forall blockNo bdtr, aget (blockDynTab t) blockNo = Some bdtr ->
        let insts := instancesOf (blockInstTab t) blockNo in
        instances bdtr = alen insts
        /\ firstBlockInstNo bdtr = hd (-1) insts
        /\ lastBlockInstNo bdtr = List.last insts (-1)
        /\ linked (nextBlockInstNoOf (blockInstTab t)) (firstBlockInstNo bdtr) insts)
  /\ (forall i r, aget (blockInstTab t) i = Some r ->
        instancesOf (blockInstTab t) (bi_blockNo r) !! Z.to_nat (instanceLevel r) = Some i
        /\ 0 <= instanceLevel r).
Proof.
  intros Hmain Hlen t.
  destruct (reachable_session _ _ _ _ fuel calls Hmain Hlen) as ([Hinv Htpl] & _).
  fold t in Hinv, Htpl. cbn in Htpl. destruct Hinv as [H1 H2 H3].
  split; [by rewrite H1, Htpl|]. split; [|done].
  intros blockNo bdtr Hb. by destruct (H2 _ _ Hb).
Qed.

Lemma instance_counters_witness :
  let t := snd (runCalls 9 [AddBlock "row"; AddBlock "row"]
                  (newMiniTemplator (parsedExample rowText []))) in
  alen (blockDynTab t) = 2
  /\ instancesOf (blockInstTab t) 1 = [0; 1].
Proof.
  intros t.
  destruct (instance_counters (parmsOf rowText []) evalIdentifier 1000
              (parsedExample rowText []) 9 [AddBlock "row"; AddBlock "row"])
    as (H1 & _ & _).
  - vm_compute. reflexivity.
  - vm_compute. discriminate.
  - split; [exact H1|]. vm_compute. reflexivity.
Defined.

(** X12: output generation leaves the data of the session alone.  On a
    template that [main] returned, with at most 32768 blocks, in a session
    reached by any calls: whether [generateOutputString] returns or throws,
    it leaves the variable values as they were, and the instances as they
    were but for the instance of the main block, which it appends when the
    main block has no instance. *)
Theorem generateOutputString_frame pParms evalJs fuel0 pt fuel calls fuel' b0 :
  main pParms evalJs fuel0 = Ok pt ->
  alen (pt_blockTab pt) <= 32768 ->
  aget (pt_blockTab pt) 0 = Some b0 ->
  let t := snd (runCalls fuel calls (newMiniTemplator pt)) in
  let t' := snd (generateOutputString fuel' t) in
  template t' = pt
  /\ varValuesTab t' = varValuesTab t
  /\ blockInstTab t'
     = blockInstTab t
       ++ (if decide (instancesOf (blockInstTab t) 0 = [])
           then [mkBlockInst 0 0 (-1) (-1)
                   (snapshotOf (varValuesTab t) (bt_blockVarNoToVarNoMap b0))]
           else []).
Proof.
  intros Hmain Hlen Hb0 t t'.
  destruct (reachable_session _ _ _ _ fuel calls Hmain Hlen) as ([Hinv Htpl] & Hok & Hpar).
  fold t in Hinv, Htpl. cbn in Htpl.
  destruct (root_block _ Hok) as (b0' & Hb0' & Hparent & _).
  rewrite Hb0 in Hb0'. injection Hb0' as <-.
  assert (Hd0 : is_Some (aget (blockDynTab t) 0)).
  { apply aget_is_Some. rewrite (si_len _ Hinv), Htpl. by apply aget_Some in Hb0. }
  destruct Hd0 as [d0 Hd0]. pose proof (si_dyn _ Hinv _ _ Hd0) as [Hcnt Hfirst Hlast _].
  destruct (Z.eq_dec (instances d0) 0) as [Hz|Hnz].
  - assert (Hnil : instancesOf (blockInstTab t) 0 = []).
    { rewrite Hz in Hcnt. destruct (instancesOf (blockInstTab t) 0); [done|].
      unfold alen in Hcnt. cbn in Hcnt. lia. }
    rewrite Hnil in Hlast. cbn in Hlast.
    destruct (addBlockByNo_session t 0 b0 Hinv) as (d & Hd & Hrun & _);
      [by rewrite Htpl|by rewrite Htpl|].
    rewrite Hd0 in Hd. injection Hd as <-.
    subst t'. rewrite (generateOutputString_adding fuel' t _ d0 Hd0 Hz Hrun).
    destruct (written_cursors fuel' (afterAddBlockByNo t 0 b0 d0)) as (H1 & H2 & _ & H4).
    rewrite <- H1, <- H2, <- H4, decide_True by done.
    cbn [afterAddBlockByNo template varValuesTab blockInstTab].
    split; [done|]. split; [done|].
    unfold linkLast. rewrite Hlast, Hparent, Hz. reflexivity.
  - assert (Hne : instancesOf (blockInstTab t) 0 <> []).
    { intros Hnil. rewrite Hnil in Hcnt. done. }
    subst t'. rewrite (generateOutputString_added fuel' t d0 Hd0 Hnz).
    destruct (written_cursors fuel' t) as (H1 & H2 & _ & H4).
    rewrite <- H1, <- H2, <- H4, decide_False by done.
    by rewrite app_nil_r.
Qed.

Lemma generateOutputString_frame_witness :
  let t := newMiniTemplator (parsedExample rowText []) in
  blockInstTab (snd (generateOutputString 9 t)) = [mkBlockInst 0 0 (-1) (-1) None].
Proof.
  intros t.
  destruct (generateOutputString_frame (parmsOf rowText []) evalIdentifier 1000
              (parsedExample rowText []) 9 [] 9 rowBlock0) as (_ & _ & H).
  - vm_compute. reflexivity.
  - vm_compute. discriminate.
  - vm_compute. reflexivity.
  - exact H.
Defined.


(** * The template cache *)

(** ** The order of the strings *)

Lemma string_compare_trans (s1 s2 s3 : string) :
  String.compare s1 s2 <> Gt -> String.compare s2 s3 <> Gt ->
  String.compare s1 s3 <> Gt.
Proof.
  revert s2 s3. induction s1 as [|c1 s1 IH]; intros [|c2 s2] [|c3 s3]; simpl; try done.
  unfold Ascii.compare.
  destruct (N.compare_spec (N_of_ascii c1) (N_of_ascii c2)) as [E12|L12|G12];
    destruct (N.compare_spec (N_of_ascii c2) (N_of_ascii c3)) as [E23|L23|G23];
    destruct (N.compare_spec (N_of_ascii c1) (N_of_ascii c3)) as [E13|L13|G13];
    try done; try lia.
  apply IH.
Qed.

Lemma string_leb_trans (s1 s2 s3 : string) :
  String.leb s1 s2 = true -> String.leb s2 s3 = true -> String.leb s1 s3 = true.
Proof.
  unfold String.leb. intros H1 H2.
  pose proof (string_compare_trans s1 s2 s3) as H.
  destruct (String.compare s1 s2); try done;
    destruct (String.compare s2 s3); try done;
    destruct (String.compare s1 s3); try done; by exfalso; apply H.
Qed.

Lemma string_leb_false (s1 s2 : string) :
  String.leb s1 s2 = false -> String.leb s2 s1 = true.
Proof. intros H. destruct (String.leb_total s1 s2) as [H'|H']; congruence. Qed.

(** ** [sort()] *)

Lemma sortInsert_comm (x y : string) (l : list string) :
  sortInsert x (sortInsert y l) = sortInsert y (sortInsert x l).
Proof.
  induction l as [|z l IH]; simpl.
  - destruct (String.leb x y) eqn:Hxy, (String.leb y x) eqn:Hyx; try done.
    + by rewrite (String.leb_antisym x y).
    + apply string_leb_false in Hxy. congruence.
  - destruct (String.leb y z) eqn:Hyz, (String.leb x z) eqn:Hxz; simpl;
      rewrite ?Hyz, ?Hxz.
    + destruct (String.leb x y) eqn:Hxy, (String.leb y x) eqn:Hyx; try done.
      * by rewrite (String.leb_antisym x y).
      * apply string_leb_false in Hxy. congruence.
    + destruct (String.leb x y) eqn:Hxy; [|done].
      by rewrite (string_leb_trans x y z) in Hxz.
    + destruct (String.leb y x) eqn:Hyx; [|done].
      by rewrite (string_leb_trans y x z) in Hyz.
    + by rewrite IH.
Qed.

Lemma jsSort_perm (l l' : list string) : l ≡ₚ l' -> jsSort l = jsSort l'.
Proof.
  unfold jsSort. induction 1 as [|x l l' _ IH|x y l|l1 l2 l3 _ IH1 _ IH2]; simpl.
  - done.
  - by rewrite IH.
  - apply sortInsert_comm.
  - congruence.
Qed.

Lemma elem_of_sortInsert (x y : string) (l : list string) :
  x ∈ sortInsert y l <-> x = y \/ x ∈ l.
Proof.
  induction l as [|z l IH]; simpl.
  - rewrite list_elem_of_singleton. split; [by left|].
    intros [?|?%elem_of_nil]; done.
  - destruct (String.leb y z).
    + by rewrite elem_of_cons.
    + rewrite !elem_of_cons, IH. tauto.
Qed.

Lemma elem_of_jsSort (x : string) (l : list string) : x ∈ jsSort l <-> x ∈ l.
Proof.
  unfold jsSort. induction l as [|z l IH]; simpl; [done|].
  rewrite elem_of_sortInsert, IH, elem_of_cons. tauto.
Qed.

(** ** [Map.get] *)

Lemma mapGet_Some k v (m : list (string * JsValue)) :
  NoDup (map fst m) -> (mapGet k m = Some v <-> (k, v) ∈ m).
Proof.
  induction m as [|[k' v'] m IH]; simpl; intros Hnd.
  - split; [done|]. by intros ?%elem_of_nil.
  - apply NoDup_cons in Hnd as [Hk' Hnd]. specialize (IH Hnd).
    destruct (String.eqb_spec k k') as [->|Hne].
    + split.
      * intros [= ->]. apply list_elem_of_here.
      * intros [Heq|Hin]%elem_of_cons; [by injection Heq as ->|].
        exfalso. apply Hk'. change (map fst m) with (fst <$> m).
        apply list_elem_of_fmap. by exists (k', v).
    + rewrite IH. split.
      * intros Hin. by apply list_elem_of_further.
      * intros [Heq|Hin]%elem_of_cons; [|done]. injection Heq as -> _. done.
Qed.

Lemma mapGet_perm k (m m' : list (string * JsValue)) :
  m ≡ₚ m' -> NoDup (map fst m) -> mapGet k m = mapGet k m'.
Proof.
  intros Hp Hnd.
  assert (Hnd' : NoDup (map fst m')).
  { change (NoDup (fst <$> m')). rewrite <- Hp. exact Hnd. }
  destruct (mapGet k m) as [v|] eqn:H1, (mapGet k m') as [v'|] eqn:H2; try done.
  - apply (mapGet_Some _ _ _ Hnd) in H1. rewrite Hp in H1.
    apply (mapGet_Some _ _ _ Hnd') in H1. congruence.
  - apply (mapGet_Some _ _ _ Hnd) in H1. rewrite Hp in H1.
    apply (mapGet_Some _ _ _ Hnd') in H1. congruence.
  - apply (mapGet_Some _ _ _ Hnd') in H2. rewrite <- Hp in H2.
    apply (mapGet_Some _ _ _ Hnd) in H2. congruence.
Qed.

Lemma cacheKeyParts_ext (cv cv' : list (string * JsValue)) names :
  (forall k, k ∈ names -> mapGet k cv = mapGet k cv') ->
  cacheKeyParts cv names = cacheKeyParts cv' names.
Proof.
  induction names as [|n names IH]; intros H; simpl; [done|].
  unfold cacheKeyPart. rewrite (H n) by apply list_elem_of_here.
  rewrite IH; [done|]. intros k Hk. apply H. by apply list_elem_of_further.
Qed.

(** X13: the cache key does not depend on the order in which the condition
    variables were put into the map. *)
Theorem cacheKey_order_independent templateName (cv cv' : list (string * JsValue)) :
  cv ≡ₚ cv' -> NoDup (map fst cv) ->
  cacheKeyOf templateName (Some cv) = cacheKeyOf templateName (Some cv').
Proof.
  intros Hp Hnd. unfold cacheKeyOf, genConditionVarsCacheKey. cbv zeta.
  rewrite (jsSort_perm (map fst cv) (map fst cv'))
    by (change (fst <$> cv ≡ₚ fst <$> cv'); by rewrite Hp).
  rewrite (cacheKeyParts_ext cv cv'); [done|].
  intros k _. by apply mapGet_perm.
Qed.

Lemma cacheKey_order_independent_witness :
  cacheKeyOf "t" (Some [("a"%string, JsNumber 1); ("b"%string, JsString "x")])
  = cacheKeyOf "t" (Some [("b"%string, JsString "x"); ("a"%string, JsNumber 1)]).
Proof.
  apply (cacheKey_order_independent "t").
  - apply perm_swap.
  - apply (bool_decide_unpack _). vm_compute. reflexivity.
Defined.

Lemma cacheKeyParts_insert (cv cv' : list (string * JsValue)) n names :
  n ∉ names -> cacheKeyPart cv' n = Ok [] ->
  (forall k, k ∈ names -> mapGet k cv' = mapGet k cv) ->
  cacheKeyParts cv' (sortInsert n names) = cacheKeyParts cv names.
Proof.
  induction names as [|z names IH]; intros Hn Hpart Hext; simpl.
  - by rewrite Hpart.
  - assert (Hz : cacheKeyPart cv' z = cacheKeyPart cv z).
    { unfold cacheKeyPart. by rewrite Hext by apply list_elem_of_here. }
    assert (Hrest : cacheKeyParts cv' names = cacheKeyParts cv names).
    { apply cacheKeyParts_ext. intros k Hk. apply Hext. by apply list_elem_of_further. }
    destruct (String.leb n z); simpl.
    + rewrite Hpart, Hz, Hrest. simpl.
      destruct (cacheKeyPart cv z); [|done]. by destruct (cacheKeyParts cv names).
    + rewrite Hz, IH; [done| |done|].
      * intros Hin. apply Hn. by apply list_elem_of_further.
      * intros k Hk. apply Hext. by apply list_elem_of_further.
Qed.

(** X14: a condition variable with the value [false], [undefined], [null]
    or the empty string does not change the cache key. *)
Theorem cacheKey_ignores_falsy templateName (cv : list (string * JsValue)) n v :
  n ∉ map fst cv ->
  v ∈ [JsBool false; JsUndefined; JsNull; JsString ""] ->
  cacheKeyOf templateName (Some ((n, v) :: cv)) = cacheKeyOf templateName (Some cv).
Proof.
  intros Hn Hv. unfold cacheKeyOf, genConditionVarsCacheKey. cbv zeta.
  change (jsSort (map fst ((n, v) :: cv))) with (sortInsert n (jsSort (map fst cv))).
  rewrite (cacheKeyParts_insert cv); [done|by rewrite elem_of_jsSort| |].
  - unfold cacheKeyPart. simpl. rewrite String.eqb_refl. simpl.
    repeat (apply elem_of_cons in Hv as [->|Hv]; [done|]). by apply elem_of_nil in Hv.
  - intros k Hk. simpl. destruct (String.eqb_spec k n) as [->|]; [|done].
    exfalso. apply Hn. by apply elem_of_jsSort.
Qed.

Lemma cacheKey_ignores_falsy_witness :
  cacheKeyOf "t" (Some [("x"%string, JsNull); ("a"%string, JsNumber 1)])
  = cacheKeyOf "t" (Some [("a"%string, JsNumber 1)]).
Proof.
  apply (cacheKey_ignores_falsy "t").
  - apply (bool_decide_unpack _). vm_compute. reflexivity.
  - do 2 apply list_elem_of_further. apply list_elem_of_here.
Defined.

(** ** [get] *)

Lemma cacheKeyPart_throws (cv : list (string * JsValue)) k e :
  cacheKeyPart cv k = Throw e -> e = unsupportedValue.
Proof.
  unfold cacheKeyPart.
  destruct (default JsUndefined (mapGet k cv)) as [| |[]|s|n|r]; try done.
  - by destruct s as [|]. 
  - by intros [= <-].
Qed.

Lemma cacheKeyParts_throws (cv : list (string * JsValue)) names n :
  n ∈ names -> cacheKeyPart cv n = Throw unsupportedValue ->
  cacheKeyParts cv names = Throw unsupportedValue.
Proof.
  induction names as [|z names IH]; intros Hin Hn; [by apply elem_of_nil in Hin|].
  simpl. destruct (cacheKeyPart cv z) as [part|e] eqn:Hz.
  - apply elem_of_cons in Hin as [->|Hin]; [congruence|]. by rewrite IH.
  - by rewrite (cacheKeyPart_throws _ _ _ Hz).
Qed.

Section CacheGet.
Variable cParms : MiniTemplatorCacheParms.

(** X15: a template is read and parsed once.  When [get] has returned a
    session for a template name and a set of condition variables, every
    later [get] with this name and these variables returns the same new
    session and leaves the cache as it is, whatever the template files
    then contain; the cache holds the template of the session under the
    key of the call. *)
Theorem cacheGet_cached read1 read2 evalJs1 evalJs2 fuel1 fuel2
    templateName conditionVars cache (t : MiniTemplator) cache' :
  cacheGet cParms read1 evalJs1 fuel1 templateName conditionVars cache = (Ok t, cache') ->
  cacheGet cParms read2 evalJs2 fuel2 templateName conditionVars cache' = (Ok t, cache')
  /\ t = newMiniTemplator (template t)
  /\ exists cacheKey, cacheKeyOf templateName conditionVars = Ok cacheKey
                      /\ cache' !! cacheKey = Some (template t).
Proof.
  unfold cacheGet.
  destruct (cacheKeyOf templateName conditionVars) as [k|e]; [|done].
  unfold bind, get. destruct (cache !! k) as [pt|] eqn:Hk.
  - intros [= <- <-]. rewrite Hk. split; [done|]. split; [done|]. by exists k.
  - destruct (main _ evalJs1 fuel1) as [pt|e]; [|done].
    unfold modify, ret. intros [= <- <-]. rewrite lookup_insert_eq.
    split; [done|]. split; [done|]. exists k. split; [done|]. apply lookup_insert_eq.
Qed.

(** X16: when a condition variable has a value that is neither a string,
    a number, a boolean, [undefined] nor [null], [get] throws the error of
    [encodeConditionVarValue]; it reads no file and leaves the cache as it
    is. *)
Theorem cacheGet_unsupported read evalJs fuel templateName
    (cv : list (string * JsValue)) cache n r :
  NoDup (map fst cv) -> (n, JsObject r) ∈ cv ->
  cacheGet cParms read evalJs fuel templateName (Some cv) cache
  = (Throw unsupportedValue, cache).
Proof.
  intros Hnd Hin. unfold cacheGet, cacheKeyOf, genConditionVarsCacheKey. cbv zeta.
  rewrite (cacheKeyParts_throws cv _ n); [done| |].
  - apply elem_of_jsSort. change (n ∈ fst <$> cv). apply list_elem_of_fmap.
    by exists (n, JsObject r).
  - unfold cacheKeyPart. apply (mapGet_Some _ _ _ Hnd) in Hin. by rewrite Hin.
Qed.

(** X17: when every template that the cache holds satisfies the invariant
    of the templates that [main] returns, it does so after [get], and the
    session that [get] returns is a new session of such a template; a
    [get] that throws leaves the cache as it is. *)
Theorem cacheGet_templates read evalJs fuel templateName conditionVars cache :
  map_Forall (fun _ pt => template_ok pt) cache ->
  mspec (cacheGet cParms read evalJs fuel templateName conditionVars) cache
    (fun t cache' => map_Forall (fun _ pt => template_ok pt) cache'
                     /\ template_ok (template t)
                     /\ t = newMiniTemplator (template t))
    (fun _ cache' => cache' = cache).
Proof.
  intros Hall. unfold mspec, cacheGet.
  destruct (cacheKeyOf templateName conditionVars) as [k|e]; [|done].
  unfold bind, get. destruct (cache !! k) as [pt|] eqn:Hk.
  - split; [done|]. split; [|done]. by apply (Hall k).
  - destruct (main _ evalJs fuel) as [pt|e] eqn:Hmain; [|done].
    apply main_template_ok in Hmain. unfold modify, ret.
    split; [|done]. by apply map_Forall_insert_2.
Qed.
End CacheGet.

Lemma cacheGet_cached_witness :
  let r := cacheGet exampleCacheParms exampleFiles evalIdentifier 100 "t.html"
             (Some condVarsA) ∅ in
  cacheGet exampleCacheParms (fun _ _ => None) evalIdentifier 0 "t.html"
    (Some condVarsA) (snd r) = r.
Proof.
  intros r.
  destruct (cacheGet_cached exampleCacheParms exampleFiles (fun _ _ => None)
              evalIdentifier evalIdentifier 100 0 "t.html" (Some condVarsA) ∅
              (newMiniTemplator (parsedExample twoConditionsText condVarsA)) (snd r))
    as [H _].
  - vm_compute. reflexivity.
  - rewrite H. vm_compute. reflexivity.
Defined.

Lemma cacheGet_unsupported_witness :
  cacheGet exampleCacheParms exampleFiles evalIdentifier 100 "t.html"
    (Some [("a"%string, JsObject "o")]) ∅
  = (Throw unsupportedValue, ∅).
Proof.
  apply (cacheGet_unsupported exampleCacheParms exampleFiles evalIdentifier 100
           "t.html" [("a"%string, JsObject "o")] ∅ "a" "o").
  - apply (bool_decide_unpack _). vm_compute. reflexivity.
  - apply list_elem_of_here.
Defined.

Lemma cacheGet_templates_witness :
  mspec (cacheGet exampleCacheParms exampleFiles evalIdentifier 100 "t.html"
           (Some condVarsA)) ∅
    (fun t cache' => map_Forall (fun _ pt => template_ok pt) cache'
                     /\ template_ok (template t)
                     /\ t = newMiniTemplator (template t))
    (fun _ cache' => cache' = ∅).
Proof.
  apply (cacheGet_templates exampleCacheParms exampleFiles evalIdentifier 100
           "t.html" (Some condVarsA) ∅).
  apply map_Forall_empty.
Defined.


(** * The parser: utility routines, the variable table, errors *)

Lemma scanWhile_spec cond (s : string) n p :
  let r := scanWhile cond s p n in
  p <= r <= Z.max p (Js.strlen s)
  /\ (forall q, p <= q < r -> cond s q = true)
  /\ ((Z.to_nat (Js.strlen s - p) <= n)%nat -> r < Js.strlen s -> cond s r = false).
Proof.
  revert p. induction n as [|n IH]; intros p; simpl.
  - split; [lia|]. split; [intros; lia|]. intros; lia.
  - destruct (Z.ltb_spec p (Js.strlen s)) as [Hlt|Hge]; simpl.
    + destruct (cond s p) eqn:Hc.
      * destruct (IH (p + 1)) as (H1 & H2 & H3). split; [lia|]. split.
        -- intros q Hq. destruct (Z.eq_dec q p) as [->|]; [done|]. apply H2. lia.
        -- intros Hn. apply H3. lia.
      * split; [lia|]. split; [intros; lia|]. done.
    + split; [lia|]. split; [intros; lia|]. intros; lia.
Qed.

(** X18: [skipBlanks] returns the first position at or after [p0] that
    holds no white space, or the length of the string when there is none
    (and [p0] itself when [p0] is beyond the string); [skipNonBlanks] the
    first position that holds white space, in the same way. *)
Theorem skip_spec (s : string) (p0 : Z) :
  (let p := skipBlanks s p0 in
   p0 <= p <= Z.max p0 (Js.strlen s)
   /\ (forall q, p0 <= q < p -> isWhiteSpaceAt s q = true)
   /\ (p < Js.strlen s -> isWhiteSpaceAt s p = false))
  /\ (let p := skipNonBlanks s p0 in
   p0 <= p <= Z.max p0 (Js.strlen s)
   /\ (forall q, p0 <= q < p -> isWhiteSpaceAt s q = false)
   /\ (p < Js.strlen s -> isWhiteSpaceAt s p = true)).
Proof.
  split; cbv zeta.
  - destruct (scanWhile_spec isWhiteSpaceAt s (Z.to_nat (Js.strlen s - p0)) p0)
      as (H1 & H2 & H3).
    split; [exact H1|]. split; [exact H2|]. by apply H3.
  - destruct (scanWhile_spec (fun s p => negb (isWhiteSpaceAt s p)) s
                (Z.to_nat (Js.strlen s - p0)) p0) as (H1 & H2 & H3).
    split; [exact H1|]. split.
    + intros q Hq. by apply negb_true_iff, H2.
    + intros Hp. by apply negb_false_iff, H3.
Qed.

(** X19: [isRestOfStringBlank] holds exactly when every position of the
    string from [p] on holds white space. *)
Theorem isRestOfStringBlank_spec (s : string) (p : Z) :
  isRestOfStringBlank s p = true
  <-> forall q, p <= q < Js.strlen s -> isWhiteSpaceAt s q = true.
Proof.
  unfold isRestOfStringBlank, skipBlanks.
  destruct (scanWhile_spec isWhiteSpaceAt s (Z.to_nat (Js.strlen s - p)) p)
    as (H1 & H2 & H3).
  rewrite Z.leb_le. split.
  - intros Hle q Hq. apply H2. lia.
  - intros Hall.
    destruct (Z.le_gt_cases (Js.strlen s)
                (scanWhile isWhiteSpaceAt s p (Z.to_nat (Js.strlen s - p)))) as [|Hlt];
      [done|].
    rewrite Hall in H3 by lia. by discriminate H3; [lia|lia].
Qed.

(** X20: in the template that [main] returns no variable is registered
    twice, and the name lookup is the inverse of the variable table: a name
    is looked up to the index at which the table holds it, and to [-1]
    when the table does not hold it. *)
Theorem variable_table pParms evalJs fuel pt :
  main pParms evalJs fuel = Ok pt ->
  NoDup (pt_varTab pt)
  /\ (forall name i, aget (pt_varTab pt) i = Some name <-> lookupVariableName pt name = i /\ i <> -1)
  /\ (forall name, lookupVariableName pt name = -1 <-> name ∉ pt_varTab pt)
  /\ Forall (fun r => is_Some (aget (pt_varTab pt) (vr_varNo r))) (pt_varRefTab pt).
Proof.
  intros [_ [Hl Ha Hi Hr] _]%main_template_ok.
  split; [|split; [|split]].
  - apply NoDup_alt. intros i j name Hi1 Hj1.
    assert (H1 : aget (pt_varTab pt) (Z.of_nat i) = Some name)
      by (rewrite aget_lookup by lia; by rewrite Nat2Z.id).
    assert (H2 : aget (pt_varTab pt) (Z.of_nat j) = Some name)
      by (rewrite aget_lookup by lia; by rewrite Nat2Z.id).
    apply Hi in H1, H2. lia.
  - intros name i. split.
    + intros Hg. split; [by apply Hi|]. apply aget_Some in Hg. lia.
    + intros [Hlk Hne]. by apply (Hl name).
  - intros name. split; [apply Ha|]. intros Hn.
    destruct (Z.eq_dec (lookupVariableName pt name) (-1)) as [|Hne]; [done|].
    exfalso. apply Hn. pose proof (Hl name _ eq_refl Hne) as Hg.
    unfold aget in Hg. destruct (_ <? 0); [done|]. by apply list_elem_of_lookup_2 in Hg.
  - rewrite Forall_map in Hr. eapply Forall_impl; [exact Hr|].
    intros r Hrange. by apply aget_is_Some.
Qed.

Lemma variable_table_witness :
  NoDup (pt_varTab (parsedExample dummyText dummyCondVars))
  /\ lookupVariableName (parsedExample dummyText dummyCondVars) "y" = 1.
Proof.
  destruct (variable_table (parmsOf dummyText dummyCondVars) evalIdentifier 1000
              (parsedExample dummyText dummyCondVars)) as (H1 & H2 & _).
  - vm_compute. reflexivity.
  - split; [exact H1|]. apply (H2 "y"%string 1). vm_compute. reflexivity.
Defined.

(** ** Constructs that are not terminated *)

Section Unterminated.
Variable pParms : ParserParms.
Variable evalJs : list (string * JsValue) -> string -> string + bool.
Variable text : string.
Hypothesis Hload : loadTemplateFile pParms (mainTemplateName pParms) = Some text.

Lemma main_throws_of e fuel :
  mspec (parseTemplate pParms evalJs fuel) (initialParser text)
    (fun _ _ => False) (fun e' _ => e' = e) ->
  main pParms evalJs fuel = Throw e.
Proof.
  unfold main, mspec. rewrite Hload.
  destruct (parseTemplate pParms evalJs fuel (initialParser text)) as [[[]|e'] p];
    [done|by intros ->].
Qed.

(** X21: when the short form of the commands is off and the first
    [<!--] of the template text has no [-->] after it, parsing fails with
    the syntax error [Invalid HTML comment] at the offset of this
    [<!--]. *)
Theorem unterminated_comment fuel :
  shortFormEnabled pParms = false ->
  Js.indexOf text cmdStartStr 0 <> -1 ->
  Js.indexOf text cmdEndStr (Js.indexOf text cmdStartStr 0 + Js.strlen cmdStartStr) = -1 ->
  (1 <= fuel)%nat ->
  main pParms evalJs fuel = Throw (invalidComment (Js.indexOf text cmdStartStr 0)).
Proof.
  intros Hshort Hp0 Hend Hfuel. destruct fuel as [|f]; [lia|].
  apply main_throws_of. unfold parseTemplate.
  eapply mspec_bind_ok; [vm_compute; reflexivity|].
  eapply mspec_bind.
  cbn [parseTemplateCommands parseTemplateCommandsFrom].
  apply mspec_bind, mspec_get. cbv zeta. cbn [templateText].
  rewrite Hshort. cbn [andb].
  destruct (Z.eqb_spec (Js.indexOf text cmdStartStr 0) (-1)) as [|_]; [done|].
  eapply mspec_bind_ok; [vm_compute; reflexivity|].
  cbn [templateText]. rewrite Hend. cbn [Z.eqb].
  apply mspec_throw. reflexivity.
Qed.

(** X22: when the template text holds no command (every [<!--] is
    followed by a [-->], the comment between them being no command line,
    and no [<$] when the short form is enabled) and its first [${] has no
    [}] after it, parsing fails with the syntax error [Invalid variable
    reference] at the offset of this [${]; when the text between this
    [${] and the next [}] is blank, it fails with the syntax error [Empty
    variable name] at this offset. *)
Theorem unterminated_reference fuel :
  plainComments fuel text 0 = true ->
  (shortFormEnabled pParms = true -> Js.indexOf text cmdStartStrShort 0 = -1) ->
  Js.indexOf text "${" 0 <> -1 ->
  (1 <= fuel)%nat ->
  let p0 := Js.indexOf text "${" 0 in
  let p := Js.indexOf text "}" p0 in
  (p = -1 -> main pParms evalJs fuel = Throw (invalidReference p0))
  /\ (p <> -1 -> Js.strlen (Js.trim (Js.substring text (p0 + 2) p)) = 0 ->
      main pParms evalJs fuel = Throw (emptyVariableName p0)).
Proof.
  intros Hcom Hshort Hvar Hfuel p0 p. destruct fuel as [|f]; [lia|].
  assert (Hgen : forall e,
    (p = -1 /\ e = invalidReference p0)
    \/ (p <> -1 /\ Js.strlen (Js.trim (Js.substring text (p0 + 2) p)) = 0
        /\ e = emptyVariableName p0) ->
    main pParms evalJs (S f) = Throw e).
  { intros e He. apply main_throws_of. unfold parseTemplate.
    eapply mspec_bind_ok; [vm_compute; reflexivity|].
    eapply mspec_bind_ok.
    { unfold parseTemplateCommands.
      apply parseTemplateCommandsFrom_comments; [exact Hcom|exact Hshort|done|done]. }
    eapply mspec_bind_ok; [vm_compute; reflexivity|].
    eapply mspec_bind_ok; [vm_compute; reflexivity|].
    apply mspec_bind, mspec_get. cbn [condLevel Z.eqb negb].
    apply mspec_bind.
    cbn [parseTemplateVariables parseTemplateVariablesFrom].
    apply mspec_bind, mspec_get. cbv zeta. cbn [templateText].
    fold p0. destruct (Z.eqb_spec p0 (-1)) as [|_]; [done|].
    fold p. destruct He as [[Hp ->]|(Hp & Hblank & ->)].
    - rewrite Hp. cbn [Z.eqb]. apply mspec_throw. reflexivity.
    - destruct (Z.eqb_spec p (-1)) as [|_]; [done|].
      replace (p + 1 - 1) with p by lia. rewrite Hblank. cbn [Z.eqb].
      apply mspec_throw. reflexivity. }
  split.
  - intros Hp. apply Hgen. by left.
  - intros Hp Hblank. apply Hgen. by right.
Qed.
End Unterminated.

Lemma unterminated_comment_witness :
  main (parmsOf "a<!-- $if x" []) evalIdentifier 5 = Throw (invalidComment 1).
Proof.
  apply (unterminated_comment (parmsOf "a<!-- $if x" []) evalIdentifier "a<!-- $if x");
    [reflexivity|reflexivity|vm_compute; discriminate|vm_compute; reflexivity|lia].
Defined.

Lemma unterminated_reference_witness :
  main (parmsOf "ab${x" []) evalIdentifier 5 = Throw (invalidReference 2)
  /\ main (parmsOf "ab${  }c" []) evalIdentifier 5 = Throw (emptyVariableName 2).
Proof.
  split.
  - apply (unterminated_reference (parmsOf "ab${x" []) evalIdentifier "ab${x");
      [reflexivity|vm_compute; reflexivity|discriminate|vm_compute; discriminate|lia
      |vm_compute; reflexivity].
  - apply (unterminated_reference (parmsOf "ab${  }c" []) evalIdentifier "ab${  }c");
      [reflexivity|vm_compute; reflexivity|discriminate|vm_compute; discriminate|lia
      |vm_compute; discriminate|vm_compute; reflexivity].
Defined.


(** * Templates that hold variables only *)

(** ** The scan of the references *)

Lemma scanRefs_sorted fuel (text : string) p l :
  scanRefs fuel text p = Some l -> refsSorted (Js.strlen text) p l.
Proof.
  revert p l. induction fuel as [|fuel IH]; intros p l; simpl; [done|].
  destruct (Z.eqb_spec (Js.indexOf text "${" p) (-1)) as [|Hp0]; [by intros [= <-]|].
  destruct (Z.eqb_spec (Js.indexOf text "}" (Js.indexOf text "${" p)) (-1)) as [|Hp1];
    [done|].
  destruct (Js.strlen _ =? 0); [done|].
  destruct (scanRefs fuel text _) as [l'|] eqn:Hl; [|done]. intros [= <-].
  apply indexOf_range in Hp0 as (H1 & H2 & H3). apply indexOf_range in Hp1 as (H4 & H5 & H6).
  change (Js.strlen "${") with 2 in H3. change (Js.strlen "}") with 1 in H6.
  simpl. split; [done|]. split; [lia|]. split; [lia|]. by apply IH.
Qed.

Lemma refsSorted_positions len p l :
  0 <= p -> refsSorted len p l -> Forall (fun r => 0 <= r.1.2 < len) l.
Proof.
  revert p. induction l as [|[[n b] e] l IH]; intros p Hp; simpl; [done|].
  intros (H1 & H2 & H3 & H4). constructor; [simpl; lia|]. apply (IH e); [lia|done].
Qed.

Lemma expand_scanRefs fuel val (text : string) p :
  expand fuel val text p = expandRefs val text p <$> scanRefs fuel text p.
Proof.
  revert p. induction fuel as [|fuel IH]; intros p; simpl; [done|].
  destruct (_ =? -1); [done|]. destruct (_ =? -1); [done|].
  destruct (Js.strlen _ =? 0); [done|]. rewrite IH.
  by destruct (scanRefs fuel text _).
Qed.

Lemma scanRefs_fuel fuel (text : string) p l :
  scanRefs fuel text p = Some l -> (List.length l < fuel)%nat.
Proof.
  revert p l. induction fuel as [|fuel IH]; intros p l; simpl; [done|].
  destruct (_ =? -1); [intros [= <-]; simpl; lia|]. destruct (_ =? -1); [done|].
  destruct (Js.strlen _ =? 0); [done|].
  destruct (scanRefs fuel text _) as [l'|] eqn:Hl; [|done]. intros [= <-].
  apply IH in Hl. simpl. lia.
Qed.

Section Variables.
Variable pParms : ParserParms.
Variable evalJs : list (string * JsValue) -> string -> string + bool.
Variable text : string.
Hypothesis Hshort : shortFormEnabled pParms = true -> Js.indexOf text cmdStartStrShort 0 = -1.

(** The commands of a text without commands. *)
Lemma parseTemplate_commands fuel Q E :
  plainComments fuel text 0 = true ->
  mspec (do! parseTemplateVariables fuel in associateVariablesWithBlocks fuel)
    (afterCommands text) Q E ->
  mspec (parseTemplate pParms evalJs fuel) (initialParser text) Q E.
Proof.
  intros Hcom H. destruct fuel as [|f]; [done|]. unfold parseTemplate.
  eapply mspec_bind_ok; [vm_compute; reflexivity|].
  eapply mspec_bind_ok.
  { unfold parseTemplateCommands.
    apply parseTemplateCommandsFrom_comments; [exact Hcom|exact Hshort|done|done]. }
  eapply mspec_bind_ok; [vm_compute; reflexivity|].
  eapply mspec_bind_ok; [vm_compute; reflexivity|].
  apply mspec_bind, mspec_get. cbn [condLevel Z.eqb negb].
  exact H.
Qed.

Lemma registerVariableReference_scanned l name b e (s : Parser) :
  scanned text l s ->
  mspec (registerVariableReference name b e) s
    (fun _ s' => scanned text (l ++ [(name, b, e)]) s') (fun _ _ => False).
Proof.
  intros [Ht Hb Hr Hk]. unfold registerVariableReference.
  apply mspec_bind, mspec_get. cbv zeta.
  destruct (Z.eqb_spec (p_lookupVariableName s name) (-1)) as [Hnew|Hold].
  - unfold registerVariable. apply mspec_bind, mspec_bind, mspec_get. cbv zeta.
    apply mspec_bind, mspec_modify, mspec_bind, mspec_modify, mspec_ret, mspec_modify.
    match goal with |- scanned _ _ ?s' => set (sfin := s') end.
    assert (H1 : templateText sfin = templateText s) by reflexivity.
    assert (H2 : blockTab sfin = blockTab s) by reflexivity.
    assert (H3 : varRefTab sfin = varRefTab s ++ [mkVarRef (alen (varTab s)) b e 0 0])
      by reflexivity.
    assert (Hlk : forall n, p_lookupVariableName sfin n
                = if decide (n = name) then alen (varTab s) else p_lookupVariableName s n).
    { intros n. unfold p_lookupVariableName, sfin.
      cbn [varNameToNoMap set_varRefTab set_varNameToNoMap set_varTab].
      destruct (decide (n = name)) as [->|Hne].
      - by rewrite lookup_insert_eq.
      - by rewrite lookup_insert_ne. }
    clearbody sfin.
    assert (Hother : forall r, r ∈ l -> refName r <> name).
    { intros r Hin Heq. apply (Hk r Hin). by rewrite Heq. }
    constructor.
    + by rewrite H1.
    + by rewrite H2.
    + rewrite H3, map_app. f_equal.
      * rewrite Hr. apply map_ext_in. intros r Hin%list_elem_of_In.
        unfold rawRecord. by rewrite Hlk, decide_False by (by apply Hother).
      * cbn [map]. unfold rawRecord. cbn [refName fst snd].
        by rewrite Hlk, decide_True.
    + intros r Hin. rewrite Hlk. pose proof (alen_nonneg (varTab s)).
      destruct (decide (refName r = name)); [lia|].
      apply elem_of_app in Hin as [Hin|Hin%list_elem_of_singleton]; [by apply Hk|].
      by subst r.
  - apply mspec_bind, mspec_ret, mspec_modify.
    constructor; cbn [templateText blockTab varRefTab set_varRefTab]; try done.
    + rewrite map_app, Hr. reflexivity.
    + intros r [Hin|Hin%list_elem_of_singleton]%elem_of_app; [by apply Hk|]. by subst r.
Qed.

Lemma parseTemplateVariablesFrom_scanned fuel p l0 l (s : Parser) :
  scanRefs fuel text p = Some l -> scanned text l0 s ->
  mspec (parseTemplateVariablesFrom fuel p) s
    (fun _ s' => scanned text (l0 ++ l) s') (fun _ _ => False).
Proof.
  revert p l0 l s. induction fuel as [|fuel IH]; intros p l0 l s Hscan Hs; [done|].
  cbn [scanRefs] in Hscan. cbn [parseTemplateVariablesFrom].
  apply mspec_bind, mspec_get. cbv zeta. rewrite (sd_text _ _ _ Hs).
  cbv zeta in Hscan.
  destruct (Js.indexOf text "${" p =? -1).
  { injection Hscan as <-. apply mspec_ret. by rewrite app_nil_r. }
  destruct (Js.indexOf text "}" (Js.indexOf text "${" p) =? -1); [done|].
  replace (Js.indexOf text "}" (Js.indexOf text "${" p) + 1 - 1)
    with (Js.indexOf text "}" (Js.indexOf text "${" p)) by lia.
  destruct (Js.strlen _ =? 0); [done|].
  destruct (scanRefs fuel text _) as [l'|] eqn:Hl; [|done]. injection Hscan as <-.
  apply mspec_bind.
  eapply mspec_conseq; [by apply registerVariableReference_scanned| |done].
  intros u s1 Hs1. cbv beta in *.
  eapply mspec_conseq; [exact (IH _ _ l' s1 Hl Hs1)| |done].
  intros u' s2 Hs2. cbv beta in *. by rewrite <- app_assoc in Hs2.
Qed.

Lemma refRecords_app lk k l1 l2 :
  refRecords lk k (l1 ++ l2)
  = refRecords lk k l1 ++ refRecords lk (k + alen l1) l2.
Proof.
  revert k. induction l1 as [|r l1 IH]; intros k; simpl.
  - by rewrite alen_nil, Z.add_0_r.
  - rewrite IH, alen_cons. do 3 f_equal. lia.
Qed.

Lemma refRecords_ext (lk lk' : string -> Z) k l :
  (forall n, lk' n = lk n) -> refRecords lk k l = refRecords lk' k l.
Proof.
  intros H. revert k. induction l as [|r l IH]; intros k; simpl; [done|].
  rewrite IH. unfold refRecord. by rewrite H.
Qed.

Lemma alen_refRecords lk k l : alen (refRecords lk k l) = alen l.
Proof.
  revert k. induction l as [|r l IH]; intros k; simpl; [done|].
  by rewrite !alen_cons, IH.
Qed.

Lemma aset_middle {A} (l1 l2 : list A) (x y : A) i :
  i = alen l1 -> aset (l1 ++ x :: l2) i y = l1 ++ y :: l2.
Proof.
  intros ->. unfold aset, alen.
  destruct (Z.ltb_spec (Z.of_nat (List.length l1)) 0) as [?|_]; [lia|].
  rewrite Nat2Z.id.
  replace (List.length l1) with (List.length l1 + 0)%nat at 1 by lia.
  by rewrite insert_app_r.
Qed.

Lemma associateFrom_associated lk l2 :
  forall l1 (s : Parser) fuel,
  (List.length l2 < fuel)%nat ->
  associated text lk l1 l2 s ->
  Forall (fun r => 0 <= r.1.2 < Js.strlen text) l2 ->
  mspec (associateFrom fuel (alen l1) 0 1) s
    (fun _ s' => associated text lk (l1 ++ l2) [] s') (fun _ _ => False).
Proof.
  induction l2 as [|r l2 IH]; intros l1 s fuel Hfuel [Ht Hlk Hb Hr] Hpos;
    (destruct fuel as [|fuel]; [simpl in Hfuel; lia|]); cbn [associateFrom].
  - apply mspec_bind, mspec_get. rewrite Hr. cbn [map]. rewrite app_nil_r, alen_refRecords.
    rewrite Z.ltb_irrefl. cbn [negb]. apply mspec_ret.
    rewrite app_nil_r. by constructor.
  - apply mspec_bind, mspec_get.
    assert (Hlen : alen (varRefTab s) = alen l1 + 1 + alen l2).
    { rewrite Hr, alen_app, alen_refRecords. cbn [map]. rewrite alen_cons.
      unfold alen. rewrite length_map. lia. }
    pose proof (alen_nonneg l2). pose proof (alen_nonneg l1).
    destruct (Z.ltb_spec (alen l1) (alen (varRefTab s))) as [_|?]; [|lia]. cbn [negb].
    assert (Hget : aget (varRefTab s) (alen l1) = Some (rawRecord lk r)).
    { rewrite Hr, aget_app_r by (rewrite alen_refRecords; lia).
      rewrite alen_refRecords, Z.sub_diag. reflexivity. }
    rewrite Hget. cbn [orTypeError]. apply mspec_bind, mspec_ret. cbv zeta.
    rewrite Hb. change (aget [variablesBlock text lk l1] 0)
      with (Some (variablesBlock text lk l1)).
    cbn [orTypeError]. apply mspec_bind, mspec_ret.
    apply Forall_cons in Hpos as [Hr0 Hpos].
    cbn [variablesBlock bt_tPosEnd rawRecord vr_tPosBegin bt_tPosBegin bt_parentBlockNo
         bt_blockVarNoToVarNoMap bt_firstVarRefNo vr_varNo].
    destruct (Z.leb_spec (Js.strlen text) r.1.2) as [?|_]; [lia|].
    change (1 <? alen [variablesBlock text lk l1]) with false. cbv iota.
    apply mspec_bind, mspec_ret. cbv iota.
    destruct (Z.leb_spec 0 r.1.2) as [_|?]; [|lia].
    apply mspec_bind, mspec_ret.
    assert (Htail : forall s2 : Parser,
      templateText s2 = text -> (forall n, p_lookupVariableName s2 n = lk n) ->
      blockTab s2 = [variablesBlock text lk (l1 ++ [r])] ->
      varRefTab s2 = varRefTab s ->
      mspec (do! updVarRef (alen l1)
                  (fun r0 => mkVarRef (vr_varNo r0) (vr_tPosBegin r0) (vr_tPosEnd r0)
                               0 (vr_blockVarNo r0)) in
             do! updVarRef (alen l1)
                  (fun r0 => mkVarRef (vr_varNo r0) (vr_tPosBegin r0) (vr_tPosEnd r0)
                               (vr_blockNo r0) (alen (map (fun r0 => lk (refName r0)) l1))) in
             associateFrom fuel (alen l1 + 1) 0 1) s2
        (fun _ s' => associated text lk (l1 ++ r :: l2) [] s') (fun _ _ => False)).
    { intros s2 Ht2 Hlk2 Hb2 Hr2.
      apply mspec_bind. eapply mspec_updVarRef; [by rewrite Hr2|].
      apply mspec_bind. eapply mspec_updVarRef.
      { cbn [varRefTab set_varRefTab]. apply aget_aset_eq. rewrite Hr2. lia. }
      cbn [varRefTab set_varRefTab]. rewrite aset_aset_eq.
      replace (alen l1 + 1) with (alen (l1 ++ [r])) by (by rewrite alen_app, alen_singleton).
      replace (l1 ++ r :: l2) with ((l1 ++ [r]) ++ l2) by (by rewrite <- app_assoc).
      apply IH; [simpl in Hfuel; lia| |done].
      constructor; cbn [templateText blockTab varRefTab set_varRefTab]; try done.
      rewrite Hr2, Hr, refRecords_app. cbn [map refRecords].
      rewrite <- app_assoc. cbn [app].
      rewrite aset_middle by (by rewrite alen_refRecords).
      f_equal. f_equal. unfold refRecord, rawRecord. cbn. f_equal.
      unfold alen. rewrite length_map. lia. }
    apply mspec_bind.
    eapply mspec_updBlock; [by rewrite Hb|]. rewrite Hb.
    change (aset [variablesBlock text lk l1] 0 ?x) with [x].
    apply mspec_bind. destruct l1 as [|r1 l1].
    + change (-1 =? -1) with true. cbv iota.
      eapply mspec_updBlock; [reflexivity|]. cbn [blockTab set_blockTab].
      change (aset [?y] 0 ?x) with [x].
      apply Htail; try done.
    + change (0 =? -1) with false. cbv iota. apply mspec_ret.
      apply Htail; try done.
      cbn [blockTab set_blockTab]. unfold variablesBlock, with_blockVarNoToVarNoMap.
      cbn. by rewrite map_app.
Qed.

Lemma main_variables fuel l :
  loadTemplateFile pParms (mainTemplateName pParms) = Some text ->
  plainComments fuel text 0 = true ->
  scanRefs fuel text 0 = Some l ->
  exists pt, main pParms evalJs fuel = Ok pt
    /\ pt_templateText pt = text
    /\ pt_blockTab pt = [variablesBlock text (lookupVariableName pt) l]
    /\ pt_varRefTab pt = refRecords (lookupVariableName pt) 0 l.
Proof.
  intros Hload Hcom Hscan. pose proof (scanRefs_fuel _ _ _ _ Hscan) as Hfuel.
  assert (H : returns (parseTemplate pParms evalJs fuel) (initialParser text)
            (fun _ s => associated text (p_lookupVariableName s) l [] s)).
  { unfold returns. apply parseTemplate_commands; [done|].
    apply mspec_bind. unfold parseTemplateVariables.
    eapply mspec_conseq;
      [apply (parseTemplateVariablesFrom_scanned fuel 0 [] l (afterCommands text) Hscan)
      | |done].
    { constructor; try done. intros r Hin. by apply elem_of_nil in Hin. }
    intros u s1 [Ht Hb Hr Hk]. cbv beta. unfold associateVariablesWithBlocks.
    change 0 with (alen (@nil (string * Z * Z))) at 1.
    eapply mspec_conseq;
      [apply (associateFrom_associated (p_lookupVariableName s1) l [] s1 fuel Hfuel)
      | |done].
    - by constructor.
    - apply (refsSorted_positions _ 0); [done|]. by eapply scanRefs_sorted.
    - intros u' s2 [Ht2 Hlk2 Hb2 Hr2]. cbv beta. constructor; try done.
      + rewrite Hb2. f_equal. unfold variablesBlock. f_equal.
        apply map_ext. intros r. by rewrite Hlk2.
      + rewrite Hr2. f_equal. cbn [app]. by apply refRecords_ext. }
  apply returns_eq in H as ([] & s & Hrun & [Ht Hlk Hb Hr]).
  unfold main. rewrite Hload, Hrun. eexists. split; [done|].
  cbn [parserResult pt_templateText pt_blockTab pt_varRefTab lookupVariableName].
  rewrite app_nil_r in Hr. done.
Qed.
End Variables.


(** * Rendering of a template that holds variables only *)

Lemma substring_empty (s : string) n : String.substring n 0 s = ""%string.
Proof. revert n. induction s as [|c s IH]; intros [|n]; simpl; try done. Qed.

Lemma js_substring_same (s : string) a : Js.substring s a a = ""%string.
Proof.
  unfold Js.substring. cbv zeta.
  replace (Z.to_nat (_ - _)) with 0%nat by lia. apply substring_empty.
Qed.

Lemma chunks_expandRefs (t : MiniTemplator) (text : string) p l :
  0 <= p -> refsSorted (Js.strlen text) p l ->
  joinEmpty (chunks (copiedValue t) text p l) = expandRefs (currentValue t) text p l.
Proof.
  revert p. induction l as [|[[n b] e] l IH]; intros p Hp; simpl.
  - intros _. unfold Js.substringFrom.
    destruct (Z.ltb_spec p (Js.strlen text)) as [Hlt|Hge]; simpl.
    + by rewrite string_app_nil_r.
    + symmetry. unfold Js.substring, Js.clamp. cbv zeta.
      replace (Z.to_nat (_ - _)) with 0%nat by lia. apply substring_empty.
  - intros (H1 & H2 & H3 & H4). rewrite !joinEmpty_app, IH by (done || lia).
    f_equal; [|f_equal].
    + destruct (Z.ltb_spec p b) as [Hlt|Hge]; simpl.
      * by rewrite string_app_nil_r.
      * replace b with p by lia. by rewrite js_substring_same.
    + unfold currentValue, copiedValue.
      destruct (mjoin _) as [v|]; simpl; [|done].
      destruct (String.eqb_spec v "") as [->|]; simpl; [done|].
      by rewrite string_app_nil_r.
Qed.

Section Rendering.
Variable pt : ParsedTemplate.
Variable l : list (string * Z * Z).
Hypothesis Hblocks :
  pt_blockTab pt = [variablesBlock (pt_templateText pt) (lookupVariableName pt) l].
Hypothesis Hrefs : pt_varRefTab pt = refRecords (lookupVariableName pt) 0 l.

Let text := pt_templateText pt.
Let lk := lookupVariableName pt.
Let btr := variablesBlock text lk l.

Lemma writeChunks_variables (t2 : MiniTemplator) (bitr : BlockInstTabRec) l2 :
  template t2 = pt ->
  blockVarTab bitr = snapshotOf (varValuesTab t2) (map (fun r => lk (refName r)) l) ->
  forall l1 out tPos k fuel,
  l = l1 ++ l2 ->
  refsSorted (Js.strlen text) tPos l2 ->
  (List.length l2 < fuel)%nat ->
  (k = alen l1 /\ l <> []) \/ (k = -1 /\ l = []) ->
  returns (writeChunks fuel out bitr 0 btr tPos 1 k) t2
    (fun arr s' => arr = out ++ chunks (copiedValue t2) text tPos l2 /\ s' = t2).
Proof.
  intros Htpl Htab. induction l2 as [|[[n b] e] l2 IH];
    intros l1 out tPos k fuel Hl Hsorted Hfuel Hk;
    (destruct fuel as [|fuel]; [simpl in Hfuel; lia|]);
    unfold returns; cbn [writeChunks];
    apply mspec_bind, mspec_get; cbv zeta; rewrite Htpl, Hrefs, Hblocks, alen_singleton;
    change (1 <? 1) with false; cbv iota.
  - assert (Hr1 : negb (k =? -1) && (k <? alen (refRecords (lookupVariableName pt) 0 l))
                  = false).
    { destruct Hk as [[-> Hne]|[-> _]]; [|done].
      rewrite alen_refRecords, Hl, app_nil_r, Z.ltb_irrefl. apply andb_false_r. }
    rewrite Hr1. apply mspec_bind, mspec_ret. apply mspec_bind, mspec_ret.
    apply mspec_ret. cbn [chunks btr variablesBlock bt_tPosContentsEnd].
    split; [|done]. destruct (tPos <? Js.strlen text); [done|]. by rewrite app_nil_r.
  - simpl in Hsorted. destruct Hsorted as (H1 & H2 & H3 & H4).
    destruct Hk as [[-> Hne]|[_ Hnil]]; [|rewrite Hnil in Hl; by destruct l1].
    pose proof (alen_nonneg l1). pose proof (alen_nonneg l2).
    assert (Hlen : alen (refRecords (lookupVariableName pt) 0 l) = alen l1 + 1 + alen l2).
    { rewrite alen_refRecords, Hl, alen_app, alen_cons. lia. }
    assert (Hget : aget (refRecords (lookupVariableName pt) 0 l) (alen l1)
                   = Some (refRecord lk (alen l1) (n, b, e))).
    { rewrite Hl, refRecords_app, aget_app_r by (rewrite alen_refRecords; lia).
      rewrite alen_refRecords, Z.sub_diag. reflexivity. }
    destruct (Z.eqb_spec (alen l1) (-1)) as [?|_]; [lia|].
    destruct (Z.ltb_spec (alen l1) (alen (refRecords (lookupVariableName pt) 0 l)))
      as [_|?]; [|lia].
    cbn [negb andb]. rewrite Hget. cbn [orTypeError].
    apply mspec_bind, mspec_bind, mspec_ret.
    cbn [refRecord vr_tPosBegin vr_tPosEnd vr_blockNo vr_blockVarNo fst snd
         btr variablesBlock bt_tPosContentsEnd].
    destruct (Z.ltb_spec b tPos) as [?|_]; [lia|].
    destruct (Z.ltb_spec b (Js.strlen text)) as [_|?]; [|lia].
    apply mspec_ret. apply mspec_bind, mspec_ret.
    apply mspec_bind, mspec_ret. change (0 =? 0) with true. cbn [assert].
    apply mspec_bind, mspec_ret.
    assert (Hsnap : snapshotOf (varValuesTab t2) (map (fun r => lk (refName r)) l)
                    = Some (map (fun varNo => mjoin (aget (varValuesTab t2) varNo))
                              (map (fun r => lk (refName r)) l))).
    { unfold snapshotOf. rewrite Hl. destruct l1; by cbn. }
    rewrite Htab, Hsnap. cbn [orTypeError]. apply mspec_bind, mspec_ret. cbv zeta.
    assert (Hval : mjoin (aget (map (fun varNo => mjoin (aget (varValuesTab t2) varNo))
                                  (map (fun r => lk (refName r)) l)) (alen l1))
                   = copiedValue t2 n).
    { rewrite !aget_map. rewrite Hl, aget_lookup by lia.
      unfold alen. rewrite Nat2Z.id, list_lookup_middle by done. cbn.
      unfold copiedValue. by rewrite Htpl. }
    cbn [refRecord vr_tPosEnd vr_blockVarNo fst snd]. rewrite Hval.
    eapply mspec_conseq; [apply (IH (l1 ++ [(n, b, e)]))| |done].
    + by rewrite <- app_assoc.
    + done.
    + simpl in Hfuel. lia.
    + left. split; [|done]. by rewrite alen_app, alen_singleton.
    + intros arr s' [-> ->]. split; [|done]. cbn [chunks].
      destruct (tPos <? b); destruct (isTruthy (copiedValue t2 n));
        cbn [app]; rewrite <- ?app_assoc; cbn [app]; by rewrite ?app_nil_r.
Qed.
End Rendering.

Lemma generate_variables (pt : ParsedTemplate) l (t : MiniTemplator) c fuel :
  pt_blockTab pt = [variablesBlock (pt_templateText pt) (lookupVariableName pt) l] ->
  pt_varRefTab pt = refRecords (lookupVariableName pt) 0 l ->
  refsSorted (Js.strlen (pt_templateText pt)) 0 l ->
  template t = pt ->
  blockDynTab t = [mkBlockDyn 0 (-1) (-1) c] ->
  blockInstTab t = [] ->
  (List.length l + 4 <= fuel)%nat ->
  exists t',
    generateOutputString fuel t
    = (Ok (expandRefs (currentValue t) (pt_templateText pt) 0 l), t').
Proof.
  intros Hblocks Hrefs Hsorted Htpl Hdyn Hinsts Hfuel.
  set (btr := variablesBlock (pt_templateText pt) (lookupVariableName pt) l).
  set (d0 := mkBlockDyn 0 (-1) (-1) c).
  assert (Hadd : addBlockByNo 0 t = (Ok tt, afterAddBlockByNo t 0 btr d0)).
  { apply addBlockByNo_ok; [by rewrite Htpl, Hblocks|by rewrite Hdyn|by left|by left]. }
  rewrite (generateOutputString_adding fuel t _ d0 (ltac:(by rewrite Hdyn)) eq_refl Hadd).
  set (s1 := resetCursors (afterAddBlockByNo t 0 btr d0)).
  set (inst := mkBlockInst 0 0 (-1) (-1)
                 (snapshotOf (varValuesTab t) (bt_blockVarNoToVarNoMap btr))).
  assert (Hs1i : blockInstTab s1 = [inst]).
  { subst s1. unfold resetCursors, afterAddBlockByNo.
    cbn [blockInstTab set_blockDynTab]. rewrite Hinsts. reflexivity. }
  assert (Hs1t : template s1 = pt) by (subst s1; exact Htpl).
  assert (Hs1v : varValuesTab s1 = varValuesTab t) by reflexivity.
  assert (Hs1d : cursorOf s1 0 = Some 0).
  { subst s1. unfold cursorOf, resetCursors, afterAddBlockByNo.
    cbn [blockDynTab set_blockDynTab]. rewrite Hdyn, Hinsts. reflexivity. }
  assert (Hpure : forall i f out t2, i ∈ [0] -> (List.length l + 2 <= f)%nat ->
            same_but_cursors s1 t2 ->
            writeBlockInstance f out i t2
            = (Ok (out ++ chunks (copiedValue t) (pt_templateText pt) 0 l), t2)).
  { intros i f out t2 ->%list_elem_of_singleton Hf (Ht2 & Hv2 & _ & Hi2).
    destruct f as [|f]; [lia|]. cbn [writeBlockInstance].
    unfold bind at 1, get. rewrite <- Hi2, Hs1i.
    change (aget [inst] 0) with (Some inst). cbn [orTypeError].
    unfold bind at 1, ret at 1. cbv zeta. cbn [bi_blockNo inst].
    rewrite <- Ht2, Hs1t, Hblocks.
    change (aget [?x] 0) with (Some x). cbn [orTypeError]. unfold bind at 1, ret at 1.
    fold btr.
    pose proof (writeChunks_variables pt l Hblocks Hrefs t2 inst l
                  ltac:(by rewrite <- Ht2) ltac:(by rewrite <- Hv2)
                  [] out 0 (bt_firstVarRefNo btr) f eq_refl Hsorted ltac:(lia)) as Hw.
    destruct (returns_eq _ _ _ (Hw ltac:(subst btr; destruct l; [by right|by left])))
      as (arr & s' & Hrun & -> & ->).
    cbn [bt_tPosContentsBegin btr variablesBlock] in *.
    change (0 + 1) with 1. fold btr in Hrun. rewrite Hrun. f_equal. f_equal. f_equal.
    unfold copiedValue. by rewrite <- Ht2, <- Hv2, Hs1t, Hs1v, Htpl. }
  pose proof (writeBlockInstances_chain s1 0 (-1)
                (fun _ => chunks (copiedValue t) (pt_templateText pt) 0 l)
                (List.length l + 2) 0 [0]) as Hchain.
  destruct (returns_eq _ _ _ (Hchain
              ltac:(apply linked_single; [done|by rewrite Hs1i])
              ltac:(intros i ->%list_elem_of_singleton; exists inst; by rewrite Hs1i)
              Hpure [] fuel s1
              (same_but_cursors_refl s1) Hs1d ltac:(simpl; lia)))
    as (arr & t' & Hrun & -> & _).
  exists t'. unfold bind, ret. rewrite Hrun. f_equal. f_equal.
  cbn [map List.concat app]. rewrite app_nil_r.
  apply chunks_expandRefs; [done|exact Hsorted].
Qed.

(** X23: variables are replaced by their values.  For a template text
    without commands (every [<!--] is followed by a [-->], the comment
    between them being no command line, and no [<$] when the short form
    is enabled) in which every [${] is closed by a [}] around a name that
    is not blank ([expand] returns a text, the fuel covering the
    references): parsing returns a template, and in a session of it in
    which variables have been set and nothing else was called,
    [generateOutputString] returns the text with every reference
    [${name}] replaced by the current value of the variable [name]. *)
Theorem render_variables pParms evalJs (text : string) fuel :
  loadTemplateFile pParms (mainTemplateName pParms) = Some text ->
  plainComments fuel text 0 = true ->
  (shortFormEnabled pParms = true -> Js.indexOf text cmdStartStrShort 0 = -1) ->
  is_Some (expand fuel (fun _ => ""%string) text 0) ->
  exists pt, main pParms evalJs fuel = Ok pt
    /\ forall fuel' calls, forallb isSetCall calls = true ->
       let t := snd (runCalls fuel' calls (newMiniTemplator pt)) in
       exists out t',
         expand fuel (currentValue t) text 0 = Some out
         /\ generateOutputString (fuel + 3) t = (Ok out, t').
Proof.
  intros Hload Hcmd Hshort [o Ho]. rewrite expand_scanRefs in Ho.
  destruct (scanRefs fuel text 0) as [l|] eqn:Hscan; [|done].
  destruct (main_variables pParms evalJs text Hshort fuel l Hload Hcmd Hscan)
    as (pt & Hmain & Htext & Hblocks & Hrefs).
  exists pt. split; [done|]. intros fuel' calls Hcalls t.
  pose proof (runCalls_sets_frame fuel' calls (newMiniTemplator pt) Hcalls)
    as (Ht & Hd & Hi). fold t in Ht, Hd, Hi. cbn in Ht, Hd, Hi.
  rewrite Hblocks in Hd. cbn in Hd.
  pose proof (scanRefs_fuel _ _ _ _ Hscan) as Hfuel.
  rewrite <- Htext in Hblocks.
  destruct (generate_variables pt l t (-1) (fuel + 3)) as [t' Hgen]; try done.
  - rewrite Htext. by eapply scanRefs_sorted.
  - lia.
  - exists (expandRefs (currentValue t) text 0 l), t'. split.
    + by rewrite expand_scanRefs, Hscan.
    + by rewrite Hgen, Htext.
Qed.

Lemma render_variables_witness :
  exists pt, main (parmsOf "a${x}b${ y }c${x}" []) evalIdentifier 4 = Ok pt
    /\ forall fuel' calls, forallb isSetCall calls = true ->
       let t := snd (runCalls fuel' calls (newMiniTemplator pt)) in
       exists out t',
         expand 4 (currentValue t) "a${x}b${ y }c${x}" 0 = Some out
         /\ generateOutputString (4 + 3) t = (Ok out, t').
Proof.
  apply (render_variables (parmsOf "a${x}b${ y }c${x}" []) evalIdentifier
           "a${x}b${ y }c${x}" 4).
  - reflexivity.
  - vm_compute. reflexivity.
  - discriminate.
  - vm_compute. eexists. reflexivity.
Defined.


(** * Parse failures, by phase, and parses that do not end *)

(** ** More fuel does not change a result *)

Lemma extends_refl {S A} (m : M S A) : extends m m.
Proof. by intros s _. Qed.

Lemma extends_trans {S A} (m1 m2 m3 : M S A) :
  extends m1 m2 -> extends m2 m3 -> extends m1 m3.
Proof.
  intros H12 H23 s Hs. rewrite (H23 s); rewrite (H12 s Hs); done.
Qed.

Lemma extends_bind {S A B} (m m' : M S A) (k k' : A -> M S B) :
  extends m m' -> (forall a, extends (k a) (k' a)) -> extends (bind m k) (bind m' k').
Proof.
  intros Hm Hk s Hs. unfold bind in *.
  assert (Hm' : m' s = m s).
  { apply Hm. destruct (m s) as [[a|e] s1]; [done|].
    cbn in *. intros [= ->]. by apply Hs. }
  rewrite Hm'. destruct (m s) as [[a|e] s1]; [by apply Hk|done].
Qed.

Ltac extends_step IH :=
  first
    [ apply IH
    | apply extends_refl
    | apply extends_bind; [|intros ?]
    | lazymatch goal with
      | |- extends (if ?c then _ else _) _ => destruct c
      | |- extends (match ?x with _ => _ end) _ => destruct x
      | |- extends (let _ := _ in _) _ => cbv zeta
      end ].

Section Fuel.
Variable pParms : ParserParms.
Variable evalJs : list (string * JsValue) -> string -> string + bool.

Lemma parseTemplateCommandsFrom_step fuel p :
  extends (parseTemplateCommandsFrom pParms evalJs fuel p)
          (parseTemplateCommandsFrom pParms evalJs (S fuel) p).
Proof.
  revert p. induction fuel as [|fuel IH]; intros p.
  { intros s Hs. by destruct Hs. }
  cbn [parseTemplateCommandsFrom]. repeat extends_step IH.
Qed.

Lemma parseTemplateVariablesFrom_step fuel p :
  extends (parseTemplateVariablesFrom fuel p) (parseTemplateVariablesFrom (S fuel) p).
Proof.
  revert p. induction fuel as [|fuel IH]; intros p.
  { intros s Hs. by destruct Hs. }
  cbn [parseTemplateVariablesFrom]. repeat extends_step IH.
Qed.

Lemma associateFrom_step fuel k a n :
  extends (associateFrom fuel k a n) (associateFrom (S fuel) k a n).
Proof.
  revert k a n. induction fuel as [|fuel IH]; intros k a n.
  { intros s Hs. by destruct Hs. }
  cbn [associateFrom]. repeat extends_step IH.
Qed.

Lemma parseTemplate_step fuel :
  extends (parseTemplate pParms evalJs fuel) (parseTemplate pParms evalJs (S fuel)).
Proof.
  unfold parseTemplate, parseTemplateCommands, parseTemplateVariables,
    associateVariablesWithBlocks.
  apply extends_bind; [apply extends_refl|intros _].
  apply extends_bind; [apply parseTemplateCommandsFrom_step|intros _].
  apply extends_bind; [apply extends_refl|intros _].
  apply extends_bind; [apply extends_refl|intros _].
  apply extends_bind; [apply extends_refl|intros p].
  destruct (negb _); [apply extends_refl|].
  apply extends_bind; [apply parseTemplateVariablesFrom_step|intros _].
  apply associateFrom_step.
Qed.

Lemma parseTemplate_extends fuel fuel' :
  (fuel <= fuel')%nat ->
  extends (parseTemplate pParms evalJs fuel) (parseTemplate pParms evalJs fuel').
Proof.
  induction 1 as [|fuel' _ IH]; [apply extends_refl|].
  eapply extends_trans; [exact IH|apply parseTemplate_step].
Qed.

(** A result of [main] other than running out of fuel is its result with
    every larger fuel. *)
Lemma main_stable fuel fuel' :
  (fuel <= fuel')%nat -> main pParms evalJs fuel <> Throw OutOfFuel ->
  main pParms evalJs fuel' = main pParms evalJs fuel.
Proof.
  intros Hle. unfold main. destruct (loadTemplateFile _ _) as [mainText|]; [|done].
  intros Hne. rewrite (parseTemplate_extends fuel fuel' Hle); [done|].
  destruct (parseTemplate _ _ fuel _) as [[u|e] p]; [done|].
  cbn. intros [= ->]. done.
Qed.

(** ** The phases of a parse *)

Lemma parseTemplate_phases fuel (s : Parser) :
  parseTemplate pParms evalJs fuel s
  = bind (parseBeforeAssociation pParms evalJs fuel)
         (fun _ => associateVariablesWithBlocks fuel) s.
Proof.
  unfold parseTemplate, parseBeforeAssociation, bind.
  repeat lazymatch goal with
    | |- context [match ?m ?s with _ => _ end] =>
        lazymatch m with
        | get => fail
        | _ => destruct (m s) as [[?|?] ?]; try reflexivity
        end
    end.
  all: unfold get; cbv beta iota.
  all: repeat lazymatch goal with
         | |- context [if ?b then _ else _] => destruct b; try reflexivity
         | |- context [match ?m ?s with _ => _ end] =>
             destruct (m s) as [[?|?] ?]; try reflexivity
         end.
Qed.

Lemma parseBeforeAssociation_spec fuel mainText :
  mspec (parseBeforeAssociation pParms evalJs fuel) (initialParser mainText)
    (fun _ p' => assoc_inv 0 p') (fun e _ => parserThrows e).
Proof.
  unfold parseBeforeAssociation.
  destruct (beginMainBlock_inv mainText) as (p1 & Hrun1 & Hinv1).
  eapply mspec_bind_ok; [exact Hrun1|].
  apply mspec_bind. unfold parseTemplateCommands.
  eapply mspec_conseq; [by apply parseTemplateCommandsFrom_preserves| |done].
  cbv beta. intros _ p2 Hinv2.
  apply mspec_bind.
  eapply mspec_conseq; [by apply endMainBlock_spec| |done].
  cbv beta. intros _ p3 [Hinv3 _].
  apply mspec_bind.
  eapply mspec_conseq; [by apply checkBlockDefinitionsComplete_spec| |done].
  cbv beta. intros _ ? ->.
  apply mspec_bind, mspec_get.
  destruct (negb _); [apply mspec_throw; constructor|].
  unfold parseTemplateVariables.
  eapply mspec_conseq;
    [by apply parseTemplateVariablesFrom_spec, parsed_inv_scan| |done].
  cbv beta. intros _ p4 [Hinv4 _]. by apply scan_inv_assoc.
Qed.

(** What [main] throws, and from which phase. *)
Lemma main_throws_phase fuel e :
  main pParms evalJs fuel = Throw e -> parseFailureOf pParms evalJs fuel e.
Proof.
  unfold main, parseFailureOf.
  destruct (loadTemplateFile _ _) as [mainText|] eqn:Hload; [|intros [= <-]; eauto 6].
  rewrite parseTemplate_phases.
  pose proof (parseBeforeAssociation_spec fuel mainText) as Hspec.
  unfold mspec in Hspec. unfold bind.
  destruct (parseBeforeAssociation _ _ _ _) as [[[]|e'] p] eqn:Hbefore.
  - pose proof (associateFrom_spec fuel 0 0 1 p Hspec) as Hassoc.
    unfold mspec in Hassoc. fold (associateVariablesWithBlocks fuel) in Hassoc.
    destruct (associateVariablesWithBlocks fuel p) as [[u|e'] p'] eqn:Hrun; [done|].
    intros [= <-].
    assert (Hthrown : thrownByAssociation pParms evalJs fuel e').
    { exists mainText, p. by rewrite Hrun. }
    destruct Hassoc; eauto 10.
  - intros [= <-]. destruct Hspec; eauto 10.
Qed.
End Fuel.

(** ** A template that includes itself *)

Lemma selfInclude_turn fuel resume :
  parseTemplateCommandsFrom selfIncludeParms evalIdentifier (S fuel) 0
    (selfIncludeParser resume)
  = parseTemplateCommandsFrom selfIncludeParms evalIdentifier fuel 0
      (selfIncludeParser true).
Proof.
  cbn [parseTemplateCommandsFrom].
  generalize (parseTemplateCommandsFrom selfIncludeParms evalIdentifier fuel).
  intros k. destruct resume; vm_compute; reflexivity.
Qed.

Lemma selfInclude_commands fuel resume :
  fst (parseTemplateCommandsFrom selfIncludeParms evalIdentifier fuel 0
         (selfIncludeParser resume))
  = Throw OutOfFuel.
Proof.
  revert resume. induction fuel as [|fuel IH]; intros resume; [done|].
  rewrite selfInclude_turn. apply IH.
Qed.

(** The parse of the template that includes itself runs out of every
    fuel: the inclusion puts the text of the template in the place of the
    command, and the loop resumes at the command. *)
Lemma selfInclude_diverges fuel :
  main selfIncludeParms evalIdentifier fuel = Throw OutOfFuel.
Proof.
  unfold main. change (loadTemplateFile selfIncludeParms (mainTemplateName selfIncludeParms))
    with (Some selfIncludeText).
  unfold parseTemplate, parseTemplateCommands.
  pose proof (selfInclude_commands fuel false) as Hrun.
  change (selfIncludeParser false)
    with (snd (beginMainBlock (initialParser selfIncludeText))) in Hrun.
  unfold bind at 1.
  destruct (beginMainBlock (initialParser selfIncludeText)) as [[[]|e] s0] eqn:Hbegin;
    [|by vm_compute in Hbegin].
  cbn [snd] in Hrun. unfold bind at 1.
  destruct (parseTemplateCommandsFrom _ _ _ _ _) as [[u|e] s1]; cbn in Hrun; [done|].
  by injection Hrun as ->.
Qed.




(** * The references of a parsed text *)

(** ** The scan registers every reference *)

Lemma registerVariableReference_registered l name b e (s : Parser) :
  registered l s ->
  mspec (registerVariableReference name b e) s
    (fun _ s' => registered (l ++ [(name, b, e)]) s'
                 /\ templateText s' = templateText s /\ blockTab s' = blockTab s)
    (fun _ _ => False).
Proof.
  intros [Hr Hk]. unfold registerVariableReference.
  apply mspec_bind, mspec_get. cbv zeta.
  destruct (Z.eqb_spec (p_lookupVariableName s name) (-1)) as [Hnew|Hold].
  - unfold registerVariable. apply mspec_bind, mspec_bind, mspec_get. cbv zeta.
    apply mspec_bind, mspec_modify, mspec_bind, mspec_modify, mspec_ret, mspec_modify.
    match goal with |- registered _ ?s' /\ _ => set (sfin := s') end.
    assert (H1 : templateText sfin = templateText s) by reflexivity.
    assert (H2 : blockTab sfin = blockTab s) by reflexivity.
    assert (H3 : varRefTab sfin = varRefTab s ++ [mkVarRef (alen (varTab s)) b e 0 0])
      by reflexivity.
    assert (Hlk : forall n, p_lookupVariableName sfin n
                = if decide (n = name) then alen (varTab s) else p_lookupVariableName s n).
    { intros n. unfold p_lookupVariableName, sfin.
      cbn [varNameToNoMap set_varRefTab set_varNameToNoMap set_varTab].
      destruct (decide (n = name)) as [->|Hne].
      - by rewrite lookup_insert_eq.
      - by rewrite lookup_insert_ne. }
    clearbody sfin.
    assert (Hother : forall r, r ∈ l -> refName r <> name).
    { intros r Hin Heq. apply (Hk r Hin). by rewrite Heq. }
    split; [|done]. constructor.
    + rewrite H3, map_app. f_equal.
      * rewrite Hr. apply map_ext_in. intros r Hin%list_elem_of_In.
        unfold rawRecord. by rewrite Hlk, decide_False by (by apply Hother).
      * cbn [map]. unfold rawRecord. cbn [refName fst snd].
        by rewrite Hlk, decide_True.
    + intros r Hin. rewrite Hlk. pose proof (alen_nonneg (varTab s)).
      destruct (decide (refName r = name)); [lia|].
      apply elem_of_app in Hin as [Hin|Hin%list_elem_of_singleton]; [by apply Hk|].
      by subst r.
  - apply mspec_bind, mspec_ret, mspec_modify. split; [|done].
    constructor; cbn [templateText blockTab varRefTab set_varRefTab].
    + rewrite map_app, Hr. reflexivity.
    + intros r [Hin|Hin%list_elem_of_singleton]%elem_of_app; [by apply Hk|]. by subst r.
Qed.

(** When the scan of the variables returns, the references of the text
    are found ([scanRefs] returns them), and each has its record. *)
Lemma parseTemplateVariablesFrom_registered fuel p l0 (s : Parser) :
  registered l0 s ->
  mspec (parseTemplateVariablesFrom fuel p) s
    (fun _ s' => exists l, scanRefs fuel (templateText s) p = Some l
                 /\ registered (l0 ++ l) s'
                 /\ templateText s' = templateText s /\ blockTab s' = blockTab s)
    (fun _ _ => True).
Proof.
  revert p l0 s. induction fuel as [|fuel IH]; intros p l0 s Hs; [by apply mspec_throw|].
  cbn [scanRefs parseTemplateVariablesFrom].
  apply mspec_bind, mspec_get. cbv zeta.
  destruct (Js.indexOf (templateText s) "${" p =? -1).
  { apply mspec_ret. exists []. by rewrite app_nil_r. }
  destruct (Js.indexOf (templateText s) "}" (Js.indexOf (templateText s) "${" p) =? -1);
    [done|].
  replace (Js.indexOf (templateText s) "}" (Js.indexOf (templateText s) "${" p) + 1 - 1)
    with (Js.indexOf (templateText s) "}" (Js.indexOf (templateText s) "${" p)) by lia.
  destruct (Js.strlen _ =? 0); [done|].
  apply mspec_bind.
  eapply mspec_conseq; [by apply registerVariableReference_registered| |done].
  intros u s1 (Hs1 & Ht1 & Hb1). cbv beta in *.
  eapply mspec_conseq; [exact (IH _ _ s1 Hs1)| |done].
  intros u' s2 (l & Hl & Hs2 & Ht2 & Hb2). cbv beta in *.
  rewrite Ht1 in Hl. rewrite Hl. eexists. split; [done|].
  rewrite <- app_assoc in Hs2. split; [exact Hs2|]. split; congruence.
Qed.

(** ** The association keeps the references *)

Lemma associating_refl (s : Parser) : associating s 0 s.
Proof. constructor; try done. intros j r Hj. lia. Qed.

Lemma insideItsBlock_ranges bt bt' r :
  map blockRange bt' = map blockRange bt -> insideItsBlock bt r -> insideItsBlock bt' r.
Proof.
  intros Hmap (btr & Hb & Hpos).
  pose proof (map_lookup_eq blockRange bt' bt (vr_blockNo r) Hmap) as Hl.
  rewrite Hb in Hl. destruct (aget bt' (vr_blockNo r)) as [btr'|] eqn:Hb'; [|done].
  cbn in Hl. unfold blockRange in Hl. injection Hl as H1 H2 _.
  exists btr'. split; [done|]. lia.
Qed.

Lemma associateFrom_associating fuel k active next (s0 p : Parser) :
  associating s0 k p -> 0 <= k ->
  mspec (associateFrom fuel k active next) p
    (fun _ p' => associating s0 (alen (varRefTab p')) p') (fun _ _ => True).
Proof.
  revert k active next p. induction fuel as [|fuel IH]; intros k active next p Hinv Hk0.
  { by apply mspec_throw. }
  cbn [associateFrom]. apply mspec_bind, mspec_get.
  destruct (Z.ltb_spec k (alen (varRefTab p))) as [Hk|Hk]; cbn [negb].
  { destruct (aget_is_Some (varRefTab p) k) as [vrtr Hvrtr]; [lia|].
    rewrite Hvrtr. apply mspec_bind, mspec_ret. cbv zeta.
    apply mspec_bind. apply mspec_orTypeError; [|done].
    intros btr Hbtr.
    destruct (Z.leb_spec (bt_tPosEnd btr) (vr_tPosBegin vrtr)) as [|Hend]; [by apply IH|].
    apply mspec_bind.
    match goal with |- mspec ?m _ _ _ =>
      assert (Hm : exists enter, m p = (Ok enter, p) \/ m p = (Throw JsTypeError, p))
    end.
    { destruct (_ <? _); [|by eexists; left].
      destruct (aget (blockTab p) next) as [nb|]; [by eexists; left|].
      exists true. by right. }
    destruct Hm as (enter & [Hm|Hm]); unfold mspec at 1; rewrite Hm; [|done].
    destruct enter; [by apply IH|].
    apply mspec_bind, mspec_assert; [|done]. intros Hbegin%Z.leb_le.
    apply mspec_bind. eapply mspec_updBlock; [done|].
    set (b1 := with_blockVarNoToVarNoMap
                 (bt_blockVarNoToVarNoMap btr ++ [vr_varNo vrtr]) btr).
    set (p1 := set_blockTab (aset (blockTab p) active b1) p).
    assert (Hget1 : aget (blockTab p1) active = Some b1).
    { subst p1. cbn [blockTab set_blockTab]. apply aget_aset_eq. by eapply aget_Some. }
    apply mspec_bind.
    set (b2 := if bt_firstVarRefNo btr =? -1 then with_firstVarRefNo k b1 else b1).
    set (p2 := set_blockTab (aset (blockTab p) active b2) p).
    match goal with |- mspec ?m _ _ _ => assert (Hm2 : m p1 = (Ok tt, p2)) end.
    { subst p2 b2. destruct (_ =? -1).
      - rewrite (updBlock_ok _ _ _ b1 Hget1). subst p1. f_equal. destruct p; cbn.
        unfold set_blockTab; cbn. by rewrite aset_aset_eq.
      - done. }
    unfold mspec at 1. rewrite Hm2. clear Hm2.
    assert (Hr2 : aget (varRefTab p2) k = Some vrtr) by done.
    apply mspec_bind. eapply mspec_updVarRef; [done|].
    apply mspec_bind. eapply mspec_updVarRef.
    { cbn [varRefTab set_varRefTab]. apply aget_aset_eq. by eapply aget_Some. }
    cbn [varRefTab set_varRefTab]. rewrite aset_aset_eq.
    apply IH; [|lia].
    destruct Hinv as [Ht Hm' Hrefs Hblocks Hin].
    assert (Hrange : blockRange b2 = blockRange btr).
    { subst b2 b1. by destruct (_ =? -1). }
    assert (Hbt : map blockRange (aset (blockTab p) active b2) = map blockRange (blockTab p)).
    { by apply (map_aset_same blockRange _ _ btr). }
    constructor; cbn [templateText varNameToNoMap varRefTab blockTab set_varRefTab
                        set_blockTab p2].
    - done.
    - done.
    - rewrite <- Hrefs. by apply (map_aset_same refKey _ _ vrtr).
    - by rewrite Hbt.
    - intros j r Hj Hr. destruct (decide (j = k)) as [->|Hne].
      + rewrite aget_aset_eq in Hr by lia. injection Hr as <-.
        exists b2. cbn [vr_blockNo vr_tPosBegin]. split.
        * apply aget_aset_eq. by eapply aget_Some.
        * unfold blockRange in Hrange. injection Hrange as -> -> _. lia.
      + rewrite aget_aset_ne in Hr by done.
        eapply insideItsBlock_ranges; [exact Hbt|]. apply (Hin j); [lia|done]. }
  apply mspec_ret. destruct Hinv as [Ht Hm' Hrefs Hblocks Hin].
  constructor; try done. intros j r Hj Hr. apply (Hin j); [lia|done].
Qed.

(** ** The parse *)

Lemma lookup_ext (s s' : Parser) n :
  varNameToNoMap s' = varNameToNoMap s ->
  p_lookupVariableName s' n = p_lookupVariableName s n.
Proof. intros H. unfold p_lookupVariableName. by rewrite H. Qed.

Lemma parseTemplate_registered pParms evalJs fuel mainText :
  mspec (parseTemplate pParms evalJs fuel) (initialParser mainText)
    (fun _ s => exists l,
       scanRefs fuel (templateText s) 0 = Some l
       /\ map refKey (varRefTab s) = map (keyOf (p_lookupVariableName s)) l
       /\ (forall r, r ∈ l -> p_lookupVariableName s (refName r) <> -1)
       /\ Forall (insideItsBlock (blockTab s)) (varRefTab s))
    (fun _ _ => True).
Proof.
  unfold parseTemplate.
  destruct (beginMainBlock_inv mainText) as (p1 & Hrun1 & Hinv1).
  eapply mspec_bind_ok; [exact Hrun1|].
  apply mspec_bind. unfold parseTemplateCommands.
  eapply mspec_conseq; [by apply parseTemplateCommandsFrom_preserves| |done].
  cbv beta. intros _ p2 Hinv2.
  apply mspec_bind.
  eapply mspec_conseq; [by apply endMainBlock_spec| |done].
  cbv beta. intros _ p3 [Hinv3 _].
  apply mspec_bind.
  eapply mspec_conseq; [by apply checkBlockDefinitionsComplete_spec| |done].
  cbv beta. intros _ ? ->.
  apply mspec_bind, mspec_get.
  destruct (negb _); [done|].
  apply mspec_bind. unfold parseTemplateVariables.
  assert (Hreg : registered [] p3).
  { destruct (pa_vars _ Hinv3) as (_ & Hrefs & _). constructor; [done|].
    intros r Hin. by apply elem_of_nil in Hin. }
  eapply mspec_conseq; [exact (parseTemplateVariablesFrom_registered fuel 0 [] p3 Hreg)| |done].
  cbv beta. intros _ p4 (l & Hscan & [Hrefs Hknown] & Ht4 & Hb4). cbn [app] in *.
  unfold associateVariablesWithBlocks.
  eapply mspec_conseq;
    [exact (associateFrom_associating fuel 0 0 1 p4 p4 (associating_refl p4) (Z.le_refl 0))
    | |done].
  cbv beta. intros _ p5 [Ht5 Hm5 Hr5 Hb5 Hin5].
  exists l. split; [by rewrite Ht5, Ht4|]. split; [|split].
  - rewrite Hr5, Hrefs, map_map. apply map_ext. intros r.
    unfold refKey, keyOf, rawRecord. cbn. by rewrite (lookup_ext p4 p5).
  - intros r Hin. rewrite (lookup_ext p4 p5) by done. by apply Hknown.
  - apply Forall_forall. intros r Hin.
    apply list_elem_of_lookup in Hin as [j Hj].
    apply (Hin5 (Z.of_nat j)).
    + apply lookup_lt_Some in Hj. unfold alen. lia.
    + rewrite aget_lookup by lia. by rewrite Nat2Z.id.
Qed.




(** * The turns of the loop of [writeBlockInstance] *)

Lemma out_pushText out (text : string) p q :
  (if p <? q then out ++ [Js.substring text p q] else out) = out ++ pushText text p q.
Proof. unfold pushText. destruct (p <? q); [done|]. by rewrite app_nil_r. Qed.

Lemma out_pushValue (out : list string) v :
  (if isTruthy v then out ++ [default ""%string v] else out) = out ++ pushValue v.
Proof. unfold pushValue. destruct (isTruthy v); [done|]. by rewrite app_nil_r. Qed.

Section Turns.
Variable s : MiniTemplator.
Let T := pt_varRefTab (template s).
Let BT := pt_blockTab (template s).
Let text := pt_templateText (template s).

Lemma subCheck_none sb tPos lim (kind : ChunkKind) :
  noSubBlock BT sb tPos lim ->
  (if sb <? alen BT
   then let! subBtr := orTypeError (aget BT sb) in
        if bt_tPosBegin subBtr <? tPos then ret None
        else if bt_tPosBegin subBtr <? lim
             then ret (Some (bt_tPosBegin subBtr, subBlock))
             else ret (Some (lim, kind))
   else ret (Some (lim, kind))) s
  = (Ok (Some (lim, kind)), s).
Proof.
  intros [Hge|(b & Hb & H1 & H2)].
  - destruct (Z.ltb_spec sb (alen BT)); [lia|done].
  - pose proof (aget_Some _ _ _ Hb).
    destruct (Z.ltb_spec sb (alen BT)); [|lia].
    rewrite Hb. cbn [orTypeError]. unfold bind at 1, ret at 1.
    destruct (Z.ltb_spec (bt_tPosBegin b) tPos); [lia|].
    destruct (Z.ltb_spec (bt_tPosBegin b) lim); [lia|done].
Qed.

(** A reference that begins before the current position is passed. *)
Lemma writeChunks_pass f out bitr bn btr tPos sb v r :
  aget T v = Some r -> vr_tPosBegin r < tPos ->
  writeChunks (S f) out bitr bn btr tPos sb v s
  = writeChunks f out bitr bn btr tPos sb (v + 1) s.
Proof.
  intros Hr Hlt. pose proof (aget_Some _ _ _ Hr) as Hv.
  cbn [writeChunks]. rewrite bind_get_eq. cbv zeta. fold T BT.
  destruct (Z.eqb_spec v (-1)); [lia|].
  destruct (Z.ltb_spec v (alen T)); [|lia]. cbn [negb andb].
  rewrite Hr. cbn [orTypeError]. unfold bind, ret. cbv beta iota.
  destruct (Z.ltb_spec (vr_tPosBegin r) tPos); [|lia].
  reflexivity.
Qed.

(** A reference of the block is written: the text before it and its
    value. *)
Lemma writeChunks_variable f out bitr bn btr tPos sb v r tab :
  aget T v = Some r ->
  tPos <= vr_tPosBegin r < bt_tPosContentsEnd btr ->
  noSubBlock BT sb tPos (vr_tPosBegin r) ->
  vr_blockNo r = bn -> blockVarTab bitr = Some tab ->
  writeChunks (S f) out bitr bn btr tPos sb v s
  = writeChunks f
      (out ++ pushText text tPos (vr_tPosBegin r)
           ++ pushValue (mjoin (aget tab (vr_blockVarNo r))))
      bitr bn btr (vr_tPosEnd r) sb (v + 1) s.
Proof.
  intros Hr Hpos Hsub Hbn Htab. pose proof (aget_Some _ _ _ Hr) as Hv.
  cbn [writeChunks]. rewrite bind_get_eq. cbv zeta. fold T BT text.
  destruct (Z.eqb_spec v (-1)); [lia|].
  destruct (Z.ltb_spec v (alen T)); [|lia]. cbn [negb andb].
  rewrite Hr. cbn [orTypeError].
  unfold bind at 1. unfold bind at 1. unfold ret at 1.
  destruct (Z.ltb_spec (vr_tPosBegin r) tPos); [lia|].
  destruct (Z.ltb_spec (vr_tPosBegin r) (bt_tPosContentsEnd btr)); [|lia].
  unfold ret at 1. cbv iota beta.
  unfold bind at 1. rewrite (subCheck_none _ _ _ variable Hsub). cbv iota beta.
  unfold bind at 1, ret at 1. rewrite Hbn, Z.eqb_refl. cbn [assert].
  rewrite Htab. cbn [orTypeError]. unfold bind, ret. cbv beta iota zeta.
  rewrite out_pushText, out_pushValue, <- app_assoc. reflexivity.
Qed.

(** The end of the block: no reference and no block is left in it. *)
Lemma writeChunks_end f out bitr bn btr tPos sb v :
  (v = -1 \/ alen T <= v
   \/ exists r, aget T v = Some r /\ tPos <= vr_tPosBegin r
                /\ bt_tPosContentsEnd btr <= vr_tPosBegin r) ->
  noSubBlock BT sb tPos (bt_tPosContentsEnd btr) ->
  writeChunks (S f) out bitr bn btr tPos sb v s
  = (Ok (out ++ pushText text tPos (bt_tPosContentsEnd btr)), s).
Proof.
  intros Hv Hsub.
  cbn [writeChunks]. rewrite bind_get_eq. cbv zeta. fold T BT text.
  assert (Hr1 : (if negb (v =? -1) && (v <? alen T)
                 then let! vrtr := orTypeError (aget T v) in
                      if vr_tPosBegin vrtr <? tPos then ret None
                      else if vr_tPosBegin vrtr <? bt_tPosContentsEnd btr
                           then ret (Some (vr_tPosBegin vrtr, variable))
                           else ret (Some (bt_tPosContentsEnd btr, endOfBlock))
                 else ret (Some (bt_tPosContentsEnd btr, endOfBlock))) s
                = (Ok (Some (bt_tPosContentsEnd btr, endOfBlock)), s)).
  { destruct Hv as [->|[Hge|(r & Hr & H1 & H2)]].
    - done.
    - destruct (Z.ltb_spec v (alen T)); [lia|]. by rewrite andb_false_r.
    - pose proof (aget_Some _ _ _ Hr).
      destruct (Z.eqb_spec v (-1)); [lia|].
      destruct (Z.ltb_spec v (alen T)); [|lia]. cbn [negb andb].
      rewrite Hr. cbn [orTypeError]. unfold bind at 1, ret at 1.
      destruct (Z.ltb_spec (vr_tPosBegin r) tPos); [lia|].
      destruct (Z.ltb_spec (vr_tPosBegin r) (bt_tPosContentsEnd btr)); [lia|done]. }
  unfold bind at 1. rewrite Hr1. cbv iota beta.
  unfold bind at 1. rewrite (subCheck_none _ _ _ endOfBlock Hsub). cbv iota beta.
  rewrite out_pushText. reflexivity.
Qed.

(** A block of the block: the text before it and its instances. *)
Lemma writeChunks_block f out bitr bn btr tPos sb v b :
  (v = -1 \/ alen T <= v
   \/ exists r, aget T v = Some r /\ bt_tPosBegin b < vr_tPosBegin r) ->
  aget BT sb = Some b ->
  tPos <= bt_tPosBegin b < bt_tPosContentsEnd btr ->
  bt_parentBlockNo b = bn ->
  writeChunks (S f) out bitr bn btr tPos sb v s
  = (let! out2 := writeBlockInstances f (out ++ pushText text tPos (bt_tPosBegin b)) sb
                    (instanceLevel bitr) in
     writeChunks f out2 bitr bn btr (bt_tPosEnd b) (sb + 1) v) s.
Proof.
  intros Hv Hb Hpos Hpar. pose proof (aget_Some _ _ _ Hb) as Hsb.
  cbn [writeChunks]. rewrite bind_get_eq. cbv zeta. fold T BT text.
  assert (Hr1 : exists lim kind,
            (if negb (v =? -1) && (v <? alen T)
             then let! vrtr := orTypeError (aget T v) in
                  if vr_tPosBegin vrtr <? tPos then ret None
                  else if vr_tPosBegin vrtr <? bt_tPosContentsEnd btr
                       then ret (Some (vr_tPosBegin vrtr, variable))
                       else ret (Some (bt_tPosContentsEnd btr, endOfBlock))
             else ret (Some (bt_tPosContentsEnd btr, endOfBlock))) s
            = (Ok (Some (lim, kind)), s) /\ bt_tPosBegin b < lim).
  { destruct Hv as [->|[Hge|(r & Hr & H1)]].
    - exists (bt_tPosContentsEnd btr), endOfBlock. split; [done|lia].
    - exists (bt_tPosContentsEnd btr), endOfBlock. split; [|lia].
      destruct (Z.ltb_spec v (alen T)); [lia|]. by rewrite andb_false_r.
    - pose proof (aget_Some _ _ _ Hr).
      destruct (Z.eqb_spec v (-1)); [lia|].
      destruct (Z.ltb_spec v (alen T)); [|lia]. cbn [negb andb].
      rewrite Hr. cbn [orTypeError]. unfold bind at 1, ret at 1.
      destruct (Z.ltb_spec (vr_tPosBegin r) tPos); [lia|].
      destruct (Z.ltb_spec (vr_tPosBegin r) (bt_tPosContentsEnd btr)).
      + exists (vr_tPosBegin r), variable. split; [done|lia].
      + exists (bt_tPosContentsEnd btr), endOfBlock. split; [done|lia]. }
  destruct Hr1 as (lim & kind & Hr1 & Hlim).
  unfold bind at 1. rewrite Hr1. cbv iota beta.
  destruct (Z.ltb_spec sb (alen BT)); [|lia].
  rewrite Hb. cbn [orTypeError].
  unfold bind at 1. unfold bind at 1. unfold ret at 1.
  destruct (Z.ltb_spec (bt_tPosBegin b) tPos); [lia|].
  destruct (Z.ltb_spec (bt_tPosBegin b) lim); [|lia].
  unfold ret at 1. cbv iota beta.
  unfold bind at 1, ret at 1. rewrite Hpar, Z.eqb_refl. cbn [assert].
  unfold bind at 1, ret at 1. rewrite out_pushText. reflexivity.
Qed.
End Turns.

(** References that begin before the current position are passed, one in
    each turn. *)
Lemma writeChunks_passes (s : MiniTemplator) n f out bitr bn btr tPos sb v :
  0 <= v -> v + Z.of_nat n <= alen (pt_varRefTab (template s)) ->
  (forall i r, v <= i < v + Z.of_nat n ->
     aget (pt_varRefTab (template s)) i = Some r -> vr_tPosBegin r < tPos) ->
  writeChunks (n + f) out bitr bn btr tPos sb v s
  = writeChunks f out bitr bn btr tPos sb (v + Z.of_nat n) s.
Proof.
  revert v. induction n as [|n IH]; intros v Hv Hle Hall.
  { by rewrite Z.add_0_r. }
  destruct (aget_is_Some (pt_varRefTab (template s)) v) as [r Hr]; [lia|].
  change (S n + f)%nat with (S (n + f)).
  rewrite (writeChunks_pass s _ _ _ _ _ _ _ _ r Hr) by (apply (Hall v); [lia|done]).
  rewrite IH; [f_equal; lia|lia|lia|].
  intros i r' Hi. apply Hall. lia.
Qed.


(** * The tables of a template without nested blocks *)

Lemma alen_blockRefs lk j k l : alen (blockRefs lk j k l) = alen l.
Proof.
  revert k. induction l as [|r l IH]; intros k; simpl; [done|].
  by rewrite !alen_cons, IH.
Qed.

Lemma alen_refsOf lk j k items : alen (refsOf lk j k items) = refCount items.
Proof.
  revert j k. induction items as [|[r|b] items IH]; intros j k; simpl; [done|..].
  - by rewrite alen_cons, IH.
  - by rewrite alen_app, alen_blockRefs, IH.
Qed.

Lemma alen_blocksOf lk f items : alen (blocksOf lk f items) = blockCount items.
Proof.
  revert f. induction items as [|[r|b] items IH]; intros f; simpl; [done|..].
  - by rewrite IH.
  - by rewrite alen_cons, IH.
Qed.

Lemma refCount_nonneg items : 0 <= refCount items.
Proof.
  induction items as [|[r|b] items IH]; simpl; [done|lia|].
  pose proof (alen_nonneg (tb_refs b)). lia.
Qed.

Lemma blockCount_nonneg items : 0 <= blockCount items.
Proof. induction items as [|[r|b] items IH]; simpl; lia. Qed.

Lemma leadRefs_nonneg items : 0 <= leadRefs items.
Proof.
  induction items as [|[r|b] items IH]; simpl; [done|done|].
  pose proof (alen_nonneg (tb_refs b)). lia.
Qed.

Lemma refsOf_app lk j k d r :
  refsOf lk j k (d ++ r)
  = refsOf lk j k d ++ refsOf lk (j + blockCount d) (k + alen (mainRefs d)) r.
Proof.
  revert j k. induction d as [|[x|b] d IH]; intros j k; simpl.
  - change (alen (@nil (string * Z * Z))) with 0. by rewrite !Z.add_0_r.
  - rewrite IH, alen_cons. do 3 f_equal. lia.
  - rewrite IH, <- app_assoc. do 3 f_equal. lia.
Qed.

Lemma blocksOf_app lk f d r :
  blocksOf lk f (d ++ r) = blocksOf lk f d ++ blocksOf lk (f + refCount d) r.
Proof.
  revert f. induction d as [|[x|b] d IH]; intros f; simpl.
  - by rewrite Z.add_0_r.
  - rewrite IH. do 2 f_equal. lia.
  - rewrite IH. do 3 f_equal. lia.
Qed.

Lemma refCount_app d r : refCount (d ++ r) = refCount d + refCount r.
Proof. induction d as [|[x|b] d IH]; simpl; lia. Qed.

Lemma blockCount_app d r : blockCount (d ++ r) = blockCount d + blockCount r.
Proof. induction d as [|[x|b] d IH]; simpl; lia. Qed.

Lemma mainRefs_app d r : mainRefs (d ++ r) = mainRefs d ++ mainRefs r.
Proof. induction d as [|[x|b] d IH]; simpl; by rewrite ?IH. Qed.

Lemma firstMainRef_spec f items :
  firstMainRef f items = if decide (mainRefs items = []) then -1 else f + leadRefs items.
Proof.
  revert f. induction items as [|[x|b] items IH]; intros f; simpl.
  - done.
  - lia.
  - rewrite IH. destruct (decide _); lia.
Qed.

(** ** Positions *)

Lemma itemsSorted_le len p items : itemsSorted len p items -> p <= len.
Proof.
  revert p. induction items as [|[[[n b] e]|bk] items IH]; intros p; simpl; [done|..].
  - intros (H1 & H2 & H3%IH). lia.
  - intros (H1 & H2 & H3 & H4 & H5 & H6%IH). lia.
Qed.

Lemma blockRefs_positions lk j k q p l :
  refsSorted q p l ->
  Forall (fun r => p <= vr_tPosBegin r /\ vr_tPosBegin r < q) (blockRefs lk j k l).
Proof.
  revert k p. induction l as [|[[n b] e] l IH]; intros k p; simpl; [done|].
  intros (H1 & H2 & H3 & H4). constructor; [simpl; lia|].
  eapply Forall_impl; [by apply IH|]. simpl. lia.
Qed.

Lemma refsOf_begin lk j k len p items :
  itemsSorted len p items ->
  Forall (fun r => p <= vr_tPosBegin r) (refsOf lk j k items).
Proof.
  revert j k p. induction items as [|[[[n b] e]|bk] items IH]; intros j k p; simpl; [done|..].
  - intros (H1 & H2 & H3). constructor; [done|].
    eapply Forall_impl; [by apply IH|]. simpl. lia.
  - intros (H1 & H2 & H3 & H4 & H5 & H6). apply Forall_app. split.
    + eapply Forall_impl; [by eapply blockRefs_positions|]. simpl. lia.
    + eapply Forall_impl; [by apply IH|]. simpl. lia.
Qed.

Lemma blocksOf_begin lk f len p items :
  itemsSorted len p items ->
  Forall (fun b => p <= bt_tPosBegin b) (blocksOf lk f items).
Proof.
  revert f p. induction items as [|[[[n b] e]|bk] items IH]; intros f p; simpl; [done|..].
  - intros (H1 & H2 & H3). eapply Forall_impl; [by apply IH|]. simpl. lia.
  - intros (H1 & H2 & H3 & H4 & H5 & H6). constructor; [done|].
    eapply Forall_impl; [by apply IH|]. simpl. lia.
Qed.

Lemma Forall_aget {A} (P : A -> Prop) (l : list A) i x :
  Forall P l -> aget l i = Some x -> P x.
Proof.
  intros Hall Hx. rewrite Forall_forall in Hall. apply Hall.
  unfold aget in Hx. destruct (i <? 0); [done|]. by eapply list_elem_of_lookup_2.
Qed.

(** No block of [rest] is met before a position at or before [p]. *)
Lemma noSubBlock_rest lk f len p (pre rest : list BlockTabRec) items tPos lim :
  itemsSorted len p items -> rest = blocksOf lk f items ->
  tPos <= p -> lim <= p ->
  noSubBlock (pre ++ rest) (alen pre) tPos lim.
Proof.
  intros Hs -> H1 H2. pose proof (blocksOf_begin lk f len p items Hs) as Hall.
  destruct (blocksOf lk f items) as [|b l] eqn:Hb.
  - left. rewrite app_nil_r. lia.
  - right. exists b. rewrite aget_app_r, Z.sub_diag by lia. split; [done|].
    apply Forall_cons in Hall as [Hb1 _]. lia.
Qed.

(** ** The chain of the instances of a block *)

(** [writeBlockInstances] as in [writeBlockInstances_chain], with what it
    leaves of the cursors: those of the other blocks are kept. *)
Lemma writeBlockInstances_cursors (t : MiniTemplator) b lvl (body : Z -> list string)
    F c chain :
  linked (nextBlockInstNoOf (blockInstTab t)) c chain ->
  (forall i, i ∈ chain ->
     exists bitr, aget (blockInstTab t) i = Some bitr /\ parentInstLevel bitr = lvl) ->
  (forall i f out t2, i ∈ chain -> (F <= f)%nat -> same_but_cursors t t2 ->
     writeBlockInstance f out i t2 = (Ok (out ++ body i), t2)) ->
  forall out fuel t1,
    same_but_cursors t t1 -> cursorOf t1 b = Some c ->
    (List.length chain + F + 1 <= fuel)%nat ->
    returns (writeBlockInstances fuel out b lvl) t1
      (fun o t' => o = out ++ List.concat (map body chain) /\ same_but_cursors t t'
                   /\ forall j, j <> b ->
                        aget (blockDynTab t') j = aget (blockDynTab t1) j).
Proof.
  intros Hl. induction Hl as [|i nx rest Hi Hnx Hl IH];
    intros Hpar Hpure out fuel t1 Hc Hcur Hfuel;
    (destruct fuel as [|fuel]; [cbn in Hfuel; lia|]);
    unfold returns; cbn [writeBlockInstances];
    apply mspec_bind, mspec_get; unfold cursorOf in Hcur;
    (destruct (aget (blockDynTab t1) b) as [bdtr|] eqn:Hb; [|done]);
    cbn in Hcur; injection Hcur as Hcur; cbn [orTypeError];
    apply mspec_bind, mspec_ret; cbv zeta; rewrite Hcur.
  { cbn. by rewrite app_nil_r. }
  destruct (Z.eqb_spec i (-1)) as [|_]; [done|].
  destruct (Hpar i) as (bitr & Hbitr & Hlvl); [apply list_elem_of_here|].
  assert (Hinsts : blockInstTab t1 = blockInstTab t) by (by destruct Hc as (_ & _ & _ & <-)).
  rewrite Hinsts, Hbitr. cbn [orTypeError]. apply mspec_bind, mspec_ret.
  rewrite Hlvl, Z.leb_refl, Z.ltb_irrefl. cbn [assert]. apply mspec_bind, mspec_ret.
  eapply mspec_bind_ok.
  { apply Hpure; [apply list_elem_of_here| cbn in Hfuel; lia | done]. }
  apply mspec_bind, mspec_get. rewrite Hinsts, Hbitr. cbn [orTypeError].
  apply mspec_bind, mspec_ret. eapply mspec_bind_ok; [by apply updBlockDyn_ok|].
  eapply mspec_conseq; [apply (IH); clear IH|..].
  - intros j Hj. apply Hpar. by apply list_elem_of_further.
  - intros j f o t2 Hj. apply Hpure. by apply list_elem_of_further.
  - by apply same_but_cursors_upd.
  - unfold cursorOf. cbn [blockDynTab set_blockDynTab]. rewrite aget_aset_eq.
    + cbn. f_equal. unfold nextBlockInstNoOf in Hnx. rewrite Hbitr in Hnx. by injection Hnx.
    + by eapply aget_Some.
  - cbn in Hfuel. lia.
  - cbv beta. intros o t' (-> & Ht' & Hkeep). split; [|split; [done|]].
    + cbn [map List.concat]. by rewrite app_assoc.
    + intros j Hj. rewrite (Hkeep j Hj). cbn [blockDynTab set_blockDynTab].
      by rewrite aget_aset_ne.
  - done.
Qed.


(** * Rendering of a template without nested blocks *)

Lemma blockRefs_app lk j k l1 l2 :
  blockRefs lk j k (l1 ++ l2) = blockRefs lk j k l1 ++ blockRefs lk j (k + alen l1) l2.
Proof.
  revert k. induction l1 as [|r l1 IH]; intros k; simpl.
  - change (alen (@nil (string * Z * Z))) with 0. by rewrite Z.add_0_r.
  - rewrite IH, alen_cons. do 3 f_equal. lia.
Qed.

Lemma refsOf_begin_block lk j k len p bk rest :
  itemsSorted len p (IBlock bk :: rest) ->
  Forall (fun r => tb_contentsBegin bk <= vr_tPosBegin r)
    (refsOf lk j k (IBlock bk :: rest)).
Proof.
  simpl. intros (H1 & H2 & H3 & H4 & H5 & H6). apply Forall_app. split.
  - eapply Forall_impl; [by eapply blockRefs_positions|]. simpl. lia.
  - eapply Forall_impl; [by eapply refsOf_begin|]. simpl. lia.
Qed.

Lemma mspec_same {S A} (m m' : M S A) (s : S) Q E :
  m s = m' s -> mspec m' s Q E -> mspec m s Q E.
Proof. unfold mspec. by intros ->. Qed.

Section Flat.
Variable pt : ParsedTemplate.
Variable items : list item.
Hypothesis Hflat : flatTemplate pt items.

Let lk := lookupVariableName pt.
Let text := pt_templateText pt.
Let len := Js.strlen text.

(** ** The instances of a block *)

Section Block.
Variables (done rest : list item) (bk : topBlock) (p : Z).
Hypothesis Hitems : items = done ++ IBlock bk :: rest.
Hypothesis Hsorted : itemsSorted len p (IBlock bk :: rest).

Let j := 1 + blockCount done.
Let D := refCount done.
Let btr := topBlockRecord lk D bk.

Lemma block_table :
  pt_varRefTab pt
  = refsOf lk 1 0 done
    ++ blockRefs lk j 0 (tb_refs bk)
    ++ refsOf lk (j + 1) (alen (mainRefs done)) rest.
Proof.
  rewrite (ft_refs _ _ Hflat), Hitems, refsOf_app. fold lk. cbn [refsOf].
  subst j. by rewrite Z.add_0_l.
Qed.

Lemma block_blocks :
  pt_blockTab pt
  = (mainBlockRecord lk text items :: blocksOf lk 0 done ++ [btr])
    ++ blocksOf lk (D + alen (tb_refs bk)) rest.
Proof.
  rewrite (ft_blocks _ _ Hflat). fold lk text. rewrite Hitems at 2.
  rewrite blocksOf_app. cbn [blocksOf]. rewrite Z.add_0_l.
  cbn [app]. by rewrite <- app_assoc.
Qed.

Lemma block_record : aget (pt_blockTab pt) j = Some btr.
Proof.
  rewrite block_blocks.
  pose proof (blockCount_nonneg done).
  rewrite aget_app_l
    by (rewrite alen_cons, alen_app, alen_blocksOf, alen_singleton; subst j; lia).
  change (mainBlockRecord lk text items :: blocksOf lk 0 done ++ [btr])
    with ([mainBlockRecord lk text items] ++ (blocksOf lk 0 done ++ [btr])).
  rewrite aget_app_r by (rewrite alen_singleton; subst j; lia).
  rewrite aget_app_r by (rewrite alen_singleton, alen_blocksOf; subst j; lia).
  rewrite alen_singleton, alen_blocksOf.
  replace (j - 1 - blockCount done) with 0 by (subst j; lia). done.
Qed.

Lemma block_chunks (t2 : MiniTemplator) (bitr : BlockInstTabRec) :
  template t2 = pt ->
  (tb_refs bk <> [] -> is_Some (blockVarTab bitr)) ->
  forall l2 l1 out tPos fuel,
    tb_refs bk = l1 ++ l2 ->
    refsSorted (tb_contentsEnd bk) tPos l2 -> tPos <= tb_contentsEnd bk ->
    (List.length l2 < fuel)%nat ->
    writeChunks fuel out bitr j btr tPos (j + 1)
      (match tb_refs bk with [] => -1 | _ => D + alen l1 end) t2
    = (Ok (out ++ chunksUpTo (valueAt (blockVarTab bitr)) text tPos (tb_contentsEnd bk)
                    (alen l1) l2), t2).
Proof.
  intros Ht Htab. pose proof Hsorted as Hs'. cbn [itemsSorted] in Hs'.
  destruct Hs' as (H1 & H2 & H3 & H4 & H5 & H6).
  pose proof (refCount_nonneg done) as HD. pose proof (blockCount_nonneg done) as Hbc.
  induction l2 as [|[[n b] e] l2 IH]; intros l1 out tPos fuel Hl Hs HtPos Hfuel;
    (destruct fuel as [|fuel]; [simpl in Hfuel; lia|]).
  - rewrite app_nil_r in Hl. subst l1.
    rewrite writeChunks_end; rewrite ?Ht; fold text; [done|..].
    + destruct (tb_refs bk) as [|r0 l0] eqn:Hrefs; [by left|]. right.
      pose proof (alen_nonneg (r0 :: l0)) as Hl0.
      destruct (aget (pt_varRefTab pt) (D + alen (r0 :: l0))) as [r|] eqn:Hr.
      * right. exists r. split; [done|].
        rewrite block_table, Hrefs in Hr.
        rewrite aget_app_r in Hr by (rewrite alen_refsOf; fold D; lia).
        rewrite aget_app_r in Hr by (rewrite alen_refsOf, alen_blockRefs; fold D; lia).
        pose proof (refsOf_begin lk (j + 1) (alen (mainRefs done)) len _ rest H6) as Hall.
        pose proof (Forall_aget _ _ _ _ Hall Hr) as Hb. cbn in Hb.
        cbn [btr topBlockRecord bt_tPosContentsEnd]. lia.
      * left. apply aget_None in Hr. lia.
    + rewrite block_blocks.
      replace (j + 1) with (alen (mainBlockRecord lk text items :: blocksOf lk 0 done ++ [btr]))
        by (rewrite alen_cons, alen_app, alen_blocksOf, alen_singleton; subst j; lia).
      eapply noSubBlock_rest; [exact H6|done|lia|].
      cbn [btr topBlockRecord bt_tPosContentsEnd]. lia.
  - simpl in Hs. destruct Hs as (Hs1 & Hs2 & Hs3 & Hs4).
    destruct (tb_refs bk) as [|r0 l0] eqn:Hrefs; [by destruct l1|].
    destruct Htab as [tab Htab']; [done|].
    pose proof (alen_nonneg l1) as Hl1.
    assert (Hr : aget (pt_varRefTab pt) (D + alen l1)
                 = Some (mkVarRef (lk n) b e j (alen l1))).
    { rewrite block_table, Hrefs, Hl.
      rewrite aget_app_r by (rewrite alen_refsOf; fold D; lia).
      rewrite alen_refsOf. fold D. replace (D + alen l1 - D) with (alen l1) by lia.
      rewrite aget_app_l
        by (rewrite alen_blockRefs, alen_app, alen_cons; pose proof (alen_nonneg l2); lia).
      rewrite blockRefs_app, aget_app_r by (rewrite alen_blockRefs; lia).
      rewrite alen_blockRefs, Z.sub_diag. reflexivity. }
    rewrite (writeChunks_variable t2 _ _ _ _ _ _ _ _ (mkVarRef (lk n) b e j (alen l1)) tab);
      rewrite ?Ht; fold text; try done.
    + cbn [vr_tPosBegin vr_tPosEnd vr_blockVarNo].
      pose proof (IH (l1 ++ [(n, b, e)])
                     (out ++ pushText text tPos b ++ pushValue (mjoin (aget tab (alen l1))))
                     e fuel) as IH'.
      rewrite alen_app, alen_singleton in IH'.
      replace (D + alen l1 + 1) with (D + (alen l1 + 1)) by lia.
      rewrite IH'.
      * cbn [chunksUpTo fst snd]. rewrite Htab'. cbn [valueAt].
        by rewrite <- !app_assoc.
      * by rewrite <- app_assoc.
      * done.
      * lia.
      * simpl in Hfuel. lia.
    + cbn [vr_tPosBegin btr topBlockRecord bt_tPosContentsEnd]. lia.
    + cbn [vr_tPosBegin]. rewrite block_blocks, Hrefs.
      replace (j + 1) with (alen (mainBlockRecord lk text items :: blocksOf lk 0 done ++ [btr]))
        by (rewrite alen_cons, alen_app, alen_blocksOf, alen_singleton; subst j; lia).
      eapply noSubBlock_rest; [exact H6|done|lia|lia].
Qed.

(** [writeBlockInstance] on an instance of the block pushes the chunks
    of its contents and leaves the session as it is. *)
Lemma block_instance (t2 : MiniTemplator) i (bitr : BlockInstTabRec) f out :
  template t2 = pt -> aget (blockInstTab t2) i = Some bitr ->
  bi_blockNo bitr = j ->
  (tb_refs bk <> [] -> is_Some (blockVarTab bitr)) ->
  (List.length (tb_refs bk) + 2 <= f)%nat ->
  writeBlockInstance f out i t2 = (Ok (out ++ blockChunks text bk bitr), t2).
Proof.
  intros Ht Hi Hj Htab Hf. destruct f as [|f]; [lia|].
  cbn [writeBlockInstance]. rewrite bind_get_eq, Hi. cbn [orTypeError].
  unfold bind at 1, ret at 1. cbv zeta. rewrite Hj, Ht, block_record.
  cbn [orTypeError]. unfold bind at 1, ret at 1.
  pose proof (block_chunks t2 bitr Ht Htab (tb_refs bk) [] out (tb_contentsBegin bk) f
                eq_refl) as Hc.
  change (alen (@nil (string * Z * Z))) with 0 in Hc. rewrite Z.add_0_r in Hc.
  cbn [btr topBlockRecord bt_tPosContentsBegin bt_firstVarRefNo] in *.
  pose proof Hsorted as Hs'. cbn [itemsSorted] in Hs'.
  destruct Hs' as (H1 & H2 & H3 & H4 & H5 & H6).
  apply Hc; [done|done|lia].
Qed.
End Block.
(** ** The main block *)

Section Main.
Variable s1 : MiniTemplator.
Variable bitr0 : BlockInstTabRec.
Variable rows : Z -> list string.
Variable R : nat.
Hypothesis Hs1 : template s1 = pt.
Hypothesis Hlevel : instanceLevel bitr0 = 0.
Hypothesis Htab0 : mainRefs items <> [] -> is_Some (blockVarTab bitr0).
Hypothesis Hrows : forall j out fuel (s : MiniTemplator),
  1 <= j <= blockCount items -> same_but_cursors s1 s ->
  aget (blockDynTab s) j = aget (blockDynTab s1) j -> (R <= fuel)%nat ->
  returns (writeBlockInstances fuel out j 0) s
    (fun o s' => o = out ++ rows j /\ same_but_cursors s1 s'
                 /\ forall j', j' <> j ->
                      aget (blockDynTab s') j' = aget (blockDynTab s) j').

Let main := mainBlockRecord lk text items.

(** The references of the blocks that are written are passed. *)
Lemma main_passes done rest out tPos v fuel (s : MiniTemplator) :
  items = done ++ rest -> template s = pt ->
  nextRefOk pt items done rest tPos v ->
  (List.length rest + Z.to_nat (refCount items - v) + 1 + R <= fuel)%nat ->
  exists v' fuel',
    writeChunks fuel out bitr0 0 main tPos (1 + blockCount done) v s
    = writeChunks fuel' out bitr0 0 main tPos (1 + blockCount done) v' s
    /\ ((v' = -1 /\ mainRefs items = [])
        \/ (refCount done <= v' <= refCount done + leadRefs rest /\ mainRefs items <> []))
    /\ (List.length rest + Z.to_nat (refCount items - v') + 1 + R <= fuel')%nat.
Proof.
  intros Hitems Ht Hv Hfuel.
  assert (Hcount : refCount items = refCount done + refCount rest).
  { by rewrite Hitems, refCount_app. }
  pose proof (refCount_nonneg rest) as Hrest. pose proof (refCount_nonneg done) as Hdone.
  destruct Hv as [[-> Hnil]|(Hrange & Hne & Hskip)].
  { exists (-1), fuel. split; [done|]. split; [by left|done]. }
  destruct (decide (v < refCount done)) as [Hlt|Hge].
  - set (n := Z.to_nat (refCount done - v)).
    exists (refCount done), (fuel - n)%nat. split; [|split].
    + replace fuel with (n + (fuel - n))%nat at 1 by lia.
      rewrite writeChunks_passes; rewrite ?Ht.
      * f_equal. lia.
      * lia.
      * rewrite (ft_refs _ _ Hflat), alen_refsOf. lia.
      * intros i r Hi. apply Hskip. lia.
    + right. pose proof (leadRefs_nonneg rest). split; [lia|done].
    + lia.
  - exists v, fuel. split; [done|]. split; [|done]. right. split; [lia|done].
Qed.

Lemma main_tables done rest :
  items = done ++ rest ->
  pt_varRefTab pt
  = refsOf lk 1 0 done ++ refsOf lk (1 + blockCount done) (alen (mainRefs done)) rest
  /\ pt_blockTab pt = (main :: blocksOf lk 0 done) ++ blocksOf lk (refCount done) rest
  /\ alen (main :: blocksOf lk 0 done) = 1 + blockCount done.
Proof.
  intros Hitems. split; [|split].
  - rewrite (ft_refs _ _ Hflat). fold lk. rewrite Hitems at 1. by rewrite refsOf_app.
  - rewrite (ft_blocks _ _ Hflat). fold lk text main. rewrite Hitems at 1.
    by rewrite blocksOf_app.
  - by rewrite alen_cons, alen_blocksOf.
Qed.

(** The chunks of the main block: the text between the items, the values
    of its references, and the instances of its blocks. *)
Lemma main_chunks rest : forall done out tPos v fuel (s : MiniTemplator),
  items = done ++ rest -> itemsSorted len tPos rest ->
  same_but_cursors s1 s ->
  (forall j, 1 + blockCount done <= j ->
     aget (blockDynTab s) j = aget (blockDynTab s1) j) ->
  nextRefOk pt items done rest tPos v ->
  (List.length rest + Z.to_nat (refCount items - v) + 1 + R <= fuel)%nat ->
  returns (writeChunks fuel out bitr0 0 main tPos (1 + blockCount done) v) s
    (fun o s' => o = out ++ chunksItems (valueAt (blockVarTab bitr0)) rows text tPos
                           (1 + blockCount done) (alen (mainRefs done)) rest
                 /\ same_but_cursors s1 s').
Proof.
  induction rest as [|it rest IH]; intros done out tPos v fuel s Hitems Hsorted Hs Hcur Hv Hfuel.
  all: assert (Ht : template s = pt) by (destruct Hs as (<- & _); done).
  all: destruct (main_passes done _ out tPos v fuel s Hitems Ht Hv Hfuel)
         as (v' & fuel' & Hpass & Hv' & Hfuel').
  all: unfold returns; eapply mspec_same; [exact Hpass|].
  all: clear v fuel Hv Hfuel Hpass.
  all: destruct (main_tables done _ Hitems) as (HT & HBT & Hlen).
  all: pose proof (refCount_nonneg done) as HD; pose proof (blockCount_nonneg done) as Hbc.
  all: destruct fuel' as [|f]; [lia|].
  - (* the end of the text *)
    rewrite app_nil_r in Hitems. subst done.
    pose proof (writeChunks_end s f out bitr0 0 main tPos (1 + blockCount items) v') as Hturn.
    rewrite Ht in Hturn. eapply mspec_eq; [apply Hturn|].
    + destruct Hv' as [[-> _]|[Hrange _]]; [by left|]. right. left.
      rewrite (ft_refs _ _ Hflat), alen_refsOf. lia.
    + left. rewrite (ft_blocks _ _ Hflat), alen_cons, alen_blocksOf. lia.
    + split; [done|]. exact Hs.
  - destruct it as [[[n b] e]|bk].
    + (* a reference of the main block *)
      cbn [itemsSorted fst snd] in Hsorted. destruct Hsorted as (Hp1 & Hp2 & Hp3).
      pose proof (itemsSorted_le _ _ _ Hp3) as Hle.
      assert (Hne : mainRefs items <> []).
      { rewrite Hitems, mainRefs_app. cbn [mainRefs]. by destruct (mainRefs done). }
      destruct Hv' as [[_ Hnil]|[Hrange _]]; [done|].
      cbn [leadRefs] in Hrange. assert (v' = refCount done) as -> by lia.
      destruct (Htab0 Hne) as [tab Htab].
      assert (Hr : aget (pt_varRefTab pt) (refCount done)
                   = Some (mkVarRef (lk n) b e 0 (alen (mainRefs done)))).
      { rewrite HT, aget_app_r by (rewrite alen_refsOf; lia).
        rewrite alen_refsOf, Z.sub_diag. reflexivity. }
      pose proof (writeChunks_variable s f out bitr0 0 main tPos (1 + blockCount done)
                    (refCount done) (mkVarRef (lk n) b e 0 (alen (mainRefs done))) tab)
        as Hturn.
      rewrite Ht in Hturn. cbn [vr_tPosBegin vr_tPosEnd vr_blockVarNo vr_blockNo] in Hturn.
      eapply mspec_same; [apply Hturn; clear Hturn|]; try done.
      * cbn [main mainBlockRecord bt_tPosContentsEnd]. fold text len. lia.
      * rewrite HBT, <- Hlen. cbn [blocksOf].
        eapply noSubBlock_rest; [exact Hp3|done|lia|lia].
      * pose proof (IH (done ++ [IRef (n, b, e)])
                      (out ++ pushText text tPos b
                           ++ pushValue (mjoin (aget tab (alen (mainRefs done)))))
                      e (refCount done + 1) f s) as IH'.
        assert (Hbc' : blockCount (done ++ [IRef (n, b, e)]) = blockCount done).
        { rewrite blockCount_app. cbn [blockCount]. lia. }
        assert (Hrc' : refCount (done ++ [IRef (n, b, e)]) = refCount done + 1).
        { rewrite refCount_app. cbn [refCount]. lia. }
        rewrite Hbc', mainRefs_app, alen_app in IH'. cbn [mainRefs] in IH'.
        rewrite alen_singleton in IH'. fold text.
        eapply mspec_conseq; [apply IH'| |done].
        -- by rewrite <- app_assoc.
        -- done.
        -- done.
        -- done.
        -- right. rewrite Hrc'. pose proof (leadRefs_nonneg rest).
           split; [lia|]. split; [done|]. intros i r Hi. lia.
        -- cbn [List.length] in Hfuel'. lia.
        -- cbv beta. intros o s' [-> Hs']. split; [|done].
           cbn [chunksItems fst snd]. rewrite Htab. cbn [valueAt].
           by rewrite <- !app_assoc.
    + (* a block *)
      pose proof Hsorted as Hsorted'. cbn [itemsSorted] in Hsorted.
      destruct Hsorted as (Hp1 & Hp2 & Hp3 & Hp4 & Hp5 & Hp6).
      pose proof (itemsSorted_le _ _ _ Hp6) as Hle.
      assert (Hb : aget (pt_blockTab pt) (1 + blockCount done)
                   = Some (topBlockRecord lk (refCount done) bk)).
      { rewrite HBT, aget_app_r by lia. by rewrite Hlen, Z.sub_diag. }
      assert (Hbc' : blockCount (done ++ [IBlock bk]) = blockCount done + 1).
      { rewrite blockCount_app. cbn [blockCount]. lia. }
      assert (Hrc' : refCount (done ++ [IBlock bk]) = refCount done + alen (tb_refs bk)).
      { rewrite refCount_app. cbn [refCount]. lia. }
      assert (Hmr' : mainRefs (done ++ [IBlock bk]) = mainRefs done).
      { rewrite mainRefs_app. cbn [mainRefs]. by rewrite app_nil_r. }
      assert (Hcount : blockCount items = blockCount done + 1 + blockCount rest).
      { rewrite Hitems, blockCount_app. cbn [blockCount]. lia. }
      pose proof (blockCount_nonneg rest) as Hbr.
      pose proof (writeChunks_block s f out bitr0 0 main tPos (1 + blockCount done) v'
                    (topBlockRecord lk (refCount done) bk)) as Hturn.
      rewrite Ht in Hturn. cbn [topBlockRecord bt_tPosBegin bt_tPosEnd bt_parentBlockNo] in Hturn.
      eapply mspec_same; [apply Hturn; clear Hturn|]; try done.
      * destruct Hv' as [[-> _]|[Hrange _]]; [by left|]. right.
        destruct (aget (pt_varRefTab pt) v') as [r|] eqn:Hr.
        -- right. exists r. split; [done|].
           rewrite HT in Hr. rewrite aget_app_r in Hr by (rewrite alen_refsOf; lia).
           pose proof (refsOf_begin_block lk (1 + blockCount done) (alen (mainRefs done))
                         len tPos bk rest Hsorted') as Hall.
           pose proof (Forall_aget _ _ _ _ Hall Hr) as Hpos. cbn in Hpos. lia.
        -- left. apply aget_None in Hr. lia.
      * cbn [main mainBlockRecord bt_tPosContentsEnd]. fold text len. lia.
      * rewrite Hlevel. fold text. apply mspec_bind.
        eapply mspec_conseq; [apply Hrows| |done].
        -- lia.
        -- done.
        -- apply Hcur. lia.
        -- cbn [List.length] in Hfuel'. lia.
        -- cbv beta. intros o s2 (-> & Hs2 & Hkeep).
           pose proof (IH (done ++ [IBlock bk])
                         ((out ++ pushText text tPos (tb_begin bk))
                            ++ rows (1 + blockCount done))
                         (tb_end bk) v' f s2) as IH'.
           rewrite Hbc', Hmr' in IH'.
           replace (1 + blockCount done + 1) with (1 + (blockCount done + 1)) by lia.
           eapply mspec_conseq; [apply IH'| |done].
           ++ by rewrite <- app_assoc.
           ++ done.
           ++ done.
           ++ intros j Hj. rewrite Hkeep by lia. apply Hcur. lia.
           ++ destruct Hv' as [Hnone|[Hrange Hne]]; [by left|]. right.
              cbn [leadRefs] in Hrange. rewrite Hrc'. split; [lia|]. split; [done|].
              intros i r Hi Hr. rewrite HT in Hr.
              rewrite aget_app_r in Hr by (rewrite alen_refsOf; lia).
              cbn [refsOf] in Hr.
              rewrite aget_app_l in Hr by (rewrite alen_refsOf, alen_blockRefs; lia).
              pose proof (blockRefs_positions lk (1 + blockCount done) 0 _ _ _ Hp4) as Hall.
              pose proof (Forall_aget _ _ _ _ Hall Hr) as Hpos. cbn in Hpos. lia.
           ++ cbn [List.length] in Hfuel'. lia.
           ++ cbv beta. intros o s' [-> Hs']. split; [|done].
              cbn [chunksItems]. rewrite <- !app_assoc. do 3 f_equal. f_equal. lia.
Qed.
End Main.
End Flat.


(** * The sessions of a template without nested blocks *)

Lemma blocksOf_records lk f items :
  Forall (fun b => bt_parentBlockNo b = 0 /\ bt_nextWithSameName b = -1)
    (blocksOf lk f items).
Proof.
  revert f. induction items as [|[r|b] items IH]; intros f; simpl; [done|by apply IH|].
  constructor; [done|apply IH].
Qed.

Section Built.
Variable pt : ParsedTemplate.
Variable items : list item.
Hypothesis Hflat : flatTemplate pt items.
Hypothesis Hok : template_ok pt.

Let lk := lookupVariableName pt.
Let text := pt_templateText pt.

Lemma flat_record j btr :
  aget (pt_blockTab pt) j = Some btr ->
  bt_nextWithSameName btr = -1
  /\ (j = 0 /\ btr = mainBlockRecord lk text items \/ 1 <= j /\ bt_parentBlockNo btr = 0).
Proof.
  rewrite (ft_blocks _ _ Hflat). fold lk text. intros Hb.
  pose proof (aget_Some _ _ _ Hb) as Hj.
  destruct (decide (j = 0)) as [->|Hne].
  - cbn in Hb. injection Hb as <-. split; [done|by left].
  - change (mainBlockRecord lk text items :: blocksOf lk 0 items)
      with ([mainBlockRecord lk text items] ++ blocksOf lk 0 items) in Hb.
    rewrite aget_app_r in Hb by (rewrite alen_singleton; lia).
    pose proof (Forall_aget _ _ _ _ (blocksOf_records lk 0 items) Hb) as [H1 H2].
    split; [done|]. right. split; [lia|done].
Qed.

Lemma flat_parents : parents_valid pt.
Proof.
  intros i btr Hi. destruct (flat_record i btr Hi) as (_ & [[-> ->]|[Hj Hp]]).
  - by left.
  - right. rewrite Hp. apply aget_Some in Hi. lia.
Qed.

Lemma linked_end_nil next l : linked next (-1) l -> l = [].
Proof. by inversion 1. Qed.

(** A name that is looked up to a block has this one definition, which
    is not the main block. *)
Lemma flat_unique n :
  lookupBlockName pt n <> -1 ->
  definitionsNamed (pt_blockTab pt) n = [lookupBlockName pt n]
  /\ 1 <= lookupBlockName pt n.
Proof.
  intros Hne. pose proof (bi_names _ _ (to_blocks _ Hok) n) as Hl.
  pose proof (main_block_unnamed pt n Hok) as Hmain.
  inversion Hl as [Heq|i nx rest Hi Hnx Hrest Heq1 Heq2]; [congruence|].
  unfold nextWithSameNameOf in Hnx.
  destruct (aget (pt_blockTab pt) (lookupBlockName pt n)) as [btr|] eqn:Hb; [|done].
  cbn in Hnx. injection Hnx as <-.
  destruct (flat_record _ _ Hb) as (Hnext & Hcase).
  rewrite Hnext in Hrest. apply linked_end_nil in Hrest. subst rest.
  assert (Hdefs : definitionsNamed (pt_blockTab pt) n = [lookupBlockName pt n]).
  { rewrite <- (rev_involutive (definitionsNamed (pt_blockTab pt) n)), <- Heq2. done. }
  split; [done|].
  destruct Hcase as [[H0 _]|[H1 _]]; [|done].
  exfalso. apply Hmain. rewrite <- Heq2, H0. apply list_elem_of_here.
Qed.

Lemma built_new : built pt [] (newMiniTemplator pt).
Proof.
  constructor; try done.
  - apply session_inv_new.
  - exists (mkBlockDyn 0 (-1) (-1) (-1)). split; [|done].
    cbn [newMiniTemplator blockDynTab]. rewrite (ft_blocks _ _ Hflat). reflexivity.
Qed.

Lemma built_same added (t t' : MiniTemplator) :
  same_instances t t' -> built pt added t -> built pt added t'.
Proof.
  intros (Ht & Hd & Hi) [H1 H2 H3 H4]. constructor.
  - by rewrite <- Ht.
  - by apply (session_inv_same_instances t).
  - unfold instancesAt. by rewrite <- Hd.
  - by rewrite <- Hi.
Qed.

(** [addBlock] and [addBlockOpt] of a name that is looked up to a
    block. *)
Lemma built_add added (t : MiniTemplator) n fuel :
  built pt added t -> lookupBlockName pt n <> -1 -> (1 <= fuel)%nat ->
  exists t',
    addBlock fuel n t = (Ok tt, t') /\ addBlockOpt fuel n t = (Ok tt, t')
    /\ built pt (added ++ [(lookupBlockName pt n, varValuesTab t)]) t'
    /\ varValuesTab t' = varValuesTab t.
Proof.
  intros [Ht Hinv (d0 & Hd0 & Hz) Hinsts] Hne Hfuel.
  destruct (flat_unique n Hne) as [Hdefs Hpos].
  set (j := lookupBlockName pt n) in *.
  destruct (addBlock_unique fuel t n j) as (btr & bdtr & Hbtr & Hbdtr & Hrun & Hinv');
    rewrite ?Ht; try done.
  { apply flat_parents. }
  { apply Hok. }
  rewrite Ht in Hbtr. destruct (flat_record _ _ Hbtr) as (_ & [[H0 _]|[_ Hpar]]); [lia|].
  exists (afterAddBlockByNo t j btr bdtr). split; [done|]. split.
  { rewrite addBlockOpt_unfold. rewrite addBlock_unfold in Hrun. rewrite Ht in *. fold j in Hrun |- *.
    by destruct (Z.eqb_spec j (-1)). }
  split; [|done]. constructor.
  - by rewrite afterAddBlockByNo_template.
  - done.
  - exists d0. split; [|done]. cbn [afterAddBlockByNo blockDynTab].
    rewrite aget_aset_ne by lia. done.
  - cbn [afterAddBlockByNo blockInstTab]. rewrite !map_app.
    rewrite (linkLast_map instView) by done. rewrite Hinsts. f_equal.
    unfold viewOf, instView.
    cbn [map bi_blockNo parentInstLevel blockVarTab fst snd].
    rewrite Hbtr, Hpar. change (0 =? -1) with false. cbv iota.
    rewrite aget_aset_ne, Hd0 by lia. by rewrite Hz.
Qed.

Lemma built_call added (t : MiniTemplator) c fuel :
  built pt added t -> isBuildCall c = true -> (1 <= fuel)%nat ->
  built pt (added ++ addedByCall c t) (snd (runCall fuel c t)).
Proof.
  intros Hb Hc Hfuel. pose proof (bu_template _ _ _ Hb) as Ht.
  destruct c as [n v|n v|n|n| |]; try done; cbn [runCall addedByCall]; rewrite ?app_nil_r.
  - apply (built_same added t); [|done].
    pose proof (setVariable_frame n v t) as H. unfold mspec in H. unfold bind.
    destruct (setVariable n v t) as [[[]|e] t1]; done.
  - apply (built_same added t); [|done].
    pose proof (setVariableOpt_frame n v t) as H. unfold mspec in H. unfold bind.
    destruct (setVariableOpt n v t) as [[[]|e] t1]; done.
  - rewrite Ht. destruct (Z.eqb_spec (lookupBlockName pt n) (-1)) as [Hun|Hne].
    + rewrite app_nil_r. unfold bind.
      rewrite (proj1 (addBlock_unknown t n fuel ltac:(by rewrite Ht))). done.
    + destruct (built_add added t n fuel Hb Hne Hfuel) as (t' & Hrun & _ & Hb' & _).
      unfold bind. by rewrite Hrun.
  - rewrite Ht. destruct (Z.eqb_spec (lookupBlockName pt n) (-1)) as [Hun|Hne].
    + rewrite app_nil_r. unfold bind.
      rewrite (proj2 (addBlock_unknown t n fuel ltac:(by rewrite Ht))). done.
    + destruct (built_add added t n fuel Hb Hne Hfuel) as (t' & _ & Hrun & Hb' & _).
      unfold bind. by rewrite Hrun.
Qed.

(** The sessions that calls which set variables and add blocks reach from
    a new session. *)
Lemma built_calls fuel calls : forall added (t : MiniTemplator),
  built pt added t -> forallb isBuildCall calls = true -> (1 <= fuel)%nat ->
  built pt (added ++ addedBy fuel calls t) (snd (runCalls fuel calls t)).
Proof.
  induction calls as [|c calls IH]; intros added t Hb Hcalls Hfuel.
  { cbn. by rewrite app_nil_r. }
  cbn [forallb] in Hcalls. apply andb_prop in Hcalls as [Hc Hcalls].
  rewrite runCalls_cons. cbn [addedBy]. rewrite app_assoc.
  apply IH; [|done|done]. by apply built_call.
Qed.

(** [N] calls of [addBlock n] add [N] instances of the block of the name
    [n], each with the values of the variables as they are. *)
Lemma addedBy_repeated fuel n N : forall added (t : MiniTemplator),
  built pt added t -> lookupBlockName pt n <> -1 -> (1 <= fuel)%nat ->
  addedBy fuel (replicate N (AddBlock n)) t
  = replicate N (lookupBlockName pt n, varValuesTab t).
Proof.
  induction N as [|N IH]; intros added t Hb Hne Hfuel; [done|].
  cbn [replicate addedBy addedByCall]. rewrite (bu_template _ _ _ Hb).
  destruct (Z.eqb_spec (lookupBlockName pt n) (-1)) as [|_]; [done|].
  destruct (built_add added t n fuel Hb Hne Hfuel) as (t' & Hrun & _ & Hb' & Hvals).
  cbn [runCall]. unfold bind at 1. rewrite Hrun. cbn [ret snd app].
  rewrite (IH _ t' Hb' Hne Hfuel), Hvals. done.
Qed.

Lemma addedBy_app fuel calls1 calls2 (t : MiniTemplator) :
  addedBy fuel (calls1 ++ calls2) t
  = addedBy fuel calls1 t ++ addedBy fuel calls2 (snd (runCalls fuel calls1 t)).
Proof.
  revert t. induction calls1 as [|c calls1 IH]; intros t; [done|].
  cbn [app addedBy]. rewrite IH, runCalls_cons, app_assoc. done.
Qed.

Lemma addedBy_length fuel calls : forall (t : MiniTemplator),
  (List.length (addedBy fuel calls t) <= List.length calls)%nat.
Proof.
  induction calls as [|c calls IH]; intros t; [done|].
  cbn [addedBy List.length]. rewrite length_app.
  specialize (IH (snd (runCall fuel c t))).
  assert (List.length (addedByCall c t) <= 1)%nat; [|lia].
  destruct c; cbn; try lia; destruct (_ =? _); cbn; lia.
Qed.
End Built.


(** * The output of a template without nested blocks *)

(** ** The blocks of the items *)

Lemma nthBlock_split items : forall j bk,
  nthBlock items j = Some bk ->
  exists done rest, items = done ++ IBlock bk :: rest /\ j = 1 + blockCount done.
Proof.
  induction items as [|[r|b] items IH]; intros j bk; cbn [nthBlock]; [done|..].
  - intros (done & rest & -> & ->)%IH. exists (IRef r :: done), rest. done.
  - destruct (Z.eqb_spec j 1) as [->|Hne].
    + intros [= ->]. exists [], items. done.
    + intros (done & rest & -> & Hj)%IH. exists (IBlock b :: done), rest.
      split; [done|]. cbn [blockCount]. lia.
Qed.

Lemma nthBlock_range items : forall j,
  1 <= j <= blockCount items -> is_Some (nthBlock items j).
Proof.
  induction items as [|[r|b] items IH]; intros j; cbn [nthBlock blockCount]; [lia|..].
  - apply IH.
  - intros Hj. destruct (Z.eqb_spec j 1); [done|]. apply IH. lia.
Qed.

Lemma nthBlock_app done bk rest :
  nthBlock (done ++ IBlock bk :: rest) (1 + blockCount done) = Some bk.
Proof.
  induction done as [|[r|b] done IH]; cbn [app nthBlock blockCount].
  - done.
  - done.
  - pose proof (blockCount_nonneg done).
    destruct (Z.eqb_spec (1 + (1 + blockCount done)) 1); [lia|].
    by replace (1 + (1 + blockCount done) - 1) with (1 + blockCount done) by lia.
Qed.

Lemma itemsSorted_app_inv len d : forall p r,
  itemsSorted len p (d ++ r) -> exists q, itemsSorted len q r.
Proof.
  induction d as [|[[[n b] e]|bk] d IH]; intros p r; cbn [app itemsSorted].
  - eauto.
  - intros (_ & _ & H). by eapply IH.
  - intros (_ & _ & _ & _ & _ & H). by eapply IH.
Qed.

Lemma refCount_block done bk rest :
  alen (tb_refs bk) <= refCount (done ++ IBlock bk :: rest).
Proof.
  rewrite refCount_app. cbn [refCount].
  pose proof (refCount_nonneg done). pose proof (refCount_nonneg rest). lia.
Qed.

Lemma indicesFrom_length {A} (f : A -> bool) l s :
  (List.length (indicesFrom f l s) <= List.length l)%nat.
Proof.
  revert s. induction l as [|x l IH]; intros s; cbn [indicesFrom]; [done|].
  rewrite length_app. specialize (IH (s + 1)). destruct (f x); cbn [List.length]; lia.
Qed.

(** ** Chunks and texts *)

Lemma joinEmpty_pushText (text : string) p q :
  p <= q -> joinEmpty (pushText text p q) = Js.substring text p q.
Proof.
  intros Hle. unfold pushText. destruct (Z.ltb_spec p q); cbn.
  - apply string_app_nil_r.
  - replace q with p by lia. by rewrite js_substring_same.
Qed.

Lemma joinEmpty_pushValue v : joinEmpty (pushValue v) = default ""%string v.
Proof.
  unfold pushValue. destruct v as [v|]; cbn; [|done].
  destruct (String.eqb_spec v "") as [->|]; cbn; [done|]. apply string_app_nil_r.
Qed.

Lemma joinEmpty_concat ls : joinEmpty (List.concat ls) = joinEmpty (map joinEmpty ls).
Proof.
  induction ls as [|l ls IH]; cbn [List.concat map]; [done|].
  rewrite joinEmpty_app, IH. done.
Qed.

Lemma chunksUpTo_expandUpTo (value : Z -> option string) (val : string -> string)
    (text : string) q l : forall p k,
  refsSorted q p l -> p <= q ->
  (forall i r, l !! i = Some r ->
     default ""%string (value (k + Z.of_nat i)) = val (refName r)) ->
  joinEmpty (chunksUpTo value text p q k l) = expandUpTo val text p q l.
Proof.
  induction l as [|[[n b] e] l IH]; intros p k Hs Hpq Hval; cbn [chunksUpTo expandUpTo].
  - by apply joinEmpty_pushText.
  - cbn [refsSorted] in Hs. destruct Hs as (H1 & H2 & H3 & H4). cbn [fst snd].
    rewrite !joinEmpty_app, joinEmpty_pushText, joinEmpty_pushValue by done.
    f_equal. f_equal.
    + specialize (Hval 0%nat (n, b, e) eq_refl). by rewrite Z.add_0_r in Hval.
    + apply IH; [done|lia|]. intros i r Hi.
      specialize (Hval (S i) r Hi). rewrite <- Hval. do 2 f_equal. lia.
Qed.

Lemma valueAt_snapshot lk vals (l : list (string * Z * Z)) i r :
  l !! i = Some r ->
  default ""%string
    (valueAt (snapshotOf vals (map (fun r => lk (refName r)) l)) (Z.of_nat i))
  = valueIn lk vals (refName r).
Proof.
  intros Hi. unfold snapshotOf.
  assert (Hlen : 0 < alen (map (fun r => lk (refName r)) l)).
  { unfold alen. rewrite length_map. apply lookup_lt_Some in Hi. lia. }
  destruct (Z.ltb_spec 0 (alen (map (fun r => lk (refName r)) l))); [|lia].
  cbn [valueAt]. rewrite !aget_map, aget_lookup by lia. rewrite Nat2Z.id, Hi. done.
Qed.

Lemma blockChunks_expand lk vals (text : string) bk (r : BlockInstTabRec) :
  blockVarTab r = snapshotOf vals (map (fun r => lk (refName r)) (tb_refs bk)) ->
  refsSorted (tb_contentsEnd bk) (tb_contentsBegin bk) (tb_refs bk) ->
  tb_contentsBegin bk <= tb_contentsEnd bk ->
  joinEmpty (blockChunks text bk r)
  = expandUpTo (valueIn lk vals) text (tb_contentsBegin bk) (tb_contentsEnd bk) (tb_refs bk).
Proof.
  intros Htab Hs Hle. unfold blockChunks. apply chunksUpTo_expandUpTo; [done|done|].
  intros i x Hi. rewrite Htab, Z.add_0_l. by apply valueAt_snapshot.
Qed.

(** The chunks of the main block make the text that [expandItems]
    describes. *)
Lemma chunksItems_expand (value : Z -> option string) (val0 : string -> string)
    (rowsC : Z -> list string) (rowsV : Z -> list (string -> string)) (text : string)
    rest : forall p j k,
  itemsSorted (Js.strlen text) p rest ->
  (forall i r, mainRefs rest !! i = Some r ->
     default ""%string (value (k + Z.of_nat i)) = val0 (refName r)) ->
  (forall i bk, nthBlock rest i = Some bk ->
     joinEmpty (rowsC (j - 1 + i))
     = joinEmpty (map (fun val => expandUpTo val text (tb_contentsBegin bk)
                                    (tb_contentsEnd bk) (tb_refs bk))
                      (rowsV (j - 1 + i)))) ->
  joinEmpty (chunksItems value rowsC text p j k rest)
  = expandItems val0 rowsV text p j rest.
Proof.
  induction rest as [|[[[n b] e]|bk] rest IH]; intros p j k Hs Hval Hrows;
    cbn [chunksItems expandItems].
  - cbn [itemsSorted] in Hs. unfold Js.substringFrom. by apply joinEmpty_pushText.
  - cbn [itemsSorted fst snd] in Hs. destruct Hs as (H1 & H2 & H3). cbn [fst snd].
    rewrite !joinEmpty_app, joinEmpty_pushText, joinEmpty_pushValue by done.
    f_equal. f_equal.
    + specialize (Hval 0%nat (n, b, e) eq_refl). by rewrite Z.add_0_r in Hval.
    + apply IH; [done| |].
      * intros i r Hi. specialize (Hval (S i) r Hi). rewrite <- Hval. do 2 f_equal. lia.
      * intros i bk' Hi. by apply Hrows.
  - cbn [itemsSorted] in Hs. destruct Hs as (H1 & H2 & H3 & H4 & H5 & H6).
    rewrite !joinEmpty_app, joinEmpty_pushText by done.
    f_equal. f_equal.
    + specialize (Hrows 1 bk eq_refl). by replace (j - 1 + 1) with j in Hrows by lia.
    + apply IH; [done| |].
      * intros i r Hi. by apply Hval.
      * intros i bk' Hi.
        replace (j + 1 - 1 + i) with (j - 1 + (i + 1)) by lia.
        apply Hrows. cbn [nthBlock].
        destruct (Z.eqb_spec (i + 1) 1) as [Heq|_].
        -- apply nthBlock_split in Hi as (done & rest' & _ & Hi).
           pose proof (blockCount_nonneg done). lia.
        -- by replace (i + 1 - 1) with i by lia.
Qed.

(** ** The instances of a block, by their numbers and by their order *)

Lemma indices_lookup {A} (f : A -> bool) (l : list A) : forall pre,
  map (aget (pre ++ l)) (indicesFrom f l (alen pre)) = map Some (List.filter f l).
Proof.
  induction l as [|x l IH]; intros pre; cbn [indicesFrom List.filter]; [done|].
  rewrite map_app.
  replace (pre ++ x :: l) with ((pre ++ [x]) ++ l) by (by rewrite <- app_assoc).
  replace (alen pre + 1) with (alen (pre ++ [x])) by (by rewrite alen_app, alen_singleton).
  rewrite IH. destruct (f x); cbn [map app]; [|done].
  f_equal. rewrite aget_app_l by (rewrite alen_app, alen_singleton; lia).
  apply aget_app_last.
Qed.

Lemma rows_filter (text : string) bk (insts : list BlockInstTabRec) j :
  List.concat (map (instanceChunks text insts bk) (instancesOf insts j))
  = List.concat (map (blockChunks text bk)
                   (List.filter (fun r => bi_blockNo r =? j) insts)).
Proof.
  f_equal. unfold instancesOf.
  pose proof (indices_lookup (fun r => bi_blockNo r =? j) insts []) as H.
  cbn [app] in H. change (alen (@nil BlockInstTabRec)) with 0 in H.
  transitivity (map (fun o => match o with
                              | Some r => blockChunks text bk r
                              | None => []
                              end)
                  (map (aget insts) (indicesFrom (fun r => bi_blockNo r =? j) insts 0))).
  - by rewrite map_map.
  - by rewrite H, map_map.
Qed.

Lemma filter_views pt (insts : list BlockInstTabRec) : forall added j,
  map instView insts = map (viewOf pt) added ->
  map blockVarTab (List.filter (fun r => bi_blockNo r =? j) insts)
  = map (fun h => (viewOf pt h).2) (List.filter (fun h => h.1 =? j) added).
Proof.
  induction insts as [|r insts IH]; intros [|h added] j Hm; try done.
  cbn [map] in Hm. injection Hm as Hb Hlevel Htab Hm. cbn [List.filter].
  rewrite Hb. destruct (h.1 =? j); cbn [map]; rewrite (IH added j Hm); [|done].
  f_equal. exact Htab.
Qed.

Lemma filter_snoc_other (insts : list BlockInstTabRec) root j :
  bi_blockNo root <> j ->
  List.filter (fun r => bi_blockNo r =? j) (insts ++ [root])
  = List.filter (fun r => bi_blockNo r =? j) insts.
Proof.
  intros Hne. rewrite List.filter_app. cbn [List.filter].
  destruct (Z.eqb_spec (bi_blockNo root) j); [done|]. by rewrite app_nil_r.
Qed.

Section Output.
Variable pt : ParsedTemplate.
Variable items : list item.
Hypothesis Hflat : flatTemplate pt items.
Hypothesis Hok : template_ok pt.

Let lk := lookupVariableName pt.
Let text := pt_templateText pt.
Let len := Js.strlen text.

(** The chunks of the instances of a block make the contents of the
    block, once for each instance, with the values of the instance. *)
Lemma rows_expand (insts : list BlockInstTabRec) added root j bk done rest p :
  items = done ++ IBlock bk :: rest -> j = 1 + blockCount done ->
  itemsSorted len p (IBlock bk :: rest) ->
  map instView insts = map (viewOf pt) added -> bi_blockNo root = 0 ->
  joinEmpty (rowChunks text items (insts ++ [root]) j)
  = joinEmpty (map (fun val => expandUpTo val text (tb_contentsBegin bk)
                                 (tb_contentsEnd bk) (tb_refs bk))
                   (rowsOf lk added j)).
Proof.
  intros Hitems Hj Hs Hviews Hroot. pose proof (blockCount_nonneg done) as Hbc.
  cbn [itemsSorted] in Hs. destruct Hs as (H1 & H2 & H3 & H4 & H5 & H6).
  unfold rowChunks. rewrite Hitems at 1. rewrite Hj at 1. rewrite nthBlock_app.
  rewrite rows_filter, filter_snoc_other by lia.
  rewrite joinEmpty_concat. f_equal. unfold rowsOf. rewrite !map_map.
  set (g := fun tab : option (list (option string)) =>
              joinEmpty (chunksUpTo (valueAt tab) text (tb_contentsBegin bk)
                           (tb_contentsEnd bk) 0 (tb_refs bk))).
  transitivity (map g (map blockVarTab
                         (List.filter (fun r => bi_blockNo r =? j) insts))).
  { by rewrite map_map. }
  rewrite (filter_views pt insts added j Hviews), map_map.
  apply map_ext_in. intros h Hin. apply filter_In in Hin as [_ Hh%Z.eqb_eq].
  unfold g, viewOf. cbn [snd]. rewrite Hh, Hj.
  rewrite (block_record pt items Hflat done rest bk Hitems).
  cbn [topBlockRecord bt_blockVarNoToVarNoMap].
  apply chunksUpTo_expandUpTo; [done|done|].
  intros i x Hi. rewrite Z.add_0_l. by apply valueAt_snapshot.
Qed.

(** ** The instances of a block are written *)

Section Rows.
Variable s1 : MiniTemplator.
Hypothesis Hs1 : template s1 = pt.
Hypothesis Hinv : session_inv s1.
Hypothesis Hcursors : forall j d, aget (blockDynTab s1) j = Some d ->
  currBlockInstNo d = firstBlockInstNo d.
Hypothesis Hinsts : forall i r j bk,
  aget (blockInstTab s1) i = Some r -> bi_blockNo r = j -> nthBlock items j = Some bk ->
  parentInstLevel r = 0 /\ (tb_refs bk <> [] -> is_Some (blockVarTab r)).

Lemma rows_written j out fuel (s : MiniTemplator) :
  1 <= j <= blockCount items -> same_but_cursors s1 s ->
  aget (blockDynTab s) j = aget (blockDynTab s1) j ->
  (List.length (blockInstTab s1) + Z.to_nat (refCount items) + 3 <= fuel)%nat ->
  returns (writeBlockInstances fuel out j 0) s
    (fun o s' => o = out ++ rowChunks text items (blockInstTab s1) j
                 /\ same_but_cursors s1 s'
                 /\ forall j', j' <> j ->
                      aget (blockDynTab s') j' = aget (blockDynTab s) j').
Proof.
  intros Hj Hs Hdyn Hfuel.
  destruct (nthBlock_range items j Hj) as [bk Hbk].
  destruct (nthBlock_split items j bk Hbk) as (done & rest & Hitems & Hjd).
  destruct (itemsSorted_app_inv _ _ _ _
              (eq_ind _ (itemsSorted len 0) (ft_sorted _ _ Hflat) _ Hitems)) as [p Hp].
  destruct (aget_is_Some (blockDynTab s1) j) as [d Hd].
  { rewrite (si_len _ Hinv), Hs1, (ft_blocks _ _ Hflat), alen_cons, alen_blocksOf. lia. }
  pose proof (si_dyn _ Hinv j d Hd) as [_ _ _ Hlinked].
  unfold rowChunks. rewrite Hbk.
  apply (writeBlockInstances_cursors s1 j 0 (instanceChunks text (blockInstTab s1) bk)
           (List.length (tb_refs bk) + 2) (firstBlockInstNo d)
           (instancesOf (blockInstTab s1) j)).
  - exact Hlinked.
  - intros i Hi. apply instancesOf_spec in Hi as (r & Hr & Hb).
    exists r. split; [done|]. by destruct (Hinsts i r j bk Hr Hb Hbk).
  - intros i f o t2 Hi Hf (Ht2 & _ & _ & Hi2).
    apply instancesOf_spec in Hi as (r & Hr & Hb).
    unfold instanceChunks. rewrite Hr.
    apply (block_instance pt items Hflat done rest bk p Hitems Hp).
    + by rewrite <- Ht2.
    + by rewrite <- Hi2.
    + by rewrite Hb, Hjd.
    + by destruct (Hinsts i r j bk Hr Hb Hbk).
    + done.
  - done.
  - unfold cursorOf. rewrite Hdyn, Hd. cbn. f_equal. by apply (Hcursors j).
  - pose proof (indicesFrom_length (fun r => bi_blockNo r =? j) (blockInstTab s1) 0).
    pose proof (refCount_block done bk rest) as Hrc. rewrite <- Hitems in Hrc.
    unfold instancesOf. unfold alen in Hrc. lia.
Qed.
End Rows.

(** ** Output generation *)

Lemma flat_generate added (t : MiniTemplator) fuel :
  built pt added t ->
  (List.length items + 2 * Z.to_nat (refCount items) + List.length (blockInstTab t) + 10
   <= fuel)%nat ->
  exists t',
    generateOutputString fuel t
    = (Ok (expandItems (valueIn lk (varValuesTab t)) (rowsOf lk added) text 0 1 items), t').
Proof.
  intros [Ht Hinv (d0 & Hd0 & Hz) Hviews] Hfuel.
  set (main := mainBlockRecord lk text items).
  assert (Hmain : aget (pt_blockTab pt) 0 = Some main).
  { by rewrite (ft_blocks _ _ Hflat). }
  pose proof (si_dyn _ Hinv 0 d0 Hd0) as [Hcount Hfirst Hlast _].
  assert (Hnone : instancesOf (blockInstTab t) 0 = []).
  { rewrite Hz in Hcount. destruct (instancesOf (blockInstTab t) 0); [done|].
    rewrite alen_cons in Hcount. pose proof (alen_nonneg l). lia. }
  rewrite Hnone in Hfirst, Hlast. cbn in Hfirst, Hlast.
  set (s0 := afterAddBlockByNo t 0 main d0).
  assert (Hadd : addBlockByNo 0 t = (Ok tt, s0)).
  { apply addBlockByNo_ok; [by rewrite Ht|done|by left|by left]. }
  rewrite (generateOutputString_adding fuel t s0 d0 Hd0 Hz Hadd).
  set (s1 := resetCursors s0).
  set (idx := alen (blockInstTab t)).
  set (root := mkBlockInst 0 0 (-1) (-1)
                 (snapshotOf (varValuesTab t)
                    (map (fun r => lk (refName r)) (mainRefs items)))).
  pose proof (alen_nonneg (blockInstTab t)) as Hidx. fold idx in Hidx.
  assert (F1 : template s1 = pt) by exact Ht.
  assert (F2 : session_inv s1).
  { apply (session_inv_cursors s0); [apply resetCursors_cursors|].
    by apply session_inv_add. }
  assert (F3 : blockInstTab s1 = blockInstTab t ++ [root]).
  { subst s1 s0. unfold resetCursors, afterAddBlockByNo, linkLast.
    cbn [blockInstTab set_blockDynTab]. rewrite Hlast, Hz. reflexivity. }
  assert (F4 : forall j d, aget (blockDynTab s1) j = Some d ->
                 currBlockInstNo d = firstBlockInstNo d).
  { intros j d. subst s1. unfold resetCursors. cbn [blockDynTab set_blockDynTab].
    rewrite aget_map. destruct (aget (blockDynTab s0) j) as [d'|]; [|done].
    cbn. by intros [= <-]. }
  assert (F5 : forall i r j bk,
            aget (blockInstTab s1) i = Some r -> bi_blockNo r = j ->
            nthBlock items j = Some bk ->
            parentInstLevel r = 0 /\ (tb_refs bk <> [] -> is_Some (blockVarTab r))).
  { intros i r j bk Hr Hb Hbk. rewrite F3 in Hr.
    destruct (nthBlock_split items j bk Hbk) as (done & rest & Hitems & Hj).
    pose proof (blockCount_nonneg done) as Hbc.
    pose proof (aget_Some _ _ _ Hr) as Hi. rewrite alen_app, alen_singleton in Hi.
    destruct (decide (i = idx)) as [->|Hne].
    { rewrite aget_app_last_eq in Hr by done. injection Hr as <-. cbn in Hb. lia. }
    rewrite aget_app_l in Hr by (fold idx; lia).
    assert (Hview : exists h, instView r = viewOf pt h).
    { pose proof (f_equal (fun l => aget l i) Hviews) as Hl. cbv beta in Hl.
      rewrite !aget_map, Hr in Hl.
      destruct (aget added i) as [h|]; [|done]. exists h.
      exact (inj Some _ _ Hl). }
    destruct Hview as (h & Hview). unfold instView, viewOf in Hview.
    injection Hview as Hb' Hlevel Htab. split; [done|].
    intros Hrefs. rewrite Htab, <- Hb', Hb, Hj.
    rewrite (block_record pt items Hflat done rest bk Hitems).
    cbn [topBlockRecord bt_blockVarNoToVarNoMap]. unfold snapshotOf.
    destruct (tb_refs bk) as [|x l]; [done|]. by eexists. }
  assert (F6 : exists dr, aget (blockDynTab s1) 0 = Some dr /\ currBlockInstNo dr = idx).
  { subst s1 s0. unfold resetCursors, afterAddBlockByNo.
    cbn [blockDynTab set_blockDynTab]. rewrite aget_map.
    rewrite aget_aset_eq by (by eapply aget_Some). cbn. eexists. split; [done|].
    cbn. by rewrite Hfirst. }
  destruct F6 as (dr & Hdr & Hcur).
  assert (Hroot : aget (blockInstTab s1) idx = Some root).
  { rewrite F3. apply aget_app_last. }
  set (R := (List.length (blockInstTab s1) + Z.to_nat (refCount items) + 3)%nat).
  assert (Hlen1 : List.length (blockInstTab s1) = S (List.length (blockInstTab t))).
  { rewrite F3, length_app. cbn. lia. }
  pose proof (refCount_nonneg items) as Hrc.
  assert (Hchunks :
    returns (writeChunks (fuel - 2) [] root 0 main 0 1 (firstMainRef 0 items)) s1
      (fun o s' => o = chunksItems (valueAt (blockVarTab root))
                         (rowChunks text items (blockInstTab s1)) text 0 1 0 items
                   /\ same_but_cursors s1 s')).
  { pose proof (main_chunks pt items Hflat s1 root
                  (rowChunks text items (blockInstTab s1)) R F1 eq_refl) as Hm.
    specialize (Hm ltac:(intros Hne; cbn [root blockVarTab]; unfold snapshotOf;
                         destruct (mainRefs items); [done|by eexists])).
    specialize (Hm ltac:(intros j out f s Hj Hs Hd Hf;
                         by apply (rows_written s1 F1 F2 F4 F5))).
    specialize (Hm items [] [] 0 (firstMainRef 0 items) (fuel - 2)%nat s1 eq_refl
                  (ft_sorted _ _ Hflat) (same_but_cursors_refl s1) ltac:(done)).
    cbn [blockCount mainRefs app] in Hm.
    change (alen (@nil (string * Z * Z))) with 0 in Hm. rewrite Z.add_0_r in Hm.
    apply Hm.
    - rewrite firstMainRef_spec. destruct (decide (mainRefs items = [])) as [Hnil|Hne].
      + by left.
      + right. pose proof (leadRefs_nonneg items). cbn [refCount].
        split; [lia|]. split; [done|]. intros i r Hi. lia.
    - rewrite firstMainRef_spec. pose proof (leadRefs_nonneg items).
      unfold R. destruct (decide (mainRefs items = [])); lia. }
  cut (returns (let! arr := writeBlockInstances fuel [] 0 (-1) in ret (joinEmpty arr)) s1
         (fun o _ => o = expandItems (valueIn lk (varValuesTab t)) (rowsOf lk added)
                           text 0 1 items)).
  { intros Hret. destruct (returns_eq _ _ _ Hret) as (o & t' & Hrun & ->). by exists t'. }
  unfold returns. apply mspec_bind.
  destruct fuel as [|[|f2]]; [lia|lia|].
  replace (S (S f2) - 2)%nat with f2 in Hchunks by lia.
  cbn [writeBlockInstances].
  apply mspec_bind, mspec_get. rewrite Hdr. cbn [orTypeError].
  apply mspec_bind, mspec_ret. cbv zeta. rewrite Hcur.
  destruct (Z.eqb_spec idx (-1)) as [|_]; [lia|].
  rewrite Hroot. cbn [orTypeError]. apply mspec_bind, mspec_ret.
  cbn [parentInstLevel root]. change (-1 <=? -1) with true. cbn [assert].
  apply mspec_bind, mspec_ret. change (-1 <? -1) with false. cbv iota.
  apply mspec_bind. cbn [writeBlockInstance].
  apply mspec_bind, mspec_get. rewrite Hroot. cbn [orTypeError].
  apply mspec_bind, mspec_ret. cbv zeta. cbn [bi_blockNo root]. rewrite F1, Hmain.
  cbn [orTypeError]. apply mspec_bind, mspec_ret.
  cbn [main mainBlockRecord bt_tPosContentsBegin bt_firstVarRefNo]. fold main.
  change (0 + 1) with 1.
  eapply mspec_conseq; [exact Hchunks| |done].
  cbv beta. intros o s' [-> Hs'].
  pose proof Hs' as (_ & _ & Hdyn' & Hinsts').
  apply mspec_bind, mspec_get. rewrite <- Hinsts', Hroot. cbn [orTypeError].
  apply mspec_bind, mspec_ret.
  destruct (aget_is_Some (blockDynTab s') 0) as [d' Hd'].
  { rewrite <- (map_alen_eq _ _ _ Hdyn'). by eapply aget_Some. }
  eapply mspec_bind_ok; [by apply updBlockDyn_ok|].
  destruct f2 as [|f3]; [lia|]. cbn [writeBlockInstances].
  apply mspec_bind, mspec_get. cbn [blockDynTab set_blockDynTab].
  rewrite aget_aset_eq by (by eapply aget_Some). cbn [orTypeError].
  apply mspec_bind, mspec_ret. cbv zeta.
  cbn [currBlockInstNo with_currBlockInstNo nextBlockInstNo root].
  change (-1 =? -1) with true. cbv iota. apply mspec_ret, mspec_ret.
  cbn [app]. apply chunksItems_expand.
  - exact (ft_sorted _ _ Hflat).
  - intros i r Hi. rewrite Z.add_0_l. cbn [root blockVarTab]. by apply valueAt_snapshot.
  - intros i bk Hbk. replace (1 - 1 + i) with i by lia.
    destruct (nthBlock_split items i bk Hbk) as (done & rest & Hitems & Hj).
    destruct (itemsSorted_app_inv _ _ _ _
                (eq_ind _ (itemsSorted len 0) (ft_sorted _ _ Hflat) _ Hitems)) as [p Hp].
    rewrite F3. by apply (rows_expand (blockInstTab t) added root i bk done rest p).
Qed.
End Output.



